(* ===== verification/_CoqProject ===== *)
-Q . S2P
Prelude.v
Uring.v
Buffer.v
BufferSpec.v
BufferFlat.v
Frame.v
BufRing.v
Executor.v
LogRing.v
Task.v
TaskVoid.v
TaskSamples.v
Duration.v
Awaitable.v
Keeps.v
Slots.v
Timer.v
Stream.v
StreamRecv.v
StreamInv.v
StreamSafe.v
StreamRounds.v
StreamSamples.v
StreamWatch.v
IoSamples.v
IoContext.v
EventLoop.v
LoopSamples.v
Acceptor.v
AcceptorSafe.v
AcceptorSamples.v
File.v
FileSafe.v
FileSamples.v
Component.v
ComponentLoop.v
ComponentIo.v
ComponentStream.v
Program.v
ProgramSafe.v
ProgramLoop.v
Typing.v
ProgramTyping.v
LoopTyping.v
ProgramSamples.v
ProgramSafeSamples.v
Ip.v
IpSamples.v
Dns.v
DnsSafe.v
DnsSamples.v
Tls.v
TlsRecords.v
TlsCreds.v
TlsHeap.v
TlsRecv.v
TlsShake.v
TlsClose.v
TlsSamples.v
