(* ===== verification/Prelude.v ===== *)
(** * Fiona: a runtime for C++ coroutines on io_uring

    Fiona runs C++20 coroutines ([task]) on a single thread per [io_context].  A
    coroutine that awaits an operation of an I/O object leaves submission queue entries
    in an io_uring; the event loop submits them, waits for completions, lets the
    object that is named by a completion's user data process it, and resumes the
    coroutine the object hands out.  Other threads reach the loop through a pipe.

    This library models the runtime from its sources, [include/fiona/] and [src/], and
    proves what makes it correct.  A C++ function is a function in the state-and-error
    monad [M] of this file: it returns, throws, or runs into a [fault], which is a
    failed BOOST_ASSERT or undefined behaviour (a use after free, a null pointer, an index
    out of range), or the end of the program.  [wp m s Q] says that [m] returns from [s]
    with [Q]; so every theorem with it, or with an equation [m s = (Ret a, s')], also says
    that no assertion fails and nothing undefined happens.

    ** Parts and files

    - Foundations.  [Prelude]: the monad, record update, [wp], tactics.
      [Uring] ([detail/get_sqe.hpp]): the submission queue, [get_sqe], [reserve_sqes],
      over the class [IoUring]; [LogRing] is an instance that records what it is asked.
    - Receive buffers ([buffer.hpp], [buffer.cpp]).  [Buffer]: blocks with a header on
      an explicit heap, the intrusive doubly linked [recv_buffer_sequence], its views and
      iterators.  [BufferSpec]: the relation [seq_rep] between a linked sequence and
      a list of blocks, and each operation's effect on the list.  [BufferFlat]: the
      sequence as a queue, [to_bytes].
    - Shared state ([detail/common.hpp], [common.cpp], [params.hpp]).  [Frame]: the
      [io_context_frame] and the context [ctx] every operation runs in.  [BufRing]:
      [buf_ring] (buffers provided to the kernel for multishot receives) and
      [fixed_buffers].
    - [Executor] ([executor.hpp]): the pool of direct descriptors, the registries of
      buffers, wakers and [post] with their pointer tags.
    - Tasks ([task.hpp], [executor.hpp], [detail::task_map]).  [Task]: coroutine frames
      in a map, [task], [internal_task] with its counter, [scheduler], [spawn_awaitable].
      [TaskVoid]: the specialisations for [void], which differ only in storing no value.
    - [Duration] ([detail/time.hpp]): [duration_to_timespec] on 64-bit counts.
    - I/O objects.  [Awaitable] ([detail/awaitable_base.hpp]): reference counts and what
      the loop does with one completion, as the classes [RefCount] and [AwaitableBase],
      which each kind of object instantiates.  [Timer] ([time.cpp]); [Stream]
      ([detail/stream_impl.hpp], [tcp.cpp]) for streams and clients; [Acceptor]
      ([tcp.cpp]); [File] ([file.cpp]).  [Slots] accounts for direct descriptors.
    - [IoContext] ([io_context.cpp]): the pipe's frame, [run] with its guards, the batch
      of completions, construction and destruction.  It uses objects only through
      [AwaitableBase].  [Program] puts timers, streams, acceptors and files together as the
      objects of one loop.  [Typing] is a typing discipline for the user data of entries;
      [ProgramTyping] and [LoopTyping] type the operations of the classes and of the loop.
    - Composition.  [Component] says what an object owns, its footprint of blocks, slots
      and groups of buffers, and what a class of objects promises: an operation on an
      object whose footprint is apart from another leaves the other apart and its blocks
      unchanged.  The promise holds for a sum of classes and for a table of objects.  [Keeps]
      is for the parts of the context that a class never touches.  [ComponentIo] and
      [ComponentStream] show the promise of each class from its own theorem, in which what
      belongs to others is a parameter ([Others]).  [ComponentLoop] is the loop's dispatch
      over the table; [ProgramSafe] and [ProgramLoop] are whole programs and their batches.
    - [Ip] ([ip.cpp]); [Dns] ([dns.cpp]), whose resolving thread is a state machine.
    - TLS ([tls/tls.cpp]).  [Tls]: Botan's callbacks and the coroutines of clients and
      servers.  [TlsCreds]: credentials and error texts.  [TlsRecords] and [TlsHeap]: what
      the record callback and the received sequences do to the heap.

    Files named [...Inv], [...Safe], [...Recv], [...Rounds], [...Watch], [EventLoop], [TlsShake], [TlsClose] hold theorems
    about the file whose name they extend; files named [...Samples] hold the theorems
    applied to concrete states, on [LogRing] or another instance of the classes.

    ** How the parts interact

    Coroutine handles and object addresses are integers.  An awaitable's
    [await_suspend] runs on a [cell], the context with the object while it is alive: it
    leaves SQEs in the ring and a reference on the object for each of them.
    [IoContext.process_cqe] dispatches a completion to [AwaitableBase]'s
    [process_cqe] and [handle], releases the reference, and collects the coroutines to
    resume.  [Stream] takes its buffers from the [buf_ring] that [Executor]
    registered and gives them to the coroutine as a sequence of [Buffer]; [Tls] consumes
    such sequences.  [Executor]'s wakers and [post] write the words that
    [IoContext.pipe_process_cqe] decodes.  The completions themselves come from the
    kernel: they are arguments, any that are possible for what is in flight.

    ** What is shown

    - Memory and life time.  Along any sequence of operations of a program, completions
      and destructions, objects and coroutine frames are used only while they are
      alive, their counters are the numbers of their owners, and they are deleted with
      the last: [Task.tasks_never_dangle], [StreamSafe.stream_ops_safe],
      [Timer.timer_ops_safe], [AcceptorSafe.acceptor_ops_safe],
      [FileSafe.file_ops_safe], and for every interleaving with the resolving thread
      [DnsSafe.dns_interleavings_safe].  That of streams covers clients and their
      connections.  The two of acceptors and files also account for
      every slot; [Executor.fd_pool_sound] does for the pool itself.  Their invariants
      ([tasks_inv], [stream_inv], ...) hold initially and are preserved by
      every operation.
    - Whole programs.  [ProgramLoop.program_safe]: any number of objects of every kind on
      one context, used in any order, with batches of completions in between, keep all
      this at once, and each other's slots and buffers apart; [ProgramLoop.batch_safe]: the
      loop processes any batch of completions for operations in flight.  New objects are
      made at addresses not in use; an acceptor is there from the start, since its
      constructor does not give its slot back when it throws.  The completions considered
      carry the flags the code looks at and no others.
    - Types.  An entry's user data are a frame of the object at its address, and a completion
      is processed by that frame, never by one of another class
      ([LoopTyping.completions_well_typed]).
    - Data.  The linked sequence is a FIFO queue ([BufferFlat.sequence_refines_queue]);
      a receive yields the delivered chunks in order ([StreamRecv.recv_delivers_in_order])
      and the ring gets its buffers back ([StreamRecv.recv_replenishes]);
      a TLS receive yields the plaintext in order ([TlsRecv.tls_recv_refines]).
    - Whole awaits.  From [await_suspend] over the completions to the result of
      [await_resume]: [Timer.wait_round_result], [StreamRounds.close_round_result],
      [StreamRounds.connect_round_result], [StreamWatch.send_round_result],
      [AcceptorSafe.accept_round_result],
      [FileSafe.open_round_result], [FileSafe.rw_round_result],
      [DnsSafe.resolve_round_result], [Task.join_after_result] and
      [Task.join_before_result].
    - Timeouts.  A stream's timer cancels the stream if and only if an operation in
      flight makes no progress ([StreamWatch.timer_cancels_stalled]); a receive that is
      cancelled by it fails with ETIMEDOUT ([StreamRecv.recv_failure_reported]).
    - The loop.  A batch is its completions in order, each counted once also when one
      throws ([EventLoop.batch_processed_in_order]); completions, wake-ups and posted tasks
      resume their coroutines; the guard ends with an empty queue
      ([EventLoop.guard_releases_each_once]).
    - Specifications.  The TLS coroutines refine functions of the channel and the
      stream without heap or buffers ([recv_spec], [client_shake], [server_shake],
      [client_close], [server_close], [send_spec]), errors and exceptions included.
    - Numbers and formats.  [Duration.duration_to_timespec_spec], [Ip.ipv4_roundtrip],
      [Executor.pipe_tag_roundtrip].
    - Faults the code has.  Theorems and lemmas that show what goes wrong where, among
      them [StreamRounds.connect_socket_failure_resumes_twice],
      [StreamSamples.late_completion_spoils_retry], [StreamRounds.busy_connect_cancels],
      [DnsSafe.abandoned_resolution_terminates], [FileSafe.open_cqe_without_slot],
      [BufRing.fixed_buffers_not_returned], [TlsShake.early_data_faults].

    ** Fuel and bounds

    A loop of the code that follows links is a fixpoint with fuel.  The callers give it
    what the structure holds (the number of buffers, the number of allocated headers, the
    length of the list), and the theorems show that this is enough: running out is the
    fault [OutOfFuel], which [wp] excludes.  [EventLoop] and [Task] prove that the
    guard's and the task map's loops end.  The outer loop of [run] and the loops of the
    TLS coroutines end only if completions come: the model runs as many turns as its
    input has.  Counters and sizes wrap at their width where the code's do
    ([to_unsigned], [to_ushort], [mod 2 ^ 64]); reference counts are integers.

    ** Not in the sources

    The kernel's ring, sockets and files, Botan, the C library, [boost::unordered] and
    [operator new] are classes ([IoUring], [OsPipe], [OsSocket], [OsSetup],
    [BotanChannel], [BotanCerts], [Inet], [GetAddrInfo], [UnorderedBegin], [CoroAlloc]);
    what the code relies on are their laws ([...Laws]), and the samples have
    instances of them.  The bodies of the program's own coroutines are its business:
    their frames hold what they own.

    ** Not modelled, and why

    - Locking: the mutexes serialise the critical sections, which are single steps
      here; memory orders and data races are outside a model of this kind.
    - What only prints or forwards: [operator<<], declarations, defaulted members,
      overloads that only convert their arguments.
    - The script of [Tls] stands for the stream below; its chunks are what
      [StreamRecv] shows a receive to yield.  The model passes the bytes of a buffer to
      the channel, so it assumes that Botan has read its input before it calls back, since
      the record callback may reuse the buffer.
    - Benchmarks, tests and the empty [buffers_adaptor]: they hold no logic of the
      runtime. *)

From stdpp Require Export base tactics numbers list gmap sets strings fin_maps.
From Stdlib Require Export ZArith Lia.

#[export] Set Warnings "-clear-no-such-hyp,-level-tolerance".
#[export] Set Default Goal Selector "!".

Declare Scope fiona_scope.
Delimit Scope fiona_scope with fiona.
#[global] Open Scope fiona_scope.
#[global] Open Scope Z_scope.

(** ** Outcomes and the state-and-error monad

    A C++ function of the library reads and writes some state, and returns,
    throws, or runs into undefined behaviour (a failed [BOOST_ASSERT], a null
    or dangling pointer, an index out of range).  An exception leaves the state
    as it was when it was thrown. *)

(** What a [throw] of the sources carries. *)
Inductive exn :=
| system_error (e : Z)
| raw_error_code (e : Z)
| literal (s : string)
| bad_result_access (e : Z)
| out_of_range
(** a [Botan::Exception] with its [error_type()] *)
| botan_exception (t : Z)
| foreign (n : Z).

(** What a BOOST_ASSERT excludes, and the undefined behaviours the model tracks. *)
Inductive fault :=
| AssertFailed
| NullDeref
| UseAfterFree
| OutOfFuel
| OutOfBounds
(** a virtual call or a cast on an object of another class *)
| WrongClass
(** [std::terminate]: the program ends. *)
| Terminated.

Inductive outcome (A : Type) :=
| Ret (a : A)
| Throw (e : exn)
| Fault (f : fault).
Arguments Ret {_} a.
Arguments Throw {_} e.
Arguments Fault {_} f.

Definition M (S A : Type) : Type := S → outcome A * S.

#[global] Instance M_ret S : MRet (M S) := λ A a s, (Ret a, s).
#[global] Instance M_bind S : MBind (M S) := λ A B k m s,
  match m s with
  | (Ret a, s') => k a s'
  | (Throw e, s') => (Throw e, s')
  | (Fault f, s') => (Fault f, s')
  end.

Definition get {S} : M S S := λ s, (Ret s, s).
Definition gets {S A} (f : S → A) : M S A := λ s, (Ret (f s), s).
Definition put {S} (s : S) : M S unit := λ _, (Ret tt, s).
Definition modify {S} (f : S → S) : M S unit := λ s, (Ret tt, f s).
Definition throw {S A} (e : exn) : M S A := λ s, (Throw e, s).
Definition fail {S A} (f : fault) : M S A := λ s, (Fault f, s).
Definition assert {S} (b : bool) : M S unit :=
  λ s, if b then (Ret tt, s) else (Fault AssertFailed, s).
Definition when {S} (b : bool) (m : M S unit) : M S unit :=
  if b then m else mret tt.

(** A destructor that runs when [m] returns and when it throws.  After a fault
    nothing is claimed, so nothing is run. *)
Definition finally {S A} (m : M S A) (d : M S unit) : M S A := λ s,
  match m s with
  | (Ret a, s') =>
      match d s' with
      | (Ret _, s'') => (Ret a, s'')
      | (Throw e, s'') => (Throw e, s'')
      | (Fault f, s'') => (Fault f, s'')
      end
  | (Throw e, s') =>
      match d s' with
      | (Ret _, s'') => (Throw e, s'')
      | (Throw e', s'') => (Throw e', s'')
      | (Fault f, s'') => (Fault f, s'')
      end
  | (Fault f, s') => (Fault f, s')
  end.

(** [try { m } catch]: what was thrown as a value. *)
Definition attempt {S A} (m : M S A) : M S (A + exn) := λ s,
  match m s with
  | (Ret a, s') => (Ret (inl a), s')
  | (Throw e, s') => (Ret (inr e), s')
  | (Fault f, s') => (Fault f, s')
  end.

(** ** Record update

    [r <| f := v |>] and [r <| f ::= g |>].  [Eta] gives the constructor
    applied to the projections; the [Updatable] instance of a projection is
    computed from it. *)
Class Eta (R : Type) := eta : R → R.
Class Updatable {R T : Type} (proj : R → T) := upd : (T → T) → R → R.
Arguments upd {R T} proj {_} _ _.

Ltac derive_upd :=
  match goal with
  | |- @Updatable ?R ?T ?p =>
      let i := constr:(_ : Eta R) in
      let e := eval hnf in (@eta R i) in
      let f := fresh "f" in
      let r := fresh "r" in
      intros f r;
      let b := eval cbv beta in (e r) in
      let b' := eval pattern (p r) in b in
      lazymatch b' with
      | ?g _ => let t := eval cbv beta in (g (f (p r))) in exact t
      end
  end.
#[global] Hint Extern 1 (Updatable _) => derive_upd : typeclass_instances.

#[warnings="-postfix-notation-not-level-1"]
Notation "r <| p ::= g |>" := (upd p g r)
  (at level 12, left associativity, format "r  <|  p  ::=  g  |>") : fiona_scope.
#[warnings="-postfix-notation-not-level-1"]
Notation "r <| p := v |>" := (upd p (λ _, v) r)
  (at level 12, left associativity, format "r  <|  p  :=  v  |>") : fiona_scope.

(** Run an action on the part of the state a projection reads. *)
Definition zoom {S T A} (p : T → S) `{!Updatable p} (m : M S A) : M T A := λ t,
  let '(o, s) := m (p t) in (o, t <| p := s |>).

(** ** Linux errno values *)
Definition EEXIST : Z := 17.
Definition EBUSY : Z := 16.
Definition EINVAL : Z := 22.
Definition ENFILE : Z := 23.
Definition ETIME : Z := 62.
Definition EBADFD : Z := 77.
Definition EISCONN : Z := 106.
Definition ETIMEDOUT : Z := 110.
Definition ECANCELED : Z := 125.

(** [boost::system::result<T, error_code>] *)
Inductive result (T : Type) :=
| Ok (v : T)
| Err (e : Z).
Arguments Ok {_} v.
Arguments Err {_} e.

(** [error_code::from_errno]: asserts that the value is not zero. *)
Definition from_errno {S} (e : Z) : M S Z :=
  assert (negb (e =? 0)) ;; mret e.

(** [throw_errno_as_error_code]. *)
Definition throw_errno_as_error_code {S A} (e : Z) : M S A :=
  c ← from_errno e; throw (system_error c).

(** Coroutine handles and object addresses; a null handle is [None]. *)
Abbreviation handle := Z (only parsing).
Abbreviation ptr := Z (only parsing).

(** [static_cast<unsigned>(int)]: 32-bit wrap-around. *)
Definition to_unsigned (z : Z) : Z := z `mod` 2 ^ 32.

(** [static_cast<unsigned short>] of an index. *)
Definition to_ushort (n : nat) : nat := Z.to_nat (Z.of_nat n `mod` 2 ^ 16).

(** ** Weakest preconditions: the action returns, and the result satisfies Q *)
Definition wp {S A} (m : M S A) (s : S) (Q : A → S → Prop) : Prop :=
  match m s with
  | (Ret a, s') => Q a s'
  | _ => False
  end.

Create HintDb fiona.

Lemma wp_run {S A} (m : M S A) s Q :
  wp m s Q ↔ ∃ a s', m s = (Ret a, s') ∧ Q a s'.
Proof.
  unfold wp. split.
  - destruct (m s) as [[a|e|f] s'] eqn:E; [eauto|done|done].
  - intros (a & s' & -> & HQ). done.
Qed.

Lemma wp_ret {S A} (a : A) (s : S) (Q : A → S → Prop) : Q a s → wp (mret a) s Q.
Proof. done. Qed.

Lemma wp_bind {S A B} (m : M S A) (k : A → M S B) s Q :
  wp m s (λ a s', wp (k a) s' Q) → wp (m ≫= k) s Q.
Proof. unfold wp, mbind, M_bind. by destruct (m s) as [[a|e|f] s']. Qed.

(** Steps that keep an invariant of the value and the state, one after another. *)
Lemma wp_foldl_inv {S A C} (f : C → A → M S A) (I : A → S → Prop) cs a s :
  (∀ c a s, I a s → wp (f c a) s I) → I a s → wp (foldl (λ m c, m ≫= f c) (mret a) cs) s I.
Proof.
  intros Hf Hi. assert (wp (mret a : M S A) s I) as Hw by exact Hi. revert Hw. generalize (mret a : M S A). clear Hi a.
  induction cs as [|c cs IH]; intros m Hw; [exact Hw|]. apply IH, wp_bind. unfold wp in *.
  destruct (m s) as [[a|e|x] s']; [by apply Hf|done|done].
Qed.

Lemma wp_mono {S A} (m : M S A) s (P Q : A → S → Prop) :
  wp m s P → (∀ a s', P a s' → Q a s') → wp m s Q.
Proof. unfold wp. destruct (m s) as [[a|e|f] s']; naive_solver. Qed.

Lemma wp_gets {S A} (f : S → A) s (Q : A → S → Prop) : Q (f s) s → wp (gets f) s Q.
Proof. done. Qed.

Lemma wp_get {S} (s : S) (Q : S → S → Prop) : Q s s → wp get s Q.
Proof. done. Qed.

Lemma wp_modify {S} (f : S → S) s (Q : unit → S → Prop) : Q tt (f s) → wp (modify f) s Q.
Proof. done. Qed.

Lemma wp_put {S} (s s' : S) (Q : unit → S → Prop) : Q tt s' → wp (put s') s Q.
Proof. done. Qed.

Lemma wp_assert {S} b (s : S) (Q : unit → S → Prop) :
  b = true → Q tt s → wp (assert b) s Q.
Proof. unfold wp, assert. by intros ->. Qed.

Lemma wp_when {S} b (m : M S unit) s (Q : unit → S → Prop) :
  (b = true → wp m s Q) → (b = false → Q tt s) → wp (when b m) s Q.
Proof. destruct b; unfold when, wp; naive_solver. Qed.

#[export] Hint Resolve wp_ret wp_gets wp_get wp_modify wp_put : fiona.

Lemma bind_ret {S A B} (m : M S A) (k : A → M S B) s a s' :
  m s = (Ret a, s') → (m ≫= k) s = k a s'.
Proof. unfold mbind, M_bind. by intros ->. Qed.

Lemma bind_throw {S A B} (m : M S A) (k : A → M S B) s e s' :
  m s = (Throw e, s') → (m ≫= k) s = (Throw e, s').
Proof. unfold mbind, M_bind. by intros ->. Qed.

Lemma bind_gets {S A B} (f : S → A) (k : A → M S B) s : (gets f ≫= k) s = k (f s) s.
Proof. done. Qed.

Lemma bind_modify {S B} (f : S → S) (k : unit → M S B) s : (modify f ≫= k) s = k tt (f s).
Proof. done. Qed.

Lemma bind_assert {S B} (k : unit → M S B) (s : S) : (assert true ≫= k) s = k tt s.
Proof. done. Qed.

Lemma bind_inv {S A B} (m : M S A) (k : A → M S B) s b s'' :
  (m ≫= k) s = (Ret b, s'') → ∃ a s', m s = (Ret a, s') ∧ k a s' = (Ret b, s'').
Proof.
  unfold mbind, M_bind. destruct (m s) as [[a|e|f] s']; naive_solver.
Qed.

Lemma throw_errno_runs {S A} e (s : S) :
  e ≠ 0 → throw_errno_as_error_code (A := A) e s = (Throw (system_error e), s).
Proof.
  intros He. unfold throw_errno_as_error_code, from_errno, assert.
  unfold mbind, M_bind, mret, M_ret. by rewrite (proj2 (Z.eqb_neq e 0) He).
Qed.

(** The same with a postcondition for what is thrown. *)
Definition wpx {S A} (m : M S A) (s : S) (Q : A → S → Prop) (E : exn → S → Prop) : Prop :=
  match m s with
  | (Ret a, s') => Q a s'
  | (Throw e, s') => E e s'
  | (Fault _, _) => False
  end.

Lemma wpx_wp {S A} (m : M S A) s Q E : wp m s Q → wpx m s Q E.
Proof. unfold wp, wpx. by destruct (m s) as [[a|e|f] s']. Qed.

Lemma wpx_bind {S A B} (m : M S A) (k : A → M S B) s Q E :
  wpx m s (λ a s', wpx (k a) s' Q E) E → wpx (m ≫= k) s Q E.
Proof. unfold wpx, mbind, M_bind. by destruct (m s) as [[a|e|f] s']. Qed.

Lemma wpx_mono {S A} (m : M S A) s (P Q : A → S → Prop) (E E' : exn → S → Prop) :
  wpx m s P E → (∀ a s', P a s' → Q a s') → (∀ e s', E e s' → E' e s') → wpx m s Q E'.
Proof. unfold wpx. destruct (m s) as [[a|e|f] s']; naive_solver. Qed.

Lemma wpx_throw_errno {S A} e s (Q : A → S → Prop) (E : exn → S → Prop) :
  e ≠ 0 → E (system_error e) s → wpx (throw_errno_as_error_code e) s Q E.
Proof. intros He HE. unfold wpx. by rewrite throw_errno_runs. Qed.

Lemma wpx_when {S} b (m : M S unit) s (Q : unit → S → Prop) E :
  (b = true → wpx m s Q E) → (b = false → Q tt s) → wpx (when b m) s Q E.
Proof. destruct b; unfold when; [|unfold wpx]; naive_solver. Qed.

Lemma wp_attempt {S A} (m : M S A) s (Q : A + exn → S → Prop) :
  wpx m s (λ a, Q (inl a)) (λ e, Q (inr e)) → wp (attempt m) s Q.
Proof. unfold wpx, wp, attempt. by destruct (m s) as [[a|e|f] s']. Qed.

(** ** Automation *)

(** Unfold the monad and reduce. *)
Ltac munfold :=
  unfold throw_errno_as_error_code, from_errno, when, zoom, get, gets, put,
    modify, throw, fail, assert, mbind, M_bind, mret, M_ret in *.

(** Walk through the binds of a [wp] goal. *)
Ltac wp_step :=
  lazymatch goal with
  | |- wp (mbind _ _) _ _ => apply wp_bind
  | |- wp (mret _) _ _ => apply wp_ret
  | |- wp (gets _) _ _ => apply wp_gets
  | |- wp get _ _ => apply wp_get
  | |- wp (modify _) _ _ => apply wp_modify
  | |- wp (put _) _ _ => apply wp_put
  end; cbv beta.
Ltac wp_steps := repeat wp_step.

(** Booleans tested by the code. *)
Ltac bool_simp :=
  repeat match goal with
  | H : (_ && _)%bool = true |- _ => apply andb_true_iff in H as [? ?]
  | H : (_ || _)%bool = false |- _ => apply orb_false_iff in H as [? ?]
  | H : negb _ = true |- _ => apply negb_true_iff in H
  | H : negb _ = false |- _ => apply negb_false_iff in H
  | H : (_ =? _)%nat = false |- _ => apply Nat.eqb_neq in H
  | H : (_ =? _) = true |- _ => apply Z.eqb_eq in H
  | H : (_ =? _) = false |- _ => apply Z.eqb_neq in H
  | H : (_ <? _) = true |- _ => apply Z.ltb_lt in H
  | H : (_ <? _) = false |- _ => apply Z.ltb_ge in H
  | H : (_ <=? _) = true |- _ => apply Z.leb_le in H
  | H : (_ <=? _) = false |- _ => apply Z.leb_gt in H
  end.

(** Membership in explicit lists, by propositional reasoning only. *)
Ltac mem_tac :=
  repeat match goal with
  | H : _ ∉ _ :: _ |- _ => apply not_elem_of_cons in H as [? ?]
  | H : _ ∈ _ :: _ |- _ => rewrite elem_of_cons in H
  | H : _ ∈ _ ++ _ |- _ => rewrite elem_of_app in H
  | H : _ ∉ _ ++ _ |- _ => apply not_elem_of_app in H as [? ?]
  end;
  rewrite ?not_elem_of_cons, ?elem_of_cons, ?not_elem_of_app, ?elem_of_app;
  intuition congruence.

(** ** Generic lemmas *)

(** A list without duplicates whose elements are indices below [n] has at most
    [n] elements. *)
Lemma nodup_bounded_length (l : list nat) (n : nat) :
  NoDup l → (∀ x, x ∈ l → (x < n)%nat) → (length l ≤ n)%nat.
Proof.
  intros Hnd Hb.
  rewrite <- (length_seq n 0).
  apply submseteq_length, NoDup_submseteq; [done|].
  intros x Hx. apply elem_of_seq. specialize (Hb x Hx). lia.
Qed.

(** An index below [n] that is not in such a list leaves room for one more. *)
Lemma nodup_bounded_room (l : list nat) (n x : nat) :
  NoDup l → (∀ y, y ∈ l → (y < n)%nat) → (x < n)%nat → x ∉ l → (length l < n)%nat.
Proof.
  intros Hnd Hb Hx Hni.
  assert (length (x :: l) ≤ n)%nat as Hlen; [|simpl in Hlen; lia].
  apply nodup_bounded_length.
  - by constructor.
  - intros y [->|Hy]%elem_of_cons; [done|by apply Hb].
Qed.

Lemma take_S_insert {A} (l : list A) (n : nat) (x : A) :
  (n < length l)%nat → take (S n) (<[n := x]> l) = take n l ++ [x].
Proof.
  intros Hn. rewrite (take_S_r _ _ x).
  - f_equal. by rewrite take_insert_ge.
  - by apply list_lookup_insert_eq.
Qed.

Lemma to_ushort_id n : Z.of_nat n < 2 ^ 16 → to_ushort n = n.
Proof. intros Hn. unfold to_ushort. rewrite Z.mod_small; lia. Qed.
