(* ===== verification/Uring.v ===== *)
(** The submission side of io_uring as the library uses it, and
    [include/fiona/detail/get_sqe.hpp].

    liburing is not part of the repository.  The ring is an abstract type [R];
    the calls the sources make on it are the methods of the class [IoUring], and
    what the sources rely on is the class [IoUringLaws], which states the
    documented behaviour of a ring without SQPOLL: a push succeeds exactly while
    there is room, and a submission hands every queued entry to the kernel as
    one batch.  [IoUringCq] is the completion queue. [LogRing.v] has an instance of both. *)

From S2P Require Import Prelude.

(** The awaitables whose addresses are stored in a CQE's user data. *)
Inductive frame_kind :=
| FkPipe
| FkTimer | FkTimerCancel
| FkCancel | FkClose | FkShutdown | FkSend | FkRecv | FkTimeout | FkTimeoutCancel
| FkSocket | FkConnect
| FkAccept | FkAcceptorCancel | FkAcceptorClose
| FkOpen | FkWrite | FkRead.

#[export] Instance frame_kind_eq_dec : EqDecision frame_kind.
Proof. solve_decision. Defined.

(** A [void*] user datum: null, or a frame of the object at some address. *)
Definition user_data : Type := option (ptr * frame_kind).

(** The [io_uring_prep_*] calls of the sources, with the arguments that matter
    to the library.  [op_timeout] holds the object whose [ts_] it points to. *)
Inductive sqe_op :=
| op_cancel (target : user_data)
| op_cancel_fd (fd : Z) (flags : Z)
| op_timeout (ts_owner : ptr) (flags : Z)
| op_timeout_remove (target : user_data)
| op_link_timeout (ts_owner : ptr)
| op_close_direct (slot : Z)
| op_accept_direct (fd : Z) (slot : Z)
| op_shutdown (fd : Z) (how : Z)
| op_send (fd : Z) (buf : list Z)
| op_recv_multishot (fd : Z) (buf_group : Z) (ioprio : Z)
| op_socket_direct (af : Z) (slot : Z)
| op_connect (fd : Z) (addrlen : Z)
| op_openat_direct (path : string) (flags : Z) (slot : Z)
| op_read (fd : Z) (buf : ptr) (len : Z) (off : Z)
| op_read_fixed (fd : Z) (buf : ptr) (len : Z) (off : Z) (idx : Z)
| op_write (fd : Z) (buf : ptr) (len : Z) (off : Z)
| op_write_fixed (fd : Z) (buf : ptr) (len : Z) (off : Z) (idx : Z).

Record sqe := Sqe { sqe_op_of : sqe_op; sqe_data : user_data; sqe_flags : Z }.

Record cqe := Cqe { cqe_data : user_data; cqe_res : Z; cqe_flags : Z }.

(** Bits of [linux/io_uring.h]. *)
Definition IOSQE_FIXED_FILE : Z := 1.
Definition IOSQE_IO_LINK : Z := 4.
Definition IOSQE_IO_HARDLINK : Z := 8.
Definition IOSQE_BUFFER_SELECT : Z := 32.
Definition IOSQE_CQE_SKIP_SUCCESS : Z := 64.
Definition IORING_CQE_F_BUFFER : Z := 1.
Definition IORING_CQE_F_MORE : Z := 2.
Definition IORING_CQE_BUFFER_SHIFT : Z := 16.
Definition IORING_ASYNC_CANCEL_ALL : Z := 1.
Definition IORING_ASYNC_CANCEL_FD_FIXED : Z := 8.
Definition IORING_TIMEOUT_MULTISHOT : Z := 64.
Definition IORING_RECVSEND_POLL_FIRST : Z := 1.
Definition IORING_FILE_INDEX_ALLOC : Z := 2 ^ 32 - 1.

Definition flag_set (flags bit : Z) : bool := negb (Z.land flags bit =? 0).

(** The calls of the sources on the submission queue, and two observations of
    it: the entries queued so far and the batches handed to the kernel. *)
Class IoUring (R : Type) := {
  io_uring_sq_space_left : R → Z;
  (** [io_uring_get_sqe] and the filling of the slot it returns; [None] is the
      null pointer of a full queue. *)
  io_uring_get_sqe : sqe → R → option R;
  (** [io_uring_submit_and_get_events], [io_uring_submit]. *)
  io_uring_submit : R → R;
  sq_entries : R → Z;
  sq_queued : R → list sqe;
  sq_submitted : R → list (list sqe);
}.

Class IoUringLaws (R : Type) `{!IoUring R} : Prop := {
  space_bound (r : R) : 0 ≤ io_uring_sq_space_left r ≤ sq_entries r;
  get_sqe_full q (r : R) : io_uring_sq_space_left r = 0 → io_uring_get_sqe q r = None;
  get_sqe_room q (r : R) : 0 < io_uring_sq_space_left r →
    ∃ r', io_uring_get_sqe q r = Some r' ∧
      io_uring_sq_space_left r' = io_uring_sq_space_left r - 1 ∧
      sq_entries r' = sq_entries r ∧
      sq_queued r' = sq_queued r ++ [q] ∧
      sq_submitted r' = sq_submitted r;
  submit_space (r : R) : io_uring_sq_space_left (io_uring_submit r) = sq_entries r;
  submit_entries (r : R) : sq_entries (io_uring_submit r) = sq_entries r;
  submit_queued (r : R) : sq_queued (io_uring_submit r) = [];
  submit_batches (r : R) :
    sq_submitted (io_uring_submit r) = sq_submitted r ++ [sq_queued r];
}.

(** The completion queue: the calls of [src/io_context.cpp], and the entries
    waiting in it as an observation. *)
Class IoUringCq (R : Type) := {
  io_uring_submit_and_wait : R → R;
  io_uring_cq_ready : R → Z;
  (** the first [n] entries *)
  io_uring_peek_batch_cqe : R → Z → list cqe;
  io_uring_cq_advance : Z → R → R;
  io_uring_peek_cqe : R → option cqe;
  cq_pending : R → list cqe;
}.

Class IoUringCqLaws (R : Type) `{!IoUringCq R} : Prop := {
  cq_ready_pending (r : R) : io_uring_cq_ready r = Z.of_nat (length (cq_pending r));
  peek_batch_pending (r : R) n : io_uring_peek_batch_cqe r n = take (Z.to_nat n) (cq_pending r);
  cq_advance_pending (r : R) n : cq_pending (io_uring_cq_advance n r) = drop (Z.to_nat n) (cq_pending r);
  peek_cqe_pending (r : R) : io_uring_peek_cqe r = head (cq_pending r);
}.

Section GetSqe.
Context {R : Type} {HU : IoUring R}.

(** [io_uring_get_sqe] where the result is used at once: a null SQE is
    dereferenced by the [io_uring_prep_*] call that follows. *)
Definition push_sqe (q : sqe) : M R unit :=
  r ← get;
  match io_uring_get_sqe q r with
  | Some r' => put r'
  | None => fail NullDeref
  end.

Definition submit_ring : M R unit := modify io_uring_submit.

(** [get_sqe( ring )] followed by the filling of the entry with [q]. *)
Definition get_sqe (q : sqe) : M R unit :=
  r ← get;
  match io_uring_get_sqe q r with
  | Some r' => put r'
  | None =>
      submit_ring ;;
      r ← get;
      match io_uring_get_sqe q r with
      | Some r' => put r'
      | None => fail AssertFailed
      end
  end.

Definition reserve_sqes (n : Z) : M R unit :=
  r ← gets io_uring_sq_space_left;
  when (r <? n) submit_ring.

Definition push_sqes (qs : list sqe) : M R unit :=
  foldr (λ q k, push_sqe q ;; k) (mret tt) qs.

(** How a piece of code extends what has been queued: everything queued and
    submitted before is still there, in order, followed by [qs]. *)
Definition sq_trace (r : R) : list sqe := concat (sq_submitted r) ++ sq_queued r.

End GetSqe.

(** ** Lemmas *)
Section GetSqeLemmas.
Context {R : Type} {HU : IoUring R} {HL : IoUringLaws R}.
Implicit Types r : R.

Lemma sq_trace_submit r : sq_trace (io_uring_submit r) = sq_trace r.
Proof.
  unfold sq_trace. rewrite submit_queued, submit_batches, concat_app. simpl.
  by rewrite !app_nil_r.
Qed.

Lemma wp_push_sqe q r (Q : unit → R → Prop) :
  0 < io_uring_sq_space_left r →
  (∀ r', io_uring_sq_space_left r' = io_uring_sq_space_left r - 1 →
         sq_entries r' = sq_entries r →
         sq_queued r' = sq_queued r ++ [q] →
         sq_submitted r' = sq_submitted r → Q tt r') →
  wp (push_sqe q) r Q.
Proof.
  intros Hs HQ. destruct (get_sqe_room q r Hs) as (r' & E & ? & ? & ? & ?).
  unfold push_sqe. wp_steps. rewrite E. wp_steps. by apply HQ.
Qed.

Lemma wp_reserve_sqes n r (Q : unit → R → Prop) :
  n ≤ sq_entries r →
  (∀ r', n ≤ io_uring_sq_space_left r' →
         sq_entries r' = sq_entries r →
         sq_trace r' = sq_trace r →
         (r' = r ∨ r' = io_uring_submit r) → Q tt r') →
  wp (reserve_sqes n) r Q.
Proof.
  intros Hn HQ. unfold reserve_sqes, submit_ring. wp_steps. apply wp_when.
  - intros _. wp_steps. apply HQ; [rewrite submit_space; lia|apply submit_entries| |auto].
    apply sq_trace_submit.
  - intros E. bool_simp. apply HQ; auto; lia.
Qed.

Lemma push_sqes_spec qs r :
  Z.of_nat (length qs) ≤ io_uring_sq_space_left r →
  wp (push_sqes qs) r (λ _ r',
    sq_queued r' = sq_queued r ++ qs ∧ sq_submitted r' = sq_submitted r ∧
    io_uring_sq_space_left r' = io_uring_sq_space_left r - Z.of_nat (length qs) ∧
    sq_entries r' = sq_entries r).
Proof.
  revert r. induction qs as [|q qs IH]; intros r Hlen; simpl in *.
  - apply wp_ret. rewrite app_nil_r. repeat split; lia.
  - apply wp_bind, wp_push_sqe; [lia|]. intros r1 Hs1 He1 Hq1 Hb1.
    eapply wp_mono; [apply IH; lia|].
    intros _ r2 (-> & -> & Hs2 & He2).
    rewrite Hq1, Hb1, <- app_assoc. repeat split; [lia|congruence].
Qed.

(** [reserve_sqes( ring, n )] makes the next [n] calls of
    [io_uring_get_sqe] succeed without a submission between them, whatever the
    queue held: the entries reach the kernel in one batch, so a chain built with
    IOSQE_IO_LINK is never cut by a submission. *)
Lemma reserve_sqes_no_split qs r :
  Z.of_nat (length qs) ≤ sq_entries r →
  ∃ r1 r2,
    reserve_sqes (Z.of_nat (length qs)) r = (Ret tt, r1) ∧
    push_sqes qs r1 = (Ret tt, r2) ∧
    sq_submitted r2 = sq_submitted r1 ∧
    sq_queued r2 = sq_queued r1 ++ qs ∧
    sq_trace r2 = sq_trace r ++ qs ∧
    sq_submitted (io_uring_submit r2) = sq_submitted r1 ++ [sq_queued r1 ++ qs].
Proof.
  intros Hn.
  assert (wp (reserve_sqes (Z.of_nat (length qs))) r (λ _ r',
    Z.of_nat (length qs) ≤ io_uring_sq_space_left r' ∧ sq_trace r' = sq_trace r)) as H1
    by (apply wp_reserve_sqes; [done|]; auto).
  apply wp_run in H1 as ([] & r1 & E1 & Hs1 & Ht1).
  pose proof (push_sqes_spec qs r1 Hs1) as H2.
  apply wp_run in H2 as ([] & r2 & E2 & Hq & Hb & _ & _).
  exists r1, r2. split_and!; [done..| |].
  - rewrite <- Ht1. unfold sq_trace. by rewrite Hq, Hb, app_assoc.
  - by rewrite submit_batches, Hb, Hq.
Qed.

Lemma get_sqe_runs q r :
  0 < sq_entries r →
  ∃ r', get_sqe q r = (Ret tt, r') ∧ sq_trace r' = sq_trace r ++ [q] ∧
        sq_entries r' = sq_entries r ∧
        (io_uring_sq_space_left r = 0 → sq_submitted r' = sq_submitted r ++ [sq_queued r]).
Proof.
  intros He. pose proof (space_bound r) as Hb.
  unfold get_sqe, submit_ring. munfold.
  destruct (decide (io_uring_sq_space_left r = 0)) as [E0|E0].
  - rewrite (get_sqe_full q r E0).
    destruct (get_sqe_room q (io_uring_submit r)) as (r' & -> & Hs & He' & Hq & Hsub);
      [rewrite submit_space; lia|].
    exists r'. split_and!; [done| | |].
    + unfold sq_trace. rewrite Hq, Hsub, app_assoc. f_equal. apply sq_trace_submit.
    + by rewrite He', submit_entries.
    + intros _. by rewrite Hsub, submit_batches.
  - destruct (get_sqe_room q r) as (r' & -> & Hs & He' & Hq & Hsub); [lia|].
    exists r'. split_and!; [done| |done|done].
    unfold sq_trace. by rewrite Hq, Hsub, app_assoc.
Qed.

Lemma wp_get_sqe q r (Q : unit → R → Prop) :
  0 < sq_entries r →
  (∀ r', sq_entries r' = sq_entries r → sq_trace r' = sq_trace r ++ [q] → Q tt r') →
  wp (get_sqe q) r Q.
Proof.
  intros He HQ. apply wp_run.
  destruct (get_sqe_runs q r He) as (r' & E & Ht & He' & _). eauto 10.
Qed.
(** [get_sqe] never returns null and never fails its assertion on a ring
    with at least one entry: a full queue is submitted and the entry is queued
    behind everything that was there before. *)
Lemma get_sqe_total q r :
  0 < sq_entries r →
  ∃ r', get_sqe q r = (Ret tt, r') ∧ sq_trace r' = sq_trace r ++ [q] ∧
        sq_entries r' = sq_entries r ∧
        (io_uring_sq_space_left r = 0 → sq_submitted r' = sq_submitted r ++ [sq_queued r]).
Proof. apply get_sqe_runs. Qed.
End GetSqeLemmas.
