(* ===== verification/Buffer.v ===== *)
(** [include/fiona/buffer.hpp] and [src/buffer.cpp]: receive buffers and the
    intrusive doubly linked sequence of them.

    The C++ heap is a record [mem]: the headers that live at the addresses of
    allocated blocks (and of the sentries of the sequences and the static
    default header), and the payload bytes that follow each block's header.
    Reading or writing a header that is not there is a fault. *)

From S2P Require Import Prelude.

(** ** Data *)

Record buf_header_impl := Hdr { size_ : Z; capacity_ : Z; prev_ : ptr; next_ : ptr }.
#[export] Instance eta_hdr : Eta buf_header_impl :=
  λ h, Hdr (size_ h) (capacity_ h) (prev_ h) (next_ h).

Record mem := Mem {
  headers : gmap Z buf_header_impl;
  payload : gmap Z (list Z);
  brk : Z;
}.
#[export] Instance eta_mem : Eta mem := λ m, Mem (headers m) (payload m) (brk m).

Definition nullptr : ptr := 0.

(** The address of [default_buf_header_], a constant with zero size and
    capacity. *)
Definition default_buf_header : ptr := 32.

(** [sizeof( detail::buf_header_impl )]. *)
Definition S_hdr : Z := 32.

Definition mem_init : mem := Mem {[ default_buf_header := Hdr 0 0 0 0 ]} ∅ 64.

(** What a dereference of an address that holds no header is. *)
Definition bad_deref (p : ptr) : fault :=
  if decide (p = nullptr) then NullDeref else UseAfterFree.

Definition load_header (p : ptr) : M mem buf_header_impl := λ m,
  match headers m !! p with
  | Some h => (Ret h, m)
  | None => (Fault (bad_deref p), m)
  end.

Definition upd_header (p : ptr) (f : buf_header_impl → buf_header_impl) : M mem unit := λ m,
  match headers m !! p with
  | Some _ => (Ret tt, m <| headers ::= alter f p |>)
  | None => (Fault (bad_deref p), m)
  end.

Definition set_next (buf next : ptr) : M mem unit :=
  upd_header buf (λ h, h <| next_ := next |>).
Definition set_prev (buf prev : ptr) : M mem unit :=
  upd_header buf (λ h, h <| prev_ := prev |>).
Definition get_next (buf : ptr) : M mem ptr := h ← load_header buf; mret (next_ h).
Definition get_prev (buf : ptr) : M mem ptr := h ← load_header buf; mret (prev_ h).

(** ** recv_buffer_view: a pointer [p_] *)

Definition is_defaulted (p : ptr) : bool := bool_decide (p = default_buf_header).

Definition view_size (p : ptr) : M mem Z := h ← load_header p; mret (size_ h).
Definition view_capacity (p : ptr) : M mem Z := h ← load_header p; mret (capacity_ h).
Definition view_empty (p : ptr) : M mem bool := n ← view_size p; mret (n =? 0).

Definition set_len (p : ptr) (n : Z) : M mem unit :=
  assert (negb (is_defaulted p)) ;; upd_header p (λ h, h <| size_ := n |>).

(** The bytes of the block at [p]; the default header has none. *)
Definition block (m : mem) (p : ptr) : list Z := default [] (payload m !! p).

(** The span [{ data(), size() }], as the bytes it denotes. *)
Definition readable_bytes (p : ptr) : M mem (list Z) :=
  n ← view_size p;
  d ← gets (λ m, block m p);
  if Z.of_nat (length d) <? n then fail OutOfBounds else mret (take (Z.to_nat n) d).

Definition as_str (p : ptr) : M mem (list Z) := readable_bytes p.

(** The span [{ data() + size(), capacity() - size() }], as an offset into the
    block and a 64-bit length. *)
Definition spare_capacity_mut (p : ptr) : M mem (Z * Z) :=
  n ← view_size p;
  c ← view_capacity p;
  mret (n, (c - n) `mod` 2 ^ 64).

(** [std::memcpy( data() + off, bytes )]. *)
Definition write_block (p : ptr) (off : Z) (bytes : list Z) : M mem unit := λ m,
  let d := block m p in
  if (0 <=? off) && (off + Z.of_nat (length bytes) <=? Z.of_nat (length d)) then
    (Ret tt, m <| payload ::= <[p := take (Z.to_nat off) d ++ bytes ++
                                   drop (Z.to_nat off + length bytes) d]> |>)
  else (Fault OutOfBounds, m).

(** ** recv_buffer: the owner of a block *)

(** [aligned_alloc( S + capacity )] and the placement of a fresh header. *)
Definition aligned_alloc (capacity : Z) : M mem ptr := λ m,
  (Ret (brk m),
   Mem (<[brk m := Hdr 0 0 0 0]> (headers m))
       (<[brk m := replicate (Z.to_nat capacity) 0]> (payload m))
       (brk m + S_hdr + capacity)).

Definition aligned_delete (p : ptr) : M mem unit := λ m,
  match headers m !! p with
  | Some _ => (Ret tt, m <| headers ::= delete p |> <| payload ::= delete p |>)
  | None => (Fault (bad_deref p), m)
  end.

Definition recv_buffer_new (capacity : Z) : M mem ptr :=
  p ← aligned_alloc capacity;
  upd_header p (λ h, h <| capacity_ := capacity |>) ;;
  mret p.

(** The pointer taken out, and what is left in the object. *)
Definition to_raw_parts (p : ptr) : ptr * ptr := (p, default_buf_header).
Definition recv_buffer_move (rhs : ptr) : ptr * ptr := (rhs, default_buf_header).

(** [operator=( recv_buffer&& )]; [self] is [this == &rhs]. *)
Definition recv_buffer_assign (self : bool) (p rhs : ptr) : M mem (ptr * ptr) :=
  if self then mret (p, p) else
  when (negb (is_defaulted p)) (aligned_delete p) ;;
  mret (rhs, default_buf_header).

Definition recv_buffer_dtor (p : ptr) : M mem unit :=
  when (negb (is_defaulted p)) (aligned_delete p).

(** ** recv_buffer_sequence *)

Record recv_buffer_sequence := Seq {
  p_sentry_ : ptr; head_ : ptr; tail_ : ptr; num_bufs_ : Z }.
#[export] Instance eta_seq : Eta recv_buffer_sequence :=
  λ s, Seq (p_sentry_ s) (head_ s) (tail_ s) (num_bufs_ s).

(** The constructor; the member [sentry_] gets an address of its own. *)
Definition sequence_new : M mem recv_buffer_sequence := λ m,
  (Ret (Seq (brk m) nullptr nullptr 0),
   Mem (<[brk m := Hdr 0 0 nullptr nullptr]> (headers m)) (payload m) (brk m + S_hdr)).

Definition seq_empty (s : recv_buffer_sequence) : bool := num_bufs_ s =? 0.

Definition seq_begin (s : recv_buffer_sequence) : ptr :=
  if seq_empty s then p_sentry_ s else head_ s.
Definition seq_end (s : recv_buffer_sequence) : ptr := p_sentry_ s.

Definition iter_next (p : ptr) : M mem ptr :=
  assert (negb (p =? nullptr)) ;; get_next p.
Definition iter_prev (p : ptr) : M mem ptr := get_prev p.

Definition seq_front (s : recv_buffer_sequence) : M mem ptr :=
  assert (negb (seq_empty s)) ;; mret (head_ s).
Definition seq_back (s : recv_buffer_sequence) : M mem ptr :=
  assert (negb (seq_empty s)) ;; mret (tail_ s).

(** The [while] loop of [free_list]. *)
Fixpoint free_loop (fuel : nat) (p sentry : ptr) : M mem unit :=
  if decide (p = sentry) then mret tt else
  match fuel with
  | O => fail OutOfFuel
  | S fuel =>
      q ← get_next p;
      aligned_delete p ;;
      free_loop fuel q sentry
  end.

(** Every iteration deletes a header, so the number of headers is enough fuel. *)
Definition free_list (s : recv_buffer_sequence) : M mem recv_buffer_sequence :=
  if decide (head_ s = nullptr) then mret s else
  fuel ← gets (λ m, size (headers m));
  free_loop fuel (head_ s) (p_sentry_ s) ;;
  set_next (p_sentry_ s) nullptr ;;
  set_prev (p_sentry_ s) nullptr ;;
  mret (s <| head_ := nullptr |> <| tail_ := nullptr |> <| num_bufs_ := 0 |>).

(** The statements shared by the move constructor and the move assignment. *)
Definition steal (this rhs : recv_buffer_sequence)
    : M mem (recv_buffer_sequence * recv_buffer_sequence) :=
  let this' := this <| head_ := head_ rhs |> <| tail_ := tail_ rhs |>
                    <| num_bufs_ := num_bufs_ rhs |> in
  let rhs' := rhs <| head_ := nullptr |> <| tail_ := nullptr |> <| num_bufs_ := 0 |> in
  set_prev (p_sentry_ rhs) nullptr ;;
  set_prev (p_sentry_ this) (tail_ this') ;;
  when (negb (tail_ this' =? nullptr)) (set_next (tail_ this') (p_sentry_ this)) ;;
  mret (this', rhs').

(** [recv_buffer_sequence( recv_buffer_sequence&& rhs )]. *)
Definition sequence_move (rhs : recv_buffer_sequence)
    : M mem (recv_buffer_sequence * recv_buffer_sequence) :=
  this ← sequence_new; steal this rhs.

(** [operator=( recv_buffer_sequence&& )] for distinct objects. *)
Definition sequence_assign (this rhs : recv_buffer_sequence)
    : M mem (recv_buffer_sequence * recv_buffer_sequence) :=
  this ← (if seq_empty this then mret this else free_list this);
  steal this rhs.

Definition sequence_dtor (s : recv_buffer_sequence) : M mem unit :=
  free_list s ;; mret tt.

Definition push_back (s : recv_buffer_sequence) (rbuf : ptr) : M mem recv_buffer_sequence :=
  assert (negb (is_defaulted rbuf)) ;;
  let p := (to_raw_parts rbuf).1 in
  when (negb (tail_ s =? nullptr))
    (set_next (tail_ s) p ;; set_prev p (tail_ s)) ;;
  set_next p (p_sentry_ s) ;;
  set_prev (p_sentry_ s) p ;;
  mret (s <| tail_ := p |>
          <| head_ := if head_ s =? nullptr then p else head_ s |>
          <| num_bufs_ ::= Z.succ |>).

Definition pop_front (s : recv_buffer_sequence) : M mem (ptr * recv_buffer_sequence) :=
  assert (negb (seq_empty s)) ;;
  let p := head_ s in
  head ← get_next p;
  set_next p nullptr ;;
  set_prev p nullptr ;;
  set_prev head nullptr ;;
  let n := num_bufs_ s - 1 in
  if decide (p = tail_ s) then
    assert (n =? 0) ;;
    mret (p, s <| head_ := nullptr |> <| tail_ := nullptr |> <| num_bufs_ := n |>)
  else
    mret (p, s <| head_ := head |> <| num_bufs_ := n |>).

(** [concat]; the parameter [rhs] is returned as it is left. *)
Definition concat_seq (this rhs : recv_buffer_sequence)
    : M mem (recv_buffer_sequence * recv_buffer_sequence) :=
  if seq_empty rhs then mret (this, rhs) else
  if seq_empty this then sequence_assign this rhs else
  set_next (tail_ this) (head_ rhs) ;;
  set_prev (head_ rhs) (tail_ this) ;;
  set_next (tail_ rhs) (p_sentry_ this) ;;
  set_prev (p_sentry_ this) (tail_ rhs) ;;
  set_prev (p_sentry_ rhs) nullptr ;;
  mret (this <| tail_ := tail_ rhs |> <| num_bufs_ ::= λ n, n + num_bufs_ rhs |>,
        rhs <| head_ := nullptr |> <| tail_ := nullptr |> <| num_bufs_ := 0 |>).

(** ** Flattening: [src/buffer.cpp] *)

Fixpoint buffer_size_loop (fuel : nat) (pos stop : ptr) (n : Z) : M mem Z :=
  if decide (pos = stop) then mret n else
  match fuel with
  | O => fail OutOfFuel
  | S fuel =>
      k ← view_size pos;
      pos' ← iter_next pos;
      buffer_size_loop fuel pos' stop ((n + k) `mod` 2 ^ 64)
  end.

Definition buffer_size (bufs : recv_buffer_sequence) : M mem Z :=
  fuel ← gets (λ m, size (headers m));
  buffer_size_loop fuel (seq_begin bufs) (seq_end bufs) 0.

(** The loop of [buffer_copy]: [out] is what has been written so far, [room] is
    [dst.size()]; the count returned is the number of bytes written. *)
Fixpoint buffer_copy_loop (fuel : nat) (pos stop : ptr) (room : nat) (out : list Z)
    : M mem (list Z) :=
  if decide (pos = stop) then mret out else
  match fuel with
  | O => fail OutOfFuel
  | S fuel =>
      e ← view_empty pos;
      if (e : bool) then
        pos' ← iter_next pos;
        buffer_copy_loop fuel pos' stop room out
      else
        src ← readable_bytes pos;
        let m := (room `min` length src)%nat in
        let out' := out ++ take m src in
        if decide (m < length src)%nat then mret out' else
        if decide (room - m = 0)%nat then mret out' else
        pos' ← iter_next pos;
        buffer_copy_loop fuel pos' stop (room - m)%nat out'
  end.

(** [buffer_copy( dst, bufs )] on a destination holding [dst]: the new contents
    of the destination and the count. *)
Definition buffer_copy (dst : list Z) (bufs : recv_buffer_sequence) : M mem (list Z * Z) :=
  fuel ← gets (λ m, size (headers m));
  out ← buffer_copy_loop fuel (seq_begin bufs) (seq_end bufs) (length dst) [];
  mret (out ++ drop (length out) dst, Z.of_nat (length out)).

Definition to_bytes (bufs : recv_buffer_sequence) : M mem (list Z) :=
  n ← buffer_size bufs;
  r ← buffer_copy (replicate (Z.to_nat n) 0) bufs;
  mret r.1.

Definition to_string (bufs : recv_buffer_sequence) : M mem (list Z) :=
  n ← buffer_size bufs;
  r ← buffer_copy (replicate (Z.to_nat n) 0) bufs;
  mret r.1.

(** ** The abstract sequence: the addresses of its buffers, in order *)

(** The doubly linked segment [l] between [pre] and [stop]. *)
Fixpoint dlseg (H : gmap Z buf_header_impl) (pre : ptr) (l : list ptr) (stop : ptr) : Prop :=
  match l with
  | [] => True
  | p :: l' =>
      match H !! p with
      | Some h => prev_ h = pre ∧ next_ h = hd stop l' ∧ dlseg H p l' stop
      | None => False
      end
  end.

Definition last_or (d : ptr) (l : list ptr) : ptr := default d (last l).

Record seq_rep (m : mem) (s : recv_buffer_sequence) (l : list ptr) : Prop := {
  rep_nodup : NoDup (p_sentry_ s :: l);
  rep_null : nullptr ∉ l;
  rep_default : default_buf_header ∉ l;
  rep_num : num_bufs_ s = Z.of_nat (length l);
  rep_head : head_ s = hd nullptr l;
  rep_tail : tail_ s = last_or nullptr l;
  rep_seg : dlseg (headers m) nullptr l (p_sentry_ s);
  rep_sentry : prev_ <$> headers m !! p_sentry_ s = Some (last_or nullptr l);
}.

(** A buffer that is in no sequence. *)
Definition detached (m : mem) (p : ptr) : Prop :=
  p ≠ nullptr ∧ p ≠ default_buf_header ∧
  prev_ <$> headers m !! p = Some nullptr.

(** A block whose size, capacity and payload agree. *)
Definition block_ok (m : mem) (p : ptr) : Prop :=
  ∃ h, headers m !! p = Some h ∧ 0 ≤ size_ h ≤ capacity_ h ∧
       capacity_ h = Z.of_nat (length (block m p)).

(** The readable bytes of a block. *)
Definition bytes_of (m : mem) (p : ptr) : list Z :=
  match headers m !! p with
  | Some h => take (Z.to_nat (size_ h)) (block m p)
  | None => []
  end.

(** [m'] differs from [m] only in the links of the headers in [X]. *)
Record links_only (X : list ptr) (m m' : mem) : Prop := {
  lo_payload : payload m' = payload m;
  lo_brk : brk m' = brk m;
  lo_out a : a ∉ X → headers m' !! a = headers m !! a;
  lo_in a : (λ h, (size_ h, capacity_ h)) <$> headers m' !! a =
            (λ h, (size_ h, capacity_ h)) <$> headers m !! a;
}.

(** [m'] is [m] without the blocks [l]. *)
Definition without (l : list ptr) (m m' : mem) : Prop :=
  brk m' = brk m ∧
  ∀ a, headers m' !! a = (if decide (a ∈ l) then None else headers m !! a) ∧
       payload m' !! a = (if decide (a ∈ l) then None else payload m !! a).

(** [n] steps of an iterator from [p], and the positions reached. *)
Fixpoint iterate (step : ptr → M mem ptr) (n : nat) (p : ptr) : M mem (list ptr) :=
  match n with
  | O => mret []
  | S n => q ← step p; r ← iterate step n q; mret (q :: r)
  end.

(** All the readable bytes of the buffers [l], in order. *)
Definition all_bytes (m : mem) (l : list ptr) : list Z := concat (map (bytes_of m) l).

(** Everything allocated lies below [brk], the static header is where it was, and
    nothing lives at the null address. *)
Record heap_wf (m : mem) : Prop := {
  hw_brk : default_buf_header < brk m;
  hw_alloc a : is_Some (headers m !! a) → nullptr < a < brk m;
  hw_default : headers m !! default_buf_header = Some (Hdr 0 0 nullptr nullptr);
}.

(** ** The sequence as a queue

    The abstract state is the list of queued buffers and the list of detached
    buffers the program holds. *)
Inductive seq_op := OpPush (p : ptr) | OpPop.

Definition run_op (s : recv_buffer_sequence) (op : seq_op)
    : M mem (recv_buffer_sequence * list ptr) :=
  match op with
  | OpPush p => s' ← push_back s p; mret (s', [])
  | OpPop => r ← pop_front s; mret (r.2, [r.1])
  end.

Fixpoint run_ops (s : recv_buffer_sequence) (ops : list seq_op)
    : M mem (recv_buffer_sequence * list ptr) :=
  match ops with
  | [] => mret (s, [])
  | op :: ops =>
      r ← run_op s op;
      r' ← run_ops r.1 ops;
      mret (r'.1, r.2 ++ r'.2)
  end.

Definition queue_op (st : list ptr * gset ptr) (op : seq_op)
    : option ((list ptr * gset ptr) * list ptr) :=
  let '(l, held) := st in
  match op, l with
  | OpPush p, _ => if decide (p ∈ held) then Some ((l ++ [p], held ∖ {[p]}), []) else None
  | OpPop, p :: l => Some ((l, {[p]} ∪ held), [p])
  | OpPop, [] => None
  end.

Fixpoint queue_ops (st : list ptr * gset ptr) (ops : list seq_op)
    : option ((list ptr * gset ptr) * list ptr) :=
  match ops with
  | [] => Some (st, [])
  | op :: ops =>
      '(st1, o1) ← queue_op st op;
      '(st2, o2) ← queue_ops st1 ops;
      Some (st2, o1 ++ o2)
  end.

(** The concrete state represents the abstract one. *)
Record queue_rep (m : mem) (s : recv_buffer_sequence) (st : list ptr * gset ptr) : Prop := {
  qr_seq : seq_rep m s st.1;
  qr_held p : p ∈ st.2 → detached m p ∧ p ∉ p_sentry_ s :: st.1;
}.

(** ** A concrete memory: two sequences and five blocks

    Blocks 1 to 3 hold the bytes [1; 2], [] and [3; 4; 5]; the first sequence
    holds blocks 1 and 2, the second holds block 3, and blocks 4 and 5 are
    detached. *)
Definition fill (capacity : Z) (bytes : list Z) : M mem ptr :=
  p ← recv_buffer_new capacity;
  write_block p 0 bytes ;;
  set_len p (Z.of_nat (length bytes)) ;;
  mret p.

Definition sample : M mem (recv_buffer_sequence * recv_buffer_sequence) :=
  s1 ← sequence_new;
  s2 ← sequence_new;
  p1 ← fill 4 [1; 2];
  p2 ← fill 4 [];
  p3 ← fill 8 [3; 4; 5];
  p4 ← fill 2 [6];
  p5 ← fill 2 [7];
  s1 ← push_back s1 p1;
  s1 ← push_back s1 p2;
  s2 ← push_back s2 p3;
  mret (s1, s2).

Definition sample_mem : mem := Eval vm_compute in (sample mem_init).2.
Definition sample_s1 : recv_buffer_sequence := Seq 64 128 164 2.
Definition sample_s2 : recv_buffer_sequence := Seq 96 200 200 1.
