(* ===== verification/BufferSpec.v ===== *)
(** The receive buffer sequence refines a list of buffers: every operation of
    [Buffer] is shown to have, on a sequence that represents a list of blocks,
    the effect of the corresponding list operation, without a fault, and to
    leave everything else in memory alone. *)

From S2P Require Import Prelude Buffer.


(** ** Single header updates *)
Section Headers.
Implicit Types (m : mem) (H : gmap Z buf_header_impl) (p q : ptr).

Lemma wp_load_header p m h (Q : buf_header_impl → mem → Prop) :
  headers m !! p = Some h → Q h m → wp (load_header p) m Q.
Proof. unfold wp, load_header. by intros ->. Qed.

Lemma wp_upd_header p f m (Q : unit → mem → Prop) :
  is_Some (headers m !! p) → Q tt (m <| headers ::= alter f p |>) →
  wp (upd_header p f) m Q.
Proof. unfold wp, upd_header. by intros [h ->]. Qed.

Lemma wp_get_next p m h (Q : ptr → mem → Prop) :
  headers m !! p = Some h → Q (next_ h) m → wp (get_next p) m Q.
Proof. intros E HQ. unfold get_next. wp_steps. by eapply wp_load_header. Qed.

Lemma wp_get_prev p m h (Q : ptr → mem → Prop) :
  headers m !! p = Some h → Q (prev_ h) m → wp (get_prev p) m Q.
Proof. intros E HQ. unfold get_prev. wp_steps. by eapply wp_load_header. Qed.

(** Updating a link is a [links_only] change of that header. *)
Lemma links_only_refl X m : links_only X m m.
Proof. by split. Qed.

Lemma links_only_trans X m1 m2 m3 :
  links_only X m1 m2 → links_only X m2 m3 → links_only X m1 m3.
Proof.
  intros [P1 B1 O1 I1] [P2 B2 O2 I2]. split.
  - congruence.
  - congruence.
  - intros a Ha. by rewrite O2, O1.
  - intros a. by rewrite I2, I1.
Qed.

Lemma links_only_weaken X Y m m' :
  X ⊆ Y → links_only X m m' → links_only Y m m'.
Proof. intros HXY [P B O I]. split; [done|done| |exact I]. intros a Ha. apply O. set_solver. Qed.

Definition sc (h : buf_header_impl) : Z * Z := (size_ h, capacity_ h).

Lemma links_only_upd X m p f :
  p ∈ X → (∀ h, sc (f h) = sc h) →
  links_only X m (m <| headers ::= alter f p |>).
Proof.
  intros Hp Hf. split; try done; intros a; cbn.
  - intros Ha. rewrite lookup_alter_ne; [done|set_solver].
  - rewrite lookup_alter. case_decide as E; [|done]. subst.
    destruct (headers m !! a) as [h|]; simpl; [|done]. f_equal. apply Hf.
Qed.

Lemma links_only_bytes X m m' p : links_only X m m' → bytes_of m' p = bytes_of m p.
Proof.
  intros [P _ _ I]. specialize (I p). unfold bytes_of, block. rewrite P.
  destruct (headers m' !! p) as [h'|], (headers m !! p) as [h|]; simpl in I; try done.
  by injection I as -> _.
Qed.

Lemma links_only_block_ok X m m' p : links_only X m m' → block_ok m p → block_ok m' p.
Proof.
  intros [P _ _ I] (h & E & Hs & Hc). specialize (I p). rewrite E in I.
  destruct (headers m' !! p) as [h'|] eqn:E'; simplify_eq/=.
  exists h'. unfold block in *. rewrite P. repeat split; [done|lia|lia|lia].
Qed.

Lemma links_only_is_Some X m m' p :
  links_only X m m' → is_Some (headers m' !! p) ↔ is_Some (headers m !! p).
Proof.
  intros [_ _ _ I]. specialize (I p).
  destruct (headers m' !! p), (headers m !! p); simplify_eq/=; split; eauto; by intros [].
Qed.
Lemma links_only_cons X m m' p f :
  links_only X m m' → p ∈ X → (∀ h, sc (f h) = sc h) →
  links_only X m (m' <| headers ::= alter f p |>).
Proof. intros. eapply links_only_trans; [done|]. by apply links_only_upd. Qed.

End Headers.

#[export] Hint Resolve links_only_refl : fiona.

(** ** Allocation *)
Section Allocation.
Implicit Types (m : mem).

Lemma heap_wf_fresh m : heap_wf m → headers m !! brk m = None.
Proof.
  intros [_ Ha _]. destruct (headers m !! brk m) eqn:E; [|done].
  destruct (Ha (brk m)); [by rewrite E|lia].
Qed.

Lemma recv_buffer_new_run m cap :
  recv_buffer_new cap m =
    (Ret (brk m), Mem (<[brk m := Hdr 0 cap nullptr nullptr]> (headers m))
                      (<[brk m := replicate (Z.to_nat cap) 0]> (payload m))
                      (brk m + S_hdr + cap)).
Proof.
  unfold recv_buffer_new, aligned_alloc, upd_header. munfold. cbn.
  rewrite lookup_insert_eq. unfold upd. cbn. do 2 f_equal. apply map_eq. intros a.
  destruct (decide (a = brk m)) as [->|Ha].
  - by rewrite lookup_alter_eq, !lookup_insert_eq.
  - by rewrite lookup_alter_ne, !lookup_insert_ne.
Qed.

Lemma heap_wf_new m cap :
  heap_wf m → 0 ≤ cap → heap_wf (recv_buffer_new cap m).2.
Proof.
  intros [Hb Ha Hd] Hc. rewrite recv_buffer_new_run. split; cbn; unfold S_hdr, nullptr, default_buf_header in *.
  - lia.
  - intros a Hs. destruct (decide (a = brk m)) as [->|Hne]; [lia|].
    rewrite lookup_insert_ne in Hs by done. specialize (Ha a Hs). lia.
  - rewrite lookup_insert_ne by lia. done.
Qed.
End Allocation.

(** ** Segments *)
Section Segments.
Implicit Types (H : gmap Z buf_header_impl) (l : list ptr).

Lemma last_or_snoc d l p : last_or d (l ++ [p]) = p.
Proof. unfold last_or. by rewrite last_snoc. Qed.

Lemma last_or_cons d p l : last_or d (p :: l) = last_or p l.
Proof. unfold last_or. rewrite last_cons. by destruct (last l). Qed.

Lemma last_or_app d l1 l2 : last_or d (l1 ++ l2) = last_or (last_or d l1) l2.
Proof. revert d. induction l1 as [|p l1 IH]; intros d; simpl; [done|]. by rewrite !last_or_cons. Qed.

Lemma last_or_in d l : l ≠ [] → last_or d l ∈ l.
Proof.
  intros Hl. destruct l as [|p l] using rev_ind; [done|]. rewrite last_or_snoc. set_solver.
Qed.

Lemma hd_app d l1 l2 : hd d (l1 ++ l2) = hd (hd d l2) l1.
Proof. by destruct l1. Qed.

Lemma dlseg_app H pre l1 l2 stop :
  dlseg H pre (l1 ++ l2) stop ↔
  dlseg H pre l1 (hd stop l2) ∧ dlseg H (last_or pre l1) l2 stop.
Proof.
  revert pre. induction l1 as [|p l1 IH]; intros pre; simpl.
  - unfold last_or. simpl. tauto.
  - rewrite last_or_cons. destruct (H !! p) as [h|]; [|tauto].
    rewrite IH, hd_app. tauto.
Qed.

Lemma dlseg_frame H H' pre l stop :
  (∀ a, a ∈ l → H' !! a = H !! a) → dlseg H pre l stop → dlseg H' pre l stop.
Proof.
  revert pre. induction l as [|p l IH]; intros pre Heq; simpl; [done|].
  rewrite (Heq p) by set_solver. destruct (H !! p) as [h|]; [|done].
  intros (? & ? & ?). split_and!; [done..|]. apply IH; [|done]. set_solver.
Qed.

Lemma dlseg_alloc H pre l stop p : dlseg H pre l stop → p ∈ l → is_Some (H !! p).
Proof.
  revert pre. induction l as [|q l IH]; intros pre Hs Hp; [set_solver|]. simpl in Hs.
  destruct (H !! q) as [h|] eqn:E; [|done]. destruct Hs as (_ & _ & Hs).
  apply elem_of_cons in Hp as [->|Hp]; eauto.
Qed.

(** Rewriting the last [next] pointer of a segment. *)
Lemma dlseg_restop H pre l p stop stop' f :
  NoDup (l ++ [p]) → (∀ h, prev_ (f h) = prev_ h ∧ next_ (f h) = stop') →
  dlseg H pre (l ++ [p]) stop → dlseg (alter f p H) pre (l ++ [p]) stop'.
Proof.
  intros Hnd Hf [Hl Hp]%dlseg_app. apply dlseg_app. simpl in *. split.
  - eapply dlseg_frame; [|done]. intros a Ha. rewrite lookup_alter_ne; [done|].
    intros ->. apply NoDup_app in Hnd as (_ & Hd & _). clear Hf. set_solver.
  - destruct (H !! p) as [h|] eqn:E; [|done]. destruct Hp as (? & _ & _).
    rewrite lookup_alter. case_decide; [|done]. rewrite E. simpl.
    destruct (Hf h) as [Hf1 Hf2]. split_and!; [congruence|congruence|done].
Qed.

(** Rewriting the [prev] pointer of the first node. *)
Lemma dlseg_repre H pre pre' p l stop f :
  NoDup (p :: l) → (∀ h, prev_ (f h) = pre' ∧ next_ (f h) = next_ h) →
  dlseg H pre (p :: l) stop → dlseg (alter f p H) pre' (p :: l) stop.
Proof.
  intros Hnd Hf Hs. simpl in *. destruct (H !! p) as [h|] eqn:E; [|done].
  destruct Hs as (_ & ? & ?). rewrite lookup_alter. case_decide; [|done].
  rewrite E. simpl. destruct (Hf h) as [Hf1 Hf2]. split_and!; [done|congruence|].
  eapply dlseg_frame; [|done]. intros a Ha. rewrite lookup_alter_ne; [done|].
  intros ->. apply NoDup_cons in Hnd as [? _]. done.
Qed.

(** A change outside the segment. *)
Lemma dlseg_alter_out H pre l stop p f :
  p ∉ l → dlseg H pre l stop → dlseg (alter f p H) pre l stop.
Proof.
  intros Hp. apply dlseg_frame. intros a Ha. apply lookup_alter_ne. by intros ->.
Qed.
End Segments.

(** ** Operations *)
Section Representation.
Implicit Types (m : mem) (s : recv_buffer_sequence) (l : list ptr).

Lemma rep_alloc m s l p : seq_rep m s l → p ∈ l → is_Some (headers m !! p).
Proof. intros Hr Hp. eapply dlseg_alloc; [apply Hr|done]. Qed.

Lemma rep_sentry_alloc m s l : seq_rep m s l → is_Some (headers m !! p_sentry_ s).
Proof. intros Hr. pose proof (rep_sentry _ _ _ Hr) as E. by destruct (headers m !! _). Qed.

Lemma rep_sentry_notin m s l : seq_rep m s l → p_sentry_ s ∉ l.
Proof. intros Hr. pose proof (rep_nodup _ _ _ Hr) as E. by apply NoDup_cons in E as [? _]. Qed.

Lemma rep_nodup_list m s l : seq_rep m s l → NoDup l.
Proof. intros Hr. pose proof (rep_nodup _ _ _ Hr) as E. by apply NoDup_cons in E as [_ ?]. Qed.

Lemma rep_nil_tail m s l : seq_rep m s l → tail_ s = nullptr ↔ l = [].
Proof.
  intros Hr. rewrite (rep_tail _ _ _ Hr). split; [|by intros ->].
  intros E. destruct (decide (l = [])) as [|Hl]; [done|].
  destruct (rep_null _ _ _ Hr). rewrite <- E. by apply last_or_in.
Qed.

Lemma rep_nil_head m s l : seq_rep m s l → head_ s = nullptr ↔ l = [].
Proof.
  intros Hr. rewrite (rep_head _ _ _ Hr). split; [|by intros ->].
  destruct l as [|p l]; [done|]. simpl. intros ->.
  destruct (rep_null _ _ _ Hr). set_solver.
Qed.

Lemma rep_empty m s l : seq_rep m s l → seq_empty s = bool_decide (l = []).
Proof.
  intros Hr. unfold seq_empty. rewrite (rep_num _ _ _ Hr).
  by destruct l as [|p l].
Qed.

(** Links that are not those of the sequence do not matter to it. *)
Lemma seq_rep_frame X m m' s l :
  seq_rep m s l → links_only X m m' → (∀ a, a ∈ X → a ∉ p_sentry_ s :: l) → seq_rep m' s l.
Proof.
  intros [] [_ _ Ho _] HX. split; try done.
  - eapply dlseg_frame; [|done]. intros a Ha. apply Ho. intros Hx. apply (HX a Hx). set_solver.
  - rewrite Ho; [done|]. intros Hx. apply (HX _ Hx). set_solver.
Qed.

End Representation.

(** Look up in a chain of header updates. *)
Ltac alter_simp :=
  repeat match goal with
  | |- context [alter ?f ?a ?H !! ?a] => rewrite (lookup_alter_eq f H a)
  | |- context [alter ?f ?a ?H !! ?b] =>
      rewrite (lookup_alter_ne f H a b) by (first [done | congruence | set_solver])
  end.

(** The side condition of a header update: the header is there. *)
Ltac links :=
  cbn [headers upd eta eta_mem]; rewrite ?lookup_alter_is_Some; eauto using rep_sentry_alloc.

(** A chain of header updates is a [links_only] change. *)
Ltac links_chain :=
  repeat (apply links_only_cons; [|set_solver|done]); apply links_only_refl.

Section Operations.
Implicit Types (m : mem) (s : recv_buffer_sequence) (l : list ptr).

Lemma push_back_wp m s l p :
  seq_rep m s l → detached m p → p ∉ p_sentry_ s :: l →
  wp (push_back s p) m (λ s' m',
    seq_rep m' s' (l ++ [p]) ∧ links_only (p :: p_sentry_ s :: l) m m' ∧
    p_sentry_ s' = p_sentry_ s).
Proof.
  intros Hr (Hp0 & Hpd & Hp) Hpl.
  assert (is_Some (headers m !! p)) as Hps by (by destruct (headers m !! p)).
  pose proof (rep_nodup _ _ _ Hr) as Hnd.
  assert (p ≠ p_sentry_ s) as Hpse by set_solver.
  unfold push_back, is_defaulted. wp_steps.
  apply wp_assert; [by rewrite bool_decide_eq_false_2|]. wp_steps.
  apply wp_when.
  - (* a non-empty sequence *)
    intros E. bool_simp.
    destruct l as [|t l0 _] using rev_ind; [by destruct E; apply (rep_nil_tail _ _ _ Hr)|].
    assert (tail_ s = t) as Et by (rewrite (rep_tail _ _ _ Hr); apply last_or_snoc).
    assert (p ≠ t) by set_solver. assert (t ≠ p_sentry_ s) by (apply NoDup_cons in Hnd; set_solver).
    rewrite Et. wp_steps. apply wp_upd_header; [eapply rep_alloc; [done|set_solver]|].
    apply wp_upd_header; [links|]. wp_steps.
    apply wp_upd_header; [links|]. wp_steps. apply wp_upd_header; [links|]. wp_steps.
    destruct (decide (head_ s = nullptr)) as [Eh|Eh].
    { apply (rep_nil_head _ _ _ Hr) in Eh. by destruct l0. }
    rewrite (proj2 (Z.eqb_neq _ _) Eh). split_and!; [|links_chain|done].
    apply NoDup_cons in Hnd as [Hs Hnd]. destruct Hr as [Rnd Rnull Rdef Rnum Rhd Rtl Rseg Rsen]. split; cbn.
    + apply NoDup_cons. split; [set_solver|]. apply NoDup_app. split_and!; [done|set_solver|].
      apply NoDup_singleton.
    + set_solver.
    + set_solver.
    + rewrite Rnum, !length_app. simpl. lia.
    + rewrite Rhd. by destruct l0.
    + by rewrite last_or_snoc.
    + apply dlseg_app. simpl. split.
      * apply dlseg_alter_out; [done|]. apply dlseg_alter_out; [set_solver|].
        apply dlseg_alter_out; [set_solver|]. by eapply dlseg_restop.
      * rewrite last_or_snoc. alter_simp. destruct Hps as [h ->]. done.
    + rewrite last_or_snoc. alter_simp. by destruct (headers m !! p_sentry_ s).
  - (* the empty sequence *)
    intros E. bool_simp. apply (rep_nil_tail _ _ _ Hr) in E as ->. simpl.
    wp_steps. apply wp_upd_header; [done|]. wp_steps. apply wp_upd_header; [links|]. wp_steps.
    rewrite (proj2 (rep_nil_head _ _ _ Hr) eq_refl). split_and!; [|links_chain|done].
    destruct Hr as [Rnd Rnull Rdef Rnum Rhd Rtl Rseg Rsen]. split; cbn.
    + apply NoDup_cons. split; [set_solver|]. apply NoDup_singleton.
    + set_solver.
    + set_solver.
    + by rewrite Rnum.
    + done.
    + done.
    + alter_simp. destruct (headers m !! p) as [h|]; [|done]. simpl in *. split_and!; congruence.
    + alter_simp. by destruct (headers m !! p_sentry_ s).
Qed.
Lemma pop_front_wp m s p l :
  seq_rep m s (p :: l) →
  wp (pop_front s) m (λ r m',
    r.1 = p ∧ seq_rep m' r.2 l ∧ detached m' p ∧
    links_only (p :: p_sentry_ s :: l) m m' ∧ p_sentry_ r.2 = p_sentry_ s).
Proof.
  intros Hr. pose proof (rep_empty _ _ _ Hr) as He. pose proof (rep_sentry_alloc _ _ _ Hr) as Hsa.
  destruct Hr as [Rnd Rnull Rdef Rnum Rhd Rtl Rseg Rsen]. simpl in *.
  destruct (headers m !! p) as [h|] eqn:Ep; [|done]. destruct Rseg as (Hpre & Hnx & Rseg).
  apply NoDup_cons in Rnd as [Hsl Rnd]. apply NoDup_cons in Rnd as [Hpl Rnd].
  assert (p ≠ p_sentry_ s) as Hps by set_solver.
  assert (p ≠ nullptr ∧ p ≠ default_buf_header) as [Hp0 Hpd] by set_solver.
  assert (head_ s = p) as Eh by done.
  unfold pop_front. wp_steps. apply wp_assert; [by rewrite He|]. rewrite Eh. wp_steps.
  eapply wp_get_next; [done|]. cbv beta. wp_steps. rewrite Hnx.
  apply wp_upd_header; [done|]. wp_steps. apply wp_upd_header; [links|]. wp_steps.
  destruct l as [|p2 l]; simpl in *.
  - apply wp_upd_header; [links|]. wp_steps. unfold last_or in Rtl; simpl in Rtl.
    rewrite decide_True by done. wp_steps. apply wp_assert; [rewrite Rnum; done|]. wp_steps.
    split_and!; [done| | |links_chain|done].
    + split; cbn; try done.
      * apply NoDup_singleton.
      * apply not_elem_of_nil.
      * apply not_elem_of_nil.
      * by rewrite Rnum.
      * unfold last_or. simpl. alter_simp. by destruct Hsa as [? ->].
    + split_and!; [done..|]. cbn. alter_simp. by rewrite Ep.
  - assert (p ≠ p2) by set_solver. assert (p2 ≠ p_sentry_ s) by set_solver.
    assert (p ≠ last_or nullptr (p2 :: l)).
    { intros ->. apply Hpl. by apply last_or_in. }
    destruct (headers m !! p2) as [h2|] eqn:E2; [|done].
    apply wp_upd_header; [links; by rewrite E2|]. wp_steps.
    rewrite decide_False by (rewrite Rtl; rewrite !last_or_cons in *; done). wp_steps.
    split_and!; [done| | |links_chain|done].
    + split; cbn; try done.
      * apply NoDup_cons; split; [set_solver|done].
      * set_solver.
      * set_solver.
      * rewrite Rnum. lia.
      * alter_simp. rewrite E2. simpl. destruct Rseg as (_ & ? & ?). split_and!; [done..|].
        apply NoDup_cons in Rnd as [? _].
        do 3 (apply dlseg_alter_out; [set_solver|]). done.
      * rewrite !last_or_cons in *. by alter_simp.
    + split_and!; [done..|]. cbn. alter_simp. by rewrite Ep.
Qed.

Lemma sequence_new_wp m :
  headers m !! brk m = None → brk m ≠ nullptr →
  wp sequence_new m (λ s m',
    seq_rep m' s [] ∧ p_sentry_ s = brk m ∧ payload m' = payload m ∧
    ∀ a, a ≠ brk m → headers m' !! a = headers m !! a).
Proof.
  intros Hf Hb. unfold wp, sequence_new. split_and!; [|done|done|].
  - split; cbn; try done; [apply NoDup_singleton|set_solver|set_solver|].
    by rewrite lookup_insert_eq.
  - intros a Ha. cbn. by rewrite lookup_insert_ne.
Qed.

(** The same on a well-formed heap. *)
Lemma wp_new_seq m (Q : recv_buffer_sequence → mem → Prop) : heap_wf m →
  (∀ q m', seq_rep m' q [] → heap_wf m' → headers m !! p_sentry_ q = None → p_sentry_ q ≠ default_buf_header →
     payload m' = payload m → (∀ a, a ≠ p_sentry_ q → headers m' !! a = headers m !! a) → Q q m') →
  wp sequence_new m Q.
Proof.
  intros Hw HQ. pose proof (hw_brk _ Hw) as Hb.
  pose proof (sequence_new_wp m (heap_wf_fresh _ Hw) ltac:(unfold nullptr, default_buf_header in *; lia)) as Hn.
  apply wp_run in Hn as (q & m0 & En & Hs & Eq & Hp & Hm). unfold wp. rewrite En. apply HQ; try done.
  - destruct Hw as [H1 H2 H3]. unfold sequence_new in En. injection En as <- <-. cbn in *.
    unfold default_buf_header, S_hdr, nullptr in *. split; cbn; unfold default_buf_header, S_hdr, nullptr in *; [lia| |].
    + intros a Ha. destruct (decide (a = brk m)) as [->|Hne]; [lia|]. rewrite lookup_insert_ne in Ha by done.
      specialize (H2 _ Ha). lia.
    + rewrite lookup_insert_ne by lia. done.
  - rewrite Eq. by apply heap_wf_fresh.
  - rewrite Eq. unfold default_buf_header in *. lia.
  - by rewrite Eq.
Qed.

Lemma steal_wp m this rhs l :
  seq_rep m this [] → seq_rep m rhs l →
  p_sentry_ this ∉ p_sentry_ rhs :: l →
  wp (steal this rhs) m (λ r m',
    seq_rep m' r.1 l ∧ seq_rep m' r.2 [] ∧
    links_only (p_sentry_ this :: p_sentry_ rhs :: l) m m' ∧
    p_sentry_ r.1 = p_sentry_ this ∧ p_sentry_ r.2 = p_sentry_ rhs).
Proof.
  intros Ht Hr Hd. pose proof (rep_sentry_alloc _ _ _ Ht) as Hta.
  pose proof (rep_sentry_alloc _ _ _ Hr) as Hra. pose proof (rep_sentry_notin _ _ _ Hr) as Hrl.
  assert (p_sentry_ this ≠ p_sentry_ rhs) by set_solver. assert (p_sentry_ this ∉ l) by set_solver.
  unfold steal. wp_steps. apply wp_upd_header; [done|]. wp_steps.
  apply wp_upd_header; [links|]. cbn [tail_ upd eta eta_seq]. wp_steps. apply wp_when.
  - intros E. bool_simp.
    destruct l as [|t l0 _] using rev_ind; [by destruct E; apply (rep_nil_tail _ _ _ Hr)|].
    assert (tail_ rhs = t) as Et by (rewrite (rep_tail _ _ _ Hr); apply last_or_snoc). rewrite Et.
    assert (is_Some (headers m !! t)) by (eapply rep_alloc; [done|set_solver]).
    apply wp_upd_header; [links|]. wp_steps.
    assert (p_sentry_ this ≠ t) by set_solver. assert (p_sentry_ rhs ≠ t) by set_solver.
    destruct Hr as [Rnd Rnull Rdef Rnum Rhd Rtl Rseg Rsen].
    split_and!; [| |links_chain|done|done].
    + split; cbn; try done.
      * apply NoDup_cons in Rnd as [_ Rnd]. apply NoDup_cons. split; [set_solver|done].
      * by rewrite last_or_snoc.
      * eapply dlseg_restop; [by apply NoDup_cons in Rnd as [_ Rnd]|done|].
        do 2 (apply dlseg_alter_out; [done|]). done.
      * rewrite last_or_snoc. alter_simp. by destruct Hta as [? ->].
    + split; cbn; try done; [apply NoDup_singleton|set_solver|set_solver|].
      unfold last_or. simpl. alter_simp. by destruct Hra as [? ->].
  - intros E. bool_simp. apply (rep_nil_tail _ _ _ Hr) in E as El. subst l. wp_steps.
    destruct Hr as [Rnd Rnull Rdef Rnum Rhd Rtl Rseg Rsen].
    split_and!; [| |links_chain|done|done].
    + split; cbn; try done; [apply NoDup_singleton|].
      rewrite E. alter_simp. by destruct Hta as [? ->].
    + split; cbn; try done.
      unfold last_or. simpl. alter_simp. by destruct Hra as [? ->].
Qed.

(** Where two disjoint sequences are joined, the blocks whose links change differ. *)
Lemma splice_apart (s1 s2 t1 p2 : ptr) l1 l2 t2 : s1 ∉ l1 ++ [t1] → s2 ∉ p2 :: l2 →
  (s1 :: l1 ++ [t1]) ## (s2 :: p2 :: l2) → t2 ∈ p2 :: l2 →
  s1 ≠ s2 ∧ s1 ∉ p2 :: l2 ∧ t1 ≠ s2 ∧ t1 ∉ p2 :: l2 ∧
  (t2 ∉ l1 ++ [t1] ∧ t2 ≠ s1 ∧ t2 ≠ s2) ∧ (p2 ∉ l1 ++ [t1] ∧ p2 ≠ s1 ∧ p2 ≠ s2) ∧ (t1 ≠ s1 ∧ t1 ≠ p2 ∧ t1 ≠ t2) ∧
  (∀ a, a ∈ p2 :: l2 → a ∉ l1 ++ [t1] ∧ a ≠ s1 ∧ a ≠ s2) ∧ (∀ a, a ∈ l1 → a ∉ p2 :: l2).
Proof.
  intros Ts Rs Hd Ht2.
  assert (∀ a, a ∈ s1 :: l1 ++ [t1] → a ∉ s2 :: p2 :: l2) as Hd' by (intros a Ha Hb; exact (Hd a Ha Hb)).
  assert (t1 ∈ l1 ++ [t1]) as Ht1 by (apply elem_of_app; right; apply list_elem_of_here).
  assert (p2 ∈ p2 :: l2) as Hp2 by apply list_elem_of_here.
  pose proof (Hd' s1 (list_elem_of_here _ _)) as [X1 X2]%not_elem_of_cons.
  pose proof (Hd' t1 (list_elem_of_further _ _ _ Ht1)) as [X3 X4]%not_elem_of_cons.
  assert (∀ a, a ∈ p2 :: l2 → a ∉ l1 ++ [t1] ∧ a ≠ s1 ∧ a ≠ s2) as D6.
  { intros a Ha. split_and!; [|by intros ->|by intros ->].
    intros Hb. by apply (Hd' a (list_elem_of_further _ _ _ Hb)), list_elem_of_further. }
  split_and!; try done; try (by apply D6); try (by intros ->).
  intros a Ha Hb. apply (proj1 (D6 a Hb)), elem_of_app. by left.
Qed.

Lemma concat_both_wp m this rhs l1 l2 :
  seq_rep m this l1 → seq_rep m rhs l2 → l1 ≠ [] → l2 ≠ [] →
  (p_sentry_ this :: l1) ## (p_sentry_ rhs :: l2) →
  wp (concat_seq this rhs) m (λ r m',
    seq_rep m' r.1 (l1 ++ l2) ∧ seq_rep m' r.2 [] ∧
    links_only (p_sentry_ this :: l1 ++ p_sentry_ rhs :: l2) m m').
Proof.
  intros Ht Hr N1 N2 Hd. unfold concat_seq.
  rewrite (rep_empty _ _ _ Hr), (rep_empty _ _ _ Ht), !bool_decide_eq_false_2 by done.
  pose proof (rep_sentry_alloc _ _ _ Ht) as Hta. pose proof (rep_sentry_alloc _ _ _ Hr) as Hra.
  destruct l1 as [|t1 l1 _] using rev_ind; [done|]. destruct l2 as [|p2 l2]; [done|]. clear N1 N2.
  assert (∃ l2' t2, p2 :: l2 = l2' ++ [t2]) as (l2' & t2 & E2).
  { destruct (exists_last (l := (p2 :: l2))) as (l2' & t2 & ->); [done|eauto]. }
  assert (is_Some (headers m !! t1)) by (eapply rep_alloc; [exact Ht|set_solver]).
  assert (is_Some (headers m !! p2)) by (eapply rep_alloc; [exact Hr|set_solver]).
  assert (is_Some (headers m !! t2)) by (eapply rep_alloc; [exact Hr|rewrite E2; set_solver]).
  destruct Ht as [Tnd Tnull Tdef Tnum Thd Ttl Tseg Tsen].
  destruct Hr as [Rnd Rnull Rdef Rnum Rhd Rtl Rseg Rsen].
  rewrite E2 in Rtl. rewrite last_or_snoc in Ttl, Rtl. simpl in Rhd. rewrite Ttl, Rtl, Rhd.
  assert (t2 ∈ p2 :: l2) as Ht2 by (rewrite E2; set_solver).
  apply NoDup_cons in Tnd as [Ts Tnd]. apply NoDup_cons in Rnd as [Rs Rnd].
  destruct (splice_apart _ _ _ _ _ _ t2 Ts Rs Hd Ht2) as (D1 & D2 & D3 & D4 & (D7 & D8 & D9) & (D10 & D11 & D12) & (? & ? & ?) & D6 & D13).
  wp_steps. apply wp_upd_header; [done|]. wp_steps. apply wp_upd_header; [links|]. wp_steps.
  apply wp_upd_header; [links|]. wp_steps. apply wp_upd_header; [links|]. wp_steps.
  apply wp_upd_header; [links|]. wp_steps.
  split_and!.
  - split; cbn; try done.
    + apply NoDup_cons. split; [set_solver|]. apply NoDup_app. split_and!; [done| |done].
      intros a Ha Hb. by destruct (D6 a Hb).
    + set_solver.
    + set_solver.
    + rewrite Tnum, Rnum, !length_app. simpl. lia.
    + rewrite Thd. by destruct l1.
    + by rewrite last_or_app, E2, last_or_snoc.
    + apply dlseg_app. split.
      * apply dlseg_alter_out; [set_solver|]. apply dlseg_alter_out; [done|].
        apply dlseg_alter_out; [done|]. apply dlseg_alter_out; [done|].
        eapply dlseg_restop; [done|done|exact Tseg].
      * rewrite last_or_snoc, E2. apply dlseg_alter_out; [by rewrite <- E2|].
        apply dlseg_alter_out; [by rewrite <- E2|].
        eapply dlseg_restop; [by rewrite <- E2|done|]. rewrite <- E2.
        eapply dlseg_repre; [done|done|]. apply dlseg_alter_out; [done|]. exact Rseg.
    + rewrite last_or_app, E2, last_or_snoc. alter_simp. by destruct Hta as [? ->].
  - split; cbn; try done; [apply NoDup_singleton|set_solver|set_solver|].
    unfold last_or. simpl. alter_simp. by destruct Hra as [? ->].
  - repeat (apply links_only_cons; [|set_solver|done]). apply links_only_refl.
Qed.
End Operations.

(** The heap of a new program. *)
Lemma mem_init_wf : heap_wf mem_init.
Proof.
  split; [done| |done]. intros a Ha. destruct (decide (a = default_buf_header)) as [->|Hne]; [done|].
  change (headers mem_init) with ({[ default_buf_header := Hdr 0 0 0 0 ]} : gmap Z buf_header_impl) in Ha.
  rewrite lookup_singleton_ne in Ha by done. by destruct Ha.
Qed.
