(* ===== verification/BufferFlat.v ===== *)
(** Releasing, iterating over and flattening a receive buffer sequence, and the
    theorems about the sequence: it is a FIFO queue of blocks, its two iterator
    directions agree, and [to_bytes] is the concatenation of its contents. *)

From S2P Require Import Prelude Buffer BufferSpec.


Section Flatten.
Implicit Types (m : mem) (s : recv_buffer_sequence) (l : list ptr).

(** *** free_list *)

Lemma nodup_keys_size {A} (H : gmap Z A) l :
  NoDup l → (∀ a, a ∈ l → is_Some (H !! a)) → (length l ≤ size H)%nat.
Proof.
  intros Hnd Hin. rewrite <- size_dom, <- (size_list_to_set (C := gset Z)) by done.
  apply subseteq_size. intros a Ha. apply elem_of_list_to_set in Ha.
  by apply elem_of_dom, Hin.
Qed.

Lemma rep_fuel m s l : seq_rep m s l → (length l ≤ size (headers m))%nat.
Proof.
  intros Hr. apply nodup_keys_size; [by eapply rep_nodup_list|].
  intros a. by apply rep_alloc with (s := s).
Qed.

Lemma rep_begin m s l : seq_rep m s l → seq_begin s = hd (p_sentry_ s) l.
Proof.
  intros Hr. unfold seq_begin. rewrite (rep_empty _ _ _ Hr), (rep_head _ _ _ Hr).
  by destruct l.
Qed.

Lemma free_loop_wp l : ∀ fuel m pre stop,
  dlseg (headers m) pre l stop → NoDup (stop :: l) → (length l ≤ fuel)%nat →
  wp (free_loop fuel (hd stop l) stop) m (λ _ m', without l m m').
Proof.
  induction l as [|p l IH]; intros fuel m pre stop Hseg Hnd Hf.
  - destruct fuel; simpl; rewrite decide_True by done; apply wp_ret;
      (split; [done|]; intros a; rewrite !decide_False by apply not_elem_of_nil; done).
  - destruct fuel as [|fuel]; simpl in Hf; [lia|].
    apply NoDup_cons in Hnd as [Hst Hnd]. apply NoDup_cons in Hnd as [Hp Hnd].
    simpl in Hseg. destruct (headers m !! p) as [h|] eqn:Ep; [|done].
    destruct Hseg as (_ & Hn & Hseg). simpl. rewrite decide_False by set_solver.
    wp_steps. eapply wp_get_next; [done|]. cbv beta. wp_steps. rewrite Hn.
    unfold wp at 1, aligned_delete. rewrite Ep.
    eapply wp_mono.
    + apply IH with (pre := p); [|apply NoDup_cons; split; [set_solver|done]|lia].
      cbn. eapply dlseg_frame; [|done]. intros a Ha. rewrite lookup_delete_ne; [done|set_solver].
    + intros _ m' [Hb Hw]. split; [done|]. intros a. destruct (Hw a) as [-> ->]. cbn.
      destruct (decide (a = p)) as [->|Hap].
      * rewrite !lookup_delete_eq. assert (p ∈ p :: l) by set_solver.
        split; repeat case_decide; done.
      * rewrite !lookup_delete_ne by done. destruct (decide (a ∈ l)).
        -- by rewrite !decide_True by set_solver.
        -- by rewrite !decide_False by set_solver.
Qed.

Lemma free_list_wp m s l :
  seq_rep m s l →
  wp (free_list s) m (λ s' m',
    seq_rep m' s' [] ∧ p_sentry_ s' = p_sentry_ s ∧ brk m' = brk m ∧
    (∀ a, a ∈ l → headers m' !! a = None ∧ payload m' !! a = None) ∧
    (∀ a, a ∉ l → payload m' !! a = payload m !! a ∧
          (a ≠ p_sentry_ s → headers m' !! a = headers m !! a))).
Proof.
  intros Hr. unfold free_list. case_decide as Eh.
  - apply (rep_nil_head _ _ _ Hr) in Eh as ->. apply wp_ret.
    split_and!; [done|done|done|set_solver|done].
  - wp_steps. rewrite (rep_head _ _ _ Hr) in *.
    assert (hd nullptr l = hd (p_sentry_ s) l) as -> by (by destruct l).
    eapply wp_mono; [apply (free_loop_wp _ _ _ nullptr); [apply Hr|apply Hr|by eapply rep_fuel]|].
    intros _ m1 [Hb Hw]. pose proof (rep_sentry_notin _ _ _ Hr) as Hs.
    assert (is_Some (headers m1 !! p_sentry_ s)) as Hsa.
    { destruct (Hw (p_sentry_ s)) as [-> _]. rewrite decide_False by done. by eapply rep_sentry_alloc. }
    wp_steps. apply wp_upd_header; [done|]. wp_steps. apply wp_upd_header; [links|]. wp_steps.
    split_and!; [|done|done| |].
    + split; cbn; try done; [apply NoDup_singleton|apply not_elem_of_nil|apply not_elem_of_nil|].
      unfold last_or; simpl. alter_simp. by destruct Hsa as [? ->].
    + intros a Ha. cbn. destruct (Hw a) as [E1 E2]. rewrite decide_True in E1 by done. rewrite decide_True in E2 by done.
      rewrite !lookup_alter_ne by set_solver. done.
    + intros a Ha. destruct (Hw a) as [E1 E2]. rewrite decide_False in E1 by done. rewrite decide_False in E2 by done.
      cbn. split; [done|]. intros Hne. by rewrite !lookup_alter_ne.
Qed.

(** *** Iteration and flattening *)

Lemma iter_next_wp m p h :
  headers m !! p = Some h → p ≠ nullptr → iter_next p m = (Ret (next_ h), m).
Proof.
  intros E Hp. unfold iter_next, get_next, load_header, assert. munfold.
  rewrite (proj2 (Z.eqb_neq p nullptr) Hp). simpl. by rewrite E.
Qed.

Lemma iter_prev_wp m p h :
  headers m !! p = Some h → iter_prev p m = (Ret (prev_ h), m).
Proof. intros E. unfold iter_prev, get_prev, load_header. munfold. by rewrite E. Qed.

Lemma forward_wp l : ∀ m pre p stop,
  dlseg (headers m) pre (p :: l) stop → nullptr ∉ p :: l →
  iterate iter_next (S (length l)) p m = (Ret (l ++ [stop]), m).
Proof.
  induction l as [|q l IH]; intros m pre p stop Hseg Hnull;
    simpl in Hseg; destruct (headers m !! p) as [h|] eqn:E; try done;
    destruct Hseg as (_ & Hn & Hseg).
  - simpl. rewrite (bind_ret _ _ _ _ _ (iter_next_wp m p h E ltac:(set_solver))).
    by rewrite Hn.
  - cbn [iterate length]. rewrite (bind_ret _ _ _ _ _ (iter_next_wp m p h E ltac:(set_solver))).
    rewrite Hn. cbn [hd].
    rewrite (bind_ret _ _ _ _ _ (IH m p q stop Hseg ltac:(set_solver))). done.
Qed.

Lemma backward_run l : ∀ m x stop,
  prev_ <$> headers m !! x = Some (last_or nullptr l) → dlseg (headers m) nullptr l stop →
  iterate iter_prev (length l) x m = (Ret (rev l), m).
Proof.
  induction l as [|t l IH] using rev_ind; intros m x stop Hx Hseg; [done|].
  destruct (headers m !! x) as [h|] eqn:E; simplify_eq/=. rewrite last_or_snoc in Hx.
  apply dlseg_app in Hseg as [Hl Ht]. simpl in Ht.
  destruct (headers m !! t) as [ht|] eqn:Et; [|done]. destruct Ht as (Hp & _ & _).
  rewrite length_app, Nat.add_comm, rev_app_distr. cbn [length Nat.add iterate rev app].
  rewrite (bind_ret _ _ _ _ _ (iter_prev_wp m x h E)), Hx.
  rewrite (bind_ret _ _ _ _ _ (IH m t _ ltac:(rewrite Et; simpl; congruence) Hl)). done.
Qed.

Lemma view_size_run m p h : headers m !! p = Some h → view_size p m = (Ret (size_ h), m).
Proof. intros E. unfold view_size, load_header. munfold. by rewrite E. Qed.

Lemma readable_bytes_run m p :
  block_ok m p → readable_bytes p m = (Ret (bytes_of m p), m).
Proof.
  intros (h & E & Hs & Hc). unfold readable_bytes, bytes_of.
  rewrite (bind_ret _ _ _ _ _ (view_size_run m p h E)). munfold. rewrite E.
  destruct (Z.ltb_spec (Z.of_nat (length (block m p))) (size_ h)); [lia|done].
Qed.

Lemma bytes_of_length m p h :
  headers m !! p = Some h → block_ok m p → Z.of_nat (length (bytes_of m p)) = size_ h.
Proof.
  intros E (h' & E' & Hs & Hc). simplify_eq. unfold bytes_of. rewrite E, length_take. lia.
Qed.

Lemma buffer_size_loop_run l : ∀ fuel m pre stop n,
  dlseg (headers m) pre l stop → NoDup (stop :: l) → nullptr ∉ l →
  Forall (block_ok m) l → (length l ≤ fuel)%nat →
  0 ≤ n → n + Z.of_nat (length (all_bytes m l)) < 2 ^ 64 →
  buffer_size_loop fuel (hd stop l) stop n m =
    (Ret (n + Z.of_nat (length (all_bytes m l))), m).
Proof.
  induction l as [|p l IH]; intros fuel m pre stop n Hseg Hnd Hnull Hok Hf Hn Hb.
  - destruct fuel; simpl; (rewrite decide_True by done); unfold all_bytes; simpl;
      by rewrite Z.add_0_r.
  - destruct fuel as [|fuel]; simpl in Hf; [lia|].
    apply NoDup_cons in Hnd as [Hst Hnd]. apply NoDup_cons in Hnd as [Hp Hnd].
    apply Forall_cons in Hok as [Hok1 Hok].
    simpl in Hseg. destruct (headers m !! p) as [h|] eqn:E; [|done]. destruct Hseg as (_ & Hx & Hseg).
    unfold all_bytes in *. simpl in Hb |- *. rewrite length_app in *.
    rewrite decide_False by set_solver.
    rewrite (bind_ret _ _ _ _ _ (view_size_run m p h E)).
    rewrite (bind_ret _ _ _ _ _ (iter_next_wp m p h E ltac:(set_solver))).
    pose proof (bytes_of_length m p h E Hok1). destruct Hok1 as (h' & E' & Hs & _). simplify_eq.
    rewrite Hx, Z.mod_small by lia. rewrite (IH _ _ p); [f_equal; f_equal; lia|done| |set_solver|done|lia|lia|lia].
    apply NoDup_cons. split; [set_solver|done].
Qed.

Lemma buffer_copy_loop_run l : ∀ fuel m pre stop room out,
  dlseg (headers m) pre l stop → NoDup (stop :: l) → nullptr ∉ l →
  Forall (block_ok m) l → (length l ≤ fuel)%nat →
  buffer_copy_loop fuel (hd stop l) stop room out m =
    (Ret (out ++ take room (all_bytes m l)), m).
Proof.
  induction l as [|p l IH]; intros fuel m pre stop room out Hseg Hnd Hnull Hok Hf.
  - destruct fuel; simpl; (rewrite decide_True by done); unfold all_bytes; simpl;
      by rewrite take_nil, app_nil_r.
  - destruct fuel as [|fuel]; simpl in Hf; [lia|].
    apply NoDup_cons in Hnd as [Hst Hnd]. apply NoDup_cons in Hnd as [Hp Hnd].
    apply Forall_cons in Hok as [Hok1 Hok].
    simpl in Hseg. destruct (headers m !! p) as [h|] eqn:E; [|done]. destruct Hseg as (_ & Hx & Hseg).
    assert (NoDup (stop :: l)) by (apply NoDup_cons; split; [set_solver|done]).
    pose proof (bytes_of_length m p h E Hok1) as Hlen.
    unfold all_bytes in *. simpl. rewrite decide_False by set_solver.
    unfold view_empty. munfold. rewrite (view_size_run m p h E). simpl.
    destruct (Z.eqb_spec (size_ h) 0) as [E0|E0]; simpl.
    + rewrite (iter_next_wp m p h E ltac:(set_solver)), Hx. fold all_bytes.
      rewrite (IH _ _ p) by (done || lia || set_solver).
      destruct (bytes_of m p); [done|simpl in Hlen; lia].
    + rewrite (readable_bytes_run m p Hok1).
      set (src := bytes_of m p) in *. case_decide as D1; [|case_decide as D2].
      * rewrite Nat.min_l by lia. by rewrite take_app_le by lia.
      * rewrite Nat.min_r by lia. rewrite firstn_all, take_app_ge by lia.
        replace (room - length src)%nat with 0%nat by lia. by rewrite app_nil_r.
      * rewrite (iter_next_wp m p h E ltac:(set_solver)), Hx.
        rewrite (IH _ _ p) by (done || lia || set_solver).
        rewrite Nat.min_r by lia. by rewrite firstn_all, take_app_ge, app_assoc by lia.
Qed.

(** *** The sequence as a queue *)

Lemma detached_frame X m m' p :
  detached m p → links_only X m m' → p ∉ X → detached m' p.
Proof. intros (? & ? & Hp) [_ _ Ho _] HX. split_and!; [done..|]. by rewrite Ho. Qed.

Lemma run_op_sim m s st op st' o :
  queue_rep m s st → queue_op st op = Some (st', o) →
  wp (run_op s op) m (λ r m',
    r.2 = o ∧ queue_rep m' r.1 st' ∧ ∀ p, bytes_of m' p = bytes_of m p).
Proof.
  destruct st as [l held]. intros [Hr Hh] Hop. destruct op as [p|]; simpl in *.
  - case_decide as Hp; simplify_eq. destruct (Hh p Hp) as [Hd Hn].
    wp_steps. eapply wp_mono; [by apply push_back_wp|].
    intros s' m' (Hr' & Hlo & Hs). wp_steps. split_and!; [done| |].
    + split; [done|]. simpl. intros q Hq. destruct (Hh q) as [Hdq Hnq]; [set_solver|].
      split; [eapply detached_frame; [done..|set_solver]|]. rewrite Hs. set_solver.
    + intros q. by eapply links_only_bytes.
  - destruct l as [|p l]; simplify_eq. wp_steps.
    eapply wp_mono; [by apply pop_front_wp|].
    intros [q s'] m' (Hq & Hr' & Hd & Hlo & Hs). simpl in *. subst q. wp_steps. split_and!; [done| |].
    + pose proof (rep_nodup _ _ _ Hr) as Hnd. split; [done|]. simpl. rewrite Hs.
      intros q [->%elem_of_singleton|Hq]%elem_of_union.
      * split; [done|]. apply NoDup_cons in Hnd as [? Hnd]. apply NoDup_cons in Hnd. set_solver.
      * destruct (Hh q Hq) as [Hdq Hnq].
        split; [eapply detached_frame; [done..|set_solver]|set_solver].
    + intros q. by eapply links_only_bytes.
Qed.

(** C5. A receive buffer sequence is a FIFO queue: every run of [push_back] and
    [pop_front] that is possible on a list of buffers runs on the linked list
    without a fault, returns the same buffers in the same order, ends in a state
    that represents the list, leaves every popped buffer detached, and changes
    no byte of any buffer. *)
Theorem sequence_refines_queue ops : ∀ m s st st' outs,
  queue_rep m s st → queue_ops st ops = Some (st', outs) →
  ∃ s' m', run_ops s ops m = (Ret (s', outs), m') ∧ queue_rep m' s' st' ∧
           ∀ p, bytes_of m' p = bytes_of m p.
Proof.
  induction ops as [|op ops IH]; intros m s st st' outs Hr Hq; simpl in Hq.
  - simplify_eq. by exists s, m.
  - destruct (queue_op st op) as [[st1 o1]|] eqn:E1; [|done]. simpl in Hq.
    destruct (queue_ops st1 ops) as [[st2 o2]|] eqn:E2; [|done]. simplify_eq/=.
    pose proof (run_op_sim m s st op st1 o1 Hr E1) as H1.
    apply wp_run in H1 as ([s1 o1'] & m1 & E & Ho & Hr1 & Hb1). simpl in *. subst o1'.
    destruct (IH m1 s1 st1 st' o2 Hr1 E2) as (s2 & m2 & E' & Hr2 & Hb2).
    exists s2, m2. rewrite (bind_ret _ _ _ _ _ E). simpl. rewrite (bind_ret _ _ _ _ _ E').
    split_and!; [done|done|]. intros p. by rewrite Hb2, Hb1.
Qed.

(** [concat] appends the whole of [rhs] to [this] and leaves [rhs] empty, for
    empty and non-empty operands alike, and it moves blocks without touching a
    byte of them. *)
Lemma concat_appends m this rhs l1 l2 :
  seq_rep m this l1 → seq_rep m rhs l2 →
  (p_sentry_ this :: l1) ## (p_sentry_ rhs :: l2) →
  ∃ this' rhs' m', concat_seq this rhs m = (Ret (this', rhs'), m') ∧
    seq_rep m' this' (l1 ++ l2) ∧ seq_rep m' rhs' [] ∧
    ∀ p, bytes_of m' p = bytes_of m p.
Proof.
  intros Ht Hr Hd.
  assert (wp (concat_seq this rhs) m (λ r m', seq_rep m' r.1 (l1 ++ l2) ∧ seq_rep m' r.2 [] ∧
    ∀ p, bytes_of m' p = bytes_of m p)) as H.
  { destruct (decide (l2 = [])) as [->|N2]; [|destruct (decide (l1 = [])) as [->|N1]].
    - unfold concat_seq. rewrite (rep_empty _ _ _ Hr). apply wp_ret. by rewrite app_nil_r.
    - unfold concat_seq, sequence_assign.
      rewrite (rep_empty _ _ _ Hr), (rep_empty _ _ _ Ht), bool_decide_eq_false_2 by done.
      simpl. wp_steps. eapply wp_mono; [apply steal_wp; [done|done|]|].
      + intros Hin. exact (Hd (p_sentry_ this) ltac:(set_solver) Hin).
      + intros r m' (? & ? & Hlo & _). split_and!; [done..|]. intros p. by eapply links_only_bytes.
    - eapply wp_mono; [by apply concat_both_wp|].
      intros r m' (? & ? & Hlo). split_and!; [done..|]. intros p. by eapply links_only_bytes. }
  apply wp_run in H as ([this' rhs'] & m' & E & H). eauto.
Qed.

(** Move assignment frees every block of the destination, exactly those, and
    hands the source's blocks over in order; the source is left empty. *)
Lemma sequence_assign_spec m this rhs l1 l2 :
  seq_rep m this l1 → seq_rep m rhs l2 →
  (p_sentry_ this :: l1) ## (p_sentry_ rhs :: l2) →
  ∃ this' rhs' m', sequence_assign this rhs m = (Ret (this', rhs'), m') ∧
    seq_rep m' this' l2 ∧ seq_rep m' rhs' [] ∧
    (∀ p, p ∈ l1 → headers m' !! p = None ∧ payload m' !! p = None) ∧
    (∀ p, p ∉ p_sentry_ this :: p_sentry_ rhs :: l1 → bytes_of m' p = bytes_of m p).
Proof.
  intros Ht Hr Hd.
  assert (p_sentry_ this ∉ p_sentry_ rhs :: l2) as Hd1
    by (intros Hin; exact (Hd (p_sentry_ this) ltac:(mem_tac) Hin)).
  assert (∀ a, a ∈ l1 → a ∉ p_sentry_ rhs :: l2) as Hd2
    by (intros a Ha Hin; exact (Hd a ltac:(mem_tac) Hin)).
  assert (wp (if seq_empty this then mret this else free_list this) m (λ s' m',
    seq_rep m' s' [] ∧ p_sentry_ s' = p_sentry_ this ∧ brk m' = brk m ∧
    (∀ a, a ∈ l1 → headers m' !! a = None ∧ payload m' !! a = None) ∧
    (∀ a, a ∉ l1 → payload m' !! a = payload m !! a ∧
          (a ≠ p_sentry_ this → headers m' !! a = headers m !! a)))) as H1.
  { rewrite (rep_empty _ _ _ Ht). case_bool_decide as E.
    - subst l1. apply wp_ret. split_and!; [done..|by intros a ?%not_elem_of_nil|done].
    - by apply free_list_wp. }
  assert (wp (sequence_assign this rhs) m (λ r m',
    seq_rep m' r.1 l2 ∧ seq_rep m' r.2 [] ∧
    (∀ p, p ∈ l1 → headers m' !! p = None ∧ payload m' !! p = None) ∧
    (∀ p, p ∉ p_sentry_ this :: p_sentry_ rhs :: l1 → bytes_of m' p = bytes_of m p))) as H.
  { unfold sequence_assign. wp_steps. eapply wp_mono; [exact H1|].
    intros s1 m1 (R1 & S1 & B1 & Hfree & Hkeep).
    assert (seq_rep m1 rhs l2) as R2.
    { destruct Hr as [? ? ? ? ? ? Hseg Hsen]. split; try done.
      - eapply dlseg_frame; [|exact Hseg]. intros a Ha. apply Hkeep.
        + intros Hx. apply (Hd2 a Hx). mem_tac.
        + intros ->. apply Hd1, elem_of_cons; by right.
      - destruct (Hkeep (p_sentry_ rhs)) as [_ ->]; [|done|].
        + intros Hx. apply (Hd2 _ Hx). mem_tac.
        + intros E. apply Hd1. rewrite <- E. apply elem_of_cons; by left. }
    eapply wp_mono; [apply steal_wp; [done|done|by rewrite S1]|].
    intros r m' (? & ? & Hlo & _). split_and!; [done|done| |].
    - intros p Hp. destruct (Hfree p Hp) as [Hf1 Hf2]. split.
      + pose proof (lo_in _ _ _ Hlo p) as E. rewrite Hf1 in E. by destruct (headers m' !! p).
      + by rewrite (lo_payload _ _ _ Hlo).
    - intros p Hp. rewrite (links_only_bytes _ _ _ p Hlo).
      destruct (Hkeep p) as [K1 K2]; [mem_tac|]. unfold bytes_of, block.
      rewrite K1, K2; [done|mem_tac]. }
  apply wp_run in H as ([this' rhs'] & m' & E & H). eauto.
Qed.

(** [free_list], the destructor's loop, terminates, frees every block of the
    sequence once and nothing else, and leaves the sequence empty. *)
Lemma free_list_frees m s l :
  seq_rep m s l →
  ∃ s' m', free_list s m = (Ret s', m') ∧ seq_rep m' s' [] ∧
    (∀ p, p ∈ l → headers m' !! p = None ∧ payload m' !! p = None) ∧
    (∀ p, p ∉ p_sentry_ s :: l → headers m' !! p = headers m !! p ∧
                                 payload m' !! p = payload m !! p).
Proof.
  intros Hr. pose proof (free_list_wp m s l Hr) as H.
  apply wp_run in H as (s' & m' & E & R & _ & _ & Hf & Hk).
  exists s', m'. split_and!; [done..|]. intros p Hp. destruct (Hk p) as [K1 K2]; [set_solver|].
  split; [apply K2; set_solver|done].
Qed.

(** Iterating forwards from [begin()] visits the buffers in order and reaches
    [end()]; iterating backwards from [end()] visits them in reverse order. *)
Lemma iteration_order m s l :
  seq_rep m s l →
  iterate iter_next (length l) (seq_begin s) m =
    (Ret (drop 1 (l ++ [seq_end s])), m) ∧
  iterate iter_prev (length l) (seq_end s) m = (Ret (rev l), m).
Proof.
  intros Hr. rewrite (rep_begin _ _ _ Hr). unfold seq_end.
  destruct Hr as [Rnd Rnull Rdef Rnum Rhd Rtl Rseg Rsen]. split.
  - destruct l as [|p l]; [done|]. cbn [length hd].
    by rewrite (forward_wp l m nullptr p _ Rseg Rnull).
  - by eapply backward_run.
Qed.

Lemma buffer_copy_run m s l dst :
  seq_rep m s l → Forall (block_ok m) l →
  let total := all_bytes m l in
  let n := (length dst `min` length total)%nat in
  buffer_copy dst s m = (Ret (take n total ++ drop n dst, Z.of_nat n), m).
Proof.
  intros Hr Hok total n. unfold buffer_copy. rewrite (rep_begin _ _ _ Hr). unfold seq_end.
  rewrite bind_gets.
  pose proof (rep_fuel _ _ _ Hr) as Hfuel.
  destruct Hr as [Rnd Rnull Rdef Rnum Rhd Rtl Rseg Rsen].
  rewrite (bind_ret _ _ _ _ _ (buffer_copy_loop_run l _ m nullptr _ (length dst) [] Rseg Rnd Rnull Hok Hfuel)).
  simpl. fold total. unfold mret, M_ret. rewrite length_take. fold n. do 3 f_equal.
  unfold n. destruct (Nat.min_spec (length dst) (length total)) as [[? ->]|[? ->]]; [done|].
  by rewrite !take_ge.
Qed.

(** [buffer_copy] fills the destination with a prefix of the bytes of the
    buffers, in order and skipping empty buffers: it writes exactly
    [min( dst.size(), total )] bytes, returns that count, leaves the rest of the
    destination alone and terminates within one step per buffer. *)
Lemma buffer_copy_prefix m s l dst :
  seq_rep m s l → Forall (block_ok m) l →
  let total := all_bytes m l in
  let n := (length dst `min` length total)%nat in
  buffer_copy dst s m = (Ret (take n total ++ drop n dst, Z.of_nat n), m).
Proof. apply buffer_copy_run. Qed.

Lemma to_bytes_run m s l :
  seq_rep m s l → Forall (block_ok m) l →
  Z.of_nat (length (all_bytes m l)) < 2 ^ 64 →
  to_bytes s m = (Ret (all_bytes m l), m).
Proof.
  intros Hr Hok Hb.
  unfold to_bytes, buffer_size. rewrite (rep_begin _ _ _ Hr). unfold seq_end.
  rewrite (bind_ret (gets _ ≫= _) _ m (Z.of_nat (length (all_bytes m l))) m).
  - rewrite Nat2Z.id.
    rewrite (bind_ret _ _ _ _ _ (buffer_copy_run m s l _ Hr Hok)). simpl.
    rewrite length_replicate, Nat.min_id, firstn_all, drop_ge by (by rewrite length_replicate).
    by rewrite app_nil_r.
  - rewrite bind_gets.
    pose proof (rep_fuel _ _ _ Hr) as Hfuel.
    destruct Hr as [Rnd Rnull Rdef Rnum Rhd Rtl Rseg Rsen].
    rewrite (buffer_size_loop_run l _ m nullptr _ 0 Rseg Rnd Rnull Hok Hfuel); [done|lia|lia].
Qed.

(** C19. [to_bytes] and [to_string] return the concatenation of the readable
    bytes of the buffers, nothing lost and nothing added, and change nothing. *)
Theorem to_bytes_concat m s l :
  seq_rep m s l → Forall (block_ok m) l →
  Z.of_nat (length (all_bytes m l)) < 2 ^ 64 →
  to_bytes s m = (Ret (all_bytes m l), m) ∧ to_string s m = (Ret (all_bytes m l), m).
Proof. intros. split; by apply to_bytes_run. Qed.

End Flatten.

(** ** Witnesses: the sample memory *)

Ltac decide_by_compute := apply (bool_decide_unpack _); vm_compute; exact I.

Lemma sample_run : sample mem_init = (Ret (sample_s1, sample_s2), sample_mem).
Proof. vm_compute. reflexivity. Qed.

Lemma sample_rep1 : seq_rep sample_mem sample_s1 [128; 164].
Proof. split; [decide_by_compute..|]; vm_compute; auto. Qed.

Lemma sample_rep2 : seq_rep sample_mem sample_s2 [200].
Proof. split; [decide_by_compute..| |]; vm_compute; auto. Qed.

Lemma sample_queue : queue_rep sample_mem sample_s1 ([128; 164], {[240]} ∪ {[274]}).
Proof.
  split; [apply sample_rep1|]. simpl.
  intros p [Hp%elem_of_singleton|Hp%elem_of_singleton]%elem_of_union; subst p;
    (split; [unfold detached; split_and!; [decide_by_compute..|by vm_compute]|decide_by_compute]).
Qed.

Lemma sample_blocks : Forall (block_ok sample_mem) [128; 164; 200].
Proof. repeat constructor; (eexists; vm_compute; split_and!; [done|discriminate|discriminate|done]). Qed.

Definition sample_held : gset Z :=
  {[240]} ∪ (({[164]} ∪ (({[128]} ∪ ({[240]} ∪ {[274]})) ∖ {[240]})) ∖ {[128]}).

Lemma sequence_refines_queue_witness :
  ∃ s' m',
    run_ops sample_s1 [OpPop; OpPush 240; OpPop; OpPush 128; OpPop] sample_mem =
      (Ret (s', [128; 164; 240]), m') ∧
    queue_rep m' s' ([128], sample_held).
Proof.
  destruct (sequence_refines_queue [OpPop; OpPush 240; OpPop; OpPush 128; OpPop]
    sample_mem sample_s1 _ ([128], sample_held) [128; 164; 240] sample_queue)
    as (s' & m' & E & Hq & _).
  - vm_compute. reflexivity.
  - exists s', m'. split; assumption.
Defined.

Lemma sample_disjoint :
  (p_sentry_ sample_s1 :: [128; 164]) ## (p_sentry_ sample_s2 :: [200]).
Proof. intros a. cbn. rewrite !elem_of_cons, !elem_of_nil. lia. Qed.

Lemma to_bytes_concat_witness :
  to_bytes sample_s2 sample_mem = (Ret [3; 4; 5], sample_mem).
Proof.
  refine (proj1 (to_bytes_concat sample_mem sample_s2 [200] sample_rep2 _ _)).
  - exact (proj2 (proj1 (Forall_app _ [128; 164] [200]) sample_blocks)).
  - vm_compute. reflexivity.
Defined.
