(* ===== verification/Frame.v ===== *)
(** The state an [io_context] and its executors share
    ([detail::io_context_frame], [include/fiona/detail/common.hpp]) and the
    context every operation of the library runs in: that frame, the heap of
    receive buffers, the clock and the coroutine frames.

    [boost::unordered] containers are not part of the repository: their
    [begin()] is an argument ([UnorderedBegin]) that is only known to return an
    element of a non-empty container. *)

From S2P Require Import Prelude Uring Buffer.

(** [detail::buf_ring]; [buf_id_pos_] is the index the pointer stands for. *)
Record buf_ring := BufRing {
  bufs_ : list ptr;
  buf_ids_ : list nat;
  buf_id_pos_ : nat;
  buf_size_ : Z;
  bgid_ : Z;
}.
#[export] Instance eta_buf_ring : Eta buf_ring :=
  λ b, BufRing (bufs_ b) (buf_ids_ b) (buf_id_pos_ b) (buf_size_ b) (bgid_ b).

(** [fixed_buffers]; [avail_buf_ids_] is the index the pointer stands for and an
    iovec is the index of its buffer and its length. *)
Record fixed_buffers := FixedBuffers {
  fbufs_ : list (list Z);
  iovecs_ : list (nat * Z);
  fbuf_ids_ : list nat;
  avail_buf_ids_ : nat;
}.
#[export] Instance eta_fixed_buffers : Eta fixed_buffers :=
  λ b, FixedBuffers (fbufs_ b) (iovecs_ b) (fbuf_ids_ b) (avail_buf_ids_ b).

Record io_context_params := Params { param_sq_entries : Z; param_cq_entries : Z; num_files : Z }.
Definition default_params : io_context_params := Params 4096 4096 1024.

(** [tasks_] maps a coroutine to the counter it points to, which is named by the
    coroutine whose promise holds it. *)
Record io_context_frame (R : Type) := IoFrame {
  io_ring_ : R;
  tasks_ : gmap Z Z;
  params_ : io_context_params;
  fixed_buffers_ : option fixed_buffers;
  buf_rings_ : gmap Z buf_ring;
  fds_ : gset Z;
  run_queue_ : list handle;
  exception_ptr_ : option exn;
  pipefd_ : Z * Z;
}.
Arguments IoFrame {R}. Arguments io_ring_ {R}. Arguments tasks_ {R}. Arguments params_ {R}.
Arguments fixed_buffers_ {R}. Arguments buf_rings_ {R}. Arguments fds_ {R}.
Arguments run_queue_ {R}. Arguments exception_ptr_ {R}. Arguments pipefd_ {R}.
#[export] Instance eta_io_frame R : Eta (io_context_frame R) :=
  λ f, IoFrame (io_ring_ f) (tasks_ f) (params_ f) (fixed_buffers_ f) (buf_rings_ f)
         (fds_ f) (run_queue_ f) (exception_ptr_ f) (pipefd_ f).

(** ** Coroutine frames

    [result_type] with the storage it selects, for [promise<T>] and for
    [promise_variant<T>]; the values of a task are integers. *)
Inductive variant := V_uninit | V_ok (v : Z) | V_err (e : exn).

(** [promise<T>] *)
Record promise := Promise { p_continuation : option handle; p_rt : variant }.
#[export] Instance eta_promise : Eta promise := λ p, Promise (p_continuation p) (p_rt p).

(** [internal_promise<T>] *)
Record internal_promise := IPromise {
  variant_ : variant; continuation_ : option handle; count_ : Z }.
#[export] Instance eta_internal_promise : Eta internal_promise :=
  λ p, IPromise (variant_ p) (continuation_ p) (count_ p).

(** [spawn_awaitable<T>]; its executor is the one of the context. *)
Record spawn_awaitable := SpawnAwaitable { sa_task : handle; was_awaited_ : bool }.
#[export] Instance eta_spawn_awaitable : Eta spawn_awaitable :=
  λ a, SpawnAwaitable (sa_task a) (was_awaited_ a).

(** The objects of the library that a suspended coroutine can own. *)
Inductive owned := Own_task (h : handle) | Own_spawn (a : spawn_awaitable).

(** A coroutine frame is that of a user's task, with the tasks and spawn
    awaitables it keeps alive, or that of [detail::scheduler], with its
    parameter [t]. *)
Inductive coro :=
| UserCoro (p : promise) (done : bool) (locals : list owned)
| SchedCoro (p : internal_promise) (t : option handle).

Record ctx (R : Type) := Ctx {
  frame : io_context_frame R; heap : mem; clock : Z; coros : gmap Z coro }.
Arguments Ctx {R}. Arguments frame {R}. Arguments heap {R}. Arguments clock {R}. Arguments coros {R}.
#[export] Instance eta_ctx R : Eta (ctx R) := λ c, Ctx (frame c) (heap c) (clock c) (coros c).

(** [begin()] of an unordered set and of an unordered map; [None] is [end()]. *)
Class UnorderedBegin := {
  set_begin : gset Z → option Z;
  map_begin : gmap Z Z → option (Z * Z);
}.
Class UnorderedBeginLaws `{!UnorderedBegin} : Prop := {
  set_begin_in X x : set_begin X = Some x → x ∈ X;
  set_begin_empty X : set_begin X = None → X = ∅;
  map_begin_in X k v : map_begin X = Some (k, v) → X !! k = Some v;
  map_begin_empty X : map_begin X = None → X = ∅;
}.

#[export] Instance first_begin : UnorderedBegin := {|
  set_begin X := head (elements X);
  map_begin X := head (map_to_list X) |}.

(** Provided and registered buffers: the calls of the sources, and the entries
    of a buffer ring the kernel can see as an observation. *)
Class IoUringBufs (R : Type) := {
  io_uring_register_buffers : list (nat * Z) → R → R;
  io_uring_unregister_buffers : R → R;
  (** 0, or a negated errno when no ring is returned *)
  io_uring_setup_buf_ring : Z → Z → R → Z * R;
  io_uring_free_buf_ring : Z → Z → R → R;
  (** bgid, address, length, buffer id, mask, offset *)
  io_uring_buf_ring_add : Z → ptr → Z → nat → Z → nat → R → R;
  io_uring_buf_ring_advance : Z → nat → R → R;
  io_uring_buf_ring_mask : Z → Z;
  buf_ring_provided : Z → R → list (ptr * Z * nat);
}.

(** [io_uring_buf_ring_add] at the offsets [off], [off + 1], ... *)
Fixpoint buf_ring_add_all {R} `{!IoUringBufs R} (bgid mask : Z) (off : nat)
    (es : list (ptr * Z * nat)) (r : R) : R :=
  match es with
  | [] => r
  | (addr, len, bid) :: es =>
      buf_ring_add_all bgid mask (S off) es (io_uring_buf_ring_add bgid addr len bid mask off r)
  end.

(** Entries added at the offsets 0, 1, ... become visible, in order, when the
    tail is advanced past them. *)
Class IoUringBufsLaws (R : Type) `{!IoUringBufs R} : Prop := {
  buf_ring_publish bgid mask es (r : R) :
    buf_ring_provided bgid
      (io_uring_buf_ring_advance bgid (length es) (buf_ring_add_all bgid mask 0 es r)) =
    buf_ring_provided bgid r ++ es;
}.

(** The calls on buffer rings leave the submission queue alone. *)
Class IoUringSeparate (R : Type) `{!IoUring R} `{!IoUringBufs R} : Prop := {
  setup_buf_ring_sq n bgid (r : R) :
    sq_trace (io_uring_setup_buf_ring n bgid r).2 = sq_trace r ∧
    sq_entries (io_uring_setup_buf_ring n bgid r).2 = sq_entries r;
  buf_ring_add_sq bgid a len bid mask off (r : R) :
    sq_trace (io_uring_buf_ring_add bgid a len bid mask off r) = sq_trace r ∧
    sq_entries (io_uring_buf_ring_add bgid a len bid mask off r) = sq_entries r;
  buf_ring_advance_sq bgid n (r : R) :
    sq_trace (io_uring_buf_ring_advance bgid n r) = sq_trace r ∧
    sq_entries (io_uring_buf_ring_advance bgid n r) = sq_entries r;
}.

(** ** Access to the parts of the context *)
Section Access.
Context {R : Type}.

Definition on_ring {A} (m : M R A) : M (ctx R) A := zoom frame (zoom io_ring_ m).
Definition on_heap {A} (m : M mem A) : M (ctx R) A := zoom heap m.
Definition on_frame {A} (m : M (io_context_frame R) A) : M (ctx R) A := zoom frame m.

(** [clock_type::now()], in nanoseconds. *)
Definition now : M (ctx R) Z := gets clock.
End Access.

(** ** Lemmas *)

#[export] Instance first_begin_laws : UnorderedBeginLaws.
Proof.
  split; cbn.
  - intros X x H. apply elem_of_elements. destruct (elements X); simplify_eq/=. left.
  - intros X H. apply leibniz_equiv, elements_empty_inv. by destruct (elements X).
  - intros X k v H. apply elem_of_map_to_list. destruct (map_to_list X); simplify_eq/=. left.
  - intros X H. apply map_to_list_empty_iff. by destruct (map_to_list X).
Qed.

Section ZoomLemmas.
Context {S T A : Type} (p : T → S) {U : Updatable p}.

(** The projection a setter is for reads back what was set. *)
Class SetGet : Prop := set_get t s : p (upd p (λ _, s) t) = s.
End ZoomLemmas.
Arguments SetGet {S T} p {U}.
#[export] Hint Extern 1 (SetGet _) => (intros ? ?; reflexivity) : typeclass_instances.

Lemma wp_zoom {S T A} (p : T → S) {U : Updatable p} (m : M S A) t (Q : A → T → Prop) :
  wp m (p t) (λ a s, Q a (t <| p := s |>)) → wp (zoom p m) t Q.
Proof. unfold wp, zoom. by destruct (m (p t)) as [[a|e|f] s]. Qed.

Lemma zoom_run {S T A} (p : T → S) {U : Updatable p} (m : M S A) t o s :
  m (p t) = (o, s) → zoom p m t = (o, t <| p := s |>).
Proof. unfold zoom. by intros ->. Qed.

Section AccessLemmas.
Context {R : Type}.
Implicit Types c : ctx R.

Lemma on_ring_modify (f : R → R) c :
  on_ring (modify f) c = (Ret tt, c <| frame ::= λ fr, fr <| io_ring_ ::= f |> |>).
Proof. by destruct c as [[]]. Qed.

Lemma on_frame_modify (f : io_context_frame R → io_context_frame R) c :
  on_frame (modify f) c = (Ret tt, c <| frame ::= f |>).
Proof. by destruct c. Qed.

Lemma on_frame_gets {A} (f : io_context_frame R → A) c : on_frame (gets f) c = (Ret (f (frame c)), c).
Proof. by destruct c. Qed.

Lemma on_frame_get c : on_frame get c = (Ret (frame c), c).
Proof. by destruct c. Qed.
End AccessLemmas.
