(* ===== verification/BufRing.v ===== *)
(** [fixed_buffers] and [detail::buf_ring] ([include/fiona/detail/common.hpp],
    [src/common.cpp]): the pool of registered buffers and the ring of buffers
    provided to the kernel for multishot receives.

    A [buf_ring] keeps a stack of the ids whose buffer is not with the kernel;
    [buf_ring_wf] says that the stack and the buffers agree, and the theorems
    show that every operation keeps it and never leaves the arrays. *)

From S2P Require Import Prelude Uring Buffer BufferSpec Frame.

(** ** fixed_buffers *)
Section FixedBuffers.
Context {R : Type} {HB : IoUringBufs R}.

Definition fixed_buffers_new (num_bufs : nat) (buf_size : Z) : M (ctx R) fixed_buffers :=
  let bufs := replicate num_bufs (replicate (Z.to_nat buf_size) 0) in
  let iovecs := imap (λ i b, (i, Z.of_nat (length b))) bufs in
  on_ring (modify (io_uring_register_buffers iovecs)) ;;
  mret (FixedBuffers bufs iovecs (seq 0 num_bufs) num_bufs).

Definition fixed_buffers_dtor : M (ctx R) unit :=
  on_ring (modify io_uring_unregister_buffers).

End FixedBuffers.

(** A [fixed_buffer] holds its own copy of the pool's pointer. *)
Record fixed_buffer := FixedBuffer {
  fb_size : Z; fb_len : Z; fb_index : nat; fb_avail_buf_ids : nat }.
#[export] Instance eta_fixed_buffer : Eta fixed_buffer :=
  λ b, FixedBuffer (fb_size b) (fb_len b) (fb_index b) (fb_avail_buf_ids b).

Definition get_avail_buf : M fixed_buffers fixed_buffer :=
  avail ← gets avail_buf_ids_;
  assert (negb (bool_decide (avail = 0%nat))) ;;
  let avail := pred avail in
  modify (λ p, p <| avail_buf_ids_ := avail |>) ;;
  ids ← gets fbuf_ids_;
  bufs ← gets fbufs_;
  match ids !! avail with
  | None => fail OutOfBounds
  | Some i =>
      match bufs !! i with
      | None => fail OutOfBounds
      | Some b => mret (FixedBuffer (Z.of_nat (length b)) (Z.of_nat (length b)) i avail)
      end
  end.

(** [*avail_buf_ids_++ = buf_index_]: the pointer incremented is the buffer's
    own. *)
Definition fixed_buffer_dtor (b : fixed_buffer) : M fixed_buffers fixed_buffer :=
  ids ← gets fbuf_ids_;
  if decide (fb_avail_buf_ids b < length ids)%nat then
    modify (λ p, p <| fbuf_ids_ ::= <[fb_avail_buf_ids b := fb_index b]> |>) ;;
    mret (b <| fb_avail_buf_ids ::= S |>)
  else fail OutOfBounds.

Definition fixed_buffer_set_len (b : fixed_buffer) (n : Z) : fixed_buffer := b <| fb_len := n |>.

(** [buf_.subspan( 0, len_ )] and the string view of the same bytes. *)
Definition fixed_buffer_as_bytes (b : fixed_buffer) : M fixed_buffers (list Z) :=
  bufs ← gets fbufs_;
  match bufs !! fb_index b with
  | Some d => if Z.of_nat (length d) <? fb_len b then fail OutOfBounds
              else mret (take (Z.to_nat (fb_len b)) d)
  | None => fail OutOfBounds
  end.

(** A program that takes a buffer and destroys it, [n] times. *)
Fixpoint use_and_drop (n : nat) : M fixed_buffers unit :=
  match n with
  | O => mret tt
  | S n => b ← get_avail_buf; fixed_buffer_dtor b ;; use_and_drop n
  end.

(** A program that takes [n] buffers and keeps them: their indices. *)
Fixpoint take_bufs (n : nat) : M fixed_buffers (list nat) :=
  match n with
  | O => mret []
  | S n => b ← get_avail_buf; l ← take_bufs n; mret (fb_index b :: l)
  end.

(** ** buf_ring *)
Section BufRingOps.
Context {R : Type} {HB : IoUringBufs R}.

Definition buf_ring_setup (num_bufs bgid : Z) : M (ctx R) buf_ring :=
  ret ← on_ring (λ r, let '(ret, r') := io_uring_setup_buf_ring num_bufs bgid r in (Ret ret, r'));
  if negb (ret =? 0) then throw_errno_as_error_code (- ret) else
  mret (BufRing (replicate (Z.to_nat num_bufs) default_buf_header)
                (replicate (Z.to_nat num_bufs) 0%nat) 0 0 bgid).

(** [for ( auto& buf : bufs_ ) buf = recv_buffer( buf_size_ )]. *)
Fixpoint alloc_bufs (n : nat) (buf_size : Z) : M mem (list ptr) :=
  match n with
  | O => mret []
  | S n => p ← recv_buffer_new buf_size; l ← alloc_bufs n buf_size; mret (p :: l)
  end.

(** The loop of [io_uring_buf_ring_add] calls. *)
Fixpoint provide_bufs (bgid mask : Z) (i : nat) (bufs : list ptr) : M (ctx R) unit :=
  match bufs with
  | [] => mret tt
  | buf :: bufs =>
      cap ← on_heap (view_capacity buf);
      assert (0 <? cap) ;;
      on_ring (modify (io_uring_buf_ring_add bgid (buf + S_hdr) (to_unsigned cap) (to_ushort i) mask i)) ;;
      provide_bufs bgid mask (S i) bufs
  end.

Definition buf_ring_new (num_bufs buf_size bgid : Z) : M (ctx R) buf_ring :=
  br ← buf_ring_setup num_bufs bgid;
  bufs ← on_heap (alloc_bufs (length (bufs_ br)) buf_size);
  let mask := io_uring_buf_ring_mask (to_unsigned (Z.of_nat (length bufs))) in
  provide_bufs bgid mask 0 bufs ;;
  on_ring (modify (io_uring_buf_ring_advance bgid (length bufs))) ;;
  mret (br <| buf_size_ := buf_size |> <| bufs_ := bufs |>).

(** The destructor, with those of the buffers in [bufs_]. *)
Definition buf_ring_dtor (br : buf_ring) : M (ctx R) unit :=
  on_ring (modify (io_uring_free_buf_ring (to_unsigned (Z.of_nat (length (bufs_ br)))) (bgid_ br))) ;;
  on_heap (foldr (λ p k, recv_buffer_dtor p ;; k) (mret tt) (bufs_ br)).

Definition get_buf (br : buf_ring) (idx : nat) : M (ctx R) ptr :=
  match bufs_ br !! idx with
  | Some p => mret p
  | None => fail OutOfBounds
  end.

Definition num_bufs (br : buf_ring) : Z := to_unsigned (Z.of_nat (length (bufs_ br))).

(** [*( --buf_id_pos_ )]; the caller has checked that the stack is not empty. *)
Definition pop_buf_id (br : buf_ring) : M (ctx R) (nat * buf_ring) :=
  match buf_ids_ br !! pred (buf_id_pos_ br) with
  | Some id => mret (id, br <| buf_id_pos_ ::= pred |>)
  | None => fail OutOfBounds
  end.

Definition recycle_buffer (br : buf_ring) (buf : ptr) : M (ctx R) buf_ring :=
  if decide (buf_id_pos_ br = 0%nat) then
    on_heap (recv_buffer_dtor buf) ;; mret br
  else
    '(buffer_id, br) ← pop_buf_id br;
    b ← get_buf br buffer_id;
    bcap ← on_heap (view_capacity b);
    assert (bcap =? 0) ;;
    cap ← on_heap (view_capacity buf);
    assert (0 <? cap) ;;
    on_ring (modify (io_uring_buf_ring_add (bgid_ br) (buf + S_hdr) (to_unsigned cap)
                       (to_ushort buffer_id) (io_uring_buf_ring_mask (num_bufs br)) 0)) ;;
    on_ring (modify (io_uring_buf_ring_advance (bgid_ br) 1)) ;;
    '(b', _) ← on_heap (recv_buffer_assign false b buf);
    mret (br <| bufs_ ::= <[buffer_id := b']> |>).

(** What a receive CQE does to the ring ([recv_frame::await_process_cqe]): the
    buffer is moved out and its id is pushed. *)
Definition take_buf (br : buf_ring) (buffer_id : nat) (len : Z) : M (ctx R) (ptr * buf_ring) :=
  b ← get_buf br buffer_id;
  cap ← on_heap (view_capacity b);
  assert (0 <? cap) ;;
  on_heap (set_len b len) ;;
  if decide (buf_id_pos_ br < length (buf_ids_ br))%nat then
    mret (b, br <| bufs_ ::= <[buffer_id := default_buf_header]> |>
                <| buf_ids_ ::= <[buf_id_pos_ br := buffer_id]> |>
                <| buf_id_pos_ ::= S |>)
  else fail OutOfBounds.

(** One iteration of the loop of [recv_awaitable::await_resume]: a fresh buffer
    for the id on top of the stack, added at offset [len]. *)
Definition replenish_one (br : buf_ring) (len : nat) : M (ctx R) buf_ring :=
  assert (0 <? buf_size_ br) ;;
  '(buffer_id, br) ← pop_buf_id br;
  b ← get_buf br buffer_id;
  bcap ← on_heap (view_capacity b);
  assert (bcap =? 0) ;;
  p ← on_heap (recv_buffer_new (buf_size_ br));
  '(b', _) ← on_heap (recv_buffer_assign false b p);
  cap ← on_heap (view_capacity b');
  assert (0 <? cap) ;;
  on_ring (modify (io_uring_buf_ring_add (bgid_ br) (b' + S_hdr) (to_unsigned cap)
                     (to_ushort buffer_id) (io_uring_buf_ring_mask (num_bufs br)) len)) ;;
  mret (br <| bufs_ ::= <[buffer_id := b']> |>).

End BufRingOps.

(** ** Well-formedness *)

(** The ids whose buffer is not in [bufs_]. *)
Definition free_ids (br : buf_ring) : list nat := take (buf_id_pos_ br) (buf_ids_ br).

Record buf_ring_wf (m : mem) (br : buf_ring) : Prop := {
  wf_len : length (buf_ids_ br) = length (bufs_ br);
  wf_pos : (buf_id_pos_ br ≤ length (buf_ids_ br))%nat;
  wf_nodup : NoDup (free_ids br);
  wf_free i : i ∈ free_ids br ↔ bufs_ br !! i = Some default_buf_header;
  wf_owned i p : bufs_ br !! i = Some p → p ≠ default_buf_header →
    p ≠ nullptr ∧ ∃ h, headers m !! p = Some h ∧ 0 < capacity_ h;
  wf_distinct i j p : bufs_ br !! i = Some p → bufs_ br !! j = Some p →
    p ≠ default_buf_header → i = j;
  wf_default : headers m !! default_buf_header = Some (Hdr 0 0 nullptr nullptr);
}.

(** A buffer the program owns that is not in the ring. *)
Definition spare_buffer (m : mem) (br : buf_ring) (p : ptr) (cap : Z) : Prop :=
  p ≠ nullptr ∧ p ≠ default_buf_header ∧ p ∉ bufs_ br ∧ 0 < cap ∧
  capacity_ <$> headers m !! p = Some cap.

(** The pool hands out the ids below [avail_buf_ids_]. *)
Record fixed_wf (p : fixed_buffers) : Prop := {
  fw_ids : fbuf_ids_ p = seq 0 (length (fbufs_ p));
  fw_avail : (avail_buf_ids_ p ≤ length (fbufs_ p))%nat;
}.

(** ** Lemmas *)
Section FixedLemmas.
Implicit Types (p : fixed_buffers).

Lemma get_avail_buf_run p a :
  fixed_wf p → avail_buf_ids_ p = S a →
  ∃ b, get_avail_buf p = (Ret b, p <| avail_buf_ids_ := a |>) ∧ fb_index b = a ∧
       fb_avail_buf_ids b = a.
Proof.
  intros [Hids Hav] Ha. unfold get_avail_buf. rewrite bind_gets, Ha. simpl.
  rewrite bind_assert, bind_modify, !bind_gets. cbn. unfold upd. cbn.
  rewrite Hids, lookup_seq_lt by lia. cbn.
  destruct (lookup_lt_is_Some_2 (fbufs_ p) a) as [b ->]; [lia|]. by eexists.
Qed.

Lemma fixed_wf_avail p a : fixed_wf p → (a ≤ length (fbufs_ p))%nat → fixed_wf (p <| avail_buf_ids_ := a |>).
Proof. intros [] ?. by split. Qed.

(** Buffers held at the same time never share an index: taking [n] buffers
    from a pool yields [n] different ids, the highest first. *)
Lemma fixed_buffers_distinct n : ∀ p,
  fixed_wf p → (n ≤ avail_buf_ids_ p)%nat →
  take_bufs n p = (Ret (rev (seq (avail_buf_ids_ p - n) n)),
                   p <| avail_buf_ids_ := (avail_buf_ids_ p - n)%nat |>).
Proof.
  induction n as [|n IH]; intros p Hw Hn.
  - simpl. rewrite Nat.sub_0_r. by destruct p.
  - destruct (avail_buf_ids_ p) as [|a] eqn:Ea; [lia|]. cbn [take_bufs].
    destruct (get_avail_buf_run p a Hw Ea) as (b & E & Hi & _). pose proof (fw_avail _ Hw).
    rewrite (bind_ret _ _ _ _ _ E).
    rewrite (bind_ret _ _ _ _ _ (IH (p <| avail_buf_ids_ := a |>) ltac:(apply fixed_wf_avail; [done|lia]) ltac:(cbn; lia))).
    cbn. rewrite Hi. unfold mret, M_ret. f_equal. f_equal.
    rewrite <- rev_unit. f_equal. change (seq (a - n) n ++ [a]) with (seq (a - n) n ++ [a]).
    replace a with (a - n + n)%nat at 2 by lia. by rewrite <- seq_S.
Qed.

(** Destroying a [fixed_buffer] does not return it to the pool: the destructor
    increments its own copy of the pool's pointer, so after as many uses as there
    are buffers, each destroyed before the next, [get_avail_buf] fails its
    assertion although no buffer is in use. *)
Lemma fixed_buffers_not_returned p :
  fixed_wf p →
  use_and_drop (avail_buf_ids_ p) p = (Ret tt, p <| avail_buf_ids_ := 0%nat |>) ∧
  (get_avail_buf (p <| avail_buf_ids_ := 0%nat |>)).1 = Fault AssertFailed.
Proof.
  intros Hw. split; [|done]. remember (avail_buf_ids_ p) as n eqn:En. revert p Hw En.
  induction n as [|n IH]; intros p Hw En; simpl.
  - rewrite En. by destruct p.
  - destruct (get_avail_buf_run p n Hw (eq_sym En)) as (b & E & Hi & Ha).
    pose proof (fw_avail _ Hw). rewrite (bind_ret _ _ _ _ _ E).
    assert (fixed_wf (p <| avail_buf_ids_ := n |>)) as Hw' by (apply fixed_wf_avail; [done|lia]).
    rewrite (bind_ret (fixed_buffer_dtor b) _ _ (b <| fb_avail_buf_ids ::= S |>) (p <| avail_buf_ids_ := n |>)).
    + rewrite (IH _ Hw' eq_refl). by destruct p.
    + unfold fixed_buffer_dtor. rewrite bind_gets, Ha, Hi. cbn.
      unfold upd. cbn. rewrite (fw_ids _ Hw), length_seq, decide_True by lia.
      rewrite bind_modify. unfold mret, M_ret. cbn. do 2 f_equal.
      apply list_insert_id. by rewrite lookup_seq_lt by lia.
Qed.
End FixedLemmas.

Section BufRingLemmas.
Context {R : Type} {HB : IoUringBufs R} {HL : IoUringBufsLaws R}.
Implicit Types (c : ctx R) (br : buf_ring) (m : mem).

Lemma on_heap_run {A} (a : M mem A) c o m :
  a (heap c) = (o, m) → on_heap a c = (o, c <| heap := m |>).
Proof. intros E. unfold on_heap. by erewrite zoom_run. Qed.

Lemma view_capacity_run m p h :
  headers m !! p = Some h → view_capacity p m = (Ret (capacity_ h), m).
Proof. intros E. unfold view_capacity, load_header. munfold. by rewrite E. Qed.

Lemma on_heap_capacity c p h :
  headers (heap c) !! p = Some h → on_heap (view_capacity p) c = (Ret (capacity_ h), c).
Proof. intros E. rewrite (on_heap_run _ _ _ _ (view_capacity_run _ _ _ E)). by destruct c. Qed.

Lemma wf_free_length m br : buf_ring_wf m br → length (free_ids br) = buf_id_pos_ br.
Proof. intros Hw. unfold free_ids. rewrite length_take. pose proof (wf_pos _ _ Hw). lia. Qed.

Lemma wf_free_bound m br i : buf_ring_wf m br → i ∈ free_ids br → (i < length (bufs_ br))%nat.
Proof. intros Hw Hi. apply (wf_free _ _ Hw) in Hi. by eapply lookup_lt_Some. Qed.

(** The stack of ids has room whenever some buffer is still in the ring. *)
Lemma wf_room m br i p :
  buf_ring_wf m br → bufs_ br !! i = Some p → p ≠ default_buf_header →
  (buf_id_pos_ br < length (buf_ids_ br))%nat.
Proof.
  intros Hw Hi Hp. rewrite <- (wf_free_length _ _ Hw), (wf_len _ _ Hw).
  apply (nodup_bounded_room _ _ i).
  - apply Hw.
  - intros y. by eapply wf_free_bound.
  - by eapply lookup_lt_Some.
  - intros Hin. apply (wf_free _ _ Hw) in Hin. congruence.
Qed.

Lemma wf_owned_header m br i p :
  buf_ring_wf m br → bufs_ br !! i = Some p → p ≠ default_buf_header →
  ∃ h, headers m !! p = Some h ∧ 0 < capacity_ h.
Proof. intros Hw Hi Hp. by destruct (wf_owned _ _ Hw i p Hi Hp) as [_ ?]. Qed.

(** A heap in which the ring's buffers keep their capacity. *)
Lemma wf_heap m m' br :
  buf_ring_wf m br →
  (∀ p, p ∈ bufs_ br → p ≠ default_buf_header →
        capacity_ <$> headers m' !! p = capacity_ <$> headers m !! p) →
  headers m' !! default_buf_header = Some (Hdr 0 0 nullptr nullptr) →
  buf_ring_wf m' br.
Proof.
  intros [? ? ? ? Hown ? ?] Hcap Hd. split; try done.
  intros i p Hi Hp. destruct (Hown i p Hi Hp) as (Hn & h & E & Hc). split; [done|].
  specialize (Hcap p ltac:(by eapply list_elem_of_lookup_2) Hp). rewrite E in Hcap.
  destruct (headers m' !! p) as [h'|]; [|done]. exists h'. split; [done|].
  simpl in Hcap. congruence.
Qed.

(** Moving a buffer out: its slot becomes the default buffer and its id is
    pushed. *)
Lemma wf_take m br i p :
  buf_ring_wf m br → bufs_ br !! i = Some p → p ≠ default_buf_header →
  buf_ring_wf m (br <| bufs_ ::= <[i := default_buf_header]> |>
                    <| buf_ids_ ::= <[buf_id_pos_ br := i]> |>
                    <| buf_id_pos_ ::= S |>).
Proof.
  intros Hw Hi Hp. pose proof (wf_room _ _ _ _ Hw Hi Hp) as Hroom.
  pose proof (lookup_lt_Some _ _ _ Hi) as Hlt. pose proof (wf_free _ _ Hw) as Hfree.
  assert (i ∉ free_ids br) as Hnot by (rewrite Hfree; congruence).
  assert (take (S (buf_id_pos_ br)) (<[buf_id_pos_ br := i]> (buf_ids_ br)) = free_ids br ++ [i]) as Ef
    by (by apply take_S_insert).
  split; cbn; unfold free_ids; cbn; rewrite ?Ef, ?length_insert; try apply Hw; try lia.
  - apply NoDup_app. split_and!; [apply Hw| |apply NoDup_singleton].
    intros x Hx ->%list_elem_of_singleton. done.
  - intros j. rewrite elem_of_app, list_elem_of_singleton, Hfree.
    destruct (decide (j = i)) as [->|Hj].
    + rewrite list_lookup_insert_eq by done. naive_solver.
    + rewrite list_lookup_insert_ne by done. naive_solver.
  - intros j q Hj Hq. destruct (decide (j = i)) as [->|Hne].
    + rewrite list_lookup_insert_eq in Hj by done. congruence.
    + rewrite list_lookup_insert_ne in Hj by done. by apply (wf_owned _ _ Hw j).
  - intros j k q Hj Hk Hq. destruct (decide (j = i)) as [->|Hne];
      [rewrite list_lookup_insert_eq in Hj by done; congruence|].
    destruct (decide (k = i)) as [->|Hne'];
      [rewrite list_lookup_insert_eq in Hk by done; congruence|].
    rewrite list_lookup_insert_ne in Hj, Hk by done. by eapply (wf_distinct _ _ Hw).
Qed.

(** The id on top of the stack names an empty slot. *)
Lemma wf_top m br :
  buf_ring_wf m br → buf_id_pos_ br ≠ 0%nat →
  ∃ i, buf_ids_ br !! pred (buf_id_pos_ br) = Some i ∧
       bufs_ br !! i = Some default_buf_header ∧
       free_ids br = take (pred (buf_id_pos_ br)) (buf_ids_ br) ++ [i].
Proof.
  intros Hw Hpos. pose proof (wf_pos _ _ Hw).
  destruct (lookup_lt_is_Some_2 (buf_ids_ br) (pred (buf_id_pos_ br))) as [i Hi]; [lia|].
  assert (free_ids br = take (pred (buf_id_pos_ br)) (buf_ids_ br) ++ [i]) as Ef.
  { unfold free_ids. rewrite <- (Nat.succ_pred (buf_id_pos_ br)) at 1 by done. by apply take_S_r. }
  exists i. split_and!; [done| |done]. apply (wf_free _ _ Hw). rewrite Ef, elem_of_app. right. left.
Qed.

(** Putting a buffer in that slot. *)
Lemma wf_put m br i p cap :
  buf_ring_wf m br → buf_id_pos_ br ≠ 0%nat →
  buf_ids_ br !! pred (buf_id_pos_ br) = Some i →
  spare_buffer m br p cap →
  buf_ring_wf m (br <| buf_id_pos_ ::= pred |> <| bufs_ ::= <[i := p]> |>).
Proof.
  intros Hw Hpos Hi (Hn & Hd & Hout & Hc & Hcap).
  destruct (wf_top _ _ Hw Hpos) as (i' & Hi' & Hb & Ef). rewrite Hi in Hi'. injection Hi' as <-.
  pose proof (wf_nodup _ _ Hw) as Hnd. rewrite Ef in Hnd.
  apply NoDup_app in Hnd as (Hnd & Hdisj & _).
  pose proof (lookup_lt_Some _ _ _ Hb) as Hlt.
  assert (∀ j, j ∈ take (pred (buf_id_pos_ br)) (buf_ids_ br) ↔
               j ≠ i ∧ bufs_ br !! j = Some default_buf_header) as Hfree.
  { intros j. rewrite <- (wf_free _ _ Hw), Ef, elem_of_app, list_elem_of_singleton. split.
    - intros Hj. split; [|by left]. intros ->. apply (Hdisj i Hj). left.
    - intros [Hne [?|?]]; done. }
  pose proof (wf_pos _ _ Hw).
  split; cbn; unfold free_ids; cbn; rewrite ?length_insert; try apply Hw; try done; try lia.
  - intros j. rewrite Hfree. destruct (decide (j = i)) as [->|Hj].
    + rewrite list_lookup_insert_eq by done. naive_solver.
    + rewrite list_lookup_insert_ne by done. naive_solver.
  - intros j q Hj Hq. destruct (decide (j = i)) as [->|Hne].
    + rewrite list_lookup_insert_eq in Hj by done. simplify_eq. split; [done|].
      destruct (headers m !! q) as [h|]; simplify_eq/=. eauto.
    + rewrite list_lookup_insert_ne in Hj by done. by apply (wf_owned _ _ Hw j).
  - intros j k q Hj Hk Hq.
    assert (∀ j', bufs_ br !! j' = Some q → q = p → False) as Hx.
    { intros j' Hj' ->. apply Hout. by eapply list_elem_of_lookup_2. }
    destruct (decide (j = i)) as [->|Hne], (decide (k = i)) as [->|Hne']; [done|..].
    + rewrite list_lookup_insert_eq in Hj by done. rewrite list_lookup_insert_ne in Hk by done.
      simplify_eq. exfalso. by eapply Hx.
    + rewrite list_lookup_insert_eq in Hk by done. rewrite list_lookup_insert_ne in Hj by done.
      simplify_eq. exfalso. by eapply Hx.
    + rewrite list_lookup_insert_ne in Hj, Hk by done. by eapply (wf_distinct _ _ Hw).
Qed.

Lemma take_buf_run c br i p len :
  buf_ring_wf (heap c) br → bufs_ br !! i = Some p → p ≠ default_buf_header →
  take_buf br i len c =
    (Ret (p, br <| bufs_ ::= <[i := default_buf_header]> |> <| buf_ids_ ::= <[buf_id_pos_ br := i]> |>
               <| buf_id_pos_ ::= S |>),
     c <| heap := heap c <| headers ::= alter (λ h, h <| size_ := len |>) p |> |>).
Proof.
  intros Hw Hi Hp. destruct (wf_owned_header _ _ _ _ Hw Hi Hp) as (h & E & Hc).
  pose proof (wf_room _ _ _ _ Hw Hi Hp) as Hroom.
  unfold take_buf, get_buf. rewrite Hi.
  rewrite (bind_ret (mret p) _ c p c eq_refl), (bind_ret _ _ _ _ _ (on_heap_capacity c p h E)).
  rewrite (proj2 (Z.ltb_lt 0 _) Hc), bind_assert.
  assert (set_len p len (heap c) = (Ret tt, heap c <| headers ::= alter (λ h, h <| size_ := len |>) p |>)) as Es.
  { unfold set_len, is_defaulted, upd_header. rewrite bool_decide_eq_false_2 by done.
    simpl. rewrite bind_assert. by rewrite E. }
  by rewrite (bind_ret _ _ _ _ _ (on_heap_run _ _ _ _ Es)), decide_True by done.
Qed.

Lemma wf_set_len m br p len : buf_ring_wf m br → p ≠ default_buf_header →
  buf_ring_wf (m <| headers ::= alter (λ h, h <| size_ := len |>) p |>) br.
Proof.
  intros Hw Hp. eapply wf_heap; [exact Hw| |]; cbn.
  - intros q _ _. destruct (decide (q = p)) as [->|Hq].
    + rewrite lookup_alter_eq. by destruct (headers m !! p).
    + by rewrite lookup_alter_ne.
  - rewrite lookup_alter_ne by done. apply Hw.
Qed.

(** Consuming a receive completion never writes outside the id stack: while the
    buffer named by the CQE is in the ring, the stack has room, its id is pushed,
    the buffer comes out with the length of the CQE, and the ring stays
    well-formed. *)
Lemma take_buf_safe c br i p len :
  buf_ring_wf (heap c) br → bufs_ br !! i = Some p → p ≠ default_buf_header →
  ∃ br' c', take_buf br i len c = (Ret (p, br'), c') ∧
    buf_ring_wf (heap c') br' ∧ free_ids br' = free_ids br ++ [i] ∧
    bufs_ br' !! i = Some default_buf_header ∧
    (size_ <$> headers (heap c') !! p) = Some len ∧ frame c' = frame c.
Proof.
  intros Hw Hi Hp. destruct (wf_owned_header _ _ _ _ Hw Hi Hp) as (h & E & _).
  rewrite (take_buf_run c br i p len Hw Hi Hp). eexists _, _. split_and!; [reflexivity| | | | |done]; cbn.
  - apply wf_set_len; [by eapply wf_take|done].
  - unfold free_ids. cbn. apply take_S_insert. by eapply wf_room.
  - apply list_lookup_insert_eq. by eapply lookup_lt_Some.
  - by rewrite lookup_alter_eq, E.
Qed.

(** Recycling a buffer while some id is free hands the buffer to the kernel
    under the most recently freed id, exactly once, and keeps the ring
    well-formed. *)
Lemma recycle_buffer_provides c br p cap :
  buf_ring_wf (heap c) br → buf_id_pos_ br ≠ 0%nat → spare_buffer (heap c) br p cap →
  ∃ i br' c', recycle_buffer br p c = (Ret br', c') ∧
    buf_ring_wf (heap c') br' ∧ free_ids br = free_ids br' ++ [i] ∧
    bufs_ br' !! i = Some p ∧ heap c' = heap c ∧
    buf_ring_provided (bgid_ br) (io_ring_ (frame c')) =
      buf_ring_provided (bgid_ br) (io_ring_ (frame c)) ++ [(p + S_hdr, to_unsigned cap, to_ushort i)].
Proof.
  intros Hw Hpos Hs. destruct (wf_top _ _ Hw Hpos) as (i & Hi & Hb & Ef).
  pose proof (wf_put _ _ _ _ _ Hw Hpos Hi Hs) as Hw'.
  destruct Hs as (Hn & Hd & Hout & Hc & Hcap).
  destruct (headers (heap c) !! p) as [h|] eqn:E; simplify_eq/=.
  unfold recycle_buffer, pop_buf_id, get_buf. rewrite decide_False, Hi by done.
  rewrite (bind_ret (mret _) _ c (i, br <| buf_id_pos_ ::= pred |>) c eq_refl).
  cbv beta iota. change (bufs_ (br <| buf_id_pos_ ::= pred |>)) with (bufs_ br). rewrite Hb.
  rewrite (bind_ret (mret default_buf_header) _ c default_buf_header c eq_refl).
  rewrite (bind_ret _ _ _ _ _ (on_heap_capacity c _ _ (wf_default _ _ Hw))). cbn [capacity_].
  change (0 =? 0) with true. rewrite bind_assert.
  rewrite (bind_ret _ _ _ _ _ (on_heap_capacity c p h E)).
  rewrite (proj2 (Z.ltb_lt 0 _) Hc), bind_assert.
  eexists i, _, _. split_and!; [reflexivity|exact Hw'| | |by destruct c|].
  - rewrite Ef. done.
  - cbn. apply list_lookup_insert_eq. by eapply lookup_lt_Some.
  - cbn. unfold bgid_ at 1 3. cbn.
    rewrite <- (buf_ring_publish (bgid_ br) (io_uring_buf_ring_mask (num_bufs br)) [(p + S_hdr, to_unsigned (capacity_ h), to_ushort i)]).
    done.
Qed.

(** Recycling a buffer into a ring that misses none frees the buffer instead. *)
Lemma recycle_buffer_full c br p cap :
  buf_ring_wf (heap c) br → buf_id_pos_ br = 0%nat → spare_buffer (heap c) br p cap →
  ∃ c', recycle_buffer br p c = (Ret br, c') ∧ buf_ring_wf (heap c') br ∧
    headers (heap c') !! p = None ∧ frame c' = frame c.
Proof.
  intros Hw Hpos (Hn & Hd & Hout & Hc & Hcap).
  destruct (headers (heap c) !! p) as [h|] eqn:E; simplify_eq/=.
  unfold recycle_buffer. rewrite decide_True by done.
  assert (recv_buffer_dtor p (heap c) =
    (Ret tt, heap c <| headers ::= delete p |> <| payload ::= delete p |>)) as Ed.
  { unfold recv_buffer_dtor, is_defaulted. rewrite bool_decide_eq_false_2 by done.
    unfold when, aligned_delete. simpl. by rewrite E. }
  rewrite (bind_ret _ _ _ _ _ (on_heap_run _ _ _ _ Ed)).
  eexists. split_and!; [reflexivity| |by apply lookup_delete_eq|done].
  eapply wf_heap; [done| |]; cbn.
  - intros q Hq _. rewrite lookup_delete_ne; [done|]. by intros ->.
  - rewrite lookup_delete_ne by done. apply Hw.
Qed.

Lemma replenish_one_run c br k i :
  buf_ring_wf (heap c) br → heap_wf (heap c) → buf_id_pos_ br ≠ 0%nat → 0 < buf_size_ br →
  buf_ids_ br !! pred (buf_id_pos_ br) = Some i →
  let p := brk (heap c) in
  let br' := br <| buf_id_pos_ ::= pred |> <| bufs_ ::= <[i := p]> |> in
  let m' := (recv_buffer_new (buf_size_ br) (heap c)).2 in
  replenish_one br k c =
    (Ret br', c <| heap := m' |> <| frame ::= λ f, f <| io_ring_ ::=
       io_uring_buf_ring_add (bgid_ br) (p + S_hdr) (to_unsigned (buf_size_ br)) (to_ushort i)
         (io_uring_buf_ring_mask (num_bufs br)) k |> |>) ∧
  buf_ring_wf m' br' ∧ heap_wf m' ∧ p ∉ bufs_ br ∧
  headers m' = <[p := Hdr 0 (buf_size_ br) nullptr nullptr]> (headers (heap c)) ∧
  payload m' = <[p := replicate (Z.to_nat (buf_size_ br)) 0]> (payload (heap c)).
Proof.
  intros Hw Hh Hpos Hsz Hi p br' m'. destruct (wf_top _ _ Hw Hpos) as (i' & Hi' & Hb & Ef).
  rewrite Hi in Hi'. injection Hi' as <-.
  assert (recv_buffer_new (buf_size_ br) (heap c) = (Ret p, m')) as En
    by (unfold m'; by rewrite recv_buffer_new_run).
  assert (headers m' = <[p := Hdr 0 (buf_size_ br) nullptr nullptr]> (headers (heap c))) as Hm'
    by (unfold m'; by rewrite recv_buffer_new_run).
  pose proof (heap_wf_fresh _ Hh) as Hfr. fold p in Hfr.
  assert (p ≠ default_buf_header ∧ p ≠ nullptr) as [Hpd Hpn].
  { unfold p. pose proof (hw_brk _ Hh). unfold default_buf_header, nullptr in *. lia. }
  assert (heap_wf m') as Hh' by (apply heap_wf_new; [done|lia]).
  assert (p ∉ bufs_ br) as Hout.
  { intros [j Hj]%list_elem_of_lookup. destruct (wf_owned_header _ _ _ _ Hw Hj Hpd) as (h & E & _). congruence. }
  assert (buf_ring_wf m' br) as Hw1.
  { eapply wf_heap; [done| |by apply hw_default]. intros q Hq Hqd. rewrite Hm', lookup_insert_ne; [done|].
    intros ->. done. }
  assert (spare_buffer m' br p (buf_size_ br)) as Hs.
  { split_and!; try done. by rewrite Hm', lookup_insert_eq. }
  pose proof (wf_put _ _ _ _ _ Hw1 Hpos Hi Hs) as Hw'.
  split_and!; [|done|done|done|done|by unfold m'; rewrite recv_buffer_new_run].
  unfold replenish_one, pop_buf_id, get_buf.
  rewrite (proj2 (Z.ltb_lt 0 _) Hsz), bind_assert, Hi.
  rewrite (bind_ret (mret _) _ c (i, br <| buf_id_pos_ ::= pred |>) c eq_refl).
  cbv beta iota. change (bufs_ (br <| buf_id_pos_ ::= pred |>)) with (bufs_ br). rewrite Hb.
  rewrite (bind_ret (mret default_buf_header) _ c default_buf_header c eq_refl).
  rewrite (bind_ret _ _ _ _ _ (on_heap_capacity c _ _ (wf_default _ _ Hw))). cbn [capacity_].
  change (0 =? 0) with true. rewrite bind_assert.
  rewrite (bind_ret _ _ _ _ _ (on_heap_run _ _ _ _ En)).
  rewrite (bind_ret (on_heap (recv_buffer_assign _ _ _)) _ _ (p, default_buf_header)
    (c <| heap := m' |>)); [|by destruct c].
  assert (headers (heap (c <| heap := m' |>)) !! p = Some (Hdr 0 (buf_size_ br) nullptr nullptr)) as Ep.
  { change (headers m' !! p = Some (Hdr 0 (buf_size_ br) nullptr nullptr)).
    rewrite Hm'. apply lookup_insert_eq. }
  rewrite (bind_ret _ _ _ _ _ (on_heap_capacity _ _ _ Ep)). cbn [capacity_].
  rewrite (proj2 (Z.ltb_lt 0 _) Hsz), bind_assert.
  by rewrite (bind_ret _ _ _ _ _ (on_ring_modify _ _)).
Qed.

(** Replenishing allocates a buffer for the most recently freed id and keeps
    the ring well-formed; the caller publishes it. *)
Lemma replenish_one_spec c br k :
  buf_ring_wf (heap c) br → heap_wf (heap c) → buf_id_pos_ br ≠ 0%nat → 0 < buf_size_ br →
  ∃ i br' c', replenish_one br k c = (Ret br', c') ∧
    buf_ring_wf (heap c') br' ∧ heap_wf (heap c') ∧ free_ids br = free_ids br' ++ [i] ∧
    bufs_ br' !! i = Some (brk (heap c)) ∧
    (∀ a, a ≠ brk (heap c) → headers (heap c') !! a = headers (heap c) !! a) ∧
    io_ring_ (frame c') =
      io_uring_buf_ring_add (bgid_ br) (brk (heap c) + S_hdr) (to_unsigned (buf_size_ br)) (to_ushort i)
        (io_uring_buf_ring_mask (num_bufs br)) k (io_ring_ (frame c)).
Proof.
  intros Hw Hh Hpos Hsz. destruct (wf_top _ _ Hw Hpos) as (i & Hi & Hb & Ef).
  destruct (replenish_one_run c br k i Hw Hh Hpos Hsz Hi) as (E & Hw' & Hh' & _ & Hm' & _).
  rewrite E. eexists i, _, _. split_and!; [reflexivity|exact Hw'|exact Hh'|by rewrite Ef| | |done].
  - cbn. apply list_lookup_insert_eq. by eapply lookup_lt_Some.
  - intros a Ha. cbn in Hm' |- *. by rewrite Hm', lookup_insert_ne.
Qed.

Lemma alloc_bufs_run n sz : ∀ m, heap_wf m → 0 < sz →
  ∃ l m', alloc_bufs n sz m = (Ret l, m') ∧ heap_wf m' ∧ length l = n ∧ NoDup l ∧
    brk m ≤ brk m' ∧ (∀ a, a < brk m → headers m' !! a = headers m !! a ∧ payload m' !! a = payload m !! a) ∧
    (∀ p, p ∈ l → brk m ≤ p ∧ headers m' !! p = Some (Hdr 0 sz nullptr nullptr) ∧
       payload m' !! p = Some (replicate (Z.to_nat sz) 0)).
Proof.
  induction n as [|n IH]; intros m Hh Hsz; simpl.
  - exists [], m. split_and!; try done; [apply NoDup_nil_2|by intros p ?%not_elem_of_nil].
  - pose proof (heap_wf_new m sz Hh ltac:(lia)) as Hh1. pose proof (hw_brk _ Hh) as Hb.
    rewrite (bind_ret _ _ _ _ _ (recv_buffer_new_run m sz)).
    rewrite recv_buffer_new_run in Hh1. cbn [snd] in Hh1.
    destruct (IH _ Hh1 Hsz) as (l & m' & E & Hw & Hl & Hnd & Hbrk & Hlo & Hin). cbn in *.
    rewrite (bind_ret _ _ _ _ _ E). unfold S_hdr in *.
    exists (brk m :: l), m'. split_and!; try done.
    + simpl. by rewrite Hl.
    + apply NoDup_cons. split; [|done]. intros Hx. destruct (Hin _ Hx). lia.
    + lia.
    + intros a Ha. destruct (Hlo a ltac:(lia)) as [-> ->]. by rewrite !lookup_insert_ne by lia.
    + intros p [->|Hp]%elem_of_cons.
      * destruct (Hlo (brk m) ltac:(lia)) as [-> ->]. rewrite !lookup_insert_eq. split_and!; [lia|done|done].
      * destruct (Hin p Hp). split; [lia|done].
Qed.

(** The entries [io_uring_buf_ring_add] is called with. *)
Definition entries_of (sz : Z) (i : nat) (l : list ptr) : list (ptr * Z * nat) :=
  imap (λ k p, (p + S_hdr, to_unsigned sz, to_ushort (i + k))) l.

Lemma entries_of_cons sz i p l :
  entries_of sz i (p :: l) = (p + S_hdr, to_unsigned sz, to_ushort i) :: entries_of sz (S i) l.
Proof.
  unfold entries_of. simpl. rewrite Nat.add_0_r. f_equal.
  apply imap_ext. intros k x _. simpl. do 3 f_equal. lia.
Qed.

Lemma provide_bufs_run bgid mask sz l : ∀ i c,
  0 < sz → (∀ p, p ∈ l → headers (heap c) !! p = Some (Hdr 0 sz nullptr nullptr)) →
  provide_bufs bgid mask i l c =
    (Ret tt, c <| frame ::= λ f, f <| io_ring_ ::= buf_ring_add_all bgid mask i (entries_of sz i l) |> |>).
Proof.
  induction l as [|p l IH]; intros i c Hsz Hl; cbn [provide_bufs].
  - by destruct c as [[]].
  - rewrite (bind_ret _ _ _ _ _ (on_heap_capacity c p _ (Hl p ltac:(left)))). cbn [capacity_].
    rewrite (proj2 (Z.ltb_lt 0 _) Hsz), bind_assert.
    rewrite (bind_ret _ _ _ _ _ (on_ring_modify _ c)).
    rewrite IH; [|done|]; [|intros q Hq; cbn; apply Hl; by right].
    rewrite entries_of_cons. by destruct c as [[]].
Qed.

Lemma buf_ring_new_run c n sz bgid ret r1 :
  heap_wf (heap c) → 0 < sz → 0 ≤ n < 2 ^ 32 →
  io_uring_setup_buf_ring n bgid (io_ring_ (frame c)) = (ret, r1) →
  if decide (ret = 0) then
    ∃ br c', buf_ring_new n sz bgid c = (Ret br, c') ∧ buf_ring_wf (heap c') br ∧
      heap_wf (heap c') ∧ free_ids br = [] ∧ length (bufs_ br) = Z.to_nat n ∧
      buf_size_ br = sz ∧ bgid_ br = bgid ∧
      buf_ring_provided bgid (io_ring_ (frame c')) =
        buf_ring_provided bgid r1 ++ entries_of sz 0 (bufs_ br) ∧
      (∀ a, a < brk (heap c) → headers (heap c') !! a = headers (heap c) !! a ∧ payload (heap c') !! a = payload (heap c) !! a) ∧
      (∀ p, p ∈ bufs_ br → brk (heap c) ≤ p ∧ headers (heap c') !! p = Some (Hdr 0 sz nullptr nullptr) ∧
         payload (heap c') !! p = Some (replicate (Z.to_nat sz) 0)) ∧
      ∃ r', frame c' = frame c <| io_ring_ := r' |>
  else ∃ c', buf_ring_new n sz bgid c = (Throw (system_error (- ret)), c') ∧ heap c' = heap c ∧
    ∃ r', frame c' = frame c <| io_ring_ := r' |>.
Proof.
  intros Hh Hsz Hn Hset.
  set (c1 := c <| frame ::= λ f, f <| io_ring_ := r1 |> |>).
  assert (on_ring (λ r, let '(ret, r') := io_uring_setup_buf_ring n bgid r in (Ret ret, r')) c = (Ret ret, c1)) as E1.
  { unfold on_ring, zoom. by rewrite Hset. }
  unfold buf_ring_new, buf_ring_setup. case_decide as Hret.
  - subst ret. destruct (alloc_bufs_run (Z.to_nat n) sz (heap c) Hh Hsz)
      as (l & m' & Ea & Hh' & Hl & Hnd & Hbrk & Hlo & Hin).
    rewrite (bind_ret _ _ c (BufRing (replicate (Z.to_nat n) default_buf_header)
      (replicate (Z.to_nat n) 0%nat) 0 0 bgid) c1);
      [|by rewrite (bind_ret _ _ _ _ _ E1)].
    cbn [bufs_]. rewrite length_replicate.
    rewrite (bind_ret _ _ _ l (c1 <| heap := m' |>)); [|by apply on_heap_run].
    set (c2 := c1 <| heap := m' |>).
    assert (∀ p, p ∈ l → headers (heap c2) !! p = Some (Hdr 0 sz nullptr nullptr)) as Hc2
      by (intros p Hp; apply (Hin p Hp)).
    rewrite (bind_ret _ _ _ _ _ (provide_bufs_run bgid _ sz l 0 c2 Hsz Hc2)).
    eexists _, _. split; [reflexivity|]. cbn. unfold default_buf_header, nullptr in *.
    pose proof (hw_brk _ Hh) as Hb. unfold default_buf_header in Hb.
    assert (∀ i p, l !! i = Some p → 32 < p) as Hbig.
    { intros i p Hi. destruct (Hin p ltac:(by eapply list_elem_of_lookup_2)). lia. }
    split_and!; try done.
    + split; cbn; unfold free_ids; cbn; rewrite ?length_replicate; try done; try lia.
      * apply NoDup_nil_2.
      * intros i. split; [by intros ?%not_elem_of_nil|]. intros Hi. apply Hbig in Hi.
        unfold default_buf_header in Hi. lia.
      * intros i p Hi _. pose proof (Hbig _ _ Hi). destruct (Hin p ltac:(by eapply list_elem_of_lookup_2)) as (? & ? & _).
        unfold nullptr. split; [lia|]. eauto.
      * intros i j p Hi Hj _. by eapply NoDup_lookup.
      * by apply hw_default.
    + assert (length l = length (entries_of sz 0 l)) as Hlen by (unfold entries_of; by rewrite length_imap).
      rewrite Hlen at 1. apply buf_ring_publish.
    + eexists. unfold c2, c1. destruct c as [[]]. reflexivity.
  - exists c1. rewrite (bind_throw _ _ c (system_error (- ret)) c1).
    { split_and!; [done|done|]. exists r1. unfold c1. by destruct c as [[]]. }
    rewrite (bind_ret _ _ _ _ _ E1). rewrite (proj2 (Z.eqb_neq _ _) Hret). simpl.
    apply throw_errno_runs. lia.
Qed.
(** C20. A registered buffer ring starts well-formed with every buffer allocated
    and handed to the kernel under the ids 0, 1, ... in order; when the kernel
    refuses the ring its errno is thrown and no buffer is allocated. *)
Theorem buf_ring_new_spec c n sz bgid ret r1 :
  heap_wf (heap c) → 0 < sz → 0 ≤ n < 2 ^ 32 →
  io_uring_setup_buf_ring n bgid (io_ring_ (frame c)) = (ret, r1) →
  if decide (ret = 0) then
    ∃ br c', buf_ring_new n sz bgid c = (Ret br, c') ∧ buf_ring_wf (heap c') br ∧
      heap_wf (heap c') ∧ free_ids br = [] ∧ length (bufs_ br) = Z.to_nat n ∧
      buf_size_ br = sz ∧ bgid_ br = bgid ∧
      buf_ring_provided bgid (io_ring_ (frame c')) =
        buf_ring_provided bgid r1 ++ entries_of sz 0 (bufs_ br)
  else ∃ c', buf_ring_new n sz bgid c = (Throw (system_error (- ret)), c') ∧ heap c' = heap c.
Proof.
  intros Hh Hsz Hn Hset. pose proof (buf_ring_new_run c n sz bgid ret r1 Hh Hsz Hn Hset) as H.
  case_decide; [|naive_solver].
  destruct H as (br & c' & ? & ? & ? & ? & ? & ? & ? & ? & _). by exists br, c'.
Qed.
End BufRingLemmas.
