(* ===== verification/Executor.v ===== *)
(** [include/fiona/executor.hpp], apart from its coroutine types ([Task]): the
    pool of direct descriptors, the registries of buffers, and the pointer
    tagging with which wakers and [post] talk to the event loop. *)

From S2P Require Import Prelude Uring Buffer BufferSpec Frame BufRing.

(** ** Pointer tagging *)

Definition wake_mask : Z := 1.
Definition post_mask : Z := 2.
Definition ptr_mask : Z := 2 ^ 64 - 1 - (wake_mask + post_mask).

(** [write( fd, &data, sizeof( data ) )] on the pipe: 0 or an errno. *)
Class OsPipe (R : Type) := { pipe_write : Z → Z → R → Z * R }.

(** The reference to the frame's mutex is not modelled: the library only locks
    and unlocks it. *)
Record waker := Waker { w_fd : Z; w_h : handle }.

(** What a word read from the pipe asks for
    ([frame::await_process_cqe], [src/io_context.cpp]). *)
Inductive pipe_msg := Msg_wake (h : handle) | Msg_post (h : handle) | Msg_none.

Definition decode_pipe (data : Z) : pipe_msg :=
  if flag_set data wake_mask then Msg_wake (Z.land data ptr_mask)
  else if flag_set data post_mask then Msg_post (Z.land data ptr_mask)
  else Msg_none.

Section Executor.
Context {R : Type} {HU : IoUring R} {HB : IoUringBufs R} {HP : OsPipe R} {HS : UnorderedBegin}.

Definition write_word (fd data : Z) : M (ctx R) unit :=
  e ← on_ring (λ r, let '(e, r') := pipe_write fd data r in (Ret e, r'));
  when (negb (e =? 0)) (throw_errno_as_error_code e).

(** [alive] tells whether [p_.lock()] yields the frame. *)
Definition wake (alive : bool) (w : waker) : M (ctx R) unit :=
  when (negb alive) (throw_errno_as_error_code EINVAL) ;;
  write_word (w_fd w) (Z.lor (w_h w) wake_mask).

Definition get_waker (h : handle) : M (ctx R) waker :=
  f ← on_frame get; mret (Waker (pipefd_ f).2 h).

Definition make_waker (h : handle) : M (ctx R) waker := get_waker h.

Definition get_pipefd : M (ctx R) Z := f ← on_frame get; mret (pipefd_ f).1.

(** [p] is the address [t.into_address()] returns. *)
Definition post_address (p : handle) : M (ctx R) unit :=
  f ← on_frame get;
  write_word (pipefd_ f).2 (Z.lor p post_mask).

(** ** Direct descriptors *)

Definition get_available_fd : M (ctx R) Z :=
  f ← on_frame get;
  match set_begin (fds_ f) with
  | None => mret (-1)
  | Some fd =>
      on_frame (modify (λ f, f <| fds_ ::= λ s, s ∖ {[fd]} |>)) ;;
      assert (0 <=? fd) ;;
      assert (to_unsigned fd <? num_files (params_ f)) ;;
      mret fd
  end.

Definition release_fd (fd : Z) : M (ctx R) unit :=
  if fd <? 0 then mret tt else
  f ← on_frame get;
  assert (to_unsigned fd <? num_files (params_ f)) ;;
  on_frame (modify (λ f, f <| fds_ ::= λ s, {[fd]} ∪ s |>)) ;;
  assert (bool_decide (fd ∉ fds_ f)).

(** ** Buffers *)

Definition get_buffer_group (bgid : Z) : M (ctx R) (option buf_ring) :=
  f ← on_frame get; mret (buf_rings_ f !! (bgid `mod` 2 ^ 16)).

Definition set_buffer_group (bgid : Z) (br : buf_ring) : M (ctx R) unit :=
  on_frame (modify (λ f, f <| buf_rings_ ::= <[bgid `mod` 2 ^ 16 := br]> |>)).

(** [num_bufs] is narrowed to the constructor's 32-bit parameter. *)
Definition register_buf_ring (num_bufs buf_size buffer_group_id : Z) : M (ctx R) unit :=
  f ← on_frame get;
  match buf_rings_ f !! buffer_group_id with
  | Some _ => throw_errno_as_error_code EEXIST
  | None =>
      br ← buf_ring_new (to_unsigned num_bufs) buf_size buffer_group_id;
      on_frame (modify (λ f, f <| buf_rings_ ::= <[buffer_group_id := br]> |>))
  end.

(** The parameter [buf] is destroyed when the function throws. *)
Definition executor_recycle_buffer (buf : ptr) (buffer_group_id : Z) : M (ctx R) unit :=
  br ← get_buffer_group buffer_group_id;
  match br with
  | None => finally (throw_errno_as_error_code EINVAL) (on_heap (recv_buffer_dtor buf))
  | Some br => br' ← recycle_buffer br buf; set_buffer_group buffer_group_id br'
  end.

Definition register_fixed_buffers (num_bufs buf_size : Z) : M (ctx R) unit :=
  f ← on_frame get;
  match fixed_buffers_ f with
  | Some _ => throw_errno_as_error_code EEXIST
  | None =>
      p ← fixed_buffers_new (Z.to_nat (to_unsigned num_bufs)) buf_size;
      on_frame (modify (λ f, f <| fixed_buffers_ := Some p |>))
  end.

(** ** Exceptions *)

Definition unhandled_exception (e : exn) : M (ctx R) unit :=
  on_frame (modify (λ f, f <| exception_ptr_ ::= λ p,
    match p with Some e0 => Some e0 | None => Some e end |>)).

(** ** A client of the descriptor pool: acquire, or release the [n]-th held *)
Inductive fd_op := Fd_get | Fd_release (n : nat).

Fixpoint run_fd_ops (ops : list fd_op) (held : list Z) : M (ctx R) (list Z) :=
  match ops with
  | [] => mret held
  | Fd_get :: ops =>
      fd ← get_available_fd;
      run_fd_ops ops (if fd <? 0 then held else held ++ [fd])
  | Fd_release n :: ops =>
      match held !! n with
      | Some fd => release_fd fd ;; run_fd_ops ops (delete n held)
      | None => run_fd_ops ops held
      end
  end.

(** Every free slot is a slot of the registered table. *)
Definition fds_wf (c : ctx R) : Prop :=
  num_files (params_ (frame c)) ≤ 2 ^ 31 ∧
  ∀ fd, fd ∈ fds_ (frame c) → 0 ≤ fd < num_files (params_ (frame c)).
End Executor.

(** ** Lemmas *)
Section ExecutorLemmas.
Context {R : Type} {HU : IoUring R} {HB : IoUringBufs R} {HP : OsPipe R}.
Context {HS : UnorderedBegin} {HSL : UnorderedBeginLaws}.
Implicit Types c : ctx R.

Local Abbreviation with_fds c X := (c <| frame ::= λ f, f <| fds_ ::= λ _, X |> |>).

Lemma fds_unsigned c fd : fds_wf c → 0 ≤ fd < num_files (params_ (frame c)) →
  (to_unsigned fd <? num_files (params_ (frame c))) = true.
Proof. intros [Hn _] Hfd. unfold to_unsigned. rewrite Z.mod_small; lia. Qed.

Lemma get_available_fd_run c : fds_wf c →
  (fds_ (frame c) = ∅ ∧ get_available_fd c = (Ret (-1), c)) ∨
  (∃ fd, fd ∈ fds_ (frame c) ∧
     get_available_fd c = (Ret fd, with_fds c (fds_ (frame c) ∖ {[fd]}))).
Proof.
  intros Hw. unfold get_available_fd. rewrite (bind_ret _ _ _ _ _ (on_frame_get c)).
  destruct (set_begin (fds_ (frame c))) as [fd|] eqn:E.
  - right. apply set_begin_in in E. destruct (proj2 Hw _ E) as [H0 H1].
    exists fd. split; [done|]. rewrite (bind_ret _ _ _ _ _ (on_frame_modify _ c)).
    rewrite (proj2 (Z.leb_le 0 fd) H0), bind_assert, fds_unsigned, bind_assert by (done || lia).
    by destruct c as [[]].
  - left. split; [by apply set_begin_empty|done].
Qed.

Lemma release_fd_run c fd : fds_wf c → 0 ≤ fd < num_files (params_ (frame c)) →
  fd ∉ fds_ (frame c) →
  release_fd fd c = (Ret tt, with_fds c ({[fd]} ∪ fds_ (frame c))).
Proof.
  intros Hw Hfd Hni. unfold release_fd. rewrite (proj2 (Z.ltb_ge fd 0)) by lia.
  rewrite (bind_ret _ _ _ _ _ (on_frame_get c)), fds_unsigned, bind_assert by done.
  rewrite (bind_ret _ _ _ _ _ (on_frame_modify _ c)).
  rewrite bool_decide_eq_true_2 by done. by destruct c as [[]].
Qed.

Lemma release_fd_negative c fd : fd < 0 → release_fd fd c = (Ret tt, c).
Proof. intros H. unfold release_fd. by rewrite (proj2 (Z.ltb_lt fd 0) H). Qed.

Lemma fds_wf_with c X : fds_wf c →
  (∀ fd, fd ∈ X → 0 ≤ fd < num_files (params_ (frame c))) → fds_wf (with_fds c X).
Proof. intros [Hn _] HX. by split. Qed.

(** What is handed out and what is free never overlap. *)
Definition fds_split (held : list Z) c : Prop :=
  fds_wf c ∧ NoDup held ∧
  (∀ fd, fd ∈ held → 0 ≤ fd < num_files (params_ (frame c)) ∧ fd ∉ fds_ (frame c)).

Lemma fds_split_get held c fd : fds_split held c → fd ∈ fds_ (frame c) →
  fds_split (held ++ [fd]) (with_fds c (fds_ (frame c) ∖ {[fd]})).
Proof.
  intros (Hw & Hnd & Hh) Hfd. split_and!.
  - apply fds_wf_with; [done|]. intros x [? _]%elem_of_difference. by apply Hw.
  - apply NoDup_app. split_and!; [done| |apply NoDup_singleton].
    intros x Hx ->%list_elem_of_singleton. by apply (Hh fd).
  - intros x [Hx| ->%list_elem_of_singleton]%elem_of_app; cbn.
    + destruct (Hh x Hx). split; [done|]. rewrite elem_of_difference. tauto.
    + split; [by apply Hw|]. rewrite elem_of_difference, elem_of_singleton. tauto.
Qed.

Lemma fds_split_release held c n fd : fds_split held c → held !! n = Some fd →
  fds_split (delete n held) (with_fds c ({[fd]} ∪ fds_ (frame c))).
Proof.
  intros (Hw & Hnd & Hh) Hn.
  pose proof (delete_Permutation _ _ _ Hn) as Hp.
  rewrite Hp in Hnd. apply NoDup_cons in Hnd as [Hni Hnd]. split_and!; [|done|].
  - apply fds_wf_with; [done|]. intros x [ ->%elem_of_singleton|?]%elem_of_union; [|by apply Hw].
    apply (Hh fd). by eapply list_elem_of_lookup_2.
  - intros x Hx. cbn. destruct (Hh x) as [Hb Hx'].
    { rewrite Hp. by right. }
    split; [done|]. rewrite elem_of_union, elem_of_singleton. intros [->|?]; tauto.
Qed.

(** C17. Direct descriptors are never handed out twice: along any sequence of
    acquisitions and releases of held slots no assertion fails, the held slots
    are distinct, none of them is free, and held and free slots together are
    always those of the start. *)
Theorem fd_pool_sound ops : ∀ held c, fds_split held c →
  ∃ held' c', run_fd_ops ops held c = (Ret held', c') ∧ fds_split held' c' ∧
    list_to_set held' ∪ fds_ (frame c') = list_to_set held ∪ fds_ (frame c).
Proof.
  induction ops as [|[|n] ops IH]; intros held c Hs; simpl.
  - by exists held, c.
  - destruct (get_available_fd_run c (proj1 Hs)) as [[E R0]|(fd & Hfd & R0)].
    + rewrite (bind_ret _ _ _ _ _ R0). by apply IH.
    + rewrite (bind_ret _ _ _ _ _ R0). pose proof (proj2 (proj1 Hs) _ Hfd).
      rewrite (proj2 (Z.ltb_ge fd 0)) by lia.
      destruct (IH _ _ (fds_split_get _ _ _ Hs Hfd)) as (held' & c' & E & Hs' & Heq).
      exists held', c'. split_and!; [done|done|]. rewrite Heq. cbn.
      rewrite list_to_set_app_L. apply leibniz_equiv. intros x. simpl.
      rewrite !elem_of_union, elem_of_difference, elem_of_singleton, elem_of_empty.
      destruct (decide (x = fd)) as [->|]; tauto.
  - destruct (held !! n) as [fd|] eqn:En; [|by apply IH].
    destruct (proj2 (proj2 Hs) fd) as [Hb Hni]; [by eapply list_elem_of_lookup_2|].
    rewrite (bind_ret _ _ _ _ _ (release_fd_run c fd (proj1 Hs) Hb Hni)).
    destruct (IH _ _ (fds_split_release _ _ _ _ Hs En)) as (held' & c' & E & Hs' & Heq).
    exists held', c'. split_and!; [done|done|]. rewrite Heq. cbn.
    apply leibniz_equiv. intros x.
    rewrite !elem_of_union, !elem_of_list_to_set, elem_of_singleton.
    rewrite (elem_of_Permutation_proper x _ _ (delete_Permutation _ _ _ En)), elem_of_cons. tauto.
Qed.

(** ** Tagged pointers *)

Lemma tag_bits h : h `mod` 4 = 0 → Z.testbit h 0 = false ∧ Z.testbit h 1 = false.
Proof.
  intros Hm. assert (Z.land h (Z.ones 2) = 0) as Hz by (rewrite Z.land_ones by lia; exact Hm).
  assert (∀ k, 0 ≤ k < 2 → Z.testbit h k = false) as Hk; [|by split; apply Hk].
  intros k Hk. pose proof (f_equal (λ z, Z.testbit z k) Hz) as H. cbv beta in H.
  by rewrite Z.land_spec, Z.bits_0, Z.ones_spec_low, andb_true_r in H by lia.
Qed.

Lemma ptr_mask_testbit i : 0 ≤ i → Z.testbit ptr_mask i = (2 <=? i) && (i <? 64).
Proof.
  intros Hi. replace ptr_mask with (Z.shiftl (Z.ones 62) 2) by reflexivity.
  rewrite Z.shiftl_spec by done.
  destruct (Z.leb_spec 2 i); simpl.
  - destruct (Z.ltb_spec i 64).
    + apply Z.ones_spec_low. lia.
    + apply Z.ones_spec_high. lia.
  - apply Z.testbit_neg_r. lia.
Qed.

Lemma untag h m : h `mod` 4 = 0 → 0 ≤ h < 2 ^ 64 → 0 ≤ m < 4 →
  Z.land (Z.lor h m) ptr_mask = h.
Proof.
  intros Hm Hh Hb. destruct (tag_bits h Hm) as [H0 H1].
  apply Z.bits_inj'. intros i Hi. rewrite Z.land_spec, Z.lor_spec, ptr_mask_testbit by done.
  assert (∀ z k j, 0 ≤ z < 2 ^ k → k ≤ j → Z.testbit z j = false) as Hhigh.
  { intros z k j Hz Hj. destruct (decide (z = 0)) as [->|]; [apply Z.bits_0|].
    apply Z.bits_above_log2; [lia|]. assert (Z.log2 z < k); [|lia].
    apply Z.log2_lt_pow2; lia. }
  destruct (Z.leb_spec 2 i); simpl.
  - rewrite (Hhigh m 2 i), orb_false_r by (simpl; lia).
    destruct (Z.ltb_spec i 64); [apply andb_true_r|].
    rewrite (Hhigh h 64 i) by lia. done.
  - rewrite andb_false_r. assert (i = 0 ∨ i = 1) as [-> | ->] by lia; congruence.
Qed.

Lemma flag_set_bit z k : 0 ≤ k → flag_set z (2 ^ k) = Z.testbit z k.
Proof.
  intros Hk. unfold flag_set. destruct (Z.testbit z k) eqn:E.
  - apply negb_true_iff, Z.eqb_neq. intros Hz.
    pose proof (f_equal (λ x, Z.testbit x k) Hz) as H. cbv beta in H.
    by rewrite Z.land_spec, E, Z.pow2_bits_true, Z.bits_0 in H.
  - apply negb_false_iff, Z.eqb_eq. apply Z.bits_inj'. intros i Hi.
    rewrite Z.land_spec, Z.bits_0. destruct (decide (i = k)) as [->|].
    + by rewrite E.
    + by rewrite Z.pow2_bits_false, andb_false_r.
Qed.

Lemma decode_tags h : h `mod` 4 = 0 → 0 ≤ h < 2 ^ 64 →
  decode_pipe (Z.lor h wake_mask) = Msg_wake h ∧ decode_pipe (Z.lor h post_mask) = Msg_post h.
Proof.
  intros Hm Hh. destruct (tag_bits h Hm) as [H0 H1]. unfold decode_pipe.
  change wake_mask with (2 ^ 0). change post_mask with (2 ^ 1).
  rewrite !flag_set_bit, !Z.lor_spec, H0, H1 by lia. simpl.
  by rewrite !untag by (done || lia).
Qed.

(** C21. The event loop gets back exactly the pointer a waker or [post] tagged, and
    never mistakes one message for the other, for every pointer aligned to four
    bytes. *)
Theorem pipe_tag_roundtrip h :
  h `mod` 4 = 0 → 0 ≤ h < 2 ^ 64 →
  decode_pipe (Z.lor h wake_mask) = Msg_wake h ∧ decode_pipe (Z.lor h post_mask) = Msg_post h.
Proof. apply decode_tags. Qed.

(** ** Registries *)

Lemma get_buffer_group_run c bgid :
  get_buffer_group bgid c = (Ret (buf_rings_ (frame c) !! (bgid `mod` 2 ^ 16)), c).
Proof. unfold get_buffer_group. by rewrite (bind_ret _ _ _ _ _ (on_frame_get c)). Qed.

(** A buffer group can be registered once: a taken id throws EEXIST and changes
    nothing; a free id makes the group known with all its buffers at the kernel,
    or throws the kernel's errno and leaves the registry as it was. *)
Lemma register_buf_ring_spec c n sz bgid ret r1 :
  heap_wf (heap c) → 0 < sz → 0 ≤ n < 2 ^ 32 → 0 ≤ bgid < 2 ^ 16 →
  io_uring_setup_buf_ring n bgid (io_ring_ (frame c)) = (ret, r1) →
  IoUringBufsLaws R →
  if decide (is_Some (buf_rings_ (frame c) !! bgid)) then
    register_buf_ring n sz bgid c = (Throw (system_error EEXIST), c)
  else if decide (ret = 0) then
    ∃ br c', register_buf_ring n sz bgid c = (Ret tt, c') ∧
      get_buffer_group bgid c' = (Ret (Some br), c') ∧ buf_ring_wf (heap c') br ∧
      free_ids br = [] ∧ length (bufs_ br) = Z.to_nat n
  else ∃ c', register_buf_ring n sz bgid c = (Throw (system_error (- ret)), c') ∧
      heap c' = heap c ∧ buf_rings_ (frame c') = buf_rings_ (frame c).
Proof.
  intros Hh Hsz Hn Hb Hset HL. unfold register_buf_ring.
  rewrite (bind_ret _ _ _ _ _ (on_frame_get c)).
  destruct (buf_rings_ (frame c) !! bgid) as [br0|] eqn:E0.
  { rewrite decide_True by eauto. by apply throw_errno_runs. }
  rewrite decide_False by (intros [? ?]; done).
  replace (to_unsigned n) with n by (unfold to_unsigned; rewrite Z.mod_small; lia).
  pose proof (buf_ring_new_run c n sz bgid ret r1 Hh Hsz Hn Hset) as Hnew.
  case_decide as Hret.
  - destruct Hnew as (br & c' & E & Hw & Hh' & Hf & Hl & _ & _ & _ & _ & _ & r' & Hfr).
    rewrite (bind_ret _ _ _ _ _ E), on_frame_modify.
    eexists br, _. split; [reflexivity|]. rewrite get_buffer_group_run. cbn.
    rewrite Z.mod_small by done. by rewrite lookup_insert_eq.
  - destruct Hnew as (c' & E & Hheap & r' & Hfr).
    rewrite (bind_throw _ _ _ _ _ E). exists c'. by rewrite Hfr.
Qed.

Lemma recv_buffer_dtor_run p h m : headers m !! p = Some h → p ≠ default_buf_header →
  recv_buffer_dtor p m = (Ret tt, m <| headers ::= delete p |> <| payload ::= delete p |>).
Proof.
  intros E Hd. unfold recv_buffer_dtor, is_defaulted. rewrite bool_decide_eq_false_2 by done.
  unfold when, aligned_delete. simpl. by rewrite E.
Qed.

(** Recycling a buffer into a group that was never registered throws EINVAL,
    and the buffer is freed rather than leaked. *)
Lemma executor_recycle_unknown c p h bgid :
  buf_rings_ (frame c) !! (bgid `mod` 2 ^ 16) = None →
  headers (heap c) !! p = Some h → p ≠ default_buf_header →
  ∃ c', executor_recycle_buffer p bgid c = (Throw (system_error EINVAL), c') ∧
    headers (heap c') = delete p (headers (heap c)) ∧ frame c' = frame c.
Proof.
  intros Hg Hp Hd. unfold executor_recycle_buffer.
  rewrite (bind_ret _ _ _ _ _ (get_buffer_group_run c bgid)), Hg.
  unfold finally. rewrite throw_errno_runs by done.
  unfold on_heap. rewrite (zoom_run heap _ _ _ _ (recv_buffer_dtor_run p h _ Hp Hd)).
  by eexists.
Qed.
End ExecutorLemmas.
