(* ===== verification/LogRing.v ===== *)
(** A concrete ring that records what it is asked to do, as an instance of the
    interfaces of [Uring] and [Frame]: it shows that their laws can hold, and the
    witnesses of the development run on it. *)

From S2P Require Import Prelude Uring Buffer BufferSpec Frame BufRing Executor.

Record log_ring := LogRing {
  lr_entries : nat;                         (** size of the submission queue *)
  lr_room : nat;
  lr_queued : list sqe;
  lr_batches : list (list sqe);
  lr_pending : list cqe;                    (** completions not yet consumed *)
  lr_script : list (list cqe);              (** completions of the waits to come *)
  lr_staged : gmap (Z * nat) (ptr * Z * nat);
  lr_provided : gmap Z (list (ptr * Z * nat));
  lr_buffers : list (nat * Z);
  lr_pipe : list (Z * Z);                   (** words written to pipes *)
}.
#[export] Instance eta_log_ring : Eta log_ring := λ r,
  LogRing (lr_entries r) (lr_room r) (lr_queued r) (lr_batches r) (lr_pending r) (lr_script r)
    (lr_staged r) (lr_provided r) (lr_buffers r) (lr_pipe r).

Definition log_ring_init (n : nat) (script : list (list cqe)) : log_ring :=
  LogRing n n [] [] [] script ∅ ∅ [] [].

Definition lr_space (r : log_ring) : nat := (lr_room r `min` lr_entries r)%nat.

Definition lr_submit (r : log_ring) : log_ring :=
  r <| lr_room := lr_entries r |> <| lr_batches := lr_batches r ++ [lr_queued r] |>
    <| lr_queued := [] |>.

#[export] Instance log_ring_uring : IoUring log_ring := {|
  io_uring_sq_space_left r := Z.of_nat (lr_space r);
  io_uring_get_sqe q r :=
    match lr_space r with
    | O => None
    | S n => Some (r <| lr_room := n |> <| lr_queued ::= λ l, l ++ [q] |>)
    end;
  io_uring_submit := lr_submit;
  sq_entries r := Z.of_nat (lr_entries r);
  sq_queued := lr_queued;
  sq_submitted := lr_batches |}.

#[export] Instance log_ring_cq : IoUringCq log_ring := {|
  io_uring_submit_and_wait r :=
    lr_submit r <| lr_pending := lr_pending r ++ hd [] (lr_script r) |> <| lr_script := tl (lr_script r) |>;
  io_uring_cq_ready r := Z.of_nat (length (lr_pending r));
  io_uring_peek_batch_cqe r n := take (Z.to_nat n) (lr_pending r);
  io_uring_cq_advance n r := r <| lr_pending ::= drop (Z.to_nat n) |>;
  io_uring_peek_cqe r := head (lr_pending r);
  cq_pending := lr_pending |}.

#[export] Instance log_ring_bufs : IoUringBufs log_ring := {|
  io_uring_register_buffers l r := r <| lr_buffers := l |>;
  io_uring_unregister_buffers r := r <| lr_buffers := [] |>;
  io_uring_setup_buf_ring n bgid r := (0, r <| lr_provided ::= <[bgid := []]> |>);
  io_uring_free_buf_ring n bgid r := r <| lr_provided ::= delete bgid |>;
  io_uring_buf_ring_add bgid addr len bid mask off r :=
    r <| lr_staged ::= <[(bgid, off) := (addr, len, bid)]> |>;
  io_uring_buf_ring_advance bgid n r :=
    r <| lr_provided ::= <[bgid := default [] (lr_provided r !! bgid) ++
                            omap (λ k, lr_staged r !! (bgid, k)) (seq 0 n)]> |>;
  io_uring_buf_ring_mask n := n - 1;
  buf_ring_provided bgid r := default [] (lr_provided r !! bgid) |}.

#[export] Instance log_ring_pipe : OsPipe log_ring := {|
  pipe_write fd data r := (0, r <| lr_pipe ::= λ l, l ++ [(fd, data)] |>) |}.

(** A context around it. *)
Definition log_frame (r : log_ring) (n : nat) : io_context_frame log_ring :=
  IoFrame r ∅ (Params 4096 4096 (Z.of_nat n)) None ∅ (list_to_set (Z.of_nat <$> seq 0 n)) [] None (100, 101).

Definition log_ctx (entries files : nat) (script : list (list cqe)) : ctx log_ring :=
  Ctx (log_frame (log_ring_init entries script) files) mem_init 0 ∅.

(** ** The laws *)

#[export] Instance log_ring_laws : IoUringLaws log_ring.
Proof.
  split; cbn; unfold lr_space.
  - intros r. lia.
  - intros q r Hr. by destruct (_ `min` _)%nat.
  - intros q r Hr. destruct (_ `min` _)%nat as [|n] eqn:E; [lia|].
    eexists. split; [done|]. cbn. split_and!; try done. lia.
  - intros r. cbn. lia.
  - done.
  - done.
  - done.
Qed.

#[export] Instance log_ring_cq_laws : IoUringCqLaws log_ring.
Proof. by split. Qed.

Lemma staged_add_all bgid mask es : ∀ off (r : log_ring) k,
  lr_staged (buf_ring_add_all bgid mask off es r) !! (bgid, k) =
    if decide (off ≤ k < off + length es)%nat then es !! (k - off)%nat else lr_staged r !! (bgid, k).
Proof.
  induction es as [|[[addr len] bid] es IH]; intros off r k; simpl.
  - rewrite decide_False by lia. done.
  - rewrite IH. destruct (decide (k = off)) as [->|Hk].
    + rewrite decide_False, decide_True by lia. rewrite Nat.sub_diag. cbn. apply lookup_insert_eq.
    + cbn. rewrite lookup_insert_ne by congruence.
      destruct (decide (S off ≤ k < S off + length es)%nat).
      * rewrite decide_True by lia. rewrite decide_True by lia.
        by replace (k - off)%nat with (S (k - S off)) by lia.
      * rewrite decide_False by lia. by rewrite decide_False by lia.
Qed.

Lemma provided_add_all bgid mask es : ∀ off (r : log_ring),
  lr_provided (buf_ring_add_all bgid mask off es r) = lr_provided r.
Proof. induction es as [|[[addr len] bid] es IH]; intros off r; simpl; [done|]. by rewrite IH. Qed.

Lemma omap_lookup_seq {A} (es : list A) :
  omap (λ k, es !! k) (seq 0 (length es)) = es.
Proof.
  induction es as [|x es IH] using rev_ind; [done|].
  rewrite length_app. simpl. rewrite Nat.add_1_r, seq_S, omap_app. simpl.
  rewrite lookup_app_r, Nat.sub_diag by lia. simpl. f_equal.
  rewrite <- IH at 2. apply list_omap_ext, Forall_Forall2_diag, Forall_forall. intros k Hk.
  apply elem_of_seq in Hk. by rewrite lookup_app_l by lia.
Qed.

#[export] Instance log_ring_bufs_laws : IoUringBufsLaws log_ring.
Proof.
  split. intros bgid mask es r. cbn. rewrite lookup_insert_eq. simpl.
  rewrite provided_add_all. f_equal. etrans; [|apply (omap_lookup_seq es)].
  apply list_omap_ext, Forall_Forall2_diag, Forall_forall. intros k Hk. apply elem_of_seq in Hk.
  rewrite staged_add_all, decide_True by lia. by rewrite Nat.sub_0_r.
Qed.

#[export] Instance log_ring_separate : IoUringSeparate log_ring.
Proof. by split. Qed.

(** ** Witnesses for [BufRing]: a ring of two buffers of 8 bytes *)

Definition ring_setup : M (ctx log_ring) (buf_ring * ptr) :=
  br ← buf_ring_new 2 8 7;
  p ← on_heap (recv_buffer_new 5);
  mret (br, p).
Definition ring_ctx : ctx log_ring := Eval vm_compute in (ring_setup (log_ctx 4 4 [])).2.
Definition ring_br : buf_ring := BufRing [64; 104] [0; 0]%nat 0 8 7.
(** The same ring after buffer 1 was consumed. *)
Definition ring_br1 : buf_ring := BufRing [64; default_buf_header] [1; 0]%nat 1 8 7.

Ltac by_compute := vm_compute; first [reflexivity | exact I | discriminate | tauto].

Lemma ring_ctx_heap : heap_wf (heap ring_ctx).
Proof.
  split; [by_compute| |by_compute].
  assert (map_Forall (λ a _, bool_decide (nullptr < a < brk (heap ring_ctx))) (headers (heap ring_ctx))) as H.
  { apply (bool_decide_unpack _). by_compute. }
  intros a [h Ha]. specialize (H a h Ha). by apply bool_decide_unpack in H.
Qed.

Lemma ring_wf_lists m l ids pos sz bg :
  bool_decide (length ids = length l ∧ (pos ≤ length ids)%nat ∧ NoDup (take pos ids) ∧
    Forall (λ i, i ∈ take pos ids ↔ l !! i = Some default_buf_header) (seq 0 (length l)) ∧
    Forall (λ i, (i < length l)%nat) (take pos ids) ∧
    Forall (λ p, p ≠ default_buf_header → p ≠ nullptr ∧
                 0 < default 0 (capacity_ <$> headers m !! p)) l ∧
    NoDup (filter (λ p, p ≠ default_buf_header) l)) = true →
  (∀ i j p, l !! i = Some p → l !! j = Some p → p ≠ default_buf_header → i = j) →
  headers m !! default_buf_header = Some (Hdr 0 0 nullptr nullptr) →
  buf_ring_wf m (BufRing l ids pos sz bg).
Proof.
  intros Hb Hdist Hd. apply bool_decide_eq_true in Hb as (? & ? & ? & Hf & Hlt & Ho & _).
  split; cbn; try done; unfold free_ids; cbn.
  - intros i. destruct (decide (i < length l)%nat) as [Hi|Hi].
    + rewrite Forall_forall in Hf. apply Hf. apply elem_of_seq. lia.
    + split.
      * intros Hin. rewrite Forall_forall in Hlt. specialize (Hlt i Hin). lia.
      * intros Hs. apply lookup_lt_Some in Hs. lia.
  - intros i p Hi Hp. rewrite Forall_forall in Ho.
    destruct (Ho p ltac:(by eapply list_elem_of_lookup_2) Hp) as [? Hc]. split; [done|].
    destruct (headers m !! p) as [h|]; simpl in Hc; [eauto|lia].
Qed.

Ltac small_lookup :=
  repeat match goal with
  | H : (?x :: ?l) !! ?i = Some _ |- _ => destruct i; simpl in H; simplify_eq
  | H : [] !! _ = Some _ |- _ => rewrite lookup_nil in H; discriminate
  end; try done.

Lemma ring_br_wf : buf_ring_wf (heap ring_ctx) ring_br.
Proof. apply ring_wf_lists; [by_compute| |by_compute]. intros i j p Hi Hj _. small_lookup. Qed.

Lemma ring_br1_wf : buf_ring_wf (heap ring_ctx) ring_br1.
Proof. apply ring_wf_lists; [by_compute| |by_compute]. intros i j p Hi Hj ?. small_lookup. Qed.

Lemma ring_spare br : 144 ∉ bufs_ br → spare_buffer (heap ring_ctx) br 144 5.
Proof. intros H. unfold spare_buffer. split_and!; [discriminate|discriminate|done|lia|by_compute]. Qed.

Lemma buf_ring_new_spec_witness :
  ∃ br c', buf_ring_new 4 16 9 ring_ctx = (Ret br, c') ∧ buf_ring_wf (heap c') br ∧
    length (bufs_ br) = 4%nat.
Proof.
  destruct (buf_ring_new_spec (HB := log_ring_bufs) ring_ctx 4 16 9 0
              (io_ring_ (frame ring_ctx) <| lr_provided ::= <[9 := []]> |>)
              ring_ctx_heap ltac:(lia) ltac:(lia) eq_refl)
    as (br & c' & E & W & _ & _ & L & _).
  exists br, c'. split_and!; assumption.
Defined.

Definition pool3 : fixed_buffers :=
  FixedBuffers [[0; 0]; [0; 0]; [0; 0]] [(0%nat, 2); (1%nat, 2); (2%nat, 2)] [0; 1; 2]%nat 3.

Lemma pool3_wf : fixed_wf pool3.
Proof. split; cbn; [reflexivity|lia]. Qed.

(** ** Witnesses for [Executor] *)

Lemma ring_ctx_fds : fds_split [] ring_ctx.
Proof.
  split_and!; [|apply NoDup_nil_2|by intros x ?%not_elem_of_nil].
  split; [by vm_compute|]. intros fd Hfd.
  assert (Forall (λ x, 0 ≤ x < 4) (elements (fds_ (frame ring_ctx)))) as Hall.
  { vm_compute. repeat constructor; discriminate. }
  rewrite Forall_forall in Hall. change (num_files _) with 4. apply Hall. by apply elem_of_elements.
Qed.

Lemma fd_pool_sound_witness :
  ∃ held' c', run_fd_ops [Fd_get; Fd_get; Fd_release 0; Fd_get] [] ring_ctx = (Ret held', c') ∧
    NoDup held' ∧ length held' = 2%nat.
Proof.
  destruct (fd_pool_sound [Fd_get; Fd_get; Fd_release 0; Fd_get] [] ring_ctx ring_ctx_fds)
    as (held' & c' & E & (_ & Hnd & _) & _).
  exists held', c'. split_and!; [exact E|exact Hnd|].
  vm_compute in E. injection E as <- _. reflexivity.
Defined.

Lemma pipe_tag_roundtrip_witness :
  decode_pipe (Z.lor 4096 wake_mask) = Msg_wake 4096 ∧ decode_pipe (Z.lor 4096 post_mask) = Msg_post 4096.
Proof. apply (pipe_tag_roundtrip 4096); [reflexivity|lia]. Defined.

