(* ===== verification/Task.v ===== *)
(** [include/fiona/task.hpp], the coroutine types of
    [include/fiona/executor.hpp] and [detail::task_map]
    ([include/fiona/detail/common.hpp]).

    The coroutine frames live in [coros]; a frame that is not there has been
    destroyed, and touching it is a fault.  A user's coroutine body is not code
    of the repository: its frame only keeps the objects of the library it owns,
    which its destruction destroys.  The body of [detail::scheduler] is modelled
    by [sched_start] and [sched_resume]. *)

From S2P Require Import Prelude Uring Buffer Frame Executor.

(** ** task<T>: the handle it holds *)

(** Move construction: the new task and the moved-from one. *)
Definition task_move (rhs : option handle) : option handle * option handle := (rhs, None).

(** Move assignment ([same] is [this == &rhs]): both tasks afterwards. *)
Definition task_move_assign (same : bool) (lhs rhs : option handle) : option handle * option handle :=
  if same then (lhs, rhs) else (rhs, lhs).

Definition from_address (p : handle) : option handle := Some p.

Section Task.
Context {R : Type}.

Definition into_address (t : option handle) : M (ctx R) (handle * option handle) :=
  match t with
  | Some h => mret (h, None)
  | None => fail AssertFailed
  end.

(** ** Coroutine frames *)

Definition get_coro (h : handle) : M (ctx R) coro :=
  cs ← gets coros;
  match cs !! h with Some x => mret x | None => fail UseAfterFree end.

Definition set_coro (h : handle) (x : coro) : M (ctx R) unit :=
  modify (λ c, c <| coros ::= <[h := x]> |>).

(** [h.promise()] of a task and of a scheduler coroutine. *)
Definition get_promise (h : handle) : M (ctx R) promise :=
  x ← get_coro h;
  match x with UserCoro p _ _ => mret p | SchedCoro _ _ => fail OutOfBounds end.

Definition upd_promise (h : handle) (f : promise → promise) : M (ctx R) unit :=
  x ← get_coro h;
  match x with
  | UserCoro p d ls => set_coro h (UserCoro (f p) d ls)
  | SchedCoro _ _ => fail OutOfBounds
  end.

Definition get_internal (h : handle) : M (ctx R) internal_promise :=
  x ← get_coro h;
  match x with SchedCoro p _ => mret p | UserCoro _ _ _ => fail OutOfBounds end.

Definition upd_internal (h : handle) (f : internal_promise → internal_promise) : M (ctx R) unit :=
  x ← get_coro h;
  match x with
  | SchedCoro p t => set_coro h (SchedCoro (f p) t)
  | UserCoro _ _ _ => fail OutOfBounds
  end.

(** ** promise<T> *)

(** [get_return_object]: the frame of a new task, suspended initially. *)
Definition get_return_object (h : handle) (locals : list owned) : M (ctx R) (option handle) :=
  set_coro h (UserCoro (Promise None V_uninit) false locals) ;; mret (Some h).

Definition set_continuation (h awaiting : handle) : M (ctx R) unit :=
  p ← get_promise h;
  assert (bool_decide (p_continuation p = None)) ;;
  upd_promise h (λ p, p <| p_continuation := Some awaiting |>).

Definition return_value (h : handle) (v : Z) : M (ctx R) unit :=
  upd_promise h (λ p, p <| p_rt := V_ok v |>).

Definition promise_unhandled_exception (h : handle) (e : exn) : M (ctx R) unit :=
  upd_promise h (λ p, p <| p_rt := V_err e |>).

(** Reading the storage of a promise that holds nothing is undefined. *)
Definition variant_result (v : variant) : M (ctx R) Z :=
  match v with
  | V_ok v => mret v
  | V_err e => throw e
  | V_uninit => fail OutOfBounds
  end.

Definition promise_result (h : handle) : M (ctx R) Z :=
  p ← get_promise h; variant_result (p_rt p).

(** [promise<void>::result] and [promise_variant<void>::result]: only an exception
    is stored. *)
Definition variant_result_void (v : variant) : M (ctx R) unit :=
  match v with V_err e => throw e | _ => mret tt end.

(** [final_suspend]: the coroutine is done and the continuation is resumed;
    resuming a null handle is undefined. *)
Definition task_final_suspend (h : handle) : M (ctx R) handle :=
  x ← get_coro h;
  match x with
  | UserCoro p _ ls =>
      set_coro h (UserCoro p true ls) ;;
      match p_continuation p with Some k => mret k | None => fail NullDeref end
  | SchedCoro _ _ => fail OutOfBounds
  end.

(** ** task<T>::awaitable *)

Definition task_await_ready (t : option handle) : M (ctx R) bool :=
  match t with
  | None => mret true
  | Some h =>
      x ← get_coro h;
      match x with UserCoro _ d _ => mret d | SchedCoro _ _ => fail OutOfBounds end
  end.

Definition task_await_suspend (t : option handle) (awaiting : handle) : M (ctx R) handle :=
  match t with
  | Some h => set_continuation h awaiting ;; mret h
  | None => fail NullDeref
  end.

Definition task_await_resume (t : option handle) : M (ctx R) Z :=
  match t with
  | Some h => promise_result h
  | None => fail AssertFailed
  end.

(** ** Destruction

    [destroy_owned] destroys an object a coroutine owns: a task destroys its
    coroutine; a spawn awaitable reports an exception nobody awaited and drops
    its reference, the last one destroying the scheduler coroutine.  Destroying
    a coroutine destroys what its frame owns; the fuel bounds the nesting. *)
Definition has_error (v : variant) : option exn :=
  match v with V_err e => Some e | _ => None end.

(** The check of [~spawn_awaitable]. *)
Definition report_unawaited (a : spawn_awaitable) (p : internal_promise) : M (ctx R) unit :=
  match has_error (variant_ p) with
  | Some e => when (negb (was_awaited_ a)) (unhandled_exception e)
  | None => mret tt
  end.

Fixpoint destroy_owned (fuel : nat) (o : owned) : M (ctx R) unit :=
  match fuel with
  | O => fail OutOfFuel
  | S fuel =>
      let destroy_coro h :=
        x ← get_coro h;
        modify (λ c, c <| coros ::= delete h |>) ;;
        match x with
        | UserCoro _ _ ls => foldr (λ o k, destroy_owned fuel o ;; k) (mret tt) ls
        | SchedCoro _ (Some t) => destroy_owned fuel (Own_task t)
        | SchedCoro _ None => mret tt
        end in
      match o with
      | Own_task h => destroy_coro h
      | Own_spawn a =>
          p ← get_internal (sa_task a);
          report_unawaited a p ;;
          upd_internal (sa_task a) (λ p, p <| count_ ::= Z.pred |>) ;;
          p ← get_internal (sa_task a);
          when (count_ p =? 0) (destroy_coro (sa_task a))
      end
  end.

(** Enough fuel for every frame there is. *)
Definition destroy (o : owned) : M (ctx R) unit :=
  n ← gets (λ c, size (coros c)); destroy_owned (S n) o.

(** [h.destroy()] *)
Definition coro_destroy (h : handle) : M (ctx R) unit := destroy (Own_task h).

(** [~task] *)
Definition task_dtor (t : option handle) : M (ctx R) unit :=
  match t with Some h => coro_destroy h | None => mret tt end.

(** ** internal_task<T> *)

Definition internal_task_new (h : handle) : M (ctx R) unit :=
  p ← get_internal h;
  assert (count_ p =? 0) ;;
  upd_internal h (λ p, p <| count_ := 1 |>).

Definition internal_task_copy (h : handle) : M (ctx R) unit :=
  upd_internal h (λ p, p <| count_ ::= Z.succ |>).

Definition internal_task_release (h : handle) : M (ctx R) unit :=
  upd_internal h (λ p, p <| count_ ::= Z.pred |>) ;;
  p ← get_internal h;
  when (count_ p =? 0) (coro_destroy h).

Definition internal_task_dtor (t : option handle) : M (ctx R) unit :=
  match t with Some h => internal_task_release h | None => mret tt end.

Definition internal_task_assign (same : bool) (lhs rhs : handle) : M (ctx R) handle :=
  if same then mret lhs else
  internal_task_release lhs ;; internal_task_copy rhs ;; mret rhs.

Definition internal_task_move (rhs : option handle) : option handle * option handle := (rhs, None).
Definition internal_task_move_assign (same : bool) (lhs rhs : option handle) :
    option handle * option handle := if same then (lhs, rhs) else (rhs, lhs).

(** ** task_map *)

Definition add_task (h : handle) : M (ctx R) unit :=
  on_frame (modify (λ f, f <| tasks_ ::= λ m, match m !! h with Some _ => m | None => <[h := h]> m end |>)) ;;
  upd_internal h (λ p, p <| count_ ::= Z.succ |>).

(** [--*p_count], and [h.destroy()] when that was the last reference. *)
Definition drop_task_ref (h p_count : handle) : M (ctx R) unit :=
  upd_internal p_count (λ p, p <| count_ ::= Z.pred |>) ;;
  p ← get_internal p_count;
  when (count_ p =? 0) (coro_destroy h) ;;
  on_frame (modify (λ f, f <| tasks_ ::= delete h |>)).

Definition erase_task (h : handle) : M (ctx R) unit :=
  f ← on_frame get;
  match tasks_ f !! h with
  | None => fail AssertFailed
  | Some p_count =>
      p ← get_internal p_count;
      assert (0 <? count_ p) ;;
      drop_task_ref h p_count
  end.

Fixpoint clear_loop `{!UnorderedBegin} (fuel : nat) : M (ctx R) unit :=
  match fuel with
  | O => fail OutOfFuel
  | S fuel =>
      f ← on_frame get;
      match map_begin (tasks_ f) with
      | None => mret tt
      | Some (h, p_count) => drop_task_ref h p_count ;; clear_loop fuel
      end
  end.

Definition clear `{!UnorderedBegin} : M (ctx R) unit :=
  f ← on_frame get; clear_loop (S (size (tasks_ f))).

(** ** internal_promise<T> *)

Definition emplace (h : handle) (v : Z) : M (ctx R) unit :=
  p ← get_internal h;
  assert (match variant_ p with V_uninit => true | _ => false end) ;;
  upd_internal h (λ p, p <| variant_ := V_ok v |>).

Definition set_error (h : handle) (e : exn) : M (ctx R) unit :=
  upd_internal h (λ p, p <| variant_ := V_err e |>).

(** [internal_promise<T>::return_value] *)
Definition internal_return_value (h : handle) (v : Z) : M (ctx R) unit := emplace h v.

(** Called with [e] being handled; rethrowing leaves the coroutine. *)
Definition internal_unhandled_exception (h : handle) (e : exn) : M (ctx R) unit :=
  p ← get_internal h;
  if 1 <? count_ p then set_error h e else throw e.

(** [final_awaitable::await_suspend]; [None] is [std::noop_coroutine()]. *)
Definition internal_final_suspend (h : handle) : M (ctx R) (option handle) :=
  p ← get_internal h;
  erase_task h ;;
  mret (continuation_ p).

(** ** detail::scheduler *)

(** The call: a suspended coroutine that owns [t], and an [internal_task]. *)
Definition scheduler (h : handle) (t : option handle) : M (ctx R) handle :=
  set_coro h (SchedCoro (IPromise V_uninit None 0) t) ;;
  internal_task_new h ;;
  mret h.

Definition sched_param (h : handle) : M (ctx R) (option handle) :=
  x ← get_coro h;
  match x with SchedCoro _ t => mret t | UserCoro _ _ _ => fail OutOfBounds end.

(** From the resumption of [co_await t] to the final suspension. *)
Definition sched_resume (h : handle) : M (ctx R) (option handle) :=
  t ← sched_param h;
  r ← attempt (task_await_resume t);
  match r with
  | inl v => internal_return_value h v
  | inr e => internal_unhandled_exception h e
  end ;;
  internal_final_suspend h.

(** The first resumption: the coroutine to run next, if any. *)
Definition sched_start (h : handle) : M (ctx R) (option handle) :=
  t ← sched_param h;
  ready ← task_await_ready t;
  if (ready : bool) then sched_resume h else
  k ← task_await_suspend t h; mret (Some k).

(** ** Spawning *)

Definition spawn (h : handle) (t : option handle) : M (ctx R) spawn_awaitable :=
  internal_task ← scheduler h t;
  add_task internal_task ;;
  on_frame (modify (λ f, f <| run_queue_ ::= λ q, q ++ [internal_task] |>)) ;;
  (* the parameter and the member of the awaitable *)
  internal_task_copy internal_task ;;
  internal_task_copy internal_task ;;
  internal_task_release internal_task ;;
  (* the local of [spawn] *)
  internal_task_release internal_task ;;
  mret (SpawnAwaitable internal_task false).

Definition spawn_await_suspend (a : spawn_awaitable) (awaiting : handle) : M (ctx R) bool :=
  p ← get_internal (sa_task a);
  assert (0 <? count_ p) ;;
  upd_internal (sa_task a) (λ p, p <| continuation_ := Some awaiting |>) ;;
  let task_ended := count_ p <? 2 in
  mret (negb task_ended).

(** The flag is set first, whatever [result] does. *)
Definition mark_awaited (a : spawn_awaitable) : spawn_awaitable := a <| was_awaited_ := true |>.

Definition spawn_await_resume (a : spawn_awaitable) : M (ctx R) Z :=
  p ← get_internal (sa_task a); variant_result (variant_ p).

(** The rest of [co_await spawn( ex, t )] once it resumes: the temporary is
    destroyed after the result is taken, and also when that throws. *)
Definition spawn_await_finish (a : spawn_awaitable) : M (ctx R) Z :=
  finally (spawn_await_resume a) (destroy (Own_spawn (mark_awaited a))).

(** ** A user's coroutine completes

    The objects its body owns are destroyed when the body is left, before the
    final suspension. *)
Definition leave_scope (h : handle) : M (ctx R) unit :=
  x ← get_coro h;
  match x with
  | UserCoro p d ls =>
      set_coro h (UserCoro p d []) ;;
      foldr (λ o k, destroy o ;; k) (mret tt) ls
  | SchedCoro _ _ => fail OutOfBounds
  end.

Definition task_return (h : handle) (v : Z) : M (ctx R) handle :=
  return_value h v ;; leave_scope h ;; task_final_suspend h.

Definition task_throw (h : handle) (e : exn) : M (ctx R) handle :=
  leave_scope h ;; promise_unhandled_exception h e ;; task_final_suspend h.

Definition task_complete (h : handle) (r : Z + exn) : M (ctx R) handle :=
  match r with inl v => task_return h v | inr e => task_throw h e end.

(** ** Scenarios: coroutine [w] awaits the spawn awaitable [a] of the task [k]

    after the task has completed, and before: what the scheduler resumes, whether
    [w] was suspended, and what [co_await] yields. *)
Definition join_after (k : handle) (r : Z + exn) (a : spawn_awaitable) (w : handle) :
    M (ctx R) (option handle * bool * (Z + exn)) :=
  h ← task_complete k r;
  n ← sched_resume h;
  s ← spawn_await_suspend a w;
  o ← attempt (spawn_await_finish a);
  mret (n, s, o).

Definition join_before (k : handle) (r : Z + exn) (a : spawn_awaitable) (w : handle) :
    M (ctx R) (option handle * bool * (Z + exn)) :=
  s ← spawn_await_suspend a w;
  h ← task_complete k r;
  n ← sched_resume h;
  o ← attempt (spawn_await_finish a);
  mret (n, s, o).

(** The awaitable is destroyed without being awaited, after and before. *)
Definition drop_after (k : handle) (r : Z + exn) (a : spawn_awaitable) : M (ctx R) (option handle) :=
  h ← task_complete k r;
  n ← sched_resume h;
  destroy (Own_spawn a) ;;
  mret n.

Definition drop_before (k : handle) (r : Z + exn) (a : spawn_awaitable) : M (ctx R) (option handle) :=
  destroy (Own_spawn a) ;;
  h ← task_complete k r;
  sched_resume h.

(** ** Programs over tasks: [ext] is what the program itself owns *)
Inductive task_op :=
| Op_create (h : handle)            (** call a coroutine function *)
| Op_spawn (h : handle) (n : nat)   (** spawn the [n]-th object, a task *)
| Op_adopt (k : handle) (n : nat)   (** coroutine [k] takes the [n]-th object *)
| Op_drop (n : nat)                 (** destroy the [n]-th object *)
| Op_finish (h : handle)            (** final suspension of a scheduler coroutine *)
| Op_clear.

Definition run_task_op `{!UnorderedBegin} (op : task_op) (ext : list owned) : M (ctx R) (list owned) :=
  c ← get;
  match op with
  | Op_create h =>
      match coros c !! h with
      | Some _ => mret ext
      | None => get_return_object h [] ;; mret (Own_task h :: ext)
      end
  | Op_spawn h n =>
      match coros c !! h, ext !! n with
      | None, Some (Own_task t) =>
          a ← spawn h (Some t); mret (Own_spawn a :: delete n ext)
      | _, _ => mret ext
      end
  | Op_adopt k n =>
      match coros c !! k, ext !! n with
      | Some (UserCoro p d ls), Some o =>
          set_coro k (UserCoro p d (o :: ls)) ;; mret (delete n ext)
      | _, _ => mret ext
      end
  | Op_drop n =>
      match ext !! n with
      | Some o => destroy o ;; mret (delete n ext)
      | None => mret ext
      end
  | Op_finish h =>
      match tasks_ (frame c) !! h with
      | Some _ => internal_final_suspend h ;; mret ext
      | None => mret ext
      end
  | Op_clear => clear ;; mret ext
  end.

Definition run_task_ops `{!UnorderedBegin} (ops : list task_op) (ext : list owned) : M (ctx R) (list owned) :=
  foldl (λ m op, m ≫= run_task_op op) (mret ext) ops.
End Task.

(** ** The ownership invariant

    [T] is the set of coroutines in the task map, [ext] the tasks and spawn
    awaitables that no coroutine frame owns (they belong to the code that is
    running).  A user's coroutine has at most one owner; the counter of a
    scheduler coroutine is the number of its owners, the task map included. *)
Definition refs_of (x : coro) : list owned :=
  match x with
  | UserCoro _ _ ls => ls
  | SchedCoro _ (Some t) => [Own_task t]
  | SchedCoro _ None => []
  end.

Definition held (cs : gmap Z coro) : list owned := map_to_list cs ≫= λ p, refs_of p.2.

Definition is_task (h : handle) (o : owned) : bool :=
  match o with Own_task h' => bool_decide (h = h') | Own_spawn _ => false end.
Definition is_spawn (h : handle) (o : owned) : bool :=
  match o with Own_task _ => false | Own_spawn a => bool_decide (h = sa_task a) end.

Definition occ (f : owned → bool) (l : list owned) : Z := Z.of_nat (length (filter (λ o, f o = true) l)).

Definition in_map (T : gset Z) (h : handle) : Z := if decide (h ∈ T) then 1 else 0.

Definition inv_at (T : gset Z) (l : list owned) (cs : gmap Z coro) (h : handle) : Prop :=
  match cs !! h with
  | Some (UserCoro _ _ _) => occ (is_task h) l ≤ 1 ∧ occ (is_spawn h) l = 0 ∧ h ∉ T
  | Some (SchedCoro p _) =>
      occ (is_task h) l = 0 ∧ count_ p = occ (is_spawn h) l + in_map T h ∧ 0 < count_ p
  | None => occ (is_task h) l = 0 ∧ occ (is_spawn h) l = 0 ∧ h ∉ T
  end.

Definition own_inv (T : gset Z) (ext : list owned) (cs : gmap Z coro) : Prop :=
  ∀ h, inv_at T (ext ++ held cs) cs h.

(** The task map points every coroutine to its own counter. *)
Definition tasks_inv {R} (ext : list owned) (c : ctx R) : Prop :=
  (∀ h p, tasks_ (frame c) !! h = Some p → p = h) ∧
  own_inv (dom (tasks_ (frame c))) ext (coros c).

(** Destruction touches coroutine frames and the pending exception only. *)
Definition only_exn {R} (c c' : ctx R) : Prop :=
  heap c' = heap c ∧ clock c' = clock c ∧
  frame c' = frame c <| exception_ptr_ := exception_ptr_ (frame c') |>.

(** ** Lemmas *)

Lemma occ_app f l k : occ f (l ++ k) = occ f l + occ f k.
Proof. unfold occ. rewrite filter_app, length_app. lia. Qed.

Lemma occ_cons f o l : occ f (o :: l) = (if f o then 1 else 0) + occ f l.
Proof. unfold occ. rewrite filter_cons. destruct (f o); simpl; lia. Qed.

Lemma occ_nonneg f l : 0 ≤ occ f l.
Proof. unfold occ. lia. Qed.

#[export] Instance occ_proper f : Proper ((≡ₚ) ==> (=)) (occ f).
Proof. intros l k H. unfold occ. by rewrite H. Qed.

Lemma is_task_spec h o : is_task h o = true ↔ o = Own_task h.
Proof. destruct o; simpl; [rewrite bool_decide_eq_true|]; naive_solver. Qed.

Lemma inv_at_perm T l k cs h : l ≡ₚ k → inv_at T l cs h → inv_at T k cs h.
Proof. intros Hp. unfold inv_at. destruct (cs !! h) as [[]|]; by rewrite !Hp. Qed.

Lemma own_inv_perm T ext ext' cs : ext ≡ₚ ext' → own_inv T ext cs → own_inv T ext' cs.
Proof. intros Hp H h. eapply inv_at_perm; [|apply H]. by rewrite Hp. Qed.

Lemma held_delete cs h x : cs !! h = Some x → held cs ≡ₚ refs_of x ++ held (delete h cs).
Proof. intros H. unfold held. rewrite <- (map_to_list_delete _ _ _ H). done. Qed.

Lemma held_insert cs h x y : cs !! h = Some x → refs_of y = refs_of x →
  held (<[h := y]> cs) ≡ₚ held cs.
Proof.
  intros H He. rewrite (held_delete cs h x) by done.
  rewrite (held_delete (<[h := y]> cs) h y) by apply lookup_insert_eq.
  by rewrite He, delete_insert_eq.
Qed.

Lemma held_new cs h y : cs !! h = None → held (<[h := y]> cs) ≡ₚ refs_of y ++ held cs.
Proof.
  intros H. rewrite (held_delete (<[h := y]> cs) h y) by apply lookup_insert_eq.
  by rewrite delete_insert_id.
Qed.

(** Removing a coroutine nobody refers to releases what its frame owns. *)
Lemma own_inv_delete T ext cs h x :
  cs !! h = Some x → (∀ g, g ≠ h → inv_at T (ext ++ held cs) cs g) →
  occ (is_task h) (ext ++ held cs) = 0 → occ (is_spawn h) (ext ++ held cs) = 0 → h ∉ T →
  own_inv T (refs_of x ++ ext) (delete h cs).
Proof.
  intros Hx Hg H1 H2 HT g.
  assert (ext ++ held cs ≡ₚ (refs_of x ++ ext) ++ held (delete h cs)) as Hp.
  { rewrite (held_delete _ _ _ Hx), !app_assoc. by rewrite (Permutation_app_comm ext). }
  destruct (decide (g = h)) as [->|Hne].
  - unfold inv_at. by rewrite lookup_delete_eq, <- Hp.
  - eapply inv_at_perm; [exact Hp|]. specialize (Hg g Hne). unfold inv_at in *.
    by rewrite lookup_delete_ne by done.
Qed.

Lemma only_exn_refl {R} (c : ctx R) : only_exn c c.
Proof. split_and!; try done. by destruct c as [[]]. Qed.

Lemma only_exn_trans {R} (c1 c2 c3 : ctx R) : only_exn c1 c2 → only_exn c2 c3 → only_exn c1 c3.
Proof.
  intros (H1 & H2 & H3) (K1 & K2 & K3). split_and!; [congruence..|].
  rewrite K3, H3. by destruct c1 as [[]], c2 as [[]], c3 as [[]].
Qed.

Lemma only_exn_coros {R} (c : ctx R) cs : only_exn c (c <| coros := cs |>).
Proof. split_and!; try done. by destruct c as [[]]. Qed.

Section Access.
Context {R : Type}.
Implicit Types c : ctx R.

Lemma wp_get_coro h c x (Q : coro → ctx R → Prop) :
  coros c !! h = Some x → Q x c → wp (get_coro h) c Q.
Proof. intros Hx HQ. unfold get_coro, wp. by rewrite bind_gets, Hx. Qed.

Lemma wp_get_internal h c p t (Q : internal_promise → ctx R → Prop) :
  coros c !! h = Some (SchedCoro p t) → Q p c → wp (get_internal h) c Q.
Proof. intros Hx HQ. apply wp_bind. by eapply wp_get_coro. Qed.

Lemma wp_upd_internal h c p t f (Q : unit → ctx R → Prop) :
  coros c !! h = Some (SchedCoro p t) →
  Q tt (c <| coros ::= <[h := SchedCoro (f p) t]> |>) → wp (upd_internal h f) c Q.
Proof. intros Hx HQ. apply wp_bind. by eapply wp_get_coro. Qed.

Lemma wp_get_promise h c p d ls (Q : promise → ctx R → Prop) :
  coros c !! h = Some (UserCoro p d ls) → Q p c → wp (get_promise h) c Q.
Proof. intros Hx HQ. apply wp_bind. by eapply wp_get_coro. Qed.

Lemma wp_upd_promise h c p d ls f (Q : unit → ctx R → Prop) :
  coros c !! h = Some (UserCoro p d ls) →
  Q tt (c <| coros ::= <[h := UserCoro (f p) d ls]> |>) → wp (upd_promise h f) c Q.
Proof. intros Hx HQ. apply wp_bind. by eapply wp_get_coro. Qed.

Lemma wp_on_frame_get c (Q : io_context_frame R → ctx R → Prop) :
  Q (frame c) c → wp (on_frame get) c Q.
Proof. intros HQ. unfold wp. by rewrite on_frame_get. Qed.

Lemma wp_on_frame_modify f c (Q : unit → ctx R → Prop) :
  Q tt (c <| frame ::= f |>) → wp (on_frame (modify f)) c Q.
Proof. intros HQ. unfold wp. by rewrite on_frame_modify. Qed.

(** ** Destruction *)

(** What a destruction achieves: the references [ext] are what is left. *)
Definition destroyed (T : gset Z) (ext : list owned) c (_ : unit) c' : Prop :=
  own_inv T ext (coros c') ∧ (size (coros c') ≤ size (coros c))%nat ∧ only_exn c c'.

Definition destroys (fuel : nat) : Prop := ∀ T o ext c,
  own_inv T (o :: ext) (coros c) → (size (coros c) < fuel)%nat →
  wp (destroy_owned fuel o) c (destroyed T ext c).

Lemma destroyed_trans T ext c1 c2 u c3 : (size (coros c2) ≤ size (coros c1))%nat → only_exn c1 c2 →
  destroyed T ext c2 u c3 → destroyed T ext c1 u c3.
Proof.
  intros Hs Ho (H1 & H2 & H3). split_and!; [done|lia|]. by eapply only_exn_trans.
Qed.

Lemma destroys_list fuel : destroys fuel → ∀ ls T ext c,
  own_inv T (ls ++ ext) (coros c) → (size (coros c) < fuel)%nat →
  wp (foldr (λ o k, destroy_owned fuel o ;; k) (mret tt) ls) c (destroyed T ext c).
Proof.
  intros IH ls. induction ls as [|o ls IHl]; intros T ext c Hi Hs; simpl.
  - apply wp_ret. split_and!; [done|lia|apply only_exn_refl].
  - apply wp_bind. eapply wp_mono; [apply (IH T o (ls ++ ext)); done|].
    intros [] c' (Hi' & Hs' & Ho). eapply wp_mono; [apply IHl; [done|lia]|].
    intros [] c'' H. by eapply destroyed_trans.
Qed.

Lemma size_delete_coro (cs : gmap Z coro) h x : cs !! h = Some x → size cs = S (size (delete h cs)).
Proof. intros H. rewrite map_size_delete, H. pose proof (map_size_ne_0_lookup_2 cs h ltac:(eauto)). simpl. lia. Qed.

Lemma destroy_coro_spec fuel : destroys fuel → ∀ T ext c h x,
  coros c !! h = Some x →
  (∀ g, g ≠ h → inv_at T (ext ++ held (coros c)) (coros c) g) →
  occ (is_task h) (ext ++ held (coros c)) = 0 → occ (is_spawn h) (ext ++ held (coros c)) = 0 →
  h ∉ T → (size (coros c) ≤ fuel)%nat →
  wp (destroy_owned (S fuel) (Own_task h)) c (destroyed T ext c).
Proof.
  intros IH T ext c h x Hx Hg H1 H2 HT Hs. cbn [destroy_owned].
  apply wp_bind. eapply wp_get_coro; [done|]. apply wp_bind, wp_modify.
  set (c1 := c <| coros ::= delete h |>).
  assert (own_inv T (refs_of x ++ ext) (coros c1)) as Hi by by apply own_inv_delete.
  pose proof (size_delete_coro _ _ _ Hx) as Hsz.
  assert (size (coros c1) < fuel)%nat as Hs1 by (change (coros c1) with (delete h (coros c)); lia).
  assert (only_exn c c1) as Ho by apply only_exn_coros.
  assert (∀ u c', destroyed T ext c1 u c' → destroyed T ext c u c') as Hfin.
  { intros u c' Hd. eapply destroyed_trans; [|exact Ho|exact Hd].
    change (coros c1) with (delete h (coros c)). lia. }
  destruct x as [p d ls|p [t|]]; simpl in *.
  - eapply wp_mono; [by apply destroys_list|]. intros [] c' Hd. by apply Hfin.
  - eapply wp_mono; [by apply (IH T (Own_task t) ext)|]. intros [] c' Hd. by apply Hfin.
  - apply wp_ret, Hfin. split_and!; [done|lia|apply only_exn_refl].
Qed.

(** One reference to the scheduler coroutine [h] is about to be dropped: it is
    counted, and [ext] no longer has it. *)
Definition dropping (T : gset Z) (ext : list owned) c (h : handle) (p : internal_promise)
    (t : option handle) : Prop :=
  coros c !! h = Some (SchedCoro p t) ∧
  (∀ g, g ≠ h → inv_at T (ext ++ held (coros c)) (coros c) g) ∧
  occ (is_task h) (ext ++ held (coros c)) = 0 ∧
  count_ p - 1 = occ (is_spawn h) (ext ++ held (coros c)) + in_map T h.

Lemma inv_at_insert T l cs h y g : g ≠ h → inv_at T l cs g → inv_at T l (<[h := y]> cs) g.
Proof. intros Hne. unfold inv_at. by rewrite lookup_insert_ne. Qed.

Lemma release_spec (dc : M (ctx R) unit) T ext c h p t :
  dropping T ext c h p t →
  (∀ c1 x, size (coros c1) = size (coros c) → only_exn c c1 → coros c1 !! h = Some x →
     (∀ g, g ≠ h → inv_at T (ext ++ held (coros c1)) (coros c1) g) →
     occ (is_task h) (ext ++ held (coros c1)) = 0 →
     occ (is_spawn h) (ext ++ held (coros c1)) = 0 → h ∉ T →
     wp dc c1 (destroyed T ext c1)) →
  wp (upd_internal h (λ p, p <| count_ ::= Z.pred |>) ;;
      p ← get_internal h;
      when (count_ p =? 0) dc) c (destroyed T ext c).
Proof.
  intros (Hx & Hg & H1 & H2) Hdc. apply wp_bind. eapply wp_upd_internal; [done|].
  set (p' := p <| count_ ::= Z.pred |>). set (c1 := c <| coros ::= _ |>).
  assert (coros c1 !! h = Some (SchedCoro p' t)) as Hx1 by apply lookup_insert_eq.
  assert (count_ p' = count_ p - 1) as Hp' by (unfold p'; cbn; lia).
  assert (held (coros c1) ≡ₚ held (coros c)) as Hheld by by eapply held_insert.
  assert (only_exn c c1) as Ho by apply only_exn_coros.
  assert (size (coros c1) = size (coros c)) as Hsz by (by apply map_size_insert_Some; eauto).
  assert (∀ g, g ≠ h → inv_at T (ext ++ held (coros c1)) (coros c1) g) as Hg1.
  { intros g Hne. eapply inv_at_perm; [by rewrite Hheld|]. apply inv_at_insert; auto. }
  rewrite <- Hheld in H1, H2. pose proof (occ_nonneg (is_spawn h) (ext ++ held (coros c1))).
  apply wp_bind. eapply wp_get_internal; [done|]. apply wp_when; intros E; bool_simp.
  - unfold in_map in H2. case_decide; [lia|].
    eapply wp_mono; [apply (Hdc c1 (SchedCoro p' t)); [done..|lia|done]|].
    intros u c' Hd. eapply destroyed_trans; [|done|done]. lia.
  - split_and!; [|lia|done]. intros g. destruct (decide (g = h)) as [->|]; [|auto].
    unfold inv_at. rewrite Hx1. split_and!; [done|lia|]. unfold in_map in H2. case_decide; lia.
Qed.

Lemma own_inv_spawn T ext c a : own_inv T (Own_spawn a :: ext) (coros c) →
  ∃ p t, dropping T ext c (sa_task a) p t.
Proof.
  intros Hi. pose proof (Hi (sa_task a)) as Hh. unfold inv_at in Hh. simpl in Hh.
  rewrite !occ_cons in Hh. simpl in Hh. rewrite bool_decide_eq_true_2 in Hh by done.
  pose proof (occ_nonneg (is_spawn (sa_task a)) (ext ++ held (coros c))).
  destruct (coros c !! sa_task a) as [[|p t]|] eqn:E; [lia| |lia].
  exists p, t. split_and!; [done| |lia|lia].
  intros g Hne. specialize (Hi g). unfold inv_at in *. simpl in Hi. rewrite !occ_cons in Hi.
  simpl in Hi. rewrite bool_decide_eq_false_2 in Hi by done. destruct (coros c !! g) as [[]|]; lia || tauto.
Qed.

Lemma own_inv_task T ext c h : own_inv T (Own_task h :: ext) (coros c) →
  ∃ x, coros c !! h = Some x ∧
    (∀ g, g ≠ h → inv_at T (ext ++ held (coros c)) (coros c) g) ∧
    occ (is_task h) (ext ++ held (coros c)) = 0 ∧ occ (is_spawn h) (ext ++ held (coros c)) = 0 ∧ h ∉ T.
Proof.
  intros Hi. pose proof (Hi h) as Hh. unfold inv_at in Hh. simpl in Hh.
  rewrite !occ_cons in Hh. simpl in Hh. rewrite bool_decide_eq_true_2 in Hh by done.
  pose proof (occ_nonneg (is_task h) (ext ++ held (coros c))).
  destruct (coros c !! h) as [[p d ls|p t]|] eqn:E; [|lia|lia].
  exists (UserCoro p d ls). split_and!; [done| |lia|lia|tauto].
  intros g Hne. specialize (Hi g). unfold inv_at in *. simpl in Hi. rewrite !occ_cons in Hi.
  simpl in Hi. rewrite bool_decide_eq_false_2 in Hi by done. destruct (coros c !! g) as [[]|]; lia || tauto.
Qed.

(** The exception of a task nobody awaited is stored; that is all. *)
Lemma dropping_exn T ext c c' h p t : coros c' = coros c →
  dropping T ext c h p t → dropping T ext c' h p t.
Proof. intros E. unfold dropping. by rewrite E. Qed.

Lemma only_exn_unhandled c e :
  only_exn c (c <| frame ::= λ f, f <| exception_ptr_ ::= λ p,
                match p with Some e0 => Some e0 | None => Some e end |> |>).
Proof. by split_and!. Qed.

Lemma wp_report a p c (Q : unit → ctx R → Prop) :
  (∀ c', coros c' = coros c → only_exn c c' → Q tt c') →
  wp (report_unawaited a p) c Q.
Proof.
  intros HQ. unfold report_unawaited. destruct (has_error _) as [e|].
  - apply wp_when; intros _.
    + apply wp_on_frame_modify, HQ; [done|apply only_exn_unhandled].
    + apply HQ; [done|apply only_exn_refl].
  - apply wp_ret, HQ; [done|apply only_exn_refl].
Qed.

Lemma destroy_owned_spawn fuel a :
  destroy_owned (S fuel) (Own_spawn a) =
    (p ← get_internal (sa_task a);
     report_unawaited a p ;;
     upd_internal (sa_task a) (λ p, p <| count_ ::= Z.pred |>) ;;
     p ← get_internal (sa_task a);
     when (count_ p =? 0) (destroy_owned (S fuel) (Own_task (sa_task a)))) :> M (ctx R) unit.
Proof. done. Qed.

Lemma destroys_all fuel : destroys fuel.
Proof.
  induction fuel as [|fuel IH]; intros T o ext c Hi Hs; [lia|]. destruct o as [h|a].
  - destruct (own_inv_task _ _ _ _ Hi) as (x & Hx & Hg & H1 & H2 & HT).
    eapply destroy_coro_spec; try done. lia.
  - destruct (own_inv_spawn _ _ _ _ Hi) as (p & t & Hd). pose proof (proj1 Hd) as Hx.
    rewrite destroy_owned_spawn.
    apply wp_bind. eapply wp_get_internal; [done|].
    apply wp_bind, wp_report. intros c1 Hc1 Ho1.
    eapply wp_mono; [apply (release_spec _ T ext c1 (sa_task a) p t)|].
    + by eapply dropping_exn.
    + intros c2 x Hsz Ho2 Hx2 Hg H1 H2 HT. eapply destroy_coro_spec; try done. rewrite Hsz, Hc1. lia.
    + intros u c' Hd'. eapply destroyed_trans; [|exact Ho1|exact Hd']. by rewrite Hc1.
Qed.

Lemma wp_destroy T o ext c : own_inv T (o :: ext) (coros c) → wp (destroy o) c (destroyed T ext c).
Proof. intros Hi. apply wp_bind, wp_gets, destroys_all; [done|lia]. Qed.

Lemma wp_coro_destroy T ext c h x :
  coros c !! h = Some x → (∀ g, g ≠ h → inv_at T (ext ++ held (coros c)) (coros c) g) →
  occ (is_task h) (ext ++ held (coros c)) = 0 → occ (is_spawn h) (ext ++ held (coros c)) = 0 →
  h ∉ T → wp (coro_destroy h) c (destroyed T ext c).
Proof.
  intros Hx Hg H1 H2 HT. apply wp_bind, wp_gets. eapply destroy_coro_spec; try done.
  apply destroys_all.
Qed.

Lemma wp_internal_task_release T ext c h p t :
  dropping T ext c h p t → wp (internal_task_release h) c (destroyed T ext c).
Proof.
  intros Hd. eapply release_spec; [done|]. intros c1 x _ _ Hx Hg H1 H2 HT. by eapply wp_coro_destroy.
Qed.
End Access.

(** ** The task map *)
Section TaskMap.
Context {R : Type} {HS : UnorderedBegin} {HSL : UnorderedBeginLaws}.
Implicit Types c : ctx R.

Lemma inv_at_set T T' l cs g : (g ∈ T ↔ g ∈ T') → inv_at T l cs g → inv_at T' l cs g.
Proof.
  intros HT. unfold inv_at, in_map. destruct (cs !! g) as [[]|]; try tauto.
  rewrite (decide_ext (g ∈ T) (g ∈ T') 1 0 HT). tauto.
Qed.

Lemma own_inv_mapped T ext c h : own_inv T ext (coros c) → h ∈ T →
  ∃ p t, 0 < count_ p ∧ dropping (T ∖ {[h]}) ext c h p t.
Proof.
  intros Hi HT. pose proof (Hi h) as Hh. unfold inv_at in Hh.
  destruct (coros c !! h) as [[|p t]|] eqn:E; [tauto| |tauto].
  unfold in_map in Hh. rewrite decide_True in Hh by done.
  exists p, t. split; [lia|]. split_and!; [done| |lia|].
  - intros g Hne. eapply inv_at_set; [|apply Hi]. rewrite elem_of_difference, elem_of_singleton. tauto.
  - unfold in_map. rewrite decide_False; [lia|]. rewrite elem_of_difference, elem_of_singleton. tauto.
Qed.

(** What dropping a task from the map achieves. *)
Definition dropped (h : handle) ext c (_ : unit) c' : Prop :=
  tasks_inv ext c' ∧ tasks_ (frame c') = delete h (tasks_ (frame c)) ∧
  heap c' = heap c ∧ clock c' = clock c ∧ run_queue_ (frame c') = run_queue_ (frame c).

Lemma wp_drop_task_ref ext c h : tasks_inv ext c → tasks_ (frame c) !! h = Some h →
  wp (drop_task_ref h h) c (dropped h ext c).
Proof.
  intros [Hp Hi] Hh. destruct (own_inv_mapped _ _ _ _ Hi ltac:(by eapply elem_of_dom_2)) as (p & t & _ & Hd).
  unfold drop_task_ref.
  assert (wp (upd_internal h (λ p, p <| count_ ::= Z.pred |>) ;; p ← get_internal h;
              when (count_ p =? 0) (coro_destroy h)) c
             (destroyed (dom (tasks_ (frame c)) ∖ {[h]}) ext c)) as Hw
    by by eapply wp_internal_task_release.
  apply wp_run in Hw as ([] & c1 & E & Hi1 & _ & Hh1 & Hc1 & Hf1).
  assert (∀ K : M (ctx R) unit,
    (upd_internal h (λ p, p <| count_ ::= Z.pred |>) ;; p ← get_internal h;
     when (count_ p =? 0) (coro_destroy h) ;; K) c = K c1) as Hk.
  { intros K. unfold mbind, M_bind in E |- *. destruct (upd_internal _ _ c) as [[[]|e|f] c2]; try done.
    destruct (get_internal h c2) as [[q|e|f] c3]; try done. by rewrite E. }
  unfold wp. rewrite Hk, on_frame_modify.
  assert (tasks_ (frame c1) = tasks_ (frame c)) as Ht by (by rewrite Hf1).
  assert (run_queue_ (frame c1) = run_queue_ (frame c)) as Hr by (by rewrite Hf1).
  split_and!; cbn; [split; cbn|by rewrite Ht|done|done|done].
  - intros g q. rewrite Ht. intros [_ ?]%lookup_delete_Some. auto.
  - rewrite Ht, dom_delete_L. done.
Qed.
Lemma wp_erase_task ext c h : tasks_inv ext c → is_Some (tasks_ (frame c) !! h) →
  wp (erase_task h) c (dropped h ext c).
Proof.
  intros Hi [q Hq]. pose proof (proj1 Hi _ _ Hq) as ->.
  destruct (own_inv_mapped _ _ _ _ (proj2 Hi) ltac:(by eapply elem_of_dom_2)) as (p & t & Hc & Hd & _).
  unfold erase_task. apply wp_bind, wp_on_frame_get. rewrite Hq.
  apply wp_bind. eapply wp_get_internal; [done|].
  apply wp_bind, wp_assert; [by apply Z.ltb_lt|]. by apply wp_drop_task_ref.
Qed.

Lemma wp_internal_final_suspend ext c h : tasks_inv ext c → is_Some (tasks_ (frame c) !! h) →
  wp (internal_final_suspend h) c (λ _ c', dropped h ext c tt c').
Proof.
  intros Hi Hh.
  destruct (own_inv_mapped _ _ _ _ (proj2 Hi) ltac:(by apply elem_of_dom)) as (p & t & _ & Hd & _).
  apply wp_bind. eapply wp_get_internal; [done|].
  apply wp_bind. eapply wp_mono; [by apply wp_erase_task|]. intros [] c' H. by apply wp_ret.
Qed.

Lemma wp_clear_loop ext fuel : ∀ c, tasks_inv ext c → (size (tasks_ (frame c)) < fuel)%nat →
  wp (clear_loop fuel) c (λ _ c', tasks_inv ext c' ∧ tasks_ (frame c') = ∅ ∧
    heap c' = heap c ∧ run_queue_ (frame c') = run_queue_ (frame c)).
Proof.
  induction fuel as [|fuel IH]; intros c Hi Hs; [lia|]. cbn [clear_loop].
  apply wp_bind, wp_on_frame_get. destruct (map_begin (tasks_ (frame c))) as [[h q]|] eqn:E.
  - apply map_begin_in in E. pose proof (proj1 Hi _ _ E) as ->.
    apply wp_bind. eapply wp_mono; [by apply wp_drop_task_ref|].
    intros [] c1 (Hi1 & Ht1 & Hh1 & _ & Hr1). eapply wp_mono; [apply IH; [done|]|].
    + rewrite Ht1, map_size_delete, E. simpl.
      pose proof (map_size_ne_0_lookup_2 (tasks_ (frame c)) h ltac:(eauto)). lia.
    + intros [] c2 (? & ? & Hh2 & Hr2). split_and!; [done|done| |]; congruence.
  - apply map_begin_empty in E. by apply wp_ret.
Qed.

Lemma wp_clear ext c : tasks_inv ext c →
  wp clear c (λ _ c', tasks_inv ext c' ∧ tasks_ (frame c') = ∅ ∧
    heap c' = heap c ∧ run_queue_ (frame c') = run_queue_ (frame c)).
Proof. intros Hi. apply wp_bind, wp_on_frame_get, wp_clear_loop; [done|lia]. Qed.

(** ** Spawning *)

Lemma spawn_run h t c : coros c !! h = None → tasks_ (frame c) !! h = None →
  spawn h t c = (Ret (SpawnAwaitable h false),
    c <| coros ::= <[h := SchedCoro (IPromise V_uninit None 2) t]> |>
      <| frame ::= λ f, f <| tasks_ ::= <[h := h]> |> <| run_queue_ ::= λ q, q ++ [h] |> |>).
Proof.
  intros Hc Ht. destruct c as [f hp ck cs]. cbn in *.
  unfold spawn, scheduler, internal_task_new, add_task, internal_task_copy, internal_task_release,
    get_internal, upd_internal, get_coro, set_coro, on_frame. munfold.
  do 12 (cbn; rewrite ?lookup_insert_eq, ?insert_insert_eq, ?Ht; unfold upd;
          change (Z.pred (Z.succ (Z.succ (Z.succ 1)))) with 3; change (Z.pred 3) with 2).
  reflexivity.
Qed.
Lemma own_inv_absent T ext cs h : own_inv T ext cs → cs !! h = None →
  occ (is_task h) (ext ++ held cs) = 0 ∧ occ (is_spawn h) (ext ++ held cs) = 0 ∧ h ∉ T.
Proof. intros Hi Hn. specialize (Hi h). unfold inv_at in Hi. by rewrite Hn in Hi. Qed.

Lemma own_inv_create T ext cs h : own_inv T ext cs → cs !! h = None →
  own_inv T (Own_task h :: ext) (<[h := UserCoro (Promise None V_uninit) false []]> cs).
Proof.
  intros Hi Hn. destruct (own_inv_absent _ _ _ _ Hi Hn) as (H1 & H2 & H3). intros g.
  eapply inv_at_perm; [simpl; rewrite (held_new _ _ _ Hn); reflexivity|]. simpl.
  destruct (decide (g = h)) as [->|Hne].
  - unfold inv_at. rewrite lookup_insert_eq, !occ_cons. simpl.
    rewrite bool_decide_eq_true_2 by done. split_and!; [lia|lia|done].
  - apply inv_at_insert; [done|]. specialize (Hi g). unfold inv_at in *.
    rewrite !occ_cons. simpl. rewrite bool_decide_eq_false_2 by done. done.
Qed.

Lemma own_inv_spawn_new T ext cs h a k w : own_inv T (Own_task k :: ext) cs → cs !! h = None →
  sa_task a = h →
  own_inv ({[h]} ∪ T) (Own_spawn a :: ext) (<[h := SchedCoro (IPromise V_uninit w 2) (Some k)]> cs).
Proof.
  intros Hi Hn Ha. destruct (own_inv_absent _ _ _ _ Hi Hn) as (H1 & H2 & H3). intros g.
  apply (inv_at_perm _ (Own_spawn a :: (Own_task k :: ext) ++ held cs)).
  { rewrite (held_new _ _ _ Hn). simpl. apply perm_skip. by rewrite Permutation_middle. }
  destruct (decide (g = h)) as [->|Hne].
  - unfold inv_at, in_map. rewrite lookup_insert_eq, !(occ_cons _ (Own_spawn a)). simpl is_task. simpl is_spawn.
    rewrite bool_decide_eq_true_2, decide_True by set_solver. cbn [count_]. split_and!; lia.
  - apply inv_at_insert; [done|]. eapply (inv_at_set T); [set_solver|].
    specialize (Hi g). unfold inv_at in *. rewrite !(occ_cons _ (Own_spawn a)). simpl is_task. simpl is_spawn.
    rewrite (bool_decide_eq_false_2 (g = sa_task a)) by congruence. done.
Qed.

(** An owned object moves into the frame of a coroutine. *)
Lemma own_inv_adopt T ext cs k p d ls o : own_inv T (o :: ext) cs →
  cs !! k = Some (UserCoro p d ls) → own_inv T ext (<[k := UserCoro p d (o :: ls)]> cs).
Proof.
  intros Hi Hk g.
  assert ((o :: ext) ++ held cs ≡ₚ ext ++ held (<[k := UserCoro p d (o :: ls)]> cs)) as Hp.
  { rewrite (held_delete cs k _ Hk).
    rewrite (held_delete (<[k:=_]> cs) k (UserCoro p d (o :: ls))) by apply lookup_insert_eq.
    rewrite delete_insert_eq. simpl. by rewrite Permutation_middle. }
  specialize (Hi g). eapply inv_at_perm in Hi; [|exact Hp]. revert Hi. unfold inv_at.
  destruct (decide (g = k)) as [->|Hne]; [|by rewrite lookup_insert_ne].
  by rewrite lookup_insert_eq, Hk.
Qed.

Lemma own_inv_nth T ext cs n o : own_inv T ext cs → ext !! n = Some o →
  own_inv T (o :: delete n ext) cs.
Proof. intros Hi Hn. eapply own_inv_perm; [|exact Hi]. by apply delete_Permutation. Qed.

Lemma tasks_inv_destroyed ext c u c' :
  (∀ h q, tasks_ (frame c) !! h = Some q → q = h) →
  destroyed (dom (tasks_ (frame c))) ext c u c' → tasks_inv ext c'.
Proof. intros Hp (Hi & _ & _ & _ & Hf). split; by rewrite Hf. Qed.

Lemma wp_run_task_op op ext c : tasks_inv ext c → wp (run_task_op op ext) c tasks_inv.
Proof.
  intros Hi. apply wp_bind, wp_get. destruct op as [h|h n|k n|n|h|].
  - destruct (coros c !! h) as [x|] eqn:Hh; [by apply wp_ret|].
    apply wp_bind, wp_bind, wp_modify, wp_ret, wp_ret.
    split; [apply Hi|]. by apply own_inv_create; [apply Hi|].
  - destruct (coros c !! h) as [x|] eqn:Hh; [by apply wp_ret|].
    destruct (ext !! n) as [[t|a]|] eqn:Hn; [|by apply wp_ret|by apply wp_ret].
    pose proof (own_inv_nth _ _ _ _ _ (proj2 Hi) Hn) as Hi1.
    destruct (own_inv_absent _ _ _ _ Hi1 Hh) as (_ & _ & HT). apply not_elem_of_dom in HT.
    apply wp_bind. unfold wp at 1. rewrite spawn_run by done. apply wp_ret.
    split; cbn.
    + intros g q [[-> ->]|[_ ?]]%lookup_insert_Some; [done|]. by apply Hi.
    + rewrite dom_insert_L. by apply own_inv_spawn_new.
  - destruct (coros c !! k) as [[p d ls|]|] eqn:Hk; [|by apply wp_ret|by apply wp_ret].
    destruct (ext !! n) as [o|] eqn:Hn; [|by apply wp_ret].
    apply wp_bind, wp_modify, wp_ret. split; [apply Hi|].
    apply own_inv_adopt; [|done]. apply own_inv_nth; [apply Hi|done].
  - destruct (ext !! n) as [o|] eqn:Hn; [|by apply wp_ret].
    apply wp_bind. eapply wp_mono; [eapply wp_destroy, own_inv_nth; [apply Hi|done]|].
    intros [] c' Hd. apply wp_ret. eapply tasks_inv_destroyed; [apply Hi|exact Hd].
  - destruct (tasks_ (frame c) !! h) as [q|] eqn:Hh; [|by apply wp_ret].
    apply wp_bind. eapply wp_mono; [apply wp_internal_final_suspend; [done|by eauto]|].
    intros n c' Hd. apply wp_ret, Hd.
  - apply wp_bind. eapply wp_mono; [by apply wp_clear|]. intros [] c' Hd. apply wp_ret, Hd.
Qed.

(** C3. Coroutine frames are never used after they are destroyed, and never
    destroyed twice: any program that creates tasks, spawns them, moves them and
    their awaitables into other coroutines, destroys them, lets them finish and
    clears the task map runs without a fault, and at every point the counter of
    each scheduler coroutine is the number of its owners, the task map included. *)
Theorem tasks_never_dangle ops ext c : tasks_inv ext c →
  ∃ ext' c', run_task_ops ops ext c = (Ret ext', c') ∧ tasks_inv ext' c'.
Proof.
  intros Hi. apply wp_run, wp_foldl_inv; [|done]. intros op ext' c'. apply wp_run_task_op.
Qed.

End TaskMap.

(** ** Results reach whoever awaits *)
Definition variant_of (r : Z + exn) : variant :=
  match r with inl v => V_ok v | inr e => V_err e end.

(** A spawned task [k] that is about to complete: its body owns nothing any
    more, its scheduler coroutine [h] awaits it, and the owners of [h] are the
    task map and the awaitable. *)
Record spawned {R} (c : ctx R) (h k : handle) (p : internal_promise) (pk : promise) : Prop := {
  sp_sched : coros c !! h = Some (SchedCoro p (Some k));
  sp_task : coros c !! k = Some (UserCoro pk false []);
  sp_awaits : p_continuation pk = Some h;
  sp_ne : h ≠ k;
  sp_count : count_ p = 2;
  sp_uninit : variant_ p = V_uninit;
  sp_alone : continuation_ p = None;
  sp_mapped : tasks_ (frame c) !! h = Some h;
}.

Section Results.
Context {R : Type}.
Implicit Types c : ctx R.

Local Abbreviation with_coro c h x := (c <| coros ::= <[h := x]> |>).

Lemma get_coro_run h x c : coros c !! h = Some x → get_coro h c = (Ret x, c).
Proof. intros Hx. unfold get_coro. by rewrite bind_gets, Hx. Qed.

Lemma get_internal_run h p t c : coros c !! h = Some (SchedCoro p t) → get_internal h c = (Ret p, c).
Proof. intros Hx. unfold get_internal. by rewrite (bind_ret _ _ _ _ _ (get_coro_run _ _ _ Hx)). Qed.

Lemma upd_internal_run h f p t c : coros c !! h = Some (SchedCoro p t) →
  upd_internal h f c = (Ret tt, with_coro c h (SchedCoro (f p) t)).
Proof. intros Hx. unfold upd_internal. by rewrite (bind_ret _ _ _ _ _ (get_coro_run _ _ _ Hx)). Qed.

Lemma get_promise_run h p d ls c : coros c !! h = Some (UserCoro p d ls) → get_promise h c = (Ret p, c).
Proof. intros Hx. unfold get_promise. by rewrite (bind_ret _ _ _ _ _ (get_coro_run _ _ _ Hx)). Qed.

Lemma upd_promise_run h f p d ls c : coros c !! h = Some (UserCoro p d ls) →
  upd_promise h f c = (Ret tt, with_coro c h (UserCoro (f p) d ls)).
Proof. intros Hx. unfold upd_promise. by rewrite (bind_ret _ _ _ _ _ (get_coro_run _ _ _ Hx)). Qed.

Lemma lookup_with_coro c h x : coros (with_coro c h x) !! h = Some x.
Proof. apply lookup_insert_eq. Qed.

Lemma with_coro_twice c h x y : with_coro (with_coro c h x) h y = with_coro c h y.
Proof. destruct c as [f hp ck cs]. unfold upd. cbn. by rewrite insert_insert_eq. Qed.

Lemma leave_scope_run h p d c : coros c !! h = Some (UserCoro p d []) →
  leave_scope h c = (Ret tt, with_coro c h (UserCoro p d [])).
Proof. intros Hx. unfold leave_scope. by rewrite (bind_ret _ _ _ _ _ (get_coro_run _ _ _ Hx)). Qed.

Lemma task_final_suspend_run h k p d c : coros c !! k = Some (UserCoro p d []) →
  p_continuation p = Some h →
  task_final_suspend k c = (Ret h, with_coro c k (UserCoro p true [])).
Proof.
  intros Hx Hp. unfold task_final_suspend. rewrite (bind_ret _ _ _ _ _ (get_coro_run _ _ _ Hx)).
  unfold set_coro. by rewrite bind_modify, Hp.
Qed.

Lemma task_complete_run h k r p d c : coros c !! k = Some (UserCoro p d []) →
  p_continuation p = Some h →
  task_complete k r c = (Ret h, with_coro c k (UserCoro (p <| p_rt := variant_of r |>) true [])).
Proof.
  intros Hx Hp. destruct r as [v|e]; simpl; unfold task_return, task_throw, return_value, promise_unhandled_exception.
  - rewrite (bind_ret _ _ _ _ _ (upd_promise_run _ _ _ _ _ _ Hx)).
    erewrite (bind_ret (leave_scope k)) by (apply leave_scope_run, lookup_with_coro).
    rewrite with_coro_twice. erewrite task_final_suspend_run; [by rewrite with_coro_twice|apply lookup_with_coro|done].
  - rewrite (bind_ret _ _ _ _ _ (leave_scope_run _ _ _ _ Hx)).
    erewrite (bind_ret (upd_promise k _)) by (apply upd_promise_run, lookup_with_coro).
    rewrite with_coro_twice. erewrite task_final_suspend_run; [by rewrite with_coro_twice|apply lookup_with_coro|done].
Qed.

(** The result of a completed task, as the code that awaits it sees it. *)
Lemma attempt_result (r : Z + exn) c : attempt (variant_result (variant_of r)) c = (Ret r, c).
Proof. by destruct r. Qed.

Lemma await_task_run h k r p pk c : coros c !! h = Some (SchedCoro p (Some k)) →
  coros c !! k = Some (UserCoro pk true []) → p_rt pk = variant_of r →
  attempt (task_await_resume (Some k)) c = (Ret r, c).
Proof.
  intros Hh Hk Hr. rewrite <- (attempt_result r c). unfold attempt, task_await_resume, promise_result.
  by rewrite (bind_ret _ _ _ _ _ (get_promise_run _ _ _ _ _ Hk)), Hr.
Qed.
Lemma store_result_run h r p t c : coros c !! h = Some (SchedCoro p t) →
  1 < count_ p → variant_ p = V_uninit →
  match r with inl v => internal_return_value h v | inr e => internal_unhandled_exception h e end c =
    (Ret tt, with_coro c h (SchedCoro (p <| variant_ := variant_of r |>) t)).
Proof.
  intros Hh Hc Hv. destruct r as [v|e].
  - unfold internal_return_value, emplace. rewrite (bind_ret _ _ _ _ _ (get_internal_run _ _ _ _ Hh)), Hv, bind_assert.
    by apply upd_internal_run.
  - unfold internal_unhandled_exception, set_error.
    rewrite (bind_ret _ _ _ _ _ (get_internal_run _ _ _ _ Hh)), (proj2 (Z.ltb_lt _ _) Hc).
    by apply upd_internal_run.
Qed.

(** The final suspension while the awaitable still holds a reference. *)
Lemma internal_final_suspend_run h p t c : coros c !! h = Some (SchedCoro p t) →
  count_ p = 2 → tasks_ (frame c) !! h = Some h →
  internal_final_suspend h c =
    (Ret (continuation_ p),
     with_coro c h (SchedCoro (p <| count_ := 1 |>) t) <| frame ::= λ f, f <| tasks_ ::= delete h |> |>).
Proof.
  intros Hh Hc Ht. unfold internal_final_suspend, erase_task, drop_task_ref.
  rewrite (bind_ret _ _ _ _ _ (get_internal_run _ _ _ _ Hh)).
  erewrite (bind_ret _ _ c tt); [reflexivity|].
  rewrite (bind_ret _ _ _ _ _ (on_frame_get c)), Ht.
  rewrite (bind_ret _ _ _ _ _ (get_internal_run _ _ _ _ Hh)), Hc, bind_assert.
  rewrite (bind_ret _ _ _ _ _ (upd_internal_run _ _ _ _ _ Hh)).
  erewrite (bind_ret (get_internal h)) by (eapply get_internal_run, lookup_with_coro).
  assert (p <| count_ ::= Z.pred |> = p <| count_ := 1 |>) as ->
    by (destruct p; cbn in Hc; by subst).
  change (when (count_ (p <| count_ := 1 |>) =? 0) (coro_destroy h)) with (mret tt : M (ctx R) unit).
  rewrite (bind_ret (mret tt) _ _ tt _ eq_refl). by rewrite on_frame_modify.
Qed.

Lemma sched_resume_run h k r p pk c : coros c !! h = Some (SchedCoro p (Some k)) →
  coros c !! k = Some (UserCoro pk true []) → p_rt pk = variant_of r →
  count_ p = 2 → variant_ p = V_uninit → tasks_ (frame c) !! h = Some h →
  sched_resume h c =
    (Ret (continuation_ p),
     with_coro c h (SchedCoro (p <| variant_ := variant_of r |> <| count_ := 1 |>) (Some k))
       <| frame ::= λ f, f <| tasks_ ::= delete h |> |>).
Proof.
  intros Hh Hk Hr Hc Hv Ht. unfold sched_resume, sched_param.
  erewrite (bind_ret _ _ c (Some k) c); [|by rewrite (bind_ret _ _ _ _ _ (get_coro_run _ _ _ Hh))].
  rewrite (bind_ret _ _ _ _ _ (await_task_run _ _ _ _ _ _ Hh Hk Hr)).
  rewrite (bind_ret _ _ _ _ _ (store_result_run h r _ _ _ Hh ltac:(lia) Hv)).
  erewrite internal_final_suspend_run; [|apply lookup_with_coro|exact Hc|exact Ht].
  by rewrite with_coro_twice.
Qed.
Lemma spawn_await_suspend_run a w p t c : coros c !! sa_task a = Some (SchedCoro p t) →
  0 < count_ p →
  spawn_await_suspend a w c =
    (Ret (negb (count_ p <? 2)), with_coro c (sa_task a) (SchedCoro (p <| continuation_ := Some w |>) t)).
Proof.
  intros Hh Hc. unfold spawn_await_suspend. rewrite (bind_ret _ _ _ _ _ (get_internal_run _ _ _ _ Hh)).
  rewrite (proj2 (Z.ltb_lt _ _) Hc), bind_assert.
  by rewrite (bind_ret _ _ _ _ _ (upd_internal_run _ _ _ _ _ Hh)).
Qed.

(** The context after the check of [~spawn_awaitable]. *)
Definition reported (a : spawn_awaitable) (p : internal_promise) c : ctx R :=
  match has_error (variant_ p) with
  | Some e => if was_awaited_ a then c else (unhandled_exception e c).2
  | None => c
  end.

Lemma report_unawaited_run a p c : report_unawaited a p c = (Ret tt, reported a p c).
Proof.
  unfold report_unawaited, reported. destruct (has_error _) as [e|]; [|done].
  by destruct (was_awaited_ a).
Qed.

Lemma reported_coros a p c : coros (reported a p c) = coros c.
Proof. unfold reported. destruct (has_error _); [|done]. by destruct (was_awaited_ a). Qed.

Lemma destroy_idle_task_run fuel k p d c : coros c !! k = Some (UserCoro p d []) →
  destroy_owned (S fuel) (Own_task k) c = (Ret tt, c <| coros ::= delete k |>).
Proof.
  intros Hk. cbn [destroy_owned]. by rewrite (bind_ret _ _ _ _ _ (get_coro_run _ _ _ Hk)), bind_modify.
Qed.

Lemma destroy_sched_run fuel h k p pk d c : coros c !! h = Some (SchedCoro p (Some k)) →
  coros c !! k = Some (UserCoro pk d []) → h ≠ k →
  destroy_owned (S (S fuel)) (Own_task h) c = (Ret tt, c <| coros ::= λ cs, delete k (delete h cs) |>).
Proof.
  intros Hh Hk Hne. cbn [destroy_owned].
  rewrite (bind_ret _ _ _ _ _ (get_coro_run _ _ _ Hh)), bind_modify.
  rewrite (bind_ret (get_coro k) _ _ (UserCoro pk d []) (c <| coros ::= delete h |>));
    [by destruct c|].
  apply get_coro_run. cbn. by rewrite lookup_delete_ne.
Qed.

(** Destroying the last reference destroys the scheduler coroutine and its task. *)
Lemma destroy_last_run a k p pk d c : coros c !! sa_task a = Some (SchedCoro p (Some k)) →
  coros c !! k = Some (UserCoro pk d []) → sa_task a ≠ k → count_ p = 1 →
  destroy (Own_spawn a) c =
    (Ret tt, reported a p c <| coros ::= λ cs, delete k (delete (sa_task a) cs) |>).
Proof.
  intros Hh Hk Hne Hc. unfold destroy. rewrite bind_gets.
  destruct (size (coros c)) as [|n] eqn:En.
  { apply map_size_empty_inv in En. by rewrite En, lookup_empty in Hh. }
  rewrite destroy_owned_spawn, (bind_ret _ _ _ _ _ (get_internal_run _ _ _ _ Hh)).
  rewrite (bind_ret _ _ _ _ _ (report_unawaited_run a p c)).
  rewrite <- (reported_coros a p c) in Hh, Hk.
  rewrite (bind_ret _ _ _ _ _ (upd_internal_run _ _ _ _ _ Hh)).
  erewrite (bind_ret (get_internal _)) by (eapply get_internal_run, lookup_with_coro).
  assert (count_ (p <| count_ ::= Z.pred |>) = 0) as -> by (cbn; by rewrite Hc).
  change (when (0 =? 0) ?D) with D.
  erewrite destroy_sched_run; [|apply lookup_with_coro| |done].
  - f_equal. destruct (reported a p c) as [f hp ck cs]. unfold upd. cbn. by rewrite delete_insert_eq.
  - cbn. rewrite lookup_insert_ne by done. exact Hk.
Qed.

(** What [co_await] does once the scheduler coroutine has finished. *)
Lemma spawn_await_finish_run a k p pk d r c : coros c !! sa_task a = Some (SchedCoro p (Some k)) →
  coros c !! k = Some (UserCoro pk d []) → sa_task a ≠ k → count_ p = 1 →
  variant_ p = variant_of r →
  attempt (spawn_await_finish a) c =
    (Ret r, c <| coros ::= λ cs, delete k (delete (sa_task a) cs) |>).
Proof.
  intros Hh Hk Hne Hc Hv. unfold attempt, spawn_await_finish, finally, spawn_await_resume.
  rewrite (bind_ret _ _ _ _ _ (get_internal_run _ _ _ _ Hh)), Hv.
  assert (reported (mark_awaited a) p c = c) as Hrep by (unfold reported; by destruct (has_error _)).
  pose proof (destroy_last_run (mark_awaited a) k p pk d c Hh Hk Hne Hc) as Hd. rewrite Hrep in Hd.
  destruct r; simpl; by rewrite Hd.
Qed.
(** What is left of a spawned task after both sides are done with it. *)
Definition joined c h k c' : Prop :=
  coros c' = delete k (delete h (coros c)) ∧ tasks_ (frame c') = delete h (tasks_ (frame c)) ∧
  exception_ptr_ (frame c') = exception_ptr_ (frame c).

(** C23. A task that has completed when it is awaited hands its value, or its
    exception, to the awaiting coroutine at once: nobody is resumed when it
    completes, the awaiting coroutine is not suspended, and afterwards both
    coroutines of the task are destroyed. *)
Theorem join_after_result c k r a w p pk :
  spawned c (sa_task a) k p pk →
  ∃ c', join_after k r a w c = (Ret (None, false, r), c') ∧ joined c (sa_task a) k c'.
Proof.
  intros [Hh Hk Hp Hne Hc Hv Ha Ht]. set (h := sa_task a) in *. unfold join_after.
  rewrite (bind_ret _ _ _ _ _ (task_complete_run h k r pk false c Hk Hp)). set (c1 := with_coro c k _).
  assert (coros c1 !! h = Some (SchedCoro p (Some k))) as Hh1 by (cbn; by rewrite lookup_insert_ne).
  assert (coros c1 !! k = Some (UserCoro (pk <| p_rt := variant_of r |>) true [])) as Hk1
    by apply lookup_with_coro.
  rewrite (bind_ret _ _ _ _ _ (sched_resume_run h k r p _ c1 Hh1 Hk1 eq_refl Hc Hv Ht)), Ha.
  set (c2 := upd frame _ _). set (p2 := p <| variant_ := variant_of r |> <| count_ := 1 |>).
  assert (coros c2 !! h = Some (SchedCoro p2 (Some k))) as Hh2 by apply lookup_insert_eq.
  rewrite (bind_ret _ _ _ _ _ (spawn_await_suspend_run a w p2 _ c2 Hh2 ltac:(done))).
  set (c3 := with_coro c2 _ _).
  rewrite (bind_ret _ _ _ _ _ (spawn_await_finish_run a k (p2 <| continuation_ := Some w |>)
    (pk <| p_rt := variant_of r |>) true r c3 ltac:(apply lookup_with_coro)
    ltac:(cbn; rewrite !lookup_insert_ne by done; apply lookup_insert_eq) Hne eq_refl eq_refl)).
  eexists. split; [reflexivity|]. split_and!; cbn; [|done|done].
  fold h. by rewrite !delete_insert_eq, delete_insert_ne, delete_insert_eq by done.
Qed.

(** C24. A coroutine that awaits a task before it completes is suspended, is what
    the task's completion resumes, and then gets the same value or exception. *)
Theorem join_before_result c k r a w p pk :
  spawned c (sa_task a) k p pk →
  ∃ c', join_before k r a w c = (Ret (Some w, true, r), c') ∧ joined c (sa_task a) k c'.
Proof.
  intros [Hh Hk Hp Hne Hc Hv Ha Ht]. set (h := sa_task a) in *. unfold join_before.
  rewrite (bind_ret _ _ _ _ _ (spawn_await_suspend_run a w p _ c Hh ltac:(lia))), Hc. fold h.
  set (p1 := p <| continuation_ := Some w |>). set (c1 := with_coro c h _).
  assert (coros c1 !! k = Some (UserCoro pk false [])) as Hk1 by (cbn; by rewrite lookup_insert_ne).
  rewrite (bind_ret _ _ _ _ _ (task_complete_run h k r pk false c1 Hk1 Hp)). set (c2 := with_coro c1 k _).
  assert (coros c2 !! h = Some (SchedCoro p1 (Some k))) as Hh2
    by (cbn; rewrite lookup_insert_ne by done; apply lookup_insert_eq).
  assert (coros c2 !! k = Some (UserCoro (pk <| p_rt := variant_of r |>) true [])) as Hk2
    by apply lookup_with_coro.
  rewrite (bind_ret _ _ _ _ _ (sched_resume_run h k r p1 _ c2 Hh2 Hk2 eq_refl Hc Hv Ht)).
  set (c3 := upd frame _ _). set (p3 := p1 <| variant_ := variant_of r |> <| count_ := 1 |>).
  rewrite (bind_ret _ _ _ _ _ (spawn_await_finish_run a k p3 (pk <| p_rt := variant_of r |>) true r c3
    ltac:(apply lookup_insert_eq)
    ltac:(cbn; rewrite !lookup_insert_ne by done; apply lookup_insert_eq) Hne eq_refl eq_refl)).
  eexists. split; [reflexivity|]. split_and!; cbn; [|done|done]. fold h.
  by rewrite delete_insert_eq, delete_insert_ne, !delete_insert_eq by done.
Qed.
(** An exception nobody awaits is not lost when the awaitable outlives the task:
    its destructor hands it to the event loop, where the first one is kept; a
    value is discarded. *)
Lemma drop_after_reports c k r a p pk :
  spawned c (sa_task a) k p pk → was_awaited_ a = false →
  ∃ c', drop_after k r a c = (Ret None, c') ∧
    coros c' = delete k (delete (sa_task a) (coros c)) ∧
    exception_ptr_ (frame c') =
      match r with
      | inl _ => exception_ptr_ (frame c)
      | inr e => Some (default e (exception_ptr_ (frame c)))
      end.
Proof.
  intros [Hh Hk Hp Hne Hc Hv Ha Ht] Hw. set (h := sa_task a) in *. unfold drop_after.
  rewrite (bind_ret _ _ _ _ _ (task_complete_run h k r pk false c Hk Hp)). set (c1 := with_coro c k _).
  assert (coros c1 !! h = Some (SchedCoro p (Some k))) as Hh1 by (cbn; by rewrite lookup_insert_ne).
  rewrite (bind_ret _ _ _ _ _ (sched_resume_run h k r p _ c1 Hh1 (lookup_with_coro _ _ _) eq_refl Hc Hv Ht)), Ha.
  set (c2 := upd frame _ _). set (p2 := p <| variant_ := variant_of r |> <| count_ := 1 |>).
  assert (coros c2 !! k = Some (UserCoro (pk <| p_rt := variant_of r |>) true [])) as Hk2
    by (cbn; rewrite lookup_insert_ne by done; apply lookup_insert_eq).
  rewrite (bind_ret _ _ _ _ _ (destroy_last_run a k p2 _ true c2 (lookup_insert_eq _ _ _) Hk2 Hne eq_refl)).
  eexists. split; [reflexivity|]. split.
  - change (coros (?x <| coros ::= ?f |>)) with (f (coros x)). cbv beta.
    rewrite reported_coros. cbn. fold h.
    by rewrite delete_insert_eq, delete_insert_ne, delete_insert_eq by done.
  - unfold reported. destruct r as [v|e]; [done|]. cbn. rewrite Hw. cbn.
    by destruct (exception_ptr_ (frame c)).
Qed.

Lemma destroy_shared_run a k p c : coros c !! sa_task a = Some (SchedCoro p (Some k)) →
  count_ p = 2 → variant_ p = V_uninit →
  destroy (Own_spawn a) c = (Ret tt, with_coro c (sa_task a) (SchedCoro (p <| count_ := 1 |>) (Some k))).
Proof.
  intros Hh Hc Hv. unfold destroy. rewrite bind_gets.
  rewrite destroy_owned_spawn, (bind_ret _ _ _ _ _ (get_internal_run _ _ _ _ Hh)).
  rewrite (bind_ret _ _ _ _ _ (report_unawaited_run a p c)).
  assert (reported a p c = c) as -> by (unfold reported; by rewrite Hv).
  rewrite (bind_ret _ _ _ _ _ (upd_internal_run _ _ _ _ _ Hh)).
  assert (p <| count_ ::= Z.pred |> = p <| count_ := 1 |>) as -> by (destruct p; cbn in Hc; by subst).
  by erewrite (bind_ret (get_internal _)) by (eapply get_internal_run, lookup_with_coro).
Qed.

Lemma coro_destroy_sched_run h k p pk d c : coros c !! h = Some (SchedCoro p (Some k)) →
  coros c !! k = Some (UserCoro pk d []) → h ≠ k →
  coro_destroy h c = (Ret tt, c <| coros ::= λ cs, delete k (delete h cs) |>).
Proof.
  intros Hh Hk Hne. unfold coro_destroy, destroy. rewrite bind_gets.
  destruct (size (coros c)) as [|n] eqn:En.
  - apply map_size_empty_inv in En. by rewrite En, lookup_empty in Hh.
  - by eapply destroy_sched_run.
Qed.

(** The final suspension of a detached task. *)
Lemma erase_last_run h k p pk d c : coros c !! h = Some (SchedCoro p (Some k)) →
  coros c !! k = Some (UserCoro pk d []) → h ≠ k → count_ p = 1 →
  tasks_ (frame c) !! h = Some h →
  erase_task h c =
    (Ret tt, c <| coros ::= λ cs, delete k (delete h cs) |> <| frame ::= λ f, f <| tasks_ ::= delete h |> |>).
Proof.
  intros Hh Hk Hne Hc Ht. unfold erase_task, drop_task_ref.
  rewrite (bind_ret _ _ _ _ _ (on_frame_get c)), Ht.
  rewrite (bind_ret _ _ _ _ _ (get_internal_run _ _ _ _ Hh)), Hc, bind_assert.
  rewrite (bind_ret _ _ _ _ _ (upd_internal_run _ _ _ _ _ Hh)).
  erewrite (bind_ret (get_internal _)) by (eapply get_internal_run, lookup_with_coro).
  assert (count_ (p <| count_ ::= Z.pred |>) = 0) as -> by (cbn; by rewrite Hc).
  change (when (0 =? 0) ?D) with D.
  erewrite (bind_ret (coro_destroy h)); [apply on_frame_modify|].
  erewrite coro_destroy_sched_run; [|apply lookup_with_coro| |done].
  - f_equal. destruct c as [f hp ck cs]. unfold upd. cbn. by rewrite delete_insert_eq.
  - cbn. rewrite lookup_insert_ne by done. exact Hk.
Qed.

(** When the awaitable is destroyed before the task completes, the task runs
    detached: completion destroys both coroutines and empties its slot of the
    task map, while an exception leaves the scheduler coroutine, to be thrown
    out of the event loop, with the task still in the map. *)
Lemma drop_before_detaches c k r a p pk :
  spawned c (sa_task a) k p pk →
  ∃ c', match r with
        | inl _ => drop_before k r a c = (Ret None, c') ∧ joined c (sa_task a) k c'
        | inr e => drop_before k r a c = (Throw e, c') ∧
            tasks_ (frame c') = tasks_ (frame c) ∧ is_Some (coros c' !! sa_task a)
        end.
Proof.
  intros [Hh Hk Hp Hne Hc Hv Ha Ht]. set (h := sa_task a) in *. unfold drop_before.
  rewrite (bind_ret _ _ _ _ _ (destroy_shared_run a k p c Hh Hc Hv)). fold h.
  set (p1 := p <| count_ := 1 |>). set (c1 := with_coro c h _).
  assert (coros c1 !! k = Some (UserCoro pk false [])) as Hk1 by (cbn; by rewrite lookup_insert_ne).
  rewrite (bind_ret _ _ _ _ _ (task_complete_run h k r pk false c1 Hk1 Hp)). set (c2 := with_coro c1 k _).
  assert (coros c2 !! h = Some (SchedCoro p1 (Some k))) as Hh2
    by (cbn; rewrite lookup_insert_ne by done; apply lookup_insert_eq).
  unfold sched_resume, sched_param.
  rewrite (bind_ret _ _ c2 (Some k) c2); [|by rewrite (bind_ret _ _ _ _ _ (get_coro_run _ _ _ Hh2))].
  rewrite (bind_ret _ _ _ _ _ (await_task_run _ _ r _ _ _ Hh2 (lookup_with_coro _ _ _) eq_refl)).
  destruct r as [v|e].
  - unfold internal_return_value, emplace. rewrite (bind_ret _ _ c2 tt (with_coro c2 h (SchedCoro (p1 <| variant_ := V_ok v |>) (Some k)))).
    2:{ rewrite (bind_ret _ _ _ _ _ (get_internal_run _ _ _ _ Hh2)).
        assert (variant_ p1 = V_uninit) as -> by exact Hv. rewrite bind_assert. by apply upd_internal_run. }
    set (p3 := p1 <| variant_ := V_ok v |>). set (c3 := with_coro c2 h _).
    assert (coros c3 !! h = Some (SchedCoro p3 (Some k))) as Hh3 by apply lookup_with_coro.
    unfold internal_final_suspend.
    rewrite (bind_ret _ _ _ _ _ (get_internal_run _ _ _ _ Hh3)).
    assert (coros c3 !! k = Some (UserCoro (pk <| p_rt := V_ok v |>) true [])) as Hk3
      by (cbn; rewrite lookup_insert_ne by done; apply lookup_insert_eq).
    rewrite (bind_ret _ _ _ _ _ (erase_last_run h k p3 _ true c3 Hh3 Hk3 Hne eq_refl Ht)).
    change (continuation_ p3) with (continuation_ p). rewrite Ha.
    eexists. split; [reflexivity|]. split_and!; cbn; [|done|done].
    by rewrite delete_insert_eq, delete_insert_ne, !delete_insert_eq by done.
  - unfold internal_unhandled_exception.
    erewrite (bind_throw _ _ c2 e c2);
      [|by rewrite (bind_ret _ _ _ _ _ (get_internal_run _ _ _ _ Hh2))].
    eexists. split_and!; [reflexivity|done|by eexists].
Qed.
End Results.
