(* ===== verification/TaskVoid.v ===== *)
(** The specialisations for [void]: [promise<void>] ([include/fiona/task.hpp]),
    [promise_variant<void>] and [internal_promise<void>] ([include/fiona/executor.hpp]).

    They keep the exception beside the tag instead of a union and store nothing for a
    value.  The lemmas show that a coroutine cannot tell: what happens to the promise of
    [Task] happens to the one for [void], and both yield the same but for the value. *)

From S2P Require Import Prelude Uring Buffer Frame Executor Task.

(** ** promise<void> *)
Record promise_void := PromiseVoid { pv_continuation : option handle; pv_exception_ : option exn }.
#[export] Instance eta_promise_void : Eta promise_void := λ p, PromiseVoid (pv_continuation p) (pv_exception_ p).

Definition pv_get_return_object : promise_void := PromiseVoid None None.
Definition pv_return_void (p : promise_void) : promise_void := p.
Definition pv_unhandled_exception (e : exn) (p : promise_void) : promise_void := p <| pv_exception_ := Some e |>.
Definition pv_result {S} (p : promise_void) : M S unit :=
  match pv_exception_ p with Some e => throw e | None => mret tt end.

(** ** promise_variant<void> *)
Inductive void_result_type := Vr_uninitialized | Vr_ok | Vr_error.
Record variant_void := VariantVoid { vv_exception_ : option exn; vv_rt_ : void_result_type }.
#[export] Instance eta_variant_void : Eta variant_void := λ v, VariantVoid (vv_exception_ v) (vv_rt_ v).

Definition vv_new : variant_void := VariantVoid None Vr_uninitialized.
Definition vv_emplace (v : variant_void) : variant_void := v.
Definition vv_set_error (e : exn) (v : variant_void) : variant_void := v <| vv_exception_ := Some e |> <| vv_rt_ := Vr_error |>.
Definition vv_has_error (v : variant_void) : bool := match vv_rt_ v with Vr_error => true | _ => false end.
Definition vv_get_error {S} (v : variant_void) : M S (option exn) :=
  assert (vv_has_error v) ;; mret (vv_exception_ v).
Definition vv_result {S} (v : variant_void) : M S unit :=
  match vv_exception_ v with Some e => throw e | None => mret tt end.

(** ** internal_promise<void> *)
Record internal_promise_void := IPromiseVoid { iv_variant_ : variant_void; iv_continuation_ : option handle; iv_count_ : Z }.
#[export] Instance eta_internal_promise_void : Eta internal_promise_void :=
  λ p, IPromiseVoid (iv_variant_ p) (iv_continuation_ p) (iv_count_ p).

Definition iv_new : internal_promise_void := IPromiseVoid vv_new None 0.
(** Nothing is stored: [emplace] is not even called. *)
Definition iv_return_void (p : internal_promise_void) : internal_promise_void := p.
(** An exception with no awaiter is thrown again. *)
Definition iv_unhandled_exception {S} (e : exn) (p : internal_promise_void) : M S internal_promise_void :=
  if 1 <? iv_count_ p then mret (p <| iv_variant_ ::= vv_set_error e |>) else throw e.

(** ** How the void promises represent the generic ones *)
Definition void_promise (p : promise) : promise_void :=
  PromiseVoid (p_continuation p) (match p_rt p with V_err e => Some e | _ => None end).
Definition void_variant (v : variant) : variant_void :=
  match v with V_err e => VariantVoid (Some e) Vr_error | _ => vv_new end.
Definition void_internal (p : internal_promise) : internal_promise_void :=
  IPromiseVoid (void_variant (variant_ p)) (continuation_ p) (count_ p).

(** The coroutine at [h] is a scheduler's whose promise would be [pv]. *)
Definition holds_void {R} (h : handle) (c : ctx R) (pv : internal_promise_void) : Prop :=
  ∃ p t, coros c !! h = Some (SchedCoro p t) ∧ void_internal p = pv.

Section Void.
Context {R : Type}.
Implicit Types c : ctx R.

(** *** Tasks *)
Lemma void_return v p : void_promise (p <| p_rt := V_ok v |>) = pv_return_void (void_promise (p <| p_rt := V_uninit |>)).
Proof. done. Qed.

Lemma void_unhandled e p : void_promise (p <| p_rt := V_err e |>) = pv_unhandled_exception e (void_promise p).
Proof. done. Qed.

(** The result of a task that has ended, without its value. *)
Lemma void_task_result p c : p_rt p ≠ V_uninit →
  pv_result (void_promise p) c = (variant_result (p_rt p) ;; mret tt) c.
Proof. intros Hp. unfold pv_result. cbn. by destruct (p_rt p). Qed.

(** *** Schedulers *)
Lemma void_result v c : v ≠ V_uninit → vv_result (void_variant v) c = (variant_result v ;; mret tt) c.
Proof. by destruct v. Qed.

Lemma void_result_void v c : vv_result (void_variant v) c = variant_result_void v c.
Proof. by destruct v. Qed.

Lemma void_has_error v : vv_has_error (void_variant v) = bool_decide (is_Some (has_error v)).
Proof. by destruct v. Qed.

(** [get_error] where [~spawn_awaitable] calls it. *)
Lemma void_get_error v e c : has_error v = Some e → vv_get_error (void_variant v) c = (Ret (Some e), c).
Proof. by destruct v; intros [= <-]. Qed.

Lemma void_emplace h v c c' pv : holds_void h c pv → emplace h v c = (Ret tt, c') →
  holds_void h c' (iv_return_void pv).
Proof.
  intros (p & t & Hh & <-) E. unfold emplace in E. rewrite (bind_ret _ _ _ _ _ (get_internal_run _ _ _ _ Hh)) in E.
  destruct (variant_ p) eqn:Ev; try done. rewrite bind_assert, (upd_internal_run _ _ _ _ _ Hh) in E. injection E as <-.
  eexists _, t. split; [by apply lookup_insert_eq|]. unfold void_internal. cbn. by rewrite Ev.
Qed.

(** The same exceptions are stored and thrown. *)
Lemma void_unhandled_exception h e c pv : holds_void h c pv →
  match iv_unhandled_exception e pv c with
  | (Ret pv', _) => ∃ c', internal_unhandled_exception h e c = (Ret tt, c') ∧ holds_void h c' pv'
  | (Throw e', _) => internal_unhandled_exception h e c = (Throw e', c)
  | (Fault _, _) => False
  end.
Proof.
  intros (p & t & Hh & <-). unfold iv_unhandled_exception, internal_unhandled_exception, set_error. cbn.
  rewrite (bind_ret _ _ _ _ _ (get_internal_run _ _ _ _ Hh)). destruct (1 <? count_ p); [|done].
  eexists. split; [by apply upd_internal_run|]. eexists _, t. split; [by apply lookup_insert_eq|done].
Qed.
End Void.
