(* ===== verification/TaskSamples.v ===== *)
(** Concrete tasks on the recording ring: the theorems of [Task] at inputs where
    their hypotheses hold. *)

From S2P Require Import Prelude Uring Buffer Frame Executor LogRing Task.

(** A task at 1024 spawned with the scheduler coroutine at 2048, which has run up
    to [co_await t]. *)
Definition spawn_program : M (ctx log_ring) spawn_awaitable :=
  t ← get_return_object 1024 [];
  a ← spawn 2048 t;
  _ ← sched_start 2048;
  mret a.

Definition empty_ctx : ctx log_ring := log_ctx 4 4 [].
Definition task_ctx : ctx log_ring := Eval vm_compute in (spawn_program empty_ctx).2.
Definition task_awaitable : spawn_awaitable := SpawnAwaitable 2048 false.
Definition sample_internal : internal_promise := IPromise V_uninit None 2.
Definition sample_promise : promise := Promise (Some 2048) V_uninit.

Lemma spawn_program_runs : spawn_program empty_ctx = (Ret task_awaitable, task_ctx).
Proof. by vm_compute. Qed.

Lemma task_ctx_spawned : spawned task_ctx (sa_task task_awaitable) 1024 sample_internal sample_promise.
Proof. split; by vm_compute. Qed.

Lemma empty_ctx_inv : tasks_inv [] empty_ctx.
Proof.
  split.
  - intros h p H. change (tasks_ (frame empty_ctx)) with (∅ : gmap Z Z) in H. by rewrite lookup_empty in H.
  - intros h. unfold inv_at. change (coros empty_ctx) with (∅ : gmap Z coro). rewrite lookup_empty. by split_and!.
Qed.

Lemma tasks_never_dangle_witness :
  ∃ ext' c', run_task_ops [Op_create 1024; Op_create 1040; Op_spawn 2048 0; Op_spawn 2064 1;
                           Op_drop 0; Op_finish 2048; Op_clear] [] empty_ctx = (Ret ext', c') ∧
             tasks_inv ext' c' ∧ size (coros c') = 2%nat.
Proof.
  destruct (tasks_never_dangle [Op_create 1024; Op_create 1040; Op_spawn 2048 0; Op_spawn 2064 1;
              Op_drop 0; Op_finish 2048; Op_clear] [] empty_ctx empty_ctx_inv) as (ext' & c' & E & H).
  exists ext', c'. split_and!; [exact E|exact H|].
  vm_compute in E. injection E as _ <-. reflexivity.
Defined.


Lemma join_after_result_witness :
  ∃ c', join_after 1024 (inl 7) task_awaitable 4096 task_ctx = (Ret (None, false, inl 7), c') ∧ coros c' = ∅.
Proof.
  destruct (join_after_result task_ctx 1024 (inl 7) task_awaitable 4096 _ _ task_ctx_spawned) as (c' & E & H & _).
  exists c'. split; [exact E|]. rewrite H. by vm_compute.
Defined.

Lemma join_before_result_witness :
  ∃ c', join_before 1024 (inr (system_error ECANCELED)) task_awaitable 4096 task_ctx =
        (Ret (Some 4096, true, inr (system_error ECANCELED)), c') ∧ coros c' = ∅.
Proof.
  destruct (join_before_result task_ctx 1024 (inr (system_error ECANCELED)) task_awaitable 4096 _ _
              task_ctx_spawned) as (c' & E & H & _).
  exists c'. split; [exact E|]. rewrite H. by vm_compute.
Defined.

