(* ===== verification/Duration.v ===== *)
(** [duration_to_timespec] ([include/fiona/detail/time.hpp]) with the parts of
    [<chrono>] it uses, on 64-bit counts.

    A [duration<Rep, ratio<num, den>>] is its count; the period is reduced.
    Signed overflow is undefined, so an operation whose result does not fit
    yields [None]. *)

From S2P Require Import Prelude.

Definition fits64 (z : Z) : bool := (- 2 ^ 63 <=? z) && (z <? 2 ^ 63).
Definition chk64 (z : Z) : option Z := if fits64 z then Some z else None.

(** [duration_cast] by the factor [num / den], reduced as [ratio_divide] does:
    the multiplication and the division are left out where they are by one. *)
Definition duration_cast (num den c : Z) : option Z :=
  let g := Z.gcd num den in
  let n := num / g in
  let d := den / g in
  if d =? 1 then (if n =? 1 then Some c else chk64 (c * n))
  else if n =? 1 then Some (Z.quot c d)
  else p ← chk64 (c * n); Some (Z.quot p d).

(** [std::chrono::floor<seconds>]: the comparison is made in units of
    [1 / den], the period common to both. *)
Definition floor_seconds (num den c : Z) : option Z :=
  t ← duration_cast num den c;
  lhs ← chk64 (t * den);
  rhs ← chk64 (c * num);
  if rhs <? lhs then chk64 (t - 1) else Some t.

Record kernel_timespec := Ts { tv_sec : Z; tv_nsec : Z }.
#[export] Instance eta_kernel_timespec : Eta kernel_timespec := λ t, Ts (tv_sec t) (tv_nsec t).
#[export] Instance kernel_timespec_eq_dec : EqDecision kernel_timespec.
Proof. solve_decision. Defined.

Definition duration_to_timespec (num den c : Z) : option kernel_timespec :=
  sec ← floor_seconds num den c;
  lhs ← chk64 (c * num);
  rhs ← chk64 (sec * den);
  diff ← chk64 (lhs - rhs);
  nsec ← duration_cast 1000000000 den diff;
  Some (Ts sec nsec).

(** The span of time a timespec stands for, in nanoseconds. *)
Definition timespec_ns (t : kernel_timespec) : Z := tv_sec t * 1000000000 + tv_nsec t.

(** ** Lemmas *)

Lemma chk64_fits z : - 2 ^ 63 ≤ z < 2 ^ 63 → chk64 z = Some z.
Proof.
  intros Hz. unfold chk64, fits64. rewrite (proj2 (Z.leb_le _ _)), (proj2 (Z.ltb_lt _ _)) by lia. done.
Qed.

(** A cast is an exact multiplication followed by a truncating division. *)
Lemma duration_cast_run num den c : 0 < num → 0 < den → - 2 ^ 63 ≤ c * num < 2 ^ 63 →
  duration_cast num den c = Some (Z.quot (c * num) den).
Proof.
  intros Hn Hd Hb. unfold duration_cast. set (g := Z.gcd num den).
  assert (0 < g) as Hg.
  { pose proof (Z.gcd_nonneg num den). fold g in H. destruct (decide (g = 0)) as [E|]; [|lia].
    apply Z.gcd_eq_0_l in E. lia. }
  destruct (Z.gcd_divide_l num den) as [n En], (Z.gcd_divide_r num den) as [d Ed]. fold g in En, Ed.
  assert (0 < n) as Hn' by (apply (Z.mul_pos_cancel_r n g); lia).
  assert (0 < d) as Hd' by (apply (Z.mul_pos_cancel_r d g); lia).
  assert (num / g = n) as -> by (rewrite En; apply Z.div_mul; lia).
  assert (den / g = d) as -> by (rewrite Ed; apply Z.div_mul; lia).
  assert (Z.quot (c * num) den = Z.quot (c * n) d) as ->.
  { rewrite En, Ed, Z.mul_assoc. apply Z.quot_mul_cancel_r; lia. }
  assert (- 2 ^ 63 ≤ c * n < 2 ^ 63) as Hb' by (rewrite En, Z.mul_assoc in Hb; nia).
  destruct (Z.eqb_spec d 1) as [->|].
  - rewrite Z.quot_1_r. destruct (Z.eqb_spec n 1) as [->|]; [by rewrite Z.mul_1_r|by apply chk64_fits].
  - destruct (Z.eqb_spec n 1) as [->|]; [by rewrite Z.mul_1_r|]. by rewrite chk64_fits.
Qed.

Lemma quot_bounds a b : 0 < b → a < b * Z.quot a b + b ∧ b * Z.quot a b - b < a ∧
  (0 ≤ a → b * Z.quot a b ≤ a) ∧ (a < 0 → a ≤ b * Z.quot a b).
Proof.
  intros Hb. pose proof (Z.quot_rem a b ltac:(lia)) as E.
  destruct (Z_le_gt_dec 0 a).
  - pose proof (Z.rem_bound_pos a b ltac:(lia) Hb). lia.
  - pose proof (Z.rem_bound_pos_neg a b Hb ltac:(lia)). lia.
Qed.

(** [floor_seconds] rounds towards minus infinity. *)
Lemma floor_seconds_run num den c : 0 < num → 0 < den →
  - 2 ^ 62 ≤ c * num < 2 ^ 62 → den ≤ 2 ^ 61 →
  floor_seconds num den c = Some ((c * num) / den).
Proof.
  intros Hn Hd Hb Hden. unfold floor_seconds. rewrite duration_cast_run by lia. simpl.
  destruct (quot_bounds (c * num) den Hd) as (B1 & B2 & B3 & B4).
  set (q := Z.quot (c * num) den) in *. set (x := c * num) in *.
  assert (- 2 ^ 62 ≤ q ≤ 2 ^ 62) as Hq by (split; nia).
  rewrite (chk64_fits (q * den)) by nia. simpl. rewrite (chk64_fits x) by lia. simpl.
  destruct (Z.ltb_spec x (q * den)).
  - rewrite chk64_fits by lia. f_equal. apply Z.div_unique with (x - (q - 1) * den); [|ring]. lia.
  - f_equal. apply Z.div_unique with (x - q * den); [|ring]. destruct (Z_le_gt_dec 0 x); nia.
Qed.

(** C26. The timespec handed to the kernel is the duration: whole seconds rounded
    down, the rest in [0, 10^9) nanoseconds rounded down, for positive, zero and
    negative durations of any period; no step overflows in the stated range. *)
Theorem duration_to_timespec_spec num den c :
  0 < num → 0 < den ≤ 2 ^ 33 → - 2 ^ 62 ≤ c * num < 2 ^ 62 →
  ∃ ts, duration_to_timespec num den c = Some ts ∧
    0 ≤ tv_nsec ts < 1000000000 ∧
    tv_sec ts = (c * num) / den ∧
    timespec_ns ts = (c * num * 1000000000) / den.
Proof.
  intros Hn Hd Hb. unfold duration_to_timespec. rewrite floor_seconds_run by lia. simpl.
  set (x := c * num) in *. pose proof (Z.mod_pos_bound x den ltac:(lia)) as Hm.
  pose proof (Z.div_mod x den ltac:(lia)) as E. set (q := x / den) in *. set (r := x `mod` den) in *.
  rewrite (chk64_fits x) by lia. simpl. rewrite (chk64_fits (q * den)) by lia. simpl.
  replace (x - q * den) with r by lia. rewrite (chk64_fits r) by lia. simpl.
  rewrite duration_cast_run by (try lia; nia). simpl.
  rewrite Z.quot_div_nonneg by nia. eexists. split; [done|]. cbn. unfold timespec_ns. cbn.
  assert (0 ≤ r * 1000000000 / den < 1000000000) as Hr.
  { split; [apply Z.div_pos; nia|]. apply Z.div_lt_upper_bound; nia. }
  split_and!; [lia|lia|done|].
  rewrite E at 1. replace ((den * q + r) * 1000000000) with (r * 1000000000 + q * 1000000000 * den) by ring.
  rewrite Z.div_add by lia. lia.
Qed.

(** One and a half seconds before the epoch, in milliseconds. *)
Lemma duration_to_timespec_spec_witness :
  ∃ ts, duration_to_timespec 1 1000 (-1500) = Some ts ∧ tv_sec ts = -2 ∧ tv_nsec ts = 500000000.
Proof.
  destruct (duration_to_timespec_spec 1 1000 (-1500) ltac:(lia) ltac:(lia) ltac:(lia))
    as (ts & E & _ & Hs & Hn).
  exists ts. split_and!; [exact E|rewrite Hs; reflexivity|].
  unfold timespec_ns in Hn. rewrite Hs in Hn. vm_compute in E. injection E as <-. reflexivity.
Defined.
