(* ===== verification/Awaitable.v ===== *)
(** [src/detail/awaitable_base.hpp]: reference-counted I/O objects, the frames
    they embed, and what the event loop does with an object for one completion.

    An operation on an object runs on a [cell]: the context, and the object
    while it is alive.  [delete] runs the destructor and empties the cell;
    touching an empty cell is a use after free. *)

From S2P Require Import Prelude Uring Buffer Frame Executor.

(** ** Frames with the members h_, res_, initiated_ and done_ *)
Record op_frame := OpFrame {
  h_ : option handle; res_ : Z; initiated_ : bool; done_ : bool }.
#[export] Instance eta_op_frame : Eta op_frame :=
  λ f, OpFrame (h_ f) (res_ f) (initiated_ f) (done_ f).

Definition op_frame_new : op_frame := OpFrame None 0 false false.

(** [reset()] *)
Definition op_reset (f : op_frame) : op_frame :=
  f <| h_ := None |> <| res_ := 0 |> <| initiated_ := false |> <| done_ := false |>.

(** [is_active()] *)
Definition op_is_active (f : op_frame) : bool := initiated_ f && negb (done_ f).

(** The common [await_process_cqe]. *)
Definition op_process_cqe (e : cqe) (f : op_frame) : op_frame :=
  f <| done_ := true |> <| res_ := cqe_res e |>.

(** [handle()]: [boost::exchange( h_, nullptr )]. *)
Definition op_handle (f : op_frame) : option handle * op_frame := (h_ f, f <| h_ := None |>).

(** The last statements of an [await_suspend]. *)
Definition op_start (h : handle) (f : op_frame) : op_frame :=
  f <| initiated_ := true |> <| h_ := Some h |>.

(** ** Cells *)
Record cell (R O : Type) := Cell { world : ctx R; object : option O }.
Arguments Cell {R O}. Arguments world {R O}. Arguments object {R O}.
#[export] Instance eta_cell R O : Eta (cell R O) := λ c, Cell (world c) (object c).

(** [ref_count::count_] inside an object. *)
Class RefCount (O : Type) := {
  use_count : O → Z;
  upd_count : (Z → Z) → O → O;
}.
Class RefCountLaws (O : Type) `{!RefCount O} : Prop := {
  use_count_upd f (o : O) : use_count (upd_count f o) = f (use_count o);
}.

(** The virtual functions of an object that embeds frames: its destructor, and
    [await_process_cqe] and [handle] of each frame. *)
Class AwaitableBase (R O : Type) := {
  destructor : O → M (ctx R) unit;
  await_process_cqe : frame_kind → cqe → M (cell R O) unit;
  take_handle : frame_kind → M (cell R O) (option handle);
}.

Section Cell.
Context {R O : Type} {HC : RefCount O}.

Definition on_world {A} (m : M (ctx R) A) : M (cell R O) A := zoom world m.

Definition this : M (cell R O) O :=
  o ← gets object;
  match o with Some o => mret o | None => fail UseAfterFree end.

Definition upd_this (f : O → O) : M (cell R O) unit :=
  o ← this; modify (λ c, c <| object := Some (f o) |>).

Definition intrusive_ptr_add_ref : M (cell R O) unit := upd_this (upd_count Z.succ).

Definition intrusive_ptr_release `{!AwaitableBase R O} : M (cell R O) unit :=
  upd_this (upd_count Z.pred) ;;
  o ← this;
  when (use_count o =? 0)
    (on_world (destructor o) ;; modify (λ c, c <| object := None |>)).

(** Run [d] when [m] throws: a destructor on an exceptional path only. *)
Definition on_throw {S A} (m : M S A) (d : M S unit) : M S A := λ s,
  match m s with
  | (Throw e, s') =>
      match d s' with
      | (Ret _, s'') => (Throw e, s'')
      | (Throw e', s'') => (Throw e', s'')
      | (Fault f, s'') => (Fault f, s'')
      end
  | r => r
  end.

(** The body of the loop over completions in [io_context::run]: the queue's
    reference moves into [q], whose destructor releases it. *)
Definition dispatch `{!AwaitableBase R O} (k : frame_kind) (e : cqe) : M (cell R O) (option handle) :=
  finally
    (o ← this;
     assert (1 <=? use_count o) ;;
     await_process_cqe k e ;;
     take_handle k)
    intrusive_ptr_release.

(** ** SQEs *)

(** [reserve_sqes( ring, 1 ); io_uring_get_sqe( ring ); ...] *)
Definition queue_one `{!IoUring R} (q : sqe) : M (ctx R) unit :=
  on_ring (reserve_sqes 1) ;; on_ring (push_sqe q).

(** [get_sqe( ring ); ...] *)
Definition queue_any `{!IoUring R} (q : sqe) : M (ctx R) unit := on_ring (get_sqe q).

Definition submit `{!IoUring R} : M (ctx R) unit := on_ring submit_ring.

(** The cancellation that the destructors of the awaitables submit for an
    operation in flight. *)
Definition cancel_sqe (self : ptr) (k : frame_kind) : sqe :=
  Sqe (op_cancel (Some (self, k))) None IOSQE_CQE_SKIP_SUCCESS.

(** [result] of a negated errno. *)
Definition result_of (res : Z) : M (ctx R) (result Z) :=
  if res <? 0 then e ← from_errno (- res); mret (Err e) else mret (Ok res).
End Cell.

(** ** Lemmas *)
Section CellLemmas.
Context {R O : Type} {HC : RefCount O}.
Implicit Types c : cell R O.

Lemma wp_on_world {A} (m : M (ctx R) A) c (Q : A → cell R O → Prop) :
  wp m (world c) (λ a w, Q a (c <| world := w |>)) → wp (on_world m) c Q.
Proof. apply wp_zoom. Qed.

Lemma wp_this c o (Q : O → cell R O → Prop) : object c = Some o → Q o c → wp this c Q.
Proof. intros Ho HQ. unfold wp, this. by rewrite bind_gets, Ho. Qed.

Lemma wp_upd_this f c o (Q : unit → cell R O → Prop) :
  object c = Some o → Q tt (c <| object := Some (f o) |>) → wp (upd_this f) c Q.
Proof. intros Ho HQ. apply wp_bind. eapply wp_this; [done|]. by apply wp_modify. Qed.

Lemma wp_on_ring {A} (m : M R A) (w : ctx R) (Q : A → ctx R → Prop) :
  wp m (io_ring_ (frame w)) (λ a r, Q a (w <| frame ::= λ f, f <| io_ring_ := r |> |>)) →
  wp (on_ring m) w Q.
Proof. intros H. unfold on_ring. apply wp_zoom, wp_zoom. eapply wp_mono; [exact H|]. done. Qed.

Lemma wp_on_heap {A} (m : M mem A) (w : ctx R) (Q : A → ctx R → Prop) :
  wp m (heap w) (λ a s, Q a (w <| heap := s |>)) → wp (on_heap m) w Q.
Proof. apply wp_zoom. Qed.

Lemma wp_add_ref c o (Q : unit → cell R O → Prop) : object c = Some o →
  Q tt (c <| object := Some (upd_count Z.succ o) |>) → wp intrusive_ptr_add_ref c Q.
Proof. apply wp_upd_this. Qed.

Lemma wp_finally_ret {S A} (m : M S A) d s (Q : A → S → Prop) :
  wp m s (λ a s', wp d s' (λ _ s'', Q a s'')) → wp (finally m d) s Q.
Proof.
  unfold wp, finally. destruct (m s) as [[a|e|f] s']; try done.
  by destruct (d s') as [[u|e|f] s''].
Qed.

(** Releasing a reference: the object lives on, or its destructor runs. *)
Lemma wp_release {HA : AwaitableBase R O} {HL : RefCountLaws O} c o (Q : unit → cell R O → Prop) :
  object c = Some o →
  (use_count o ≠ 1 → Q tt (c <| object := Some (upd_count Z.pred o) |>)) →
  (use_count o = 1 → wp (destructor (upd_count Z.pred o)) (world c) (λ _ w, Q tt (Cell w None))) →
  wp intrusive_ptr_release c Q.
Proof.
  intros Ho Hlive Hlast. apply wp_bind. eapply wp_upd_this; [done|].
  apply wp_bind. eapply wp_this; [done|]. apply wp_when; intros E; bool_simp; rewrite use_count_upd in E.
  - apply wp_bind, wp_on_world. eapply wp_mono; [apply Hlast; lia|]. intros [] w HQ. by apply wp_modify.
  - apply Hlive. lia.
Qed.

Lemma wpx_on_throw {S A} (m : M S A) d s Q E :
  wpx m s Q (λ e s', wp d s' (λ _ s'', E e s'')) → wpx (on_throw m d) s Q E.
Proof.
  unfold wpx, wp, on_throw. destruct (m s) as [[a|e|f] s']; try done.
  by destruct (d s') as [[u|e'|f] s''].
Qed.

(** Steps on a cell whose object is alive. *)
Lemma wp_cell_this w (o : O) (Q : O → cell R O → Prop) :
  Q o (Cell w (Some o)) → wp this (Cell w (Some o)) Q.
Proof. done. Qed.

Lemma wp_cell_upd f w (o : O) (Q : unit → cell R O → Prop) :
  Q tt (Cell w (Some (f o))) → wp (upd_this f) (Cell w (Some o)) Q.
Proof. done. Qed.

Lemma wp_cell_add_ref w (o : O) (Q : unit → cell R O → Prop) :
  Q tt (Cell w (Some (upd_count Z.succ o))) → wp intrusive_ptr_add_ref (Cell w (Some o)) Q.
Proof. done. Qed.

Lemma wp_cell_world {A} (m : M (ctx R) A) w (o : O) (Q : A → cell R O → Prop) :
  wp m w (λ a w', Q a (Cell w' (Some o))) → wp (on_world m) (Cell w (Some o)) Q.
Proof. exact (wp_on_world m (Cell w (Some o)) Q). Qed.

Lemma wp_cell_release {HA : AwaitableBase R O} {HL : RefCountLaws O} w (o : O) (Q : unit → cell R O → Prop) :
  (use_count o ≠ 1 → Q tt (Cell w (Some (upd_count Z.pred o)))) →
  (use_count o = 1 → wp (destructor (upd_count Z.pred o)) w (λ _ w', Q tt (Cell w' None))) →
  wp intrusive_ptr_release (Cell w (Some o)) Q.
Proof. exact (wp_release (Cell w (Some o)) o Q eq_refl). Qed.

Section Ring.
Context {HU : IoUring R} {HUL : IoUringLaws R}.

(** What queueing SQEs does to a context: only the ring changes, and what was
    queued or submitted before comes first. *)
Definition queued (qs : list sqe) (w w' : ctx R) : Prop :=
  (∃ r', w' = w <| frame ::= λ f, f <| io_ring_ := r' |> |>) ∧
  sq_trace (io_ring_ (frame w')) = sq_trace (io_ring_ (frame w)) ++ qs ∧
  sq_entries (io_ring_ (frame w')) = sq_entries (io_ring_ (frame w)).

Lemma queued_refl w : queued [] w w.
Proof.
  split_and!; [|by rewrite app_nil_r|done]. exists (io_ring_ (frame w)). by destruct w as [[]].
Qed.

Lemma queued_trans qs qs' w1 w2 w3 : queued qs w1 w2 → queued qs' w2 w3 → queued (qs ++ qs') w1 w3.
Proof.
  intros ((r2 & E2) & T2 & N2) ((r3 & E3) & T3 & N3). split_and!; [|by rewrite T3, T2, app_assoc|congruence].
  exists r3. subst. by destruct w1 as [[]].
Qed.

Lemma wp_queue_one q w (Q : unit → ctx R → Prop) : 0 < sq_entries (io_ring_ (frame w)) →
  (∀ w', queued [q] w w' → Q tt w') → wp (queue_one q) w Q.
Proof.
  intros He HQ. unfold queue_one. apply wp_bind, wp_on_ring, wp_reserve_sqes; [lia|].
  intros r1 Hs1 He1 Ht1 _. apply wp_on_ring, wp_push_sqe; [cbn; lia|]. cbn.
  intros r2 _ He2 Hq2 Hb2. apply HQ. split_and!; cbn.
  - exists r2. by destruct w as [[]].
  - unfold sq_trace in *. rewrite Hb2, Hq2, app_assoc. by rewrite Ht1.
  - congruence.
Qed.

Lemma wp_queue_any q w (Q : unit → ctx R → Prop) : 0 < sq_entries (io_ring_ (frame w)) →
  (∀ w', queued [q] w w' → Q tt w') → wp (queue_any q) w Q.
Proof.
  intros He HQ. apply wp_on_ring, wp_get_sqe; [done|]. intros r' He' Ht'. apply HQ.
  split_and!; [by eexists|done|done].
Qed.

Lemma wp_submit w (Q : unit → ctx R → Prop) : (∀ w', queued [] w w' → Q tt w') → wp submit w Q.
Proof.
  intros HQ. apply wp_on_ring, wp_modify, HQ.
  split_and!; [by eexists| |apply submit_entries]. rewrite app_nil_r. apply sq_trace_submit.
Qed.

Lemma queued_entries qs w w' : queued qs w w' →
  sq_entries (io_ring_ (frame w')) = sq_entries (io_ring_ (frame w)).
Proof. by intros (_ & _ & ?). Qed.

(** Only the ring changes. *)
Lemma queued_same qs w w' : queued qs w w' → heap w' = heap w ∧ clock w' = clock w ∧ coros w' = coros w ∧
  buf_rings_ (frame w') = buf_rings_ (frame w) ∧ fds_ (frame w') = fds_ (frame w) ∧
  params_ (frame w') = params_ (frame w).
Proof. by intros ((r' & ->) & _). Qed.

Definition space w : Z := io_uring_sq_space_left (io_ring_ (frame w)).

Lemma wp_reserve n w (Q : unit → ctx R → Prop) : n ≤ sq_entries (io_ring_ (frame w)) →
  (∀ w', queued [] w w' → n ≤ space w' → Q tt w') → wp (on_ring (reserve_sqes n)) w Q.
Proof.
  intros He HQ. apply wp_on_ring, wp_reserve_sqes; [done|]. intros r1 Hs1 He1 Ht1 _. apply HQ; [|done].
  split_and!; [by eexists| |done]. by rewrite app_nil_r.
Qed.

Lemma wp_push q w (Q : unit → ctx R → Prop) : 0 < space w →
  (∀ w', queued [q] w w' → space w' = space w - 1 → Q tt w') → wp (on_ring (push_sqe q)) w Q.
Proof.
  intros Hs HQ. apply wp_on_ring, wp_push_sqe; [done|]. intros r1 Hs1 He1 Hq1 Hb1. apply HQ; [|done].
  split_and!; [by eexists| |done]. unfold sq_trace. cbn. by rewrite Hb1, Hq1, app_assoc.
Qed.
End Ring.

Lemma wp_on_throw_ret {S A} (m : M S A) d s (Q : A → S → Prop) : wp m s Q → wp (on_throw m d) s Q.
Proof. unfold wp, on_throw. by destruct (m s) as [[a|e|f] s']. Qed.

Lemma wp_from_errno {S} e (s : S) (Q : Z → S → Prop) : e ≠ 0 → Q e s → wp (from_errno e) s Q.
Proof. intros He HQ. apply wp_bind, wp_assert; [by apply negb_true_iff, Z.eqb_neq|]. by apply wp_ret. Qed.
End CellLemmas.

Ltac cell_step :=
  lazymatch goal with
  | |- wp this _ _ => apply wp_cell_this
  | |- wp (upd_this _) _ _ => apply wp_cell_upd
  | |- wp intrusive_ptr_add_ref _ _ => apply wp_cell_add_ref
  | |- wp (on_world _) _ _ => apply wp_cell_world
  | |- wp (when false _) _ _ => apply (wp_ret tt)
  | |- wp (when true ?m) ?s ?Q => change (wp m s Q)
  | |- _ => wp_step
  end; cbv beta.
Ltac cell_steps := repeat cell_step.

(** The same in front of a part that may throw. *)
Ltac cellx_step :=
  lazymatch goal with
  | |- wpx (mbind _ (mbind _ _)) _ _ _ => apply wpx_bind
  | |- wpx (mbind _ (when _ _)) _ _ _ => apply wpx_bind
  | |- wpx (mbind _ (throw_errno_as_error_code _)) _ _ _ => apply wpx_bind
  | |- wpx (mbind _ (on_throw _ _)) _ _ _ => apply wpx_bind
  | |- wpx (mbind _ _) _ _ _ => apply wpx_bind, wpx_wp; cell_step
  | |- wpx _ _ _ _ => apply wpx_wp; cell_step
  end; cbv beta.
Ltac cellx_steps := repeat cellx_step.
