(* ===== verification/Keeps.v ===== *)
(** What a computation leaves alone: [keeps f m] when [f] reads the same in the
    state after [m] as in the state before, whatever the outcome.

    The code of timers, acceptors and files never touches a receive buffer or a
    buffer ring; [keeps_solve] proves this kind of fact by following the code. *)

From S2P Require Import Prelude Uring Buffer Frame Executor Awaitable.

Definition keeps {S T A} (f : S → T) (m : M S A) : Prop := ∀ s, f (m s).2 = f s.

(** ** The monad *)
Section Monad.
Context {S T : Type} (f : S → T).

Lemma keeps_ret {A} (a : A) : keeps f (mret a). Proof. done. Qed.
Lemma keeps_get : keeps f get. Proof. done. Qed.
Lemma keeps_gets {A} (g : S → A) : keeps f (gets g). Proof. done. Qed.
Lemma keeps_throw {A} e : keeps f (throw (A := A) e). Proof. done. Qed.
Lemma keeps_fail {A} x : keeps f (fail (A := A) x). Proof. done. Qed.
Lemma keeps_assert b : keeps f (assert b). Proof. intros s. by destruct b. Qed.

Lemma keeps_bind {A B} (m : M S A) (k : A → M S B) : keeps f m → (∀ a, keeps f (k a)) → keeps f (m ≫= k).
Proof.
  intros Hm Hk s. specialize (Hm s). unfold mbind, M_bind. destruct (m s) as [[a|e|x] s']; cbn in *; [|done|done].
  by rewrite <- Hm, Hk.
Qed.

Lemma keeps_when b (m : M S unit) : keeps f m → keeps f (when b m).
Proof. by destruct b. Qed.

Lemma keeps_from_errno e : keeps f (from_errno e).
Proof. apply keeps_bind; [apply keeps_assert|intros; apply keeps_ret]. Qed.

Lemma keeps_throw_errno {A} e : keeps f (throw_errno_as_error_code (A := A) e).
Proof. apply keeps_bind; [apply keeps_from_errno|intros; apply keeps_throw]. Qed.

Lemma keeps_attempt {A} (m : M S A) : keeps f m → keeps f (attempt m).
Proof. intros Hm s. specialize (Hm s). unfold attempt. by destruct (m s) as [[a|e|x] s']. Qed.

Lemma keeps_on_throw {A} (m : M S A) d : keeps f m → keeps f d → keeps f (on_throw m d).
Proof.
  intros Hm Hd s. specialize (Hm s). unfold on_throw. destruct (m s) as [[a|e|x] s']; cbn in *; [done| |done].
  specialize (Hd s'). destruct (d s') as [[a|e'|x] s'']; cbn in *; congruence.
Qed.

Lemma keeps_finally {A} (m : M S A) d : keeps f m → keeps f d → keeps f (finally m d).
Proof.
  intros Hm Hd s. specialize (Hm s). unfold finally.
  destruct (m s) as [[a|e|x] s']; cbn in *; [| |done]; specialize (Hd s');
    destruct (d s') as [[b|e'|x'] s'']; cbn in *; congruence.
Qed.

(** What is kept, when the computation returns. *)
Lemma wp_keeps {A} (m : M S A) s (Q : A → S → Prop) :
  keeps f m → wp m s Q → wp m s (λ a s', Q a s' ∧ f s' = f s).
Proof. intros Hm. specialize (Hm s). unfold wp. by destruct (m s) as [[a|e|x] s']. Qed.
End Monad.

(** ** Contexts and cells *)

(** What does not depend on the queues of the ring, or on the pool of descriptors. *)
Class RingBlind {R T} `{!IoUring R} (f : ctx R → T) : Prop :=
  ring_blind w r : sq_entries r = sq_entries (io_ring_ (frame w)) → f (w <| frame ::= λ fr, fr <| io_ring_ := r |> |>) = f w.
Class PoolBlind {R T} (f : ctx R → T) : Prop := pool_blind w X : f (w <| frame ::= λ fr, fr <| fds_ := X |> |>) = f w.

(** What depends neither on the heap nor on the rings of buffers. *)
Class BufferBlind {R T} (f : ctx R → T) : Prop := buffer_blind w m : f (w <| heap := m |>) = f w.
Class GroupBlind {R T} (f : ctx R → T) : Prop :=
  group_blind w X : f (w <| frame ::= λ fr, fr <| buf_rings_ := X |> |>) = f w.

Section Ring.
Context {R : Type} {HU : IoUring R} {HUL : IoUringLaws R}.

Lemma get_sqe_entries q (r r' : R) : io_uring_get_sqe q r = Some r' → sq_entries r' = sq_entries r.
Proof.
  intros E. destruct (decide (io_uring_sq_space_left r = 0)) as [E0|E0].
  - by rewrite get_sqe_full in E.
  - destruct (get_sqe_room q r) as (r1 & E1 & _ & He & _); [pose proof (space_bound r); lia|]. congruence.
Qed.

Lemma keeps_submit_ring : keeps (sq_entries (R := R)) submit_ring.
Proof. intros r. apply submit_entries. Qed.

Lemma keeps_push_sqe q : keeps (sq_entries (R := R)) (push_sqe q).
Proof.
  intros r. unfold push_sqe. munfold. destruct (io_uring_get_sqe q r) as [r'|] eqn:E; [|done]. by eapply get_sqe_entries.
Qed.

Lemma keeps_reserve_sqes n : keeps (sq_entries (R := R)) (reserve_sqes n).
Proof. apply keeps_bind; [apply keeps_gets|]. intros k. apply keeps_when, keeps_submit_ring. Qed.

Lemma keeps_get_sqe q : keeps (sq_entries (R := R)) (get_sqe q).
Proof.
  intros r. unfold get_sqe, submit_ring. munfold. destruct (io_uring_get_sqe q r) as [r'|] eqn:E; [by eapply get_sqe_entries|].
  destruct (io_uring_get_sqe q (io_uring_submit r)) as [r'|] eqn:E'; cbn; [|apply submit_entries].
  apply get_sqe_entries in E'. rewrite E'. apply submit_entries.
Qed.
End Ring.

Section Contexts.
Context {R T : Type} {HU : IoUring R} {HS : UnorderedBegin} (f : ctx R → T) {HR : RingBlind f}.

Lemma keeps_on_ring {A} (m : M R A) : keeps sq_entries m → keeps f (on_ring m).
Proof.
  intros Hm w. specialize (Hm (io_ring_ (frame w))). unfold on_ring, zoom.
  destruct (m (io_ring_ (frame w))) as [o r] eqn:E. cbn. by apply (ring_blind w r).
Qed.

Lemma keeps_on_heap {HB : BufferBlind f} {A} (m : M mem A) : keeps f (on_heap m).
Proof. intros w. unfold on_heap, zoom. destruct (m (heap w)) as [o m']. apply (buffer_blind w m'). Qed.

Lemma keeps_frame_groups {HG : GroupBlind f} g : keeps f (on_frame (modify (λ fr, fr <| buf_rings_ ::= g |>))).
Proof. intros w. rewrite on_frame_modify. apply (group_blind w (g (buf_rings_ (frame w)))). Qed.

Lemma keeps_frame_get : keeps f (on_frame get).
Proof. intros w. by rewrite on_frame_get. Qed.

Lemma keeps_frame_pool {HP : PoolBlind f} (g : gset Z → gset Z) : keeps f (on_frame (modify (λ fr, fr <| fds_ ::= g |>))).
Proof. intros w. rewrite on_frame_modify. apply (pool_blind w (g (fds_ (frame w)))). Qed.

Lemma keeps_get_available {HP : PoolBlind f} : keeps f get_available_fd.
Proof.
  apply keeps_bind; [apply keeps_frame_get|]. intros fr. destruct (set_begin _); [|apply keeps_ret].
  apply keeps_bind; [apply keeps_frame_pool|]. intros _. apply keeps_bind; [apply keeps_assert|]. intros _.
  apply keeps_bind; [apply keeps_assert|intros; apply keeps_ret].
Qed.

Lemma keeps_release_fd {HP : PoolBlind f} fd : keeps f (release_fd fd).
Proof.
  unfold release_fd. destruct (fd <? 0); [apply keeps_ret|]. apply keeps_bind; [apply keeps_frame_get|]. intros fr.
  apply keeps_bind; [apply keeps_assert|]. intros _. apply keeps_bind; [apply keeps_frame_pool|]. intros _. apply keeps_assert.
Qed.
End Contexts.

(** A cell, of which only the context is read. *)
Definition of_world {R O T} (f : ctx R → T) (c : cell R O) : T := f (world c).

Section Cells.
Context {R O T : Type} {HC : RefCount O} (f : ctx R → T).
Local Abbreviation kept m := (keeps (of_world (O := O) f) m).

Lemma keeps_on_world {A} (m : M (ctx R) A) : keeps f m → kept (on_world m).
Proof. intros Hm c. specialize (Hm (world c)). unfold on_world, zoom. by destruct (m (world c)). Qed.

Lemma keeps_this : kept this.
Proof. intros [w [o|]]; done. Qed.

Lemma keeps_upd_this g : kept (upd_this g).
Proof. intros [w [o|]]; done. Qed.

Lemma keeps_add_ref : kept intrusive_ptr_add_ref.
Proof. apply keeps_upd_this. Qed.

Lemma keeps_release {HA : AwaitableBase R O} : (∀ o, keeps f (destructor o)) → kept intrusive_ptr_release.
Proof.
  intros Hd. apply keeps_bind; [apply keeps_upd_this|]. intros _. apply keeps_bind; [apply keeps_this|]. intros o.
  apply keeps_when, keeps_bind; [by apply keeps_on_world|]. by intros _ c.
Qed.

Lemma keeps_dispatch {HA : AwaitableBase R O} k e : (∀ o, keeps f (destructor o)) →
  kept (await_process_cqe k e) → kept (take_handle k) → kept (dispatch k e).
Proof.
  intros Hd Hp Hh. apply keeps_finally; [|by apply keeps_release].
  apply keeps_bind; [apply keeps_this|]. intros o. apply keeps_bind; [apply keeps_assert|]. intros _.
  apply keeps_bind; [done|]. by intros _.
Qed.
End Cells.

(** Follow the code, unfolding what is not one of these; [virtual] reduces a virtual
    call. *)
Ltac head_of t := lazymatch t with ?f _ => head_of f | _ => t end.
Ltac keeps_step virtual :=
  lazymatch goal with
  | |- ∀ _, _ => intro
  | |- keeps _ (mret _) => apply keeps_ret
  | |- keeps _ get => apply keeps_get
  | |- keeps _ (gets _) => apply keeps_gets
  | |- keeps _ (throw _) => apply keeps_throw
  | |- keeps _ (fail _) => apply keeps_fail
  | |- keeps _ (assert _) => apply keeps_assert
  | |- keeps _ (mbind _ _) => apply keeps_bind
  | |- keeps _ (when _ _) => apply keeps_when
  | |- keeps _ (from_errno _) => apply keeps_from_errno
  | |- keeps _ (throw_errno_as_error_code _) => apply keeps_throw_errno
  | |- keeps _ (attempt _) => apply keeps_attempt
  | |- keeps _ (on_throw _ _) => apply keeps_on_throw
  | |- keeps _ (finally _ _) => apply keeps_finally
  | |- keeps _ (on_ring _) => apply keeps_on_ring; [exact _|]
  | |- keeps _ (queue_any _) => unfold queue_any
  | |- keeps _ submit => unfold submit
  | |- keeps _ submit_ring => apply keeps_submit_ring
  | |- keeps _ (push_sqe _) => apply keeps_push_sqe
  | |- keeps _ (reserve_sqes _) => apply keeps_reserve_sqes
  | |- keeps _ (get_sqe _) => apply keeps_get_sqe
  | |- keeps _ (queue_one _) => unfold queue_one
  | |- keeps _ (on_heap _) => apply keeps_on_heap; exact _
  | |- keeps _ (on_frame get) => apply keeps_frame_get
  | |- keeps _ (on_frame (modify _)) => apply keeps_frame_groups; exact _
  | |- keeps _ get_available_fd => apply keeps_get_available; exact _
  | |- keeps _ (release_fd _) => apply keeps_release_fd; exact _
  | |- keeps _ (on_world _) => apply keeps_on_world
  | |- keeps _ this => apply keeps_this
  | |- keeps _ (upd_this _) => apply keeps_upd_this
  | |- keeps _ intrusive_ptr_add_ref => apply keeps_add_ref
  | |- keeps _ intrusive_ptr_release => apply keeps_release
  | |- keeps _ (dispatch _ _) => apply keeps_dispatch
  | |- keeps _ (match ?x with _ => _ end) => destruct x
  | |- keeps _ (destructor _) => virtual
  | |- keeps _ (await_process_cqe _ _) => virtual
  | |- keeps _ (take_handle _) => virtual
  | |- keeps _ ?m => let h := head_of m in unfold h
  end; cbv beta zeta.
Ltac keeps_solve virtual := repeat keeps_step virtual.
