(* ===== verification/Slots.v ===== *)
(** Accounting for the direct descriptors: the slots an object or its user holds
    and the free ones are together all the slots, each once. *)

From S2P Require Import Prelude Uring Buffer Frame BufRing Executor Awaitable.

Section Slots.
Context {R : Type} {HU : IoUring R} {HUL : IoUringLaws R} {HS : UnorderedBegin} {HSL : UnorderedBeginLaws}.
Implicit Types w : ctx R.

Definition slots_ok (l : list Z) w : Prop :=
  fds_wf w ∧ NoDup l ∧
  (∀ fd, 0 ≤ fd < num_files (params_ (frame w)) ↔ fd ∈ l ∨ fd ∈ fds_ (frame w)) ∧
  (∀ fd, fd ∈ l → fd ∉ fds_ (frame w)).

(** Only the pool differs. *)
Definition pool_only w w' : Prop := ∃ X, w' = w <| frame ::= λ f, f <| fds_ := X |> |>.

Lemma pool_only_entries w w' : pool_only w w' →
  sq_entries (io_ring_ (frame w')) = sq_entries (io_ring_ (frame w)).
Proof. by intros [X ->]. Qed.

Lemma slots_ok_perm l l' w : l ≡ₚ l' → slots_ok l w → slots_ok l' w.
Proof.
  intros Hp (Hw & Hn & Ha & Hd). split_and!; [done|by rewrite <- Hp| |]; intros fd; specialize (Ha fd); specialize (Hd fd);
    rewrite (elem_of_Permutation_proper fd _ _ Hp) in *; done.
Qed.

Lemma slots_ok_queued l qs w w' : queued qs w w' → slots_ok l w → slots_ok l w'.
Proof.
  intros Hq (Hw & Hn & Ha). destruct (queued_same _ _ _ Hq) as (_ & _ & _ & _ & E5 & E6).
  unfold slots_ok, fds_wf in *. by rewrite E5, E6.
Qed.

Lemma slots_ok_range l w fd : slots_ok l w → fd ∈ l → 0 ≤ fd < num_files (params_ (frame w)).
Proof. intros (_ & _ & Ha & _) Hin. apply Ha. by left. Qed.

Lemma wp_get_slot l w (Q : Z → ctx R → Prop) : slots_ok l w →
  (fds_ (frame w) = ∅ → Q (-1) w) →
  (∀ fd w', fd ∈ fds_ (frame w) → 0 ≤ fd → pool_only w w' → fds_ (frame w') = fds_ (frame w) ∖ {[fd]} →
     slots_ok (fd :: l) w' → Q fd w') →
  wp get_available_fd w Q.
Proof.
  intros (Hw & Hn & Ha & Hd) H0 H1. unfold wp.
  destruct (get_available_fd_run w Hw) as [[E ->]|(fd & Hin & ->)]; [by apply H0|].
  destruct (proj2 Hw fd Hin) as [Hp Hlt]. apply H1; [done|done|by eexists|done|].
  split_and!; cbn.
  - split; [apply Hw|]. cbn. intros x [Hx _]%elem_of_difference. by apply Hw.
  - constructor; [|done]. intros Hl. by apply (Hd fd).
  - intros x. rewrite Ha, elem_of_cons, elem_of_difference, elem_of_singleton.
    destruct (decide (x = fd)) as [->|]; tauto.
  - intros x. rewrite elem_of_cons, elem_of_difference, elem_of_singleton. intros [->|Hx]; [tauto|].
    intros [Hf _]. by apply (Hd x).
Qed.

Lemma wp_release_slot fd l w (Q : unit → ctx R → Prop) : slots_ok (fd :: l) w →
  (∀ w', pool_only w w' → fds_ (frame w') = {[fd]} ∪ fds_ (frame w) → slots_ok l w' → Q tt w') →
  wp (release_fd fd) w Q.
Proof.
  intros Hs HQ. pose proof (slots_ok_range _ _ fd Hs) as Hr. destruct Hs as (Hw & Hn & Ha & Hd).
  apply NoDup_cons in Hn as [Hni Hn].
  unfold wp. rewrite release_fd_run; [|done|apply Hr; left|apply Hd; left].
  apply HQ; [by eexists|done|]. split_and!; cbn; [|done| |].
  - split; [apply Hw|]. cbn. intros x [->%elem_of_singleton|Hx]%elem_of_union; [apply Hr; left|by apply Hw].
  - intros x. rewrite Ha, elem_of_cons, elem_of_union, elem_of_singleton. tauto.
  - intros x Hx. rewrite elem_of_union, elem_of_singleton. intros [->|Hf]; [done|]. by apply (Hd x); [right|].
Qed.

Lemma wp_release_none fd w (Q : unit → ctx R → Prop) : fd < 0 → Q tt w → wp (release_fd fd) w Q.
Proof. intros Hlt HQ. unfold wp. by rewrite release_fd_negative. Qed.
End Slots.

(** ** Building an object in a context *)

(** [new T( ... )]: the constructor runs on an empty cell of its own. *)
Definition build {R O : Type} (m : M (cell R O) unit) : M (ctx R) O := λ w,
  match m (Cell w None) with
  | (Ret _, Cell w' (Some o)) => (Ret o, w')
  | (Ret _, Cell w' None) => (Fault UseAfterFree, w')
  | (Throw e, c) => (Throw e, world c)
  | (Fault f, c) => (Fault f, world c)
  end.

Lemma wp_build {R O} (m : M (cell R O) unit) w (Q : O → ctx R → Prop) :
  wp m (Cell w None) (λ _ c, ∃ o, object c = Some o ∧ Q o (world c)) → wp (build m) w Q.
Proof.
  unfold wp, build. destruct (m _) as [[[]|e|f] [w' [o|]]]; try done.
  - by intros (? & [= ->] & H).
  - by intros (? & ? & ?).
Qed.
