(* ===== verification/Timer.v ===== *)
(** [include/fiona/time.hpp] and [src/time.cpp]: timers.

    A [timer_impl] embeds a frame for the wait and one for its cancellation.
    [timer_sys] adds what the invariant talks about: the handles to the object
    that programs and awaitables hold, and the completions still to come. *)

From Stdlib Require Import ZifyBool.
From S2P Require Import Prelude Uring Buffer Frame Executor Awaitable Duration.

(** ** State *)

(** An [error_code] is its value, 0 when it is clear. *)
Record timeout_frame := TimeoutFrame {
  tf_ec_ : Z; tf_ts_ : kernel_timespec; tf_h_ : option handle;
  tf_initiated_ : bool; tf_done_ : bool }.
#[export] Instance eta_timeout_frame : Eta timeout_frame :=
  λ f, TimeoutFrame (tf_ec_ f) (tf_ts_ f) (tf_h_ f) (tf_initiated_ f) (tf_done_ f).

Record cancel_frame := CancelFrame {
  cf_ec_ : Z; cf_h_ : option handle; cf_initiated_ : bool; cf_done_ : bool }.
#[export] Instance eta_cancel_frame : Eta cancel_frame :=
  λ f, CancelFrame (cf_ec_ f) (cf_h_ f) (cf_initiated_ f) (cf_done_ f).

Record timer_impl := TimerImpl { tm_count_ : Z; tm_timeout : timeout_frame; tm_cancel : cancel_frame }.
#[export] Instance eta_timer_impl : Eta timer_impl :=
  λ t, TimerImpl (tm_count_ t) (tm_timeout t) (tm_cancel t).

#[export] Instance timer_ref_count : RefCount timer_impl := {|
  use_count := tm_count_;
  upd_count f t := t <| tm_count_ ::= f |> |}.

(** ** The frames *)

Definition timeout_reset (f : timeout_frame) : timeout_frame :=
  f <| tf_ts_ := Ts 0 0 |> <| tf_h_ := None |> <| tf_initiated_ := false |>
    <| tf_done_ := false |> <| tf_ec_ := 0 |>.

Definition cancel_reset (f : cancel_frame) : cancel_frame :=
  f <| cf_initiated_ := false |> <| cf_done_ := false |> <| cf_ec_ := 0 |>.

Definition upd_timeout (f : timeout_frame → timeout_frame) (t : timer_impl) : timer_impl :=
  t <| tm_timeout ::= f |>.
Definition upd_cancel (f : cancel_frame → cancel_frame) (t : timer_impl) : timer_impl :=
  t <| tm_cancel ::= f |>.

Section Timer.
Context {R : Type} {HU : IoUring R}.
(** The address of the object. *)
Variable self : ptr.

Definition throw_busy {S A} : M S A := throw_errno_as_error_code EBUSY.

Definition timeout_process_cqe (e : cqe) : M (cell R timer_impl) unit :=
  upd_this (upd_timeout (λ f, f <| tf_done_ := true |>)) ;;
  let e := - cqe_res e in
  when (negb (e =? 0) && negb (e =? ETIME))
    (ec ← from_errno e; upd_this (upd_timeout (λ f, f <| tf_ec_ := ec |>))).

Definition timeout_handle : M (cell R timer_impl) (option handle) :=
  t ← this;
  upd_this (upd_timeout (λ f, f <| tf_h_ := None |>)) ;;
  mret (tf_h_ (tm_timeout t)).

Definition cancel_process_cqe (e : cqe) : M (cell R timer_impl) unit :=
  upd_this (upd_cancel (λ f, f <| cf_done_ := true |>)) ;;
  when (cqe_res e <? 0)
    (ec ← from_errno (- cqe_res e); upd_this (upd_cancel (λ f, f <| cf_ec_ := ec |>))).

Definition cancel_handle : M (cell R timer_impl) (option handle) :=
  t ← this;
  upd_this (upd_cancel (λ f, f <| cf_h_ := None |>)) ;;
  mret (cf_h_ (tm_cancel t)).

#[export] Instance timer_awaitable_base : AwaitableBase R timer_impl := {|
  destructor _ := mret tt;
  await_process_cqe k e :=
    match k with
    | FkTimer => timeout_process_cqe e
    | FkTimerCancel => cancel_process_cqe e
    | _ => fail WrongClass
    end;
  take_handle k :=
    match k with
    | FkTimer => timeout_handle
    | FkTimerCancel => cancel_handle
    | _ => fail WrongClass
    end |}.

(** ** timer *)

Definition timer_new : timer_impl :=
  TimerImpl 1 (TimeoutFrame 0 (Ts 0 0) None false false) (CancelFrame 0 None false false).

(** ** timer_awaitable: the intrusive pointer it holds counts *)

Definition timer_awaitable_new (ts : kernel_timespec) : M (cell R timer_impl) unit :=
  intrusive_ptr_add_ref ;;
  upd_this (upd_timeout (λ f, f <| tf_ts_ := ts |>)).

Definition timer_awaitable_dtor : M (cell R timer_impl) unit :=
  t ← this;
  let tf := tm_timeout t in
  when (tf_initiated_ tf && negb (tf_done_ tf))
    (on_world (queue_any (cancel_sqe self FkTimer)) ;; on_world submit) ;;
  intrusive_ptr_release.

Definition timer_await_ready : M (cell R timer_impl) bool :=
  t ← this;
  when (tf_initiated_ (tm_timeout t)) throw_busy ;;
  mret false.

Definition timer_await_suspend (h : handle) : M (cell R timer_impl) unit :=
  t ← this;
  when (tf_initiated_ (tm_timeout t)) throw_busy ;;
  upd_this (upd_timeout (λ f, f <| tf_h_ := Some h |>)) ;;
  on_world (queue_any (Sqe (op_timeout self 0) (Some (self, FkTimer)) 0)) ;;
  intrusive_ptr_add_ref ;;
  upd_this (upd_timeout (λ f, f <| tf_initiated_ := true |>)).

Definition timer_await_resume : M (cell R timer_impl) (result unit) :=
  t ← this;
  let ec := tf_ec_ (tm_timeout t) in
  upd_this (upd_timeout timeout_reset) ;;
  mret (if negb (ec =? 0) then Err ec else Ok tt).

(** [co_await t.async_wait( d )], up to the suspension and from the resumption. *)
Definition async_wait (ts : kernel_timespec) (h : handle) : M (cell R timer_impl) unit :=
  timer_awaitable_new ts ;;
  on_throw (_ ← timer_await_ready; timer_await_suspend h) timer_awaitable_dtor.

Definition async_wait_finish : M (cell R timer_impl) (result unit) :=
  finally timer_await_resume timer_awaitable_dtor.

(** ** timer_cancel_awaitable *)

Definition timer_cancel_await_ready : M (cell R timer_impl) bool :=
  t ← this;
  when (cf_initiated_ (tm_cancel t)) throw_busy ;;
  mret false.

Definition timer_cancel_await_suspend (h : handle) : M (cell R timer_impl) unit :=
  t ← this;
  when (cf_initiated_ (tm_cancel t)) throw_busy ;;
  on_world (queue_any (Sqe (op_cancel (Some (self, FkTimer))) (Some (self, FkTimerCancel)) 0)) ;;
  intrusive_ptr_add_ref ;;
  upd_this (upd_cancel (λ f, f <| cf_h_ := Some h |> <| cf_initiated_ := true |>)).

Definition timer_cancel_await_resume : M (cell R timer_impl) (result unit) :=
  t ← this;
  let cf := tm_cancel t in
  when (negb (cf_initiated_ cf) || negb (cf_done_ cf)) throw_busy ;;
  let ec := cf_ec_ cf in
  upd_this (upd_cancel cancel_reset) ;;
  mret (if negb (ec =? 0) then Err ec else Ok tt).

Definition timer_async_cancel (h : handle) : M (cell R timer_impl) unit :=
  intrusive_ptr_add_ref ;;
  on_throw (_ ← timer_cancel_await_ready; timer_cancel_await_suspend h) intrusive_ptr_release.

Definition timer_cancel_finish : M (cell R timer_impl) (result unit) :=
  finally timer_cancel_await_resume intrusive_ptr_release.

(** ** A timer in use

    [handles] counts the [timer] objects, [waiting] and [cancelling] the
    awaitables, and [wait_pend] and [cancel_pend] the operations submitted whose
    completion has not been processed. *)
Record timer_sys := TimerSys {
  handles : nat; waiting : bool; cancelling : bool; wait_pend : nat; cancel_pend : nat }.
#[export] Instance eta_timer_sys : Eta timer_sys :=
  λ s, TimerSys (handles s) (waiting s) (cancelling s) (wait_pend s) (cancel_pend s).

Inductive timer_op :=
| Op_copy | Op_drop
| Op_wait (ts : kernel_timespec) (h : handle)
| Op_wait_finish               (** the waiting coroutine is resumed *)
| Op_wait_abandon              (** or destroyed *)
| Op_cancel (h : handle)
| Op_cancel_finish
| Op_wait_cqe (res : Z)
| Op_cancel_cqe (res : Z).

(** An operation that is not possible in the state does nothing. *)
Definition run_timer_op (op : timer_op) (s : timer_sys) : M (cell R timer_impl) timer_sys :=
  c ← get;
  match op, object c with
  | _, None => mret s
  | Op_copy, _ =>
      if decide (handles s = 0%nat) then mret s else
      intrusive_ptr_add_ref ;; mret (s <| handles ::= S |>)
  | Op_drop, _ =>
      if decide (handles s = 0%nat) then mret s else
      intrusive_ptr_release ;; mret (s <| handles ::= pred |>)
  | Op_wait ts h, _ =>
      if decide (handles s = 0%nat) then mret s else
      r ← attempt (async_wait ts h);
      match r with
      | inl _ => mret (s <| waiting := true |> <| wait_pend ::= S |>)
      | inr _ => mret s
      end
  | Op_wait_finish, Some t =>
      if waiting s && tf_done_ (tm_timeout t) then
        async_wait_finish ;; mret (s <| waiting := false |>)
      else mret s
  | Op_wait_abandon, _ =>
      if waiting s then timer_awaitable_dtor ;; mret (s <| waiting := false |>) else mret s
  | Op_cancel h, _ =>
      if decide (handles s = 0%nat) then mret s else
      r ← attempt (timer_async_cancel h);
      match r with
      | inl _ => mret (s <| cancelling := true |> <| cancel_pend ::= S |>)
      | inr _ => mret s
      end
  | Op_cancel_finish, Some t =>
      if cancelling s && cf_done_ (tm_cancel t) then
        timer_cancel_finish ;; mret (s <| cancelling := false |>)
      else mret s
  | Op_wait_cqe res, _ =>
      if decide (wait_pend s = 0%nat) then mret s else
      dispatch FkTimer (Cqe (Some (self, FkTimer)) res 0) ;; mret (s <| wait_pend ::= pred |>)
  | Op_cancel_cqe res, _ =>
      if decide (cancel_pend s = 0%nat) then mret s else
      dispatch FkTimerCancel (Cqe (Some (self, FkTimerCancel)) res 0) ;;
      mret (s <| cancel_pend ::= pred |>)
  end.

Definition run_timer_ops (ops : list timer_op) (s : timer_sys) : M (cell R timer_impl) timer_sys :=
  foldl (λ m op, m ≫= run_timer_op op) (mret s) ops.

(** A whole wait: [co_await t.async_wait( ts )] in coroutine [h], the completion
    with [res], the resumption.  What the loop resumes, and the result. *)
Definition wait_round (ts : kernel_timespec) (h : handle) (res : Z) :
    M (cell R timer_impl) (option handle * result unit) :=
  async_wait ts h ;;
  k ← dispatch FkTimer (Cqe (Some (self, FkTimer)) res 0);
  r ← async_wait_finish;
  mret (k, r).

(** All the references to the object. *)
Definition refs (s : timer_sys) : Z :=
  Z.of_nat (handles s) + Z.b2z (waiting s) + Z.b2z (cancelling s) +
  Z.of_nat (wait_pend s) + Z.of_nat (cancel_pend s).

(** The flags of the frames tell what is in flight. *)
Definition timer_flags (s : timer_sys) (t : timer_impl) : Prop :=
  let tf := tm_timeout t in
  let cf := tm_cancel t in
  Z.of_nat (wait_pend s) = Z.b2z (tf_initiated_ tf && negb (tf_done_ tf)) ∧
  Z.of_nat (cancel_pend s) = Z.b2z (cf_initiated_ cf && negb (cf_done_ cf)) ∧
  (waiting s = true → tf_initiated_ tf = true) ∧
  (cancelling s = true → cf_initiated_ cf = true) ∧
  (tf_done_ tf = true → tf_initiated_ tf = true) ∧
  (cf_done_ cf = true → cf_initiated_ cf = true).

Definition timer_inv (s : timer_sys) (c : cell R timer_impl) : Prop :=
  0 < sq_entries (io_ring_ (frame (world c))) ∧
  match object c with
  | None => refs s = 0
  | Some t => use_count t = refs s ∧ 0 < refs s ∧ timer_flags s t
  end.
End Timer.

(** ** Lemmas *)
#[export] Instance timer_ref_count_laws : RefCountLaws timer_impl.
Proof. by split. Qed.

Section TimerLemmas.
Context {R : Type} {HU : IoUring R} {HUL : IoUringLaws R}.
Variable self : ptr.
Implicit Types (w : ctx R) (t : timer_impl).

(** [wp_release] when the destructor has nothing to do. *)
Lemma wp_timer_release w t (Q : unit → cell R timer_impl → Prop) :
  (use_count t ≠ 1 → Q tt (Cell w (Some (upd_count Z.pred t)))) →
  (use_count t = 1 → Q tt (Cell w None)) →
  wp intrusive_ptr_release (Cell w (Some t)) Q.
Proof. intros H1 H2. by eapply wp_release. Qed.

Lemma wp_timer_awaitable_dtor w t (Q : unit → cell R timer_impl → Prop) :
  0 < sq_entries (io_ring_ (frame w)) →
  (∀ w' qs, queued qs w w' →
     qs = (if tf_initiated_ (tm_timeout t) && negb (tf_done_ (tm_timeout t))
           then [cancel_sqe self FkTimer] else []) →
     (use_count t ≠ 1 → Q tt (Cell w' (Some (upd_count Z.pred t)))) ∧
     (use_count t = 1 → Q tt (Cell w' None))) →
  wp (timer_awaitable_dtor self) (Cell w (Some t)) Q.
Proof.
  intros He HQ. unfold timer_awaitable_dtor. cell_steps. apply wp_when; intros E; rewrite E in HQ.
  - cell_steps. apply wp_queue_any; [done|]. intros w1 Hq1. cell_steps. apply wp_submit. intros w2 Hq2.
    apply wp_timer_release; eapply HQ; try done; eapply (queued_trans [_] []); eauto.
  - apply wp_timer_release; eapply HQ; try done; apply queued_refl.
Qed.

Definition in_flight t : bool := tf_initiated_ (tm_timeout t) && negb (tf_done_ (tm_timeout t)).

(** What a refused wait leaves behind: the frame has the new timespec, and the
    destructor of the awaitable has cancelled the wait that is in flight. *)
Definition wait_refused w t ts (e : exn) (c : cell R timer_impl) : Prop :=
  e = system_error EBUSY ∧
  ∃ w' t', c = Cell w' (Some t') ∧ use_count t' = use_count t ∧ tm_cancel t' = tm_cancel t ∧
    tm_timeout t' = tm_timeout t <| tf_ts_ := ts |> ∧
    queued (if in_flight t then [cancel_sqe self FkTimer] else []) w w'.

Lemma async_wait_busy w t ts h : 0 < sq_entries (io_ring_ (frame w)) → 0 < use_count t →
  tf_initiated_ (tm_timeout t) = true →
  wpx (async_wait self ts h) (Cell w (Some t)) (λ _ _, False) (wait_refused w t ts).
Proof.
  intros He Hc Hi. unfold async_wait, timer_awaitable_new.
  apply wpx_bind, wpx_wp. cell_steps. apply wpx_on_throw.
  unfold timer_await_ready. apply wpx_bind, wpx_bind, wpx_wp. cell_steps. cbn. rewrite Hi.
  apply wpx_bind, wpx_throw_errno; [done|]. apply wp_timer_awaitable_dtor; [done|].
  intros w' qs Hq Eq. cbn in Eq, Hc. fold (in_flight t) in Eq. cbn. subst qs. split; [intros _|lia].
  split; [done|]. eexists w', _. split_and!; [done| |done|done|done]. cbn. lia.
Qed.

Lemma async_wait_idle w t ts h : 0 < sq_entries (io_ring_ (frame w)) →
  tf_initiated_ (tm_timeout t) = false →
  wp (async_wait self ts h) (Cell w (Some t)) (λ _ c, ∃ w' t',
    c = Cell w' (Some t') ∧ use_count t' = use_count t + 2 ∧ tm_cancel t' = tm_cancel t ∧
    tm_timeout t' = TimeoutFrame (tf_ec_ (tm_timeout t)) ts (Some h) true (tf_done_ (tm_timeout t)) ∧
    queued [Sqe (op_timeout self 0) (Some (self, FkTimer)) 0] w w').
Proof.
  intros He Hi. unfold async_wait, timer_awaitable_new. cell_steps.
  apply wp_on_throw_ret. unfold timer_await_ready, timer_await_suspend. cell_steps. cbn. rewrite Hi. cell_steps.
  cbn. rewrite ?Hi. cell_steps. apply wp_queue_any; [done|]. intros w' Hq. cell_steps.
  eexists w', _. split_and!; [done| |done|done|done]. cbn. lia.
Qed.

(** The event loop hands over a completion of the wait: done, with the error. *)
Lemma wp_timeout_dispatch w t e (Q : option handle → cell R timer_impl → Prop) :
  0 < use_count t →
  (∀ t', use_count t' = use_count t - 1 → tm_cancel t' = tm_cancel t →
     tm_timeout t' = tm_timeout t <| tf_done_ := true |> <| tf_h_ := None |>
       <| tf_ec_ := if (cqe_res e =? 0) || (cqe_res e =? - ETIME) then tf_ec_ (tm_timeout t)
                    else - cqe_res e |> →
     Q (tf_h_ (tm_timeout t)) (Cell w (if decide (use_count t = 1) then None else Some t'))) →
  wp (dispatch FkTimer e) (Cell w (Some t)) Q.
Proof.
  intros Hc HQ. cbn in Hc, HQ. unfold dispatch. apply wp_finally_ret.
  cell_steps. apply wp_assert; [by apply Z.leb_le; cbn; lia|].
  cbn [await_process_cqe take_handle timer_awaitable_base]. unfold timeout_process_cqe, timeout_handle. cell_steps.
  assert (∀ t1, use_count t1 = use_count t → tm_cancel t1 = tm_cancel t →
     tm_timeout t1 = tm_timeout t <| tf_done_ := true |>
       <| tf_ec_ := if (cqe_res e =? 0) || (cqe_res e =? - ETIME) then tf_ec_ (tm_timeout t)
                    else - cqe_res e |> →
     wp (t ← this; upd_this (upd_timeout (λ f, f <| tf_h_ := None |>)) ;; mret (tf_h_ (tm_timeout t)))
       (Cell w (Some t1)) (λ a s', wp intrusive_ptr_release s' (λ _ s'', Q a s''))) as Hh.
  { intros t1 E1 E2 E3. cbn in E1. cell_steps. apply wp_timer_release; intros E; cbn in E; rewrite E1 in E.
    - specialize (HQ (upd_count Z.pred (upd_timeout (λ f, f <| tf_h_ := None |>) t1))).
      rewrite decide_False in HQ by done. rewrite E3. apply HQ; cbn; [lia|done|by rewrite E3].
    - specialize (HQ (upd_count Z.pred (upd_timeout (λ f, f <| tf_h_ := None |>) t1))).
      rewrite decide_True in HQ by done. rewrite E3. apply HQ; cbn; [lia|done|by rewrite E3]. }
  apply wp_when; intros E.
  - bool_simp. apply wp_bind, wp_from_errno; [done|]. cell_steps. apply Hh; [done|done|]. cbn.
    by rewrite (proj2 (Z.eqb_neq _ _)), (proj2 (Z.eqb_neq (cqe_res e) _)) by lia.
  - cell_steps. apply Hh; [done|done|]. cbn.
    destruct (Z.eqb_spec (cqe_res e) 0); [by destruct t as [? []]|].
    destruct (Z.eqb_spec (cqe_res e) (- ETIME)) as [E'|]; [by destruct t as [? []]|].
    apply andb_false_iff in E as [E|E]; bool_simp; lia.
Qed.

Lemma wp_cancel_dispatch w t e (Q : option handle → cell R timer_impl → Prop) :
  0 < use_count t →
  (∀ t', use_count t' = use_count t - 1 → tm_timeout t' = tm_timeout t →
     tm_cancel t' = tm_cancel t <| cf_done_ := true |> <| cf_h_ := None |>
       <| cf_ec_ := if cqe_res e <? 0 then - cqe_res e else cf_ec_ (tm_cancel t) |> →
     Q (cf_h_ (tm_cancel t)) (Cell w (if decide (use_count t = 1) then None else Some t'))) →
  wp (dispatch FkTimerCancel e) (Cell w (Some t)) Q.
Proof.
  intros Hc HQ. cbn in Hc, HQ. unfold dispatch. apply wp_finally_ret.
  cell_steps. apply wp_assert; [by apply Z.leb_le; cbn; lia|].
  cbn [await_process_cqe take_handle timer_awaitable_base]. unfold cancel_process_cqe, cancel_handle. cell_steps.
  assert (∀ t1, use_count t1 = use_count t → tm_timeout t1 = tm_timeout t →
     tm_cancel t1 = tm_cancel t <| cf_done_ := true |>
       <| cf_ec_ := if cqe_res e <? 0 then - cqe_res e else cf_ec_ (tm_cancel t) |> →
     wp (t ← this; upd_this (upd_cancel (λ f, f <| cf_h_ := None |>)) ;; mret (cf_h_ (tm_cancel t)))
       (Cell w (Some t1)) (λ a s', wp intrusive_ptr_release s' (λ _ s'', Q a s''))) as Hh.
  { intros t1 E1 E2 E3. cbn in E1. cell_steps. apply wp_timer_release; intros E; cbn in E; rewrite E1 in E;
      specialize (HQ (upd_count Z.pred (upd_cancel (λ f, f <| cf_h_ := None |>) t1)));
      [rewrite decide_False in HQ by done|rewrite decide_True in HQ by done];
      rewrite E3; (apply HQ; cbn; [lia|done|by rewrite E3]). }
  apply wp_when; intros E; rewrite E in Hh; bool_simp.
  - apply wp_bind, wp_from_errno; [lia|]. cell_steps. by apply Hh.
  - cell_steps. apply Hh; [done|done|]. by destruct t as [? ? []].
Qed.

Lemma wp_async_wait_finish w t (Q : result unit → cell R timer_impl → Prop) :
  0 < sq_entries (io_ring_ (frame w)) →
  (∀ w' t', queued [] w w' → use_count t' = use_count t - 1 → tm_cancel t' = tm_cancel t →
     tm_timeout t' = timeout_reset (tm_timeout t) →
     Q (if negb (tf_ec_ (tm_timeout t) =? 0) then Err (tf_ec_ (tm_timeout t)) else Ok tt)
       (Cell w' (if decide (use_count t = 1) then None else Some t'))) →
  wp (async_wait_finish self) (Cell w (Some t)) Q.
Proof.
  intros He HQ. cbn in HQ. unfold async_wait_finish, timer_await_resume. apply wp_finally_ret. cell_steps.
  apply wp_timer_awaitable_dtor; [done|]. intros w' qs Hq ->. cbn in *.
  specialize (HQ w' (upd_count Z.pred (upd_timeout timeout_reset t)) Hq).
  split; intros E; [rewrite decide_False in HQ by done|rewrite decide_True in HQ by done]; apply HQ; cbn; try done; lia.
Qed.

Lemma timer_async_cancel_busy w t h : 0 < use_count t → cf_initiated_ (tm_cancel t) = true →
  wpx (timer_async_cancel self h) (Cell w (Some t)) (λ _ _, False)
    (λ e c, e = system_error EBUSY ∧ ∃ t', c = Cell w (Some t') ∧ use_count t' = use_count t ∧
       tm_cancel t' = tm_cancel t ∧ tm_timeout t' = tm_timeout t).
Proof.
  intros Hc Hi. cbn in Hc. unfold timer_async_cancel. apply wpx_bind, wpx_wp. cell_steps.
  apply wpx_on_throw. unfold timer_cancel_await_ready. apply wpx_bind, wpx_bind, wpx_wp. cell_steps. cbn. rewrite Hi.
  apply wpx_bind, wpx_throw_errno; [done|]. apply wp_timer_release; cbn; intros E; [|lia].
  split; [done|]. eexists. split_and!; [done|cbn; lia|done|done].
Qed.

Lemma timer_async_cancel_idle w t h : 0 < sq_entries (io_ring_ (frame w)) →
  cf_initiated_ (tm_cancel t) = false →
  wp (timer_async_cancel self h) (Cell w (Some t)) (λ _ c, ∃ w' t',
    c = Cell w' (Some t') ∧ use_count t' = use_count t + 2 ∧ tm_timeout t' = tm_timeout t ∧
    tm_cancel t' = CancelFrame (cf_ec_ (tm_cancel t)) (Some h) true (cf_done_ (tm_cancel t)) ∧
    queued [Sqe (op_cancel (Some (self, FkTimer))) (Some (self, FkTimerCancel)) 0] w w').
Proof.
  intros He Hi. unfold timer_async_cancel. cell_steps. apply wp_on_throw_ret.
  unfold timer_cancel_await_ready, timer_cancel_await_suspend. cell_steps. cbn. rewrite Hi. cell_steps.
  cbn. rewrite ?Hi. cell_steps. apply wp_queue_any; [done|]. intros w' Hq. cell_steps.
  eexists w', _. split_and!; [done|cbn; lia|done|done|done].
Qed.

Lemma wp_timer_cancel_finish w t (Q : result unit → cell R timer_impl → Prop) :
  cf_initiated_ (tm_cancel t) = true → cf_done_ (tm_cancel t) = true →
  (∀ t', use_count t' = use_count t - 1 → tm_timeout t' = tm_timeout t →
     tm_cancel t' = cancel_reset (tm_cancel t) →
     Q (if negb (cf_ec_ (tm_cancel t) =? 0) then Err (cf_ec_ (tm_cancel t)) else Ok tt)
       (Cell w (if decide (use_count t = 1) then None else Some t'))) →
  wp timer_cancel_finish (Cell w (Some t)) Q.
Proof.
  intros Hi Hd HQ. cbn in HQ. unfold timer_cancel_finish, timer_cancel_await_resume. apply wp_finally_ret.
  cell_steps. rewrite Hi, Hd. cbn [negb orb]. cell_steps.
  specialize (HQ (upd_count Z.pred (upd_cancel cancel_reset t))).
  apply wp_timer_release; cbn; intros E; [rewrite decide_False in HQ by done|rewrite decide_True in HQ by done];
    apply HQ; cbn; try done; lia.
Qed.

(** Solve an invariant goal for a known new state of the object. *)
Ltac timer_inv_solve :=
  unfold timer_inv, timer_flags, refs in *; cbn in *;
  repeat match goal with
  | |- context [decide ?P] => destruct (decide P); cbn in *
  | H : tm_timeout _ = _ |- _ => rewrite H in *; clear H; cbn in *
  | H : tm_cancel _ = _ |- _ => rewrite H in *; clear H; cbn in *
  end;
  repeat match goal with H : queued _ _ _ |- _ => apply queued_entries in H end;
  split_and!; lia.

Lemma run_timer_op_inv op s c : timer_inv s c → wp (run_timer_op self op s) c (λ s' c', timer_inv s' c').
Proof.
  destruct c as [w [t|]]; intros Hi; apply wp_bind, wp_get; [|by destruct op; apply wp_ret].
  pose proof Hi as (He & Hc & Hr & Hf). cbn in He. cbn [world object].
  assert (0 < use_count t) as Hpos by lia.
  destruct op as [| |ts h| | |h| |res|res].
  - case_decide; [by apply wp_ret|]. cell_steps. timer_inv_solve.
  - case_decide; [by apply wp_ret|]. cell_steps. apply wp_timer_release; intros E; cell_steps; timer_inv_solve.
  - case_decide; [by apply wp_ret|]. apply wp_bind, wp_attempt.
    destruct (tf_initiated_ (tm_timeout t)) eqn:Ei.
    + eapply wpx_mono; [by apply async_wait_busy|done|].
      intros e c (-> & w' & t' & -> & Hc' & Hcf & Htf & Hq). apply wp_ret. timer_inv_solve.
    + apply wpx_wp. eapply wp_mono; [by apply async_wait_idle|].
      intros [] c (w' & t' & -> & Hc' & Hcf & Htf & Hq). apply wp_ret. timer_inv_solve.
  - destruct (waiting s && _) eqn:E; [|by apply wp_ret]. apply wp_bind, wp_async_wait_finish; [done|].
    intros w' t' Hq Hc' Hcf Htf. apply wp_ret. timer_inv_solve.
  - destruct (waiting s) eqn:E; [|by apply wp_ret]. apply wp_bind, wp_timer_awaitable_dtor; [done|].
    intros w' qs Hq _. split; intros E1; apply wp_ret; timer_inv_solve.
  - case_decide; [by apply wp_ret|]. apply wp_bind, wp_attempt.
    destruct (cf_initiated_ (tm_cancel t)) eqn:Ei.
    + eapply wpx_mono; [by apply timer_async_cancel_busy|done|].
      intros e c (-> & t' & -> & Hc' & Hcf & Htf). apply wp_ret. timer_inv_solve.
    + apply wpx_wp. eapply wp_mono; [by apply timer_async_cancel_idle|].
      intros [] c (w' & t' & -> & Hc' & Htf & Hcf & Hq). apply wp_ret. timer_inv_solve.
  - destruct (cancelling s && _) eqn:E; [|by apply wp_ret]. apply andb_true_iff in E as [E1 E2].
    apply wp_bind, wp_timer_cancel_finish; [by apply Hf|done|].
    intros t' Hc' Htf Hcf. apply wp_ret. timer_inv_solve.
  - case_decide; [by apply wp_ret|]. apply wp_bind, wp_timeout_dispatch; [done|].
    intros t' Hc' Hcf Htf. apply wp_ret. timer_inv_solve.
  - case_decide; [by apply wp_ret|]. apply wp_bind, wp_cancel_dispatch; [done|].
    intros t' Hc' Htf Hcf. apply wp_ret. timer_inv_solve.
Qed.

(** C18. A timer is never used after it is deleted and is deleted with its last
    reference: along any sequence of copies, destructions, waits, cancellations,
    resumptions and completions no step faults, the counter is the number of
    handles, awaitables and operations in flight, and the flags of the two frames
    tell exactly which operations are in flight. *)
Theorem timer_ops_safe ops s c : timer_inv s c →
  ∃ s' c', run_timer_ops self ops s c = (Ret s', c') ∧ timer_inv s' c'.
Proof.
  intros Hi. apply wp_run, wp_foldl_inv; [|done]. intros op s' c'. apply run_timer_op_inv.
Qed.

(** C25. A wait that runs to its completion resumes the coroutine that started it
    and yields success when the timer expired (-ETIME or 0) and the completion's
    error otherwise; afterwards the timer is idle again, with the references it
    had. *)
Theorem wait_round_result w t ts h res :
  0 < sq_entries (io_ring_ (frame w)) → 0 < use_count t →
  tf_initiated_ (tm_timeout t) = false → tf_ec_ (tm_timeout t) = 0 →
  ∃ w' t', wait_round self ts h res (Cell w (Some t)) =
      (Ret (Some h, if (res =? 0) || (res =? - ETIME) then Ok tt else Err (- res)),
       Cell w' (Some t')) ∧
    queued [Sqe (op_timeout self 0) (Some (self, FkTimer)) 0] w w' ∧
    use_count t' = use_count t ∧ tm_cancel t' = tm_cancel t ∧
    tm_timeout t' = timeout_reset (tm_timeout t).
Proof.
  intros He Hc Hi Hec.
  assert (wp (wait_round self ts h res) (Cell w (Some t)) (λ r c, ∃ w' t',
    r = (Some h, if (res =? 0) || (res =? - ETIME) then Ok tt else Err (- res)) ∧
    c = Cell w' (Some t') ∧ queued [Sqe (op_timeout self 0) (Some (self, FkTimer)) 0] w w' ∧
    use_count t' = use_count t ∧ tm_cancel t' = tm_cancel t ∧
    tm_timeout t' = timeout_reset (tm_timeout t))) as Hw.
  2:{ apply wp_run in Hw as ([k r] & c & E & w' & t' & Er & -> & H). exists w', t'. by rewrite E, Er. }
  unfold wait_round. apply wp_bind. eapply wp_mono; [by apply async_wait_idle|].
  intros [] c (w1 & t1 & -> & Hc1 & Hcf1 & Htf1 & Hq1).
  apply wp_bind, wp_timeout_dispatch; [lia|]. intros t2 Hc2 Hcf2 Htf2. rewrite Htf1 in Htf2 |- *. cbn in Htf2 |- *.
  rewrite decide_False by (cbn in *; lia).
  apply wp_bind, wp_async_wait_finish; [by rewrite (queued_entries _ _ _ Hq1)|].
  intros w3 t3 Hq3 Hc3 Hcf3 Htf3. rewrite decide_False by (cbn in *; lia). apply wp_ret.
  exists w3, t3. rewrite Htf2. cbn. rewrite Hec. split_and!; [|done| | | |].
  - f_equal. destruct (res =? 0) eqn:E0, (res =? - ETIME) eqn:E1; try done. bool_simp. cbn.
    destruct (Z.eqb_spec (- res) 0); [lia|done].
  - by apply (queued_trans [_] [] w w1 w3).
  - cbn in *; lia.
  - congruence.
  - by rewrite Htf3, Htf2.
Qed.

(** A wait on a timer whose wait is still in flight throws EBUSY; but the
    awaitable it leaves behind cancels the wait in flight, whose timespec it has
    already replaced. *)
Lemma busy_wait_cancels w t ts h :
  0 < sq_entries (io_ring_ (frame w)) → 0 < use_count t →
  tf_initiated_ (tm_timeout t) = true → tf_done_ (tm_timeout t) = false →
  ∃ w' t', async_wait self ts h (Cell w (Some t)) = (Throw (system_error EBUSY), Cell w' (Some t')) ∧
    queued [cancel_sqe self FkTimer] w w' ∧ tf_ts_ (tm_timeout t') = ts.
Proof.
  intros He Hc Hi Hd. pose proof (async_wait_busy w t ts h He Hc Hi) as H. unfold wpx in H.
  destruct (async_wait _ _ _ _) as [[a|e|f] c]; [done| |done].
  destruct H as (-> & w' & t' & -> & _ & _ & Htf & Hq). unfold in_flight in Hq. rewrite Hi, Hd in Hq.
  exists w', t'. by rewrite Htf.
Qed.
End TimerLemmas.
