(* ===== verification/Stream.v ===== *)
(** [src/detail/stream_impl.hpp] and the streams of [src/tcp.cpp]: the object
    behind [tcp::stream] and [tcp::client], with a frame per operation.

    A [client_impl] is a [stream_impl] with a derived part.  Handles and
    awaitables count as references; [buffers_] lives in the heap of buffers, and
    [p_buf_ring_] is the id of the group it points to, whose node is stable. *)

From S2P Require Import Prelude Uring Buffer Frame BufRing Executor Awaitable Duration.

(** ** State *)

Definition cancel_frame : Type := op_frame.
Definition close_frame : Type := op_frame.
Definition socket_frame : Type := op_frame.
Definition connect_frame : Type := op_frame.

Record shutdown_frame := ShutdownFrame { sh_op : op_frame; how_ : Z }.
#[export] Instance eta_shutdown_frame : Eta shutdown_frame := λ f, ShutdownFrame (sh_op f) (how_ f).

Record send_frame := SendFrame { sd_op : op_frame; last_send_ : Z }.
#[export] Instance eta_send_frame : Eta send_frame := λ f, SendFrame (sd_op f) (last_send_ f).

(** [ec_] is 0 when clear. *)
Record recv_frame := RecvFrame {
  buffers_ : recv_buffer_sequence; ec_ : Z; p_buf_ring_ : option Z; rf_h_ : option handle;
  last_recv_ : Z; buffer_group_id_ : Z; rf_initiated_ : bool }.
#[export] Instance eta_recv_frame : Eta recv_frame := λ f,
  RecvFrame (buffers_ f) (ec_ f) (p_buf_ring_ f) (rf_h_ f) (last_recv_ f) (buffer_group_id_ f) (rf_initiated_ f).

Record timeout_frame := TimeoutFrame { to_initiated_ : bool; to_cancelled_ : bool }.
#[export] Instance eta_timeout_frame : Eta timeout_frame := λ f, TimeoutFrame (to_initiated_ f) (to_cancelled_ f).

Record timeout_cancel_frame := TimeoutCancelFrame { tc_res_ : Z; tc_initiated_ : bool }.
#[export] Instance eta_timeout_cancel_frame : Eta timeout_cancel_frame :=
  λ f, TimeoutCancelFrame (tc_res_ f) (tc_initiated_ f).

(** A [sockaddr_storage]: its family, and the rest of it. *)
Record sockaddr := Sockaddr { sa_family : Z; sa_data : list Z }.
Definition AF_INET : Z := 2.
Definition AF_INET6 : Z := 10.

Record client_part := ClientPart {
  cl_socket : socket_frame; cl_connect : connect_frame; addr_storage_ : sockaddr }.
#[export] Instance eta_client_part : Eta client_part :=
  λ c, ClientPart (cl_socket c) (cl_connect c) (addr_storage_ c).

Record stream_impl := StreamImpl {
  st_count_ : Z;
  st_cancel : cancel_frame; st_close : close_frame; st_shutdown : shutdown_frame;
  st_send : send_frame; st_recv : recv_frame;
  st_timeout : timeout_frame; st_timeout_cancel : timeout_cancel_frame;
  ts_ : kernel_timespec; fd_ : Z; connected_ : bool; stream_cancelled_ : bool;
  st_client : option client_part }.
#[export] Instance eta_stream_impl : Eta stream_impl := λ s,
  StreamImpl (st_count_ s) (st_cancel s) (st_close s) (st_shutdown s) (st_send s) (st_recv s)
    (st_timeout s) (st_timeout_cancel s) (ts_ s) (fd_ s) (connected_ s) (stream_cancelled_ s)
    (st_client s).

#[export] Instance stream_ref_count : RefCount stream_impl := {|
  use_count := st_count_;
  upd_count f s := s <| st_count_ ::= f |> |}.
#[export] Instance stream_ref_count_laws : RefCountLaws stream_impl.
Proof. by split. Qed.

Definition upd_recv (f : recv_frame → recv_frame) (s : stream_impl) : stream_impl := s <| st_recv ::= f |>.
Definition upd_send (f : op_frame → op_frame) (s : stream_impl) : stream_impl :=
  s <| st_send ::= λ d, d <| sd_op ::= f |> |>.
Definition upd_shutdown (f : op_frame → op_frame) (s : stream_impl) : stream_impl :=
  s <| st_shutdown ::= λ d, d <| sh_op ::= f |> |>.
Definition upd_socket (f : op_frame → op_frame) (s : stream_impl) : stream_impl :=
  s <| st_client ::= fmap (λ c, c <| cl_socket ::= f |>) |>.
Definition upd_connect (f : op_frame → op_frame) (s : stream_impl) : stream_impl :=
  s <| st_client ::= fmap (λ c, c <| cl_connect ::= f |>) |>.

(** ** The frames' simple members *)

Definition shutdown_reset (f : shutdown_frame) : shutdown_frame :=
  f <| sh_op ::= op_reset |> <| how_ := 0 |>.
Definition shutdown_process_cqe (e : cqe) (f : shutdown_frame) : shutdown_frame :=
  f <| sh_op ::= op_process_cqe e |>.
Definition shutdown_is_active (f : shutdown_frame) : bool := op_is_active (sh_op f).

Definition send_reset (f : send_frame) : send_frame := f <| sd_op ::= op_reset |>.
Definition send_is_active (f : send_frame) : bool := op_is_active (sd_op f).

Definition recv_is_active (f : recv_frame) : bool := rf_initiated_ f.
Definition timeout_reset (f : timeout_frame) : timeout_frame :=
  f <| to_initiated_ := false |> <| to_cancelled_ := false |>.
Definition timeout_is_active (f : timeout_frame) : bool := to_initiated_ f.
Definition timeout_cancel_is_active (f : timeout_cancel_frame) : bool := tc_initiated_ f.
Definition timeout_cancel_process_cqe (e : cqe) (f : timeout_cancel_frame) : timeout_cancel_frame :=
  f <| tc_initiated_ := false |> <| tc_res_ := cqe_res e |>.

Section Frames.
Context {R : Type} {HU : IoUring R} {HB : IoUringBufs R} {HS : UnorderedBegin}.
(** The address of the object. *)
Variable self : ptr.

Local Abbreviation SM := (M (cell R stream_impl)).

(** ** Completions *)

Definition close_process_cqe (e : cqe) : SM unit :=
  upd_this (λ s, s <| st_close ::= op_process_cqe e |>) ;;
  s ← this;
  on_world (release_fd (fd_ s)) ;;
  upd_this (λ s, s <| fd_ := -1 |> <| connected_ := false |>).

Definition send_process_cqe (e : cqe) : SM unit :=
  upd_this (upd_send (op_process_cqe e)) ;;
  when (cqe_res e <? 0) (upd_this (λ s, s <| connected_ := false |>)).

(** [buffers_.push_back( buf )]. *)
Definition buffers_push_back (buf : ptr) : SM unit :=
  s ← this;
  q ← on_world (on_heap (push_back (buffers_ (st_recv s)) buf));
  upd_this (upd_recv (λ f, f <| buffers_ := q |>)).

(** [take_buf] on the ring [p_buf_ring_] points to. *)
Definition take_ring_buf (buffer_id : nat) (len : Z) : SM ptr :=
  s ← this;
  match p_buf_ring_ (st_recv s) with
  | None => fail NullDeref
  | Some bgid =>
      br ← on_world (get_buffer_group bgid);
      match br with
      | None => fail UseAfterFree
      | Some br =>
          '(b, br') ← on_world (take_buf br buffer_id len);
          on_world (set_buffer_group bgid br') ;;
          mret b
      end
  end.

Definition recv_process_cqe (e : cqe) : SM unit :=
  s ← this;
  let more := flag_set (cqe_flags e) IORING_CQE_F_MORE in
  let cancelled_by_timer := (cqe_res e =? - ECANCELED) && negb (stream_cancelled_ s) in
  when (cqe_res e <? 0)
    (assert (negb more) ;;
     assert (ec_ (st_recv s) =? 0) ;;
     ec ← (if cancelled_by_timer then from_errno ETIMEDOUT else from_errno (- cqe_res e));
     upd_this (upd_recv (λ f, f <| ec_ := ec |>))) ;;
  when (cqe_res e =? 0)
    (assert (negb more) ;;
     assert (negb (flag_set (cqe_flags e) IORING_CQE_F_BUFFER)) ;;
     buf ← on_world (on_heap (recv_buffer_new 0));
     buffers_push_back buf) ;;
  when (0 <? cqe_res e)
    (assert (flag_set (cqe_flags e) IORING_CQE_F_BUFFER) ;;
     t ← on_world now;
     upd_this (upd_recv (λ f, f <| last_recv_ := t |>)) ;;
     buffer ← take_ring_buf (Z.to_nat (Z.shiftr (cqe_flags e) IORING_CQE_BUFFER_SHIFT)) (cqe_res e);
     buffers_push_back buffer) ;;
  (if more then
     intrusive_ptr_add_ref ;;
     upd_this (upd_recv (λ f, f <| rf_initiated_ := true |>))
   else upd_this (upd_recv (λ f, f <| rf_initiated_ := false |>))).

Definition schedule_recv : SM unit :=
  s ← this;
  on_world (queue_one (Sqe
    (op_recv_multishot (fd_ s) (buffer_group_id_ (st_recv s) `mod` 2 ^ 16) IORING_RECVSEND_POLL_FIRST)
    (Some (self, FkRecv)) (Z.lor IOSQE_FIXED_FILE IOSQE_BUFFER_SELECT))) ;;
  t ← on_world now;
  upd_this (upd_recv (λ f, f <| rf_initiated_ := true |> <| last_recv_ := t |>)) ;;
  intrusive_ptr_add_ref.

(** The multishot timeout of the stream. *)
Definition timeout_sqe : sqe :=
  Sqe (op_timeout self IORING_TIMEOUT_MULTISHOT) (Some (self, FkTimeout)) 0.

Definition cancel_fd_sqe (fd : Z) (data : user_data) (flags : Z) : sqe :=
  Sqe (op_cancel_fd fd (Z.lor IORING_ASYNC_CANCEL_ALL IORING_ASYNC_CANCEL_FD_FIXED)) data flags.

Definition timeout_process_cqe (e : cqe) : SM unit :=
  s ← this;
  if (cqe_res e =? - ECANCELED) && to_cancelled_ (st_timeout s) then
    upd_this (λ s, s <| st_timeout ::= timeout_reset |>)
  else if cqe_res e =? - ECANCELED then
    on_world (queue_one timeout_sqe) ;;
    upd_this (λ s, s <| st_timeout ::= λ f, f <| to_initiated_ := true |> |>) ;;
    intrusive_ptr_add_ref
  else if negb (cqe_res e =? - ETIME) && negb (cqe_res e =? 0) then
    fail AssertFailed
  else
    t ← on_world now;
    let max_diff := timespec_ns (ts_ s) in
    let recv_expired := recv_is_active (st_recv s) && (max_diff <=? t - last_recv_ (st_recv s)) in
    let send_expired := send_is_active (st_send s) && (max_diff <=? t - last_send_ (st_send s)) in
    when (recv_expired || send_expired)
      (assert (0 <=? fd_ s) ;;
       on_world (queue_one (cancel_fd_sqe (fd_ s) (Some (self, FkTimeoutCancel)) 0)) ;;
       intrusive_ptr_add_ref ;;
       upd_this (λ s, s <| st_timeout_cancel ::= λ f, f <| tc_initiated_ := true |> |>)) ;;
    when (negb (flag_set (cqe_flags e) IORING_CQE_F_MORE))
      (on_world (queue_one timeout_sqe) ;;
       upd_this (λ s, s <| st_timeout ::= λ f, f <| to_initiated_ := true |> |>)) ;;
    intrusive_ptr_add_ref.

Definition socket_process_cqe (e : cqe) : SM unit :=
  upd_this (upd_socket (λ f, f <| done_ := true |>)) ;;
  when (cqe_res e <? 0)
    (upd_this (upd_socket (λ f, f <| res_ := cqe_res e |>)) ;;
     s ← this;
     on_world (release_fd (fd_ s)) ;;
     upd_this (λ s, s <| fd_ := -1 |>)).

Definition connect_process_cqe (e : cqe) : SM unit :=
  upd_this (upd_connect (λ f, f <| done_ := true |>)) ;;
  if cqe_res e <? 0 then
    upd_this (upd_connect (λ f, f <| res_ := cqe_res e |>)) ;;
    when (negb (cqe_res e =? - EISCONN)) (upd_this (λ s, s <| connected_ := false |>))
  else upd_this (λ s, s <| connected_ := true |>).

(** ** Handles *)

Definition recv_handle (f : recv_frame) : option handle * recv_frame := (rf_h_ f, f <| rf_h_ := None |>).

(** A successful socket operation resumes nobody. *)
Definition socket_handle (f : socket_frame) : option handle * socket_frame :=
  if res_ f <? 0 then op_handle f else (None, f).

(** [handle()] of the frame that [get] reads and [put] writes. *)
Definition exchange_h {F} (read : stream_impl → F) (write : F → stream_impl → stream_impl)
    (hd : F → option handle * F) : SM (option handle) :=
  s ← this;
  let '(h, f) := hd (read s) in
  upd_this (write f) ;;
  mret h.

Definition get_client : SM client_part :=
  s ← this;
  match st_client s with Some c => mret c | None => fail WrongClass end.

Definition stream_handle (k : frame_kind) : SM (option handle) :=
  match k with
  | FkCancel => exchange_h st_cancel (λ f s, s <| st_cancel := f |>) op_handle
  | FkClose => exchange_h st_close (λ f s, s <| st_close := f |>) op_handle
  | FkShutdown => exchange_h (λ s, sh_op (st_shutdown s)) (λ f, upd_shutdown (λ _, f)) op_handle
  | FkSend => exchange_h (λ s, sd_op (st_send s)) (λ f, upd_send (λ _, f)) op_handle
  | FkRecv => exchange_h st_recv (λ f s, s <| st_recv := f |>) recv_handle
  | FkTimeout | FkTimeoutCancel => mret None
  | FkSocket =>
      c ← get_client;
      exchange_h (λ _, cl_socket c) (λ f, upd_socket (λ _, f)) socket_handle
  | FkConnect =>
      c ← get_client;
      exchange_h (λ _, cl_connect c) (λ f, upd_connect (λ _, f)) op_handle
  | _ => fail WrongClass
  end.

Definition stream_process_cqe (k : frame_kind) (e : cqe) : SM unit :=
  match k with
  | FkCancel => upd_this (λ s, s <| st_cancel ::= op_process_cqe e |>)
  | FkClose => close_process_cqe e
  | FkShutdown => upd_this (λ s, s <| st_shutdown ::= shutdown_process_cqe e |>)
  | FkSend => send_process_cqe e
  | FkRecv => recv_process_cqe e
  | FkTimeout => timeout_process_cqe e
  | FkTimeoutCancel => upd_this (λ s, s <| st_timeout_cancel ::= timeout_cancel_process_cqe e |>)
  | FkSocket => _ ← get_client; socket_process_cqe e
  | FkConnect => _ ← get_client; connect_process_cqe e
  | _ => fail WrongClass
  end.

(** ** [~stream_impl], then the destructor of [buffers_] *)
Definition close_direct_sqe (fd : Z) : sqe :=
  Sqe (op_close_direct (to_unsigned fd)) None IOSQE_CQE_SKIP_SUCCESS.

Definition stream_impl_dtor (s : stream_impl) : M (ctx R) unit :=
  when (0 <=? fd_ s)
    (queue_any (close_direct_sqe (fd_ s)) ;;
     submit ;;
     release_fd (fd_ s)) ;;
  on_heap (sequence_dtor (buffers_ (st_recv s))).

#[export] Instance stream_awaitable_base : AwaitableBase R stream_impl := {|
  destructor := stream_impl_dtor;
  await_process_cqe := stream_process_cqe;
  take_handle := stream_handle |}.

(** ** Construction

    [stream_impl( ex )] in a fresh cell, with the reference of its timer. *)
Definition stream_impl_new (derived : option client_part) : SM unit :=
  t ← on_world now;
  q ← on_world (on_heap sequence_new);
  modify (λ c, c <| object := Some (StreamImpl 0
    op_frame_new op_frame_new (ShutdownFrame op_frame_new 0) (SendFrame op_frame_new t)
    (RecvFrame q 0 None None t (-1) false) (TimeoutFrame false false) (TimeoutCancelFrame 0 false)
    (Ts 3 0) (-1) false false derived) |>) ;;
  on_world (queue_one timeout_sqe) ;;
  upd_this (λ s, s <| st_timeout ::= λ f, f <| to_initiated_ := true |> |>) ;;
  intrusive_ptr_add_ref.

(** [stream( ex, fd )]: the handle it returns is a reference. *)
Definition stream_new (fd : Z) : SM unit :=
  stream_impl_new None ;;
  upd_this (λ s, s <| fd_ := fd |>) ;;
  intrusive_ptr_add_ref.

Definition client_new : SM unit :=
  stream_impl_new (Some (ClientPart op_frame_new op_frame_new (Sockaddr 0 []))) ;;
  intrusive_ptr_add_ref.

(** ** Handles to a stream *)

Definition stream_timeout (ts : kernel_timespec) : SM unit :=
  upd_this (λ s, s <| ts_ := ts |>) ;;
  on_world (queue_one (Sqe (op_timeout_remove (Some (self, FkTimeout))) None IOSQE_CQE_SKIP_SUCCESS)).

Definition queue_timer_cancel : SM unit :=
  s ← this;
  when (to_initiated_ (st_timeout s))
    (upd_this (λ s, s <| st_timeout ::= λ f, f <| to_cancelled_ := true |> |>) ;;
     on_world (on_ring (push_sqe
       (Sqe (op_timeout_remove (Some (self, FkTimeout))) None IOSQE_CQE_SKIP_SUCCESS)))).

Definition cancel_timer : SM unit :=
  on_world (on_ring (reserve_sqes 1)) ;;
  queue_timer_cancel ;;
  on_world submit.

Definition cancel_recv : SM unit :=
  s ← this;
  when (rf_initiated_ (st_recv s))
    (on_world (queue_one (cancel_sqe self FkRecv)) ;; on_world submit).

(** The operations in flight that [~stream] does not count as handles. *)
Definition stream_active (s : stream_impl) : Z :=
  Z.b2z (op_is_active (st_cancel s)) + Z.b2z (timeout_cancel_is_active (st_timeout_cancel s)) +
  Z.b2z (op_is_active (st_close s)) + Z.b2z (shutdown_is_active (st_shutdown s)) +
  Z.b2z (send_is_active (st_send s)) + Z.b2z (recv_is_active (st_recv s)) +
  Z.b2z (timeout_is_active (st_timeout s)).

Definition client_active (c : client_part) : Z :=
  Z.b2z (op_is_active (cl_socket c)) + Z.b2z (op_is_active (cl_connect c)).

(** [~stream] and the destructor of its pointer. *)
Definition stream_dtor : SM unit :=
  s ← this;
  let uc := use_count s - stream_active s in
  assert (0 <? uc) ;;
  when (uc =? 1) (cancel_timer ;; cancel_recv) ;;
  intrusive_ptr_release.

(** [~client], then [~stream] unless the pointer has been reset. *)
Definition client_dtor : SM unit :=
  s ← this;
  c ← get_client;
  let uc := use_count s - stream_active s - client_active c in
  assert (0 <? uc) ;;
  if uc =? 1 then
    cancel_timer ;; cancel_recv ;; intrusive_ptr_release
  else stream_dtor.

Definition throw_busy {S A} : M S A := throw_errno_as_error_code EBUSY.

Definition stream_set_buffer_group (bgid : Z) : SM unit :=
  s ← this;
  when (rf_initiated_ (st_recv s)) throw_busy ;;
  p_br ← on_world (get_buffer_group bgid);
  match p_br with
  | None => throw_errno_as_error_code EINVAL
  | Some _ => upd_this (upd_recv (λ f, f <| buffer_group_id_ := bgid |>))
  end.

(** [error_code::from_errno( -res )] in a result. *)
Definition err_of {A} (res : Z) : SM (result A) := e ← from_errno (- res); mret (Err e).

(** ** async_close *)

Definition close_await_suspend (h : handle) : SM unit :=
  s ← this;
  on_world (on_ring (reserve_sqes (2 + Z.b2z (to_initiated_ (st_timeout s))))) ;;
  upd_this (λ s, s <| stream_cancelled_ := true |>) ;;
  on_world (on_ring (push_sqe
    (cancel_fd_sqe (fd_ s) None (Z.lor IOSQE_IO_HARDLINK IOSQE_CQE_SKIP_SUCCESS)))) ;;
  on_world (on_ring (push_sqe (Sqe (op_close_direct (to_unsigned (fd_ s))) (Some (self, FkClose)) 0))) ;;
  s ← this;
  when (to_initiated_ (st_timeout s)) queue_timer_cancel ;;
  intrusive_ptr_add_ref ;;
  upd_this (λ s, s <| st_close ::= op_start h |>).

Definition close_await_resume : SM (result unit) :=
  s ← this;
  let res := res_ (st_close s) in
  upd_this (λ s, s <| st_close ::= op_reset |>) ;;
  if res =? 0 then mret (Ok tt) else err_of res.

(** ** async_cancel *)

Definition cancel_await_suspend (h : handle) : SM unit :=
  s ← this;
  on_world (on_ring (reserve_sqes 1)) ;;
  assert (negb (fd_ s =? -1)) ;;
  on_world (on_ring (push_sqe (cancel_fd_sqe (fd_ s) (Some (self, FkCancel)) 0))) ;;
  intrusive_ptr_add_ref ;;
  upd_this (λ s, s <| st_cancel ::= op_start h |> <| stream_cancelled_ := true |>).

Definition cancel_await_resume : SM (result Z) :=
  s ← this;
  let res := res_ (st_cancel s) in
  upd_this (λ s, s <| st_cancel ::= op_reset |>) ;;
  if fd_ s =? -1 then mret (Ok 0) else
  if res <? 0 then err_of res else mret (Ok res).

(** ** async_shutdown: the call sets [how_] *)

Definition async_shutdown (how : Z) : SM unit :=
  upd_this (λ s, s <| st_shutdown ::= λ f, f <| how_ := how |> |>) ;;
  intrusive_ptr_add_ref.

Definition shutdown_await_suspend (h : handle) : SM unit :=
  s ← this;
  assert (negb (fd_ s =? -1)) ;;
  on_world (queue_one (Sqe (op_shutdown (fd_ s) (how_ (st_shutdown s))) (Some (self, FkShutdown)) IOSQE_FIXED_FILE)) ;;
  intrusive_ptr_add_ref ;;
  upd_this (upd_shutdown (op_start h)).

Definition shutdown_await_resume : SM (result unit) :=
  s ← this;
  let res := res_ (sh_op (st_shutdown s)) in
  upd_this (λ s, s <| st_shutdown ::= shutdown_reset |>) ;;
  if res =? 0 then mret (Ok tt) else err_of res.

(** ** async_send *)

Definition send_awaitable_dtor : SM unit :=
  s ← this;
  when (send_is_active (st_send s))
    (on_world (queue_one (cancel_sqe self FkSend)) ;; on_world submit) ;;
  intrusive_ptr_release.

Definition send_await_suspend (buf : list Z) (h : handle) : SM unit :=
  s ← this;
  when (initiated_ (sd_op (st_send s))) throw_busy ;;
  on_world (queue_one (Sqe (op_send (fd_ s) buf) (Some (self, FkSend)) IOSQE_FIXED_FILE)) ;;
  intrusive_ptr_add_ref ;;
  t ← on_world now;
  upd_this (λ s, s <| st_send ::= λ f, f <| last_send_ := t |> |>) ;;
  upd_this (upd_send (op_start h)).

Definition send_await_resume : SM (result Z) :=
  s ← this;
  let res := res_ (sd_op (st_send s)) in
  upd_this (λ s, s <| st_send ::= send_reset |>) ;;
  if res <? 0 then err_of res else mret (Ok res).

(** ** async_recv *)

Definition recv_await_ready : SM bool :=
  s ← this; mret (negb (seq_empty (buffers_ (st_recv s)))).

Definition recv_await_suspend (h : handle) : SM bool :=
  upd_this (upd_recv (λ f, f <| rf_h_ := Some h |>)) ;;
  s ← this;
  let rf := st_recv s in
  if negb (ec_ rf =? 0) then
    assert (seq_empty (buffers_ rf)) ;; mret false
  else if rf_initiated_ rf then
    assert (seq_empty (buffers_ rf)) ;; mret true
  else
    let bgid := buffer_group_id_ rf in
    if bgid =? -1 then throw_errno_as_error_code EINVAL else
    br ← on_world (get_buffer_group bgid);
    upd_this (upd_recv (λ f, f <| p_buf_ring_ := match br with Some _ => Some bgid | None => None end |>)) ;;
    schedule_recv ;;
    mret true.

(** The loop that hands fresh buffers to the kernel, one per buffer received. *)
Fixpoint replenish_loop (fuel : nat) (pos stop : ptr) (br : buf_ring) (len : nat) :
    M (ctx R) (buf_ring * nat) :=
  if decide (pos = stop) then mret (br, len) else
  match fuel with
  | O => fail OutOfFuel
  | S fuel =>
      e ← on_heap (view_empty pos);
      if (e : bool) then mret (br, len) else
      if decide (buf_id_pos_ br = 0%nat) then mret (br, len) else
      br ← replenish_one br len;
      pos' ← on_heap (iter_next pos);
      replenish_loop fuel pos' stop br (S len)
  end.

(** The part of [recv_awaitable::await_resume] that works on the buffer ring. *)
Definition replenish (bgid : Z) (q : recv_buffer_sequence) : M (ctx R) unit :=
  br ← get_buffer_group bgid;
  match br with
  | None => fail NullDeref
  | Some br =>
      fuel ← on_heap (gets (λ m, size (headers m)));
      '(br, len) ← replenish_loop fuel (seq_begin q) (seq_end q) br 0;
      set_buffer_group bgid br ;;
      when (bool_decide (0 < len)%nat) (on_ring (modify (io_uring_buf_ring_advance (bgid_ br) len)))
  end.

Definition recv_await_resume : SM (result recv_buffer_sequence) :=
  s ← this;
  let rf := st_recv s in
  assert (negb (seq_empty (buffers_ rf)) || negb (ec_ rf =? 0)) ;;
  if seq_empty (buffers_ rf) then
    upd_this (upd_recv (λ f, f <| ec_ := 0 |>)) ;;
    mret (Err (ec_ rf))
  else
    on_world (replenish (buffer_group_id_ rf) (buffers_ rf)) ;;
    '(buffers, moved) ← on_world (on_heap (sequence_move (buffers_ rf)));
    upd_this (upd_recv (λ f, f <| buffers_ := moved |>)) ;;
    assert (seq_empty moved) ;;
    assert (0 <? num_bufs_ buffers) ;;
    mret (Ok buffers).

(** ** async_connect *)

Definition client_async_connect (addr : sockaddr) : SM unit :=
  when (negb (sa_family addr =? AF_INET) && negb (sa_family addr =? AF_INET6))
    (throw_errno_as_error_code EINVAL) ;;
  _ ← get_client;
  upd_this (λ s, s <| st_client ::= fmap (λ c, c <| addr_storage_ := addr |>) |>) ;;
  intrusive_ptr_add_ref.

Definition connect_awaitable_dtor : SM unit :=
  c ← get_client;
  let sf := cl_socket c in
  let cf := cl_connect c in
  on_world (on_ring (reserve_sqes (Z.b2z (initiated_ sf) + Z.b2z (initiated_ cf)))) ;;
  when (op_is_active sf)
    (on_world (on_ring (push_sqe (Sqe (op_cancel (Some (self, FkSocket))) None 0)))) ;;
  when (op_is_active cf)
    (on_world (on_ring (push_sqe (Sqe (op_cancel (Some (self, FkConnect))) None 0)))) ;;
  on_world submit ;;
  intrusive_ptr_release.

Definition connect_await_ready : SM bool :=
  c ← get_client;
  when (initiated_ (cl_socket c)) throw_busy ;;
  mret false.

(** [sizeof] of the socket address. *)
Definition addrlen (a : sockaddr) : Z := if sa_family a =? AF_INET then 16 else 28.

(** The SQEs of a connection, the socket's first when there is none yet. *)
Definition socket_sqe (af fd : Z) : sqe :=
  Sqe (op_socket_direct af (to_unsigned fd)) (Some (self, FkSocket)) IOSQE_IO_LINK.
Definition connect_sqe (fd len : Z) : sqe :=
  Sqe (op_connect fd len) (Some (self, FkConnect)) (Z.lor IOSQE_IO_LINK IOSQE_FIXED_FILE).
Definition link_timeout_sqe : sqe := Sqe (op_link_timeout self) None IOSQE_CQE_SKIP_SUCCESS.

Definition connect_await_suspend (h : handle) : SM bool :=
  c ← get_client;
  assert (negb (initiated_ (cl_socket c))) ;;
  assert (negb (initiated_ (cl_connect c))) ;;
  assert (bool_decide (h_ (cl_socket c) = None)) ;;
  assert (bool_decide (h_ (cl_connect c) = None)) ;;
  let addr := addr_storage_ c in
  let is_ipv4 := sa_family addr =? AF_INET in
  assert (is_ipv4 || (sa_family addr =? AF_INET6)) ;;
  let af := if is_ipv4 then AF_INET else AF_INET6 in
  s ← this;
  go ← (if (0 <=? fd_ s) && connected_ s then
          on_world (on_ring (reserve_sqes 2)) ;; mret true
        else
          found ← (if fd_ s =? -1 then
                     fd ← on_world get_available_fd;
                     upd_this (λ s, s <| fd_ := fd |>) ;;
                     if fd <? 0 then upd_this (upd_socket (λ f, f <| res_ := - ENFILE |>)) ;; mret false
                     else mret true
                   else mret true);
          if (found : bool) then
            s ← this;
            on_world (on_ring (reserve_sqes 3)) ;;
            on_world (on_ring (push_sqe (socket_sqe af (fd_ s)))) ;;
            intrusive_ptr_add_ref ;;
            upd_this (upd_socket (op_start h)) ;;
            mret true
          else mret false);
  if (go : bool) then
    s ← this;
    on_world (on_ring (push_sqe (connect_sqe (fd_ s) (addrlen addr)))) ;;
    on_world (on_ring (push_sqe link_timeout_sqe)) ;;
    intrusive_ptr_add_ref ;;
    upd_this (upd_connect (op_start h)) ;;
    mret true
  else mret false.

Definition connect_reset : SM unit :=
  upd_this (upd_socket op_reset) ;; upd_this (upd_connect op_reset).

Definition connect_await_resume : SM (result unit) :=
  c ← get_client;
  let sf := cl_socket c in
  let cf := cl_connect c in
  if res_ sf <? 0 then
    assert (negb (done_ cf)) ;; connect_reset ;; err_of (res_ sf)
  else if res_ cf <? 0 then
    assert ((negb (initiated_ sf) && negb (done_ sf)) || (initiated_ sf && done_ sf)) ;;
    connect_reset ;; err_of (res_ cf)
  else connect_reset ;; mret (Ok tt).

(** ** Awaiting: the temporary awaitable is a reference, dropped when the
    coroutine goes on or when starting the operation throws. *)

Definition async_close (h : handle) : SM unit :=
  intrusive_ptr_add_ref ;; on_throw (close_await_suspend h) intrusive_ptr_release.
Definition async_close_finish : SM (result unit) := finally close_await_resume intrusive_ptr_release.

Definition async_cancel (h : handle) : SM unit :=
  intrusive_ptr_add_ref ;; on_throw (cancel_await_suspend h) intrusive_ptr_release.
Definition async_cancel_finish : SM (result Z) := finally cancel_await_resume intrusive_ptr_release.

Definition async_shutdown_start (how : Z) (h : handle) : SM unit :=
  async_shutdown how ;; on_throw (shutdown_await_suspend h) intrusive_ptr_release.
Definition async_shutdown_finish : SM (result unit) :=
  finally shutdown_await_resume intrusive_ptr_release.

Definition async_send (buf : list Z) (h : handle) : SM unit :=
  intrusive_ptr_add_ref ;; on_throw (send_await_suspend buf h) send_awaitable_dtor.
Definition async_send_finish : SM (result Z) := finally send_await_resume send_awaitable_dtor.

(** [None] when the coroutine is suspended, the result when it is not. *)
Definition async_recv (h : handle) : SM (option (result recv_buffer_sequence)) :=
  intrusive_ptr_add_ref ;;
  suspended ← on_throw (ready ← recv_await_ready; if (ready : bool) then mret false else recv_await_suspend h)
                intrusive_ptr_release;
  if (suspended : bool) then mret None else
  r ← finally recv_await_resume intrusive_ptr_release; mret (Some r).
Definition async_recv_finish : SM (result recv_buffer_sequence) :=
  finally recv_await_resume intrusive_ptr_release.

Definition async_connect (addr : sockaddr) (h : handle) : SM (option (result unit)) :=
  client_async_connect addr ;;
  suspended ← on_throw (_ ← connect_await_ready; connect_await_suspend h) connect_awaitable_dtor;
  if (suspended : bool) then mret None else
  r ← finally connect_await_resume connect_awaitable_dtor; mret (Some r).
Definition async_connect_finish : SM (result unit) := finally connect_await_resume connect_awaitable_dtor.
End Frames.
