(* ===== verification/StreamRecv.v ===== *)
(** The receive path of a stream: completions that move buffers from a ring to
    the stream's sequence, and the resumption that hands the sequence over and
    replenishes the ring.

    [recv_world] relates the stream's sequence to the registered rings: they are
    well-formed and never share a buffer with the sequence or with each other.
    [Others] is what the other objects of the context own; it is not touched. *)

From S2P Require Import Prelude Uring Buffer BufferSpec BufferFlat Frame BufRing Executor.
From S2P Require Import Awaitable Duration Stream.

Definition rings {R} (w : ctx R) : gmap Z buf_ring := buf_rings_ (frame w).

Definition in_ring {R} (w : ctx R) (g : Z) (p : ptr) : Prop :=
  ∃ br, rings w !! g = Some br ∧ p ∈ bufs_ br ∧ p ≠ default_buf_header.

(** What the other objects own or use: the blocks of their sequences with their
    contents, the slots of their descriptors, and the groups of their buffers. *)
Class Others : Type := {
  other_blocks : gmap ptr (buf_header_impl * option (list Z));
  other_slots : list Z;
  other_groups : list Z;
}.
Definition is_other {HO : Others} (a : ptr) : Prop := is_Some (other_blocks !! a).
Definition others_kept {HO : Others} (m : mem) : Prop :=
  ∀ a hb, other_blocks !! a = Some hb → headers m !! a = Some hb.1 ∧ payload m !! a = hb.2.

Record recv_world {R} {HO : Others} (q : recv_buffer_sequence) (l : list ptr) (w : ctx R) : Prop := {
  rw_heap : heap_wf (heap w);
  rw_seq : seq_rep (heap w) q l;
  rw_sentry : p_sentry_ q ≠ default_buf_header;
  rw_ok : Forall (block_ok (heap w)) l;
  rw_rings g br : rings w !! g = Some br → buf_ring_wf (heap w) br ∧ 0 < buf_size_ br;
  rw_sep g p : in_ring w g p → p ∉ p_sentry_ q :: l ∧ detached (heap w) p ∧ block_ok (heap w) p;
  rw_apart g g' p : in_ring w g p → in_ring w g' p → g = g';
  rw_kept : others_kept (heap w);
  rw_others a : is_other a → a ∉ p_sentry_ q :: l ∧ ∀ g, ¬ in_ring w g a;
}.

(** The rings of the groups are registered. *)
Definition groups_in {R} (gs : list Z) (w : ctx R) : Prop := ∀ g, g ∈ gs → is_Some (rings w !! g).

(** The same without a sequence. *)
Record rest_world {R} {HO : Others} (w : ctx R) : Prop := {
  rs_heap : heap_wf (heap w);
  rs_rings g br : rings w !! g = Some br → buf_ring_wf (heap w) br ∧ 0 < buf_size_ br;
  rs_sep g p : in_ring w g p → detached (heap w) p ∧ block_ok (heap w) p;
  rs_apart g g' p : in_ring w g p → in_ring w g' p → g = g';
  rs_kept : others_kept (heap w);
  rs_others a : is_other a → ∀ g, ¬ in_ring w g a;
}.

(** Apart from the sequence, from every ring and from the other objects. *)
Definition apart {R} {HO : Others} (q : recv_buffer_sequence) (l : list ptr) (w : ctx R) (p : ptr) : Prop :=
  detached (heap w) p ∧ p ∉ p_sentry_ q :: l ∧ block_ok (heap w) p ∧ (∀ g, ¬ in_ring w g p) ∧ ¬ is_other p.

(** What the receive path may change: the heap, the rings of buffers, and the
    kernel's view of them; nothing that has to do with submissions. *)
Record buffers_only {R} `{!IoUring R} (w w' : ctx R) : Prop := {
  bo_frame : frame w' = frame w <| io_ring_ := io_ring_ (frame w') |> <| buf_rings_ := rings w' |>;
  bo_groups g : is_Some (rings w' !! g) ↔ is_Some (rings w !! g);
  bo_trace : sq_trace (io_ring_ (frame w')) = sq_trace (io_ring_ (frame w));
  bo_entries : sq_entries (io_ring_ (frame w')) = sq_entries (io_ring_ (frame w));
  bo_rest : clock w' = clock w ∧ coros w' = coros w;
}.

(** The flags of a data completion for the buffer [i]. *)
Definition data_flags (i : nat) (more : bool) : Z :=
  Z.lor (Z.shiftl (Z.of_nat i) IORING_CQE_BUFFER_SHIFT)
    (if more then Z.lor IORING_CQE_F_BUFFER IORING_CQE_F_MORE else IORING_CQE_F_BUFFER).

(** The environment of a receive: the kernel fills the buffer at the index [i] of a
    ring and posts a completion, which the event loop dispatches. *)
Section Deliver.
Context {R : Type} {HU : IoUring R} {HB : IoUringBufs R}.
Variable self : ptr.
#[local] Hint Extern 0 (AwaitableBase _ stream_impl) => exact (stream_awaitable_base self) : typeclass_instances.

Definition kernel_fill (g : Z) (i : nat) (bytes : list Z) : M (ctx R) unit :=
  br ← get_buffer_group g;
  match br with
  | Some br => p ← get_buf br i; on_heap (write_block p 0 bytes)
  | None => fail NullDeref
  end.

(** A completion with data, and the handle the loop resumes. *)
Definition deliver (g : Z) (i : nat) (bytes : list Z) (more : bool) : M (cell R stream_impl) (option handle) :=
  on_world (kernel_fill g i bytes) ;;
  dispatch FkRecv
    (Cqe (Some (self, FkRecv)) (Z.of_nat (length bytes)) (data_flags i more)).

Fixpoint deliver_all (g : Z) (chunks : list (nat * list Z)) : M (cell R stream_impl) (list handle) :=
  match chunks with
  | [] => mret []
  | (i, bytes) :: chunks =>
      h ← deliver g i bytes true;
      hs ← deliver_all g chunks;
      mret (option_list h ++ hs)
  end.

(** The chunks fit the buffers that the ring holds. *)
Definition chunks_fit (m : mem) (br : buf_ring) (chunks : list (nat * list Z)) : Prop :=
  NoDup chunks.*1 ∧ Forall (λ c, c.2 ≠ [] ∧ ∃ p, bufs_ br !! c.1 = Some p ∧ p ≠ default_buf_header ∧
    (length c.2 ≤ length (block m p))%nat) chunks.
End Deliver.

Section RecvLemmas.
Context {R : Type} {HU : IoUring R} {HB : IoUringBufs R} {HSep : IoUringSeparate R} {HO : Others}.
Implicit Types (w : ctx R) (q : recv_buffer_sequence) (br : buf_ring) (m : mem) (s : stream_impl).

Lemma data_flags_spec i more :
  flag_set (data_flags i more) IORING_CQE_F_MORE = more ∧
  flag_set (data_flags i more) IORING_CQE_F_BUFFER = true ∧
  Z.to_nat (Z.shiftr (data_flags i more) IORING_CQE_BUFFER_SHIFT) = i.
Proof.
  change IORING_CQE_F_MORE with (2 ^ 1) at 1. change IORING_CQE_F_BUFFER with (2 ^ 0) at 1.
  rewrite !flag_set_bit by lia. unfold data_flags, IORING_CQE_BUFFER_SHIFT. rewrite !Z.lor_spec.
  rewrite !Z.shiftl_spec_low, Z.shiftr_lor, Z.shiftr_shiftl_l, Z.sub_diag, Z.shiftl_0_r by lia.
  assert (Z.shiftr (if more then Z.lor IORING_CQE_F_BUFFER IORING_CQE_F_MORE else IORING_CQE_F_BUFFER) 16 = 0) as ->
    by (by destruct more). rewrite Z.lor_0_r, Nat2Z.id. by destruct more.
Qed.

Lemma buffers_only_refl w : buffers_only w w.
Proof. split; try done. by destruct w as [[]]. Qed.

Lemma buffers_only_trans w1 w2 w3 : buffers_only w1 w2 → buffers_only w2 w3 → buffers_only w1 w3.
Proof.
  intros [F1 G1 T1 N1 [C1 K1]] [F2 G2 T2 N2 [C2 K2]]. split; try congruence.
  - rewrite F2, F1. by destruct w1 as [[]], w2 as [[]], w3 as [[]].
  - intros g. by rewrite G2.
  - split; congruence.
Qed.

Lemma buffers_only_heap w m : buffers_only w (w <| heap := m |>).
Proof. split; try done. by destruct w as [[]]. Qed.

Lemma buffers_only_ring w g br br' : rings w !! g = Some br →
  buffers_only w (w <| frame ::= λ f, f <| buf_rings_ ::= <[g := br']> |> |>).
Proof.
  intros Hg. split; try done. intros g'. cbn.
  destruct (decide (g' = g)) as [->|]; [|by rewrite lookup_insert_ne].
  unfold rings in Hg |- *. cbn. rewrite lookup_insert_eq, Hg. split; eauto.
Qed.

Lemma kept_same m m' : others_kept m →
  (∀ a, is_other a → headers m' !! a = headers m !! a ∧ payload m' !! a = payload m !! a) → others_kept m'.
Proof. intros Hk Hs a hb E. destruct (Hs a) as [-> ->]; [by eexists|]. by apply Hk. Qed.

Lemma kept_links X m m' : others_kept m → links_only X m m' → (∀ a, is_other a → a ∉ X) → others_kept m'.
Proof. intros Hk Hl HX. apply (kept_same m); [done|]. intros a Ha. by rewrite (lo_out _ _ _ Hl a (HX a Ha)), (lo_payload _ _ _ Hl). Qed.

Lemma recv_world_ext q l w w' : heap w' = heap w → rings w' = rings w →
  recv_world q l w → recv_world q l w'.
Proof.
  intros Eh Er Hw. assert (∀ g p, in_ring w' g p ↔ in_ring w g p) as Hin
    by (intros; unfold in_ring; by rewrite Er).
  destruct Hw as [H1 H2 H3 H4 H5 H6 H7 H8 H9]. split; rewrite ?Eh, ?Er; try done.
  - intros g p Hp%Hin. by eapply H6.
  - intros g g' p Hp%Hin Hp'%Hin. by eapply H7.
  - intros a Ha. split; [by apply H9|]. intros g Hg%Hin. by apply (proj2 (H9 a Ha) g).
Qed.

Lemma rw_rest q l w : recv_world q l w → rest_world w.
Proof.
  intros [H1 H2 H3 H4 H5 H6 H7 H8 H9]. split; try done.
  - intros g p Hp. by destruct (H6 g p Hp) as (_ & ? & ?).
  - intros a Ha. by apply H9.
Qed.

Lemma rest_world_ext w w' : heap w' = heap w → rings w' = rings w → rest_world w → rest_world w'.
Proof.
  intros Eh Er [H1 H2 H3 H4 H5 H6]. assert (∀ g p, in_ring w' g p ↔ in_ring w g p) as Hin
    by (intros; unfold in_ring; by rewrite Er).
  split; rewrite ?Eh, ?Er; try done; setoid_rewrite Hin; done.
Qed.

(** Heaps that agree on what is allocated. *)
Lemma heap_wf_same m m' : brk m' = brk m →
  (∀ a, is_Some (headers m' !! a) → is_Some (headers m !! a)) →
  headers m' !! default_buf_header = headers m !! default_buf_header → heap_wf m → heap_wf m'.
Proof. intros Hb Ha Hd [H1 H2 H3]. split; [by rewrite Hb| |by rewrite Hd]. intros a H. rewrite Hb. auto. Qed.

Lemma links_only_ring_wf X m m' br : links_only X m m' → default_buf_header ∉ X →
  buf_ring_wf m br → buf_ring_wf m' br.
Proof.
  intros [Hp Hb Ho Hi] Hd Hw. eapply wf_heap; [done| |].
  - intros p _ _. specialize (Hi p).
    destruct (headers m' !! p), (headers m !! p); simplify_eq/=; congruence.
  - rewrite Ho by done. apply Hw.
Qed.

Lemma seq_rep_same m m' q l : (∀ a, a ∈ p_sentry_ q :: l → headers m' !! a = headers m !! a) →
  seq_rep m q l → seq_rep m' q l.
Proof.
  intros Hs []. split; try done.
  - eapply dlseg_frame; [|done]. intros a Ha. apply Hs. by right.
  - rewrite Hs; [done|left].
Qed.

Lemma block_ok_same m m' a : headers m' !! a = headers m !! a → payload m' !! a = payload m !! a →
  block_ok m a → block_ok m' a.
Proof. unfold block_ok, block. by intros -> ->. Qed.

Lemma rw_alloc_some q l w a : recv_world q l w →
  a ∈ p_sentry_ q :: l ∨ (∃ g, in_ring w g a) ∨ is_other a → is_Some (headers (heap w) !! a).
Proof.
  intros [Hh Hs _ _ _ Hsep _ Hk _] [[->|Ha]%elem_of_cons|[[g Ha]|[hb Ha]]].
  - by eapply rep_sentry_alloc.
  - by eapply rep_alloc.
  - destruct (Hsep _ _ Ha) as (_ & (_ & _ & Hx) & _). destruct (headers (heap w) !! a); [by eexists|done].
  - destruct (Hk _ _ Ha) as [E _]. by eexists.
Qed.

Lemma rw_fresh q l w a : recv_world q l w →
  a ∈ p_sentry_ q :: l ∨ (∃ g, in_ring w g a) ∨ is_other a → a ≠ brk (heap w).
Proof.
  intros Hw Ha ->. destruct (rw_alloc_some _ _ _ _ Hw Ha) as [h E]. by rewrite heap_wf_fresh in E by apply Hw.
Qed.

(** A change of the heap that leaves the sequence and the rings' blocks alone. *)
Lemma recv_world_heap q l w m : recv_world q l w → heap_wf m →
  (∀ a, a ∈ p_sentry_ q :: l ∨ (∃ g, in_ring w g a) ∨ is_other a →
     headers m !! a = headers (heap w) !! a ∧ payload m !! a = payload (heap w) !! a) →
  recv_world q l (w <| heap := m |>).
Proof.
  intros [Hh Hs Hq Hok Hr Hsep Hap Hk Hot] Hm Hsame. split; try done; cbn.
  - eapply seq_rep_same; [|exact Hs]. intros a Ha. by apply Hsame; left.
  - rewrite Forall_forall in *. intros a Ha. destruct (Hsame a); [by left; right|].
    by eapply block_ok_same; [..|apply Hok].
  - intros g br Hg. destruct (Hr g br Hg) as [Hw Hz]. split; [|done]. eapply wf_heap; [exact Hw| |apply Hm].
    intros p Hp Hd. destruct (Hsame p) as [-> _]; [right; left; exists g; by exists br|done].
  - intros g p Hp. destruct (Hsep g p Hp) as (? & (? & ? & ?) & ?). destruct (Hsame p) as [E1 E2]; [by right; left; exists g|].
    split_and!; [done| |by eapply block_ok_same]. split_and!; [done|done|]. by rewrite E1.
  - apply (kept_same (heap w)); [done|]. intros a Ha. apply Hsame. by right; right.
Qed.

(** The blocks of the sequence are freed. *)
Lemma wp_rw_free q l w (Q : unit → ctx R → Prop) : recv_world q l w →
  (∀ m, rest_world (w <| heap := m |>) → Q tt (w <| heap := m |>)) → wp (on_heap (sequence_dtor q)) w Q.
Proof.
  intros [Hh Hs Hq Hok Hr Hsep Hap Hk Hot] HQ. apply wp_on_heap. unfold sequence_dtor. apply wp_bind.
  eapply wp_mono; [by apply free_list_wp|]. intros q' m (_ & _ & Hb & Hin & Hout). apply wp_ret, HQ.
  assert (∀ a, a ∉ p_sentry_ q :: l → headers m !! a = headers (heap w) !! a ∧ payload m !! a = payload (heap w) !! a) as Hsame.
  { intros a [Ha1 Ha2]%not_elem_of_cons. destruct (Hout a Ha2) as [-> E]. by rewrite E. }
  assert (default_buf_header ∉ p_sentry_ q :: l) as Hd by (pose proof (rep_default _ _ _ Hs); by apply not_elem_of_cons).
  split; cbn; try done.
  - apply (heap_wf_same (heap w)); [done| |by apply Hsame|done]. intros a [h Ha].
    destruct (decide (a ∈ l)) as [Hal|Hal]; [by destruct (Hin a Hal) as [E _]; congruence|].
    destruct (decide (a = p_sentry_ q)) as [->|]; [by eapply rep_sentry_alloc|].
    exists h. by rewrite <- (proj1 (Hsame a ltac:(by apply not_elem_of_cons))).
  - intros g br Hg. destruct (Hr g br Hg) as [Hbw ?]. split; [|done]. eapply wf_heap; [exact Hbw| |].
    + intros p Hp Hpd. destruct (Hsep g p) as [Hn _]; [by exists br|]. by rewrite (proj1 (Hsame p Hn)).
    + rewrite (proj1 (Hsame _ Hd)). apply Hh.
  - intros g p Hp. destruct (Hsep g p Hp) as (Hn & (? & ? & ?) & ?). destruct (Hsame p Hn) as [E1 E2].
    split; [|by apply (block_ok_same (heap w))]. split_and!; [done|done|by rewrite E1].
  - apply (kept_same (heap w)); [done|]. intros a Ha. apply Hsame. by apply Hot.
  - intros a Ha. by apply Hot.
Qed.

(** A fresh block is apart from everything. *)
Lemma rw_alloc q l w cap : recv_world q l w → 0 ≤ cap →
  let p := brk (heap w) in
  let m' := (recv_buffer_new cap (heap w)).2 in
  recv_world q l (w <| heap := m' |>) ∧ apart q l (w <| heap := m' |>) p ∧
  (∀ a, a ≠ p → headers m' !! a = headers (heap w) !! a ∧ payload m' !! a = payload (heap w) !! a).
Proof.
  intros Hw Hcap p m'.
  assert (headers m' = <[p := Hdr 0 cap nullptr nullptr]> (headers (heap w)) ∧
          payload m' = <[p := replicate (Z.to_nat cap) 0]> (payload (heap w))) as [Hm' Hp']
    by (unfold m'; by rewrite recv_buffer_new_run).
  assert (∀ a, a ≠ p → headers m' !! a = headers (heap w) !! a ∧ payload m' !! a = payload (heap w) !! a) as Hsame
    by (intros a Ha; by rewrite Hm', Hp', !lookup_insert_ne).
  pose proof (hw_brk _ (rw_heap _ _ _ Hw)) as Hbrk. split_and!; [| |done].
  - apply recv_world_heap; [done|apply heap_wf_new; [apply Hw|done]|].
    intros a Ha. apply Hsame. by eapply rw_fresh.
  - unfold apart. split_and!.
    + assert (32 < p) by exact Hbrk. unfold detached, default_buf_header, nullptr. split_and!; [lia|lia|].
      cbn [heap upd eta eta_ctx]. by rewrite Hm', lookup_insert_eq.
    + intros Hx. apply (rw_fresh _ _ _ p Hw); [by left|done].
    + exists (Hdr 0 cap nullptr nullptr). unfold block. cbn. rewrite Hm', Hp', !lookup_insert_eq. simpl.
      rewrite length_replicate. split_and!; [done|lia|lia|lia].
    + intros g Hx. apply (rw_fresh _ _ _ p Hw); [|done]. right. left. by exists g.
    + intros Hx. apply (rw_fresh _ _ _ p Hw); [|done]. by right; right.
Qed.

(** Queueing a buffer that is apart from everything. *)
Lemma wp_rw_push q l w p (Q : recv_buffer_sequence → ctx R → Prop) :
  recv_world q l w → apart q l w p →
  (∀ q' m', recv_world q' (l ++ [p]) (w <| heap := m' |>) → p_sentry_ q' = p_sentry_ q →
     links_only (p :: p_sentry_ q :: l) (heap w) m' → Q q' (w <| heap := m' |>)) →
  wp (on_heap (push_back q p)) w Q.
Proof.
  intros [Hh Hs Hq Hok Hr Hsep Hap Hk Hot] (Hdet & Hpl & Hpok & Hpr & Hpo) HQ. apply wp_on_heap.
  eapply wp_mono; [by apply push_back_wp|]. intros q' m' (Hs' & Hl & Hq'). apply HQ; [|done|done].
  assert (default_buf_header ∉ p :: p_sentry_ q :: l) as Hd.
  { destruct Hdet as (_ & ? & _). pose proof (rep_default _ _ _ Hs). mem_tac. }
  assert (∀ a, block_ok (heap w) a → block_ok m' a) as Hbok by (intros a; by eapply links_only_block_ok).
  split; try done; cbn.
  - eapply heap_wf_same; [apply Hl| |by apply Hl|done]. intros a. by apply (links_only_is_Some _ _ _ a Hl).
  - by rewrite Hq'.
  - apply Forall_app. split; [by eapply Forall_impl|]. by apply Forall_singleton, Hbok.
  - intros g br Hg. destruct (Hr g br Hg). split; [|done]. by eapply links_only_ring_wf.
  - intros g a Ha. destruct (Hsep g a Ha) as (Hal & (? & ? & Hp) & Haok).
    assert (a ≠ p) as Hne by (intros ->; by apply (Hpr g)). split_and!; [|split_and!; [done|done|]|by apply Hbok].
    + rewrite Hq'. apply not_elem_of_cons in Hal as [? ?].
      rewrite not_elem_of_cons, not_elem_of_app, list_elem_of_singleton. by split_and!.
    + rewrite (lo_out _ _ _ Hl); [done|]. mem_tac.
  - eapply kept_links; [exact Hk|exact Hl|]. intros a Ha Hx. apply elem_of_cons in Hx as [->|Hx]; [done|].
    by apply (proj1 (Hot a Ha)).
  - intros a Ha. destruct (Hot a Ha) as [[? ?]%not_elem_of_cons ?]. split; [|done]. rewrite Hq'.
    rewrite not_elem_of_cons, not_elem_of_app, list_elem_of_singleton. split_and!; [done|done|by intros ->].
Qed.

(** Setting one ring. *)
Lemma in_ring_set w g br a g' :
  in_ring (w <| frame ::= λ f, f <| buf_rings_ ::= <[g := br]> |> |>) g' a ↔
  if decide (g' = g) then a ∈ bufs_ br ∧ a ≠ default_buf_header else in_ring w g' a.
Proof.
  unfold in_ring, rings. cbn. case_decide as E.
  - subst. setoid_rewrite lookup_insert_eq. naive_solver.
  - by setoid_rewrite lookup_insert_ne.
Qed.

(** The ring that [take_buf] leaves. *)
Definition taken br (i : nat) : buf_ring :=
  br <| bufs_ ::= <[i := default_buf_header]> |> <| buf_ids_ ::= <[buf_id_pos_ br := i]> |>
     <| buf_id_pos_ ::= S |>.

Definition set_size (len : Z) (p : ptr) m : mem := m <| headers ::= alter (λ h, h <| size_ := len |>) p |>.

(** The buffer [p] at the index [i] of the ring [g] is moved out with size [len]. *)
Definition move_out g br (i : nat) (p : ptr) (len : Z) w : ctx R :=
  w <| heap ::= set_size len p |> <| frame ::= λ f, f <| buf_rings_ ::= <[g := taken br i]> |> |>.

Lemma in_taken br i p a m : buf_ring_wf m br → bufs_ br !! i = Some p → p ≠ default_buf_header →
  a ≠ default_buf_header → a ∈ bufs_ (taken br i) ↔ a ∈ bufs_ br ∧ a ≠ p.
Proof.
  intros Hw Hi Hp Ha. unfold taken. cbn. rewrite !list_elem_of_lookup. split.
  - intros [j Hj]. destruct (decide (j = i)) as [->|Hne].
    + rewrite list_lookup_insert_eq in Hj by (by eapply lookup_lt_Some). congruence.
    + rewrite list_lookup_insert_ne in Hj by done. split; [eauto|]. intros ->.
      by apply Hne, (wf_distinct _ _ Hw j i p).
  - intros [[j Hj] Hap]. exists j. rewrite list_lookup_insert_ne; [done|]. congruence.
Qed.

(** What happens to the world when a buffer is moved out of a ring. *)
Lemma rw_take q l w g br i p len : recv_world q l w →
  rings w !! g = Some br → bufs_ br !! i = Some p → p ≠ default_buf_header →
  0 ≤ len ≤ Z.of_nat (length (block (heap w) p)) →
  let w' := move_out g br i p len w in
  recv_world q l w' ∧ apart q l w' p ∧
  bytes_of (heap w') p = take (Z.to_nat len) (block (heap w) p).
Proof.
  intros [Hh Hs Hq Hok Hr Hsep Hap Hk Hot] Hg Hi Hp Hlen w'.
  assert (in_ring w g p) as Hin by (exists br; split_and!; [done|by eapply list_elem_of_lookup_2|done]).
  destruct (Hsep _ _ Hin) as (Hpl & (Hpn & _ & Hdet) & (h & E & Hsz & Hcap)).
  destruct (Hr _ _ Hg) as [Hw Hz].
  assert (∀ a, a ≠ p → headers (heap w') !! a = headers (heap w) !! a) as Hm' by (intros; by apply lookup_alter_ne).
  assert (headers (heap w') !! p = Some (h <| size_ := len |>)) as Hm'p.
  { unfold w', set_size. cbn. by rewrite lookup_alter_eq, E. }
  assert (∀ a, payload (heap w') !! a = payload (heap w) !! a) as Hpay by done.
  assert (∀ g' a, in_ring w' g' a ↔ in_ring w g' a ∧ a ≠ p) as Hrin.
  { intros g' a. unfold w', move_out. rewrite in_ring_set. case_decide as Eg.
    - subst g'. split.
      + intros [Ha Had]. apply (in_taken br i p a _ Hw Hi Hp Had) in Ha as [Ha Hap']. split; [by exists br|done].
      + intros [(br' & Hg' & Ha & Had) Hap']. assert (br' = br) as -> by (unfold rings in *; cbn in *; congruence).
        split; [|done]. by apply (in_taken br i p a _ Hw Hi Hp Had).
    - split; [|by intros []]. intros Ha. split; [done|]. intros ->. by apply Eg, (Hap g' g p). }
  assert (p ∉ l) as Hpl' by (by apply not_elem_of_cons in Hpl as [_ ?]).
  assert (¬ is_other p) as Hpo by (intros Ho; by apply (proj2 (Hot p Ho) g)).
  split_and!.
  - split; try done.
    + apply (heap_wf_same (heap w)); [done| |by apply Hm'|done]. intros a Ha.
      destruct (decide (a = p)) as [->|]; [by eexists|by rewrite <- Hm'].
    + eapply seq_rep_same; [|exact Hs]. intros a Ha. apply Hm'. by intros ->.
    + rewrite Forall_forall in *. intros a Ha. apply (block_ok_same (heap w)); [|done|by apply Hok].
      apply Hm'. by intros ->.
    + intros g' br'. unfold rings, w'. cbn. destruct (decide (g' = g)) as [->|Hne].
      * rewrite lookup_insert_eq. intros [= <-]. split; [|done]. apply wf_set_len; [by eapply wf_take|done].
      * rewrite lookup_insert_ne by done. intros Hg'. destruct (Hr _ _ Hg') as [Hw' ?]. split; [|done].
        by apply wf_set_len.
    + intros g' a [Ha Hne]%Hrin. destruct (Hsep g' a Ha) as (? & (? & ? & ?) & ?).
      split_and!; [done| |by apply (block_ok_same (heap w)); [apply Hm'|..]]. split_and!; [done|done|]. by rewrite Hm'.
    + intros g1 g2 a [Ha1 _]%Hrin [Ha2 _]%Hrin. by eapply Hap.
    + apply (kept_same (heap w)); [done|]. intros a Ha. split; [|done]. apply Hm'. by intros ->.
    + intros a Ha. split; [by apply Hot|]. intros g' [Hg' _]%Hrin. by apply (proj2 (Hot a Ha) g').
  - unfold apart. split_and!; [by split_and!; [..|by rewrite Hm'p; cbn; rewrite E in Hdet]|done| | |].
    + assert (block (heap w') p = block (heap w) p) as Eb by done.
      eexists. split_and!; [exact Hm'p|cbn; lia|cbn; lia|by rewrite Eb].
    + intros g' [_ ?]%Hrin. done.
    + done.
  - unfold bytes_of. by rewrite Hm'p.
Qed.

Lemma wp_take_ring_buf q l w s g br i p len (Q : ptr → cell R stream_impl → Prop) :
  recv_world q l w → p_buf_ring_ (st_recv s) = Some g →
  rings w !! (g `mod` 2 ^ 16) = Some br → bufs_ br !! i = Some p → p ≠ default_buf_header →
  Q p (Cell (move_out (g `mod` 2 ^ 16) br i p len w) (Some s)) →
  wp (take_ring_buf i len) (Cell w (Some s)) Q.
Proof.
  intros Hw Hb Hg Hi Hp HQ. destruct (rw_rings _ _ _ Hw _ _ Hg) as [Hbw _].
  unfold take_ring_buf. cell_steps. rewrite Hb. cell_steps.
  unfold wp. rewrite get_buffer_group_run. fold (rings w). rewrite Hg. change (wp (
    '(b, br') ← on_world (take_buf br i len); on_world (set_buffer_group g br') ;; mret b)
    (Cell w (Some s)) Q).
  cell_steps. unfold wp at 1. rewrite (take_buf_run w br i p len Hbw Hi Hp). cell_steps.
  unfold set_buffer_group. unfold wp. rewrite on_frame_modify. exact HQ.
Qed.

Lemma buffers_only_move g br i p len w : rings w !! g = Some br → buffers_only w (move_out g br i p len w).
Proof.
  intros Hg. eapply buffers_only_trans; [apply (buffers_only_heap w (set_size len p (heap w)))|].
  by apply (buffers_only_ring _ g br).
Qed.

Lemma all_bytes_snoc m l p : all_bytes m (l ++ [p]) = all_bytes m l ++ bytes_of m p.
Proof. unfold all_bytes. rewrite map_app, concat_app. simpl. by rewrite app_nil_r. Qed.

Lemma all_bytes_ext m m' l : (∀ a, a ∈ l → bytes_of m' a = bytes_of m a) → all_bytes m' l = all_bytes m l.
Proof. intros H. unfold all_bytes. f_equal. apply map_ext_in. intros a Ha%list_elem_of_In. auto. Qed.

Lemma wp_buffers_push_back q l w s p (Q : unit → cell R stream_impl → Prop) :
  buffers_ (st_recv s) = q → recv_world q l w → apart q l w p →
  (∀ q' w', recv_world q' (l ++ [p]) w' → buffers_only w w' → rings w' = rings w →
     p_sentry_ q' = p_sentry_ q → payload (heap w') = payload (heap w) →
     (∀ a, bytes_of (heap w') a = bytes_of (heap w) a) →
     (∀ a, size_ <$> headers (heap w') !! a = size_ <$> headers (heap w) !! a) →
     Q tt (Cell w' (Some (upd_recv (λ f, f <| buffers_ := q' |>) s)))) →
  wp (buffers_push_back p) (Cell w (Some s)) Q.
Proof.
  intros Hq Hw Hap HQ. unfold buffers_push_back. cell_steps. rewrite Hq. eapply wp_rw_push; [done..|].
  intros q' m' Hw' Hs' Hl. cell_steps. apply HQ; [done|apply buffers_only_heap|done|done|apply Hl|by intros a; apply (links_only_bytes _ _ _ _ Hl)|].
  intros a. pose proof (lo_in _ _ _ Hl a). cbn. destruct (headers m' !! a), (headers (heap w) !! a); simplify_eq/=; congruence.
Qed.

(** What a completion of the receive leaves in the frame. *)
Definition recv_done q' (ec t : Z) (more : bool) s : stream_impl :=
  upd_count (if more then Z.succ else id)
    (upd_recv (λ f, RecvFrame q' ec (p_buf_ring_ f) (rf_h_ f) t (buffer_group_id_ f) more) s).

Lemma wp_recv_more (more : bool) s' w (Q : unit → cell R stream_impl → Prop) :
  Q tt (Cell w (Some (upd_count (if more then Z.succ else id) (upd_recv (λ f, f <| rf_initiated_ := more |>) s')))) →
  wp (if more then
       intrusive_ptr_add_ref ;; upd_this (upd_recv (λ f, f <| rf_initiated_ := true |>))
     else upd_this (upd_recv (λ f, f <| rf_initiated_ := false |>))) (Cell w (Some s')) Q.
Proof. intros HQ. destruct more; cell_steps; by destruct s'. Qed.

Ltac recv_done_is q' ec t more s :=
  lazymatch goal with
  | |- ?Q _ (Cell ?w' (Some ?s1)) =>
      let E := fresh in
      assert (s1 = recv_done q' ec t more s) as E by (destruct s as [? ? ? ? ? []]; try (is_var more; destruct more); done);
      rewrite E; clear E
  end.

(** A completion with data. *)
Lemma wp_recv_data q l w s g br i p len more d (Q : unit → cell R stream_impl → Prop) :
  buffers_ (st_recv s) = q → recv_world q l w → p_buf_ring_ (st_recv s) = Some g →
  rings w !! (g `mod` 2 ^ 16) = Some br → bufs_ br !! i = Some p → p ≠ default_buf_header →
  0 < len ≤ Z.of_nat (length (block (heap w) p)) →
  (∀ q' w', recv_world q' (l ++ [p]) w' → buffers_only w w' →
     rings w' = <[g `mod` 2 ^ 16 := taken br i]> (rings w) → payload (heap w') = payload (heap w) →
     p_sentry_ q' = p_sentry_ q →
     all_bytes (heap w') (l ++ [p]) = all_bytes (heap w) l ++ take (Z.to_nat len) (block (heap w) p) →
     Q tt (Cell w' (Some (recv_done q' (ec_ (st_recv s)) (clock w) more s)))) →
  wp (recv_process_cqe (Cqe d len (data_flags i more))) (Cell w (Some s)) Q.
Proof.
  intros Hq Hw Hb Hg Hi Hp Hlen HQ. destruct (data_flags_spec i more) as (F1 & F2 & F3).
  unfold recv_process_cqe. cbn [cqe_res cqe_flags]. rewrite F1, F2, F3. cell_steps.
  rewrite (proj2 (Z.ltb_ge len 0)), (proj2 (Z.eqb_neq len 0)), (proj2 (Z.ltb_lt 0 len)) by lia. cell_steps.
  apply wp_assert; [done|]. cell_steps. unfold now. cell_steps.
  eapply wp_take_ring_buf; [exact Hw|done..|]. cbn [world clock]. 
  destruct (rw_take q l w _ br i p len Hw Hg Hi Hp ltac:(lia)) as (Hw1 & Hap1 & Hb1).
  eapply wp_buffers_push_back; [exact Hq|done|done|]. intros q' w' Hw' Hbo Hr' Hs' Hpay Hbytes Hsize.
  apply wp_recv_more. recv_done_is q' (ec_ (st_recv s)) (clock w) more s.
  apply HQ; [done| |by rewrite Hr'|by rewrite Hpay|done|].
  { eapply buffers_only_trans; [|done]. by apply buffers_only_move. }
  rewrite all_bytes_snoc, Hbytes, Hb1. f_equal. apply all_bytes_ext. intros a Ha. rewrite Hbytes.
  unfold bytes_of, block, move_out, set_size. cbn. rewrite lookup_alter_ne; [done|].
  destruct Hap1 as (_ & Hpl & _). apply not_elem_of_cons in Hpl as [_ Hpl]. by intros ->.
Qed.

(** The error that a failed receive reports: a cancellation that the program has
    not asked for is that of its timer. *)
Definition recv_error (res : Z) (stream_cancelled : bool) : Z :=
  if (res =? - ECANCELED) && negb stream_cancelled then ETIMEDOUT else - res.

Lemma wp_recv_error w s res flags d (Q : unit → cell R stream_impl → Prop) :
  res < 0 → flag_set flags IORING_CQE_F_MORE = false → ec_ (st_recv s) = 0 →
  Q tt (Cell w (Some (recv_done (buffers_ (st_recv s)) (recv_error res (stream_cancelled_ s))
                        (last_recv_ (st_recv s)) false s))) →
  wp (recv_process_cqe (Cqe d res flags)) (Cell w (Some s)) Q.
Proof.
  intros Hres Hm Hec HQ. unfold recv_process_cqe. cbn [cqe_res cqe_flags]. rewrite Hm. cell_steps.
  rewrite (proj2 (Z.ltb_lt res 0)), (proj2 (Z.eqb_neq res 0)), (proj2 (Z.ltb_ge 0 res)) by lia.
  rewrite Hec. cell_steps. cbn [negb]. apply wp_assert; [done|]. cell_steps. apply wp_assert; [done|].
  apply wp_bind.
  assert (wp (if (res =? - ECANCELED) && negb (stream_cancelled_ s) then @from_errno (cell R stream_impl) ETIMEDOUT
    else from_errno (- res)) (Cell w (Some s)) (λ ec c, ec = recv_error res (stream_cancelled_ s) ∧ c = Cell w (Some s))) as He.
  { unfold recv_error, from_errno. case_match; apply wp_bind, wp_assert; try done.
    apply negb_true_iff, Z.eqb_neq. lia. }
  eapply wp_mono; [exact He|]. intros ec c [-> ->]. cell_steps.
  recv_done_is (buffers_ (st_recv s)) (recv_error res (stream_cancelled_ s)) (last_recv_ (st_recv s)) false s.
  exact HQ.
Qed.

(** The end of the stream: an empty buffer. *)
Lemma wp_recv_eof q l w s flags d (Q : unit → cell R stream_impl → Prop) :
  buffers_ (st_recv s) = q → recv_world q l w →
  flag_set flags IORING_CQE_F_MORE = false → flag_set flags IORING_CQE_F_BUFFER = false →
  (∀ q' w' p, recv_world q' (l ++ [p]) w' → buffers_only w w' → rings w' = rings w →
     p_sentry_ q' = p_sentry_ q → size_ <$> headers (heap w') !! p = Some 0 →
     all_bytes (heap w') (l ++ [p]) = all_bytes (heap w) l →
     Q tt (Cell w' (Some (recv_done q' (ec_ (st_recv s)) (last_recv_ (st_recv s)) false s)))) →
  wp (recv_process_cqe (Cqe d 0 flags)) (Cell w (Some s)) Q.
Proof.
  intros Hq Hw Hm Hb HQ. unfold recv_process_cqe. cbn [cqe_res cqe_flags]. rewrite Hm, Hb.
  change (0 <? 0) with false. change (0 =? 0) with true. cell_steps.
  apply wp_assert; [done|]. cell_steps. apply wp_assert; [done|]. cell_steps.
  pose proof (rw_alloc q l w 0 Hw ltac:(lia)) as (Hw1 & Hap & Hsame).
  rewrite recv_buffer_new_run in Hw1, Hap, Hsame. cbn [snd] in Hw1, Hap, Hsame.
  apply wp_on_heap. unfold wp at 1. rewrite recv_buffer_new_run.
  eapply wp_buffers_push_back; [exact Hq|done|done|]. intros q' w' Hw' Hbo Hr' Hs' Hpay Hbytes Hsize. cell_steps.
  recv_done_is q' (ec_ (st_recv s)) (last_recv_ (st_recv s)) false s.
  set (p := brk (heap w)) in *.
  apply (HQ q' w' p); [done| |done|done| |].
  - eapply buffers_only_trans; [apply buffers_only_heap|done].
  - rewrite Hsize. cbn. by rewrite lookup_insert_eq.
  - rewrite all_bytes_snoc, !Hbytes. rewrite <- (app_nil_r (all_bytes (heap w) l)). f_equal.
    + apply all_bytes_ext. intros a Ha. rewrite Hbytes. unfold bytes_of, block. cbn.
      assert (a ≠ p) by (intros ->; by destruct Hap as (_ & [_ ?]%not_elem_of_cons & _)).
      by rewrite !lookup_insert_ne.
    + unfold bytes_of. cbn. by rewrite lookup_insert_eq.
Qed.

(** ** Replenishing *)

(** [w] with [br] as the ring of the group [g]. *)
Definition with_ring g br w : ctx R := w <| frame ::= λ f, f <| buf_rings_ ::= <[g := br]> |> |>.

Lemma in_ring_fill g br i p w g' a :
  bufs_ br !! i = Some default_buf_header → p ≠ default_buf_header →
  in_ring (with_ring g (br <| bufs_ ::= <[i := p]> |>) w) g' a ↔
  in_ring (with_ring g br w) g' a ∨ (g' = g ∧ a = p).
Proof.
  intros Hi Hp. unfold with_ring. rewrite !in_ring_set. case_decide as Eg; [|naive_solver]. subst g'.
  cbn. rewrite !list_elem_of_lookup. split.
  - intros [[j Hj] Ha]. destruct (decide (j = i)) as [->|Hne].
    + rewrite list_lookup_insert_eq in Hj by (by eapply lookup_lt_Some). simplify_eq. by right.
    + rewrite list_lookup_insert_ne in Hj by done. left. eauto.
  - intros [[[j Hj] Ha]|[_ ->]].
    + split; [|done]. exists j. rewrite list_lookup_insert_ne; [done|]. congruence.
    + split; [|done]. exists i. apply list_lookup_insert_eq. by eapply lookup_lt_Some.
Qed.

(** What [replenish_one] does to the world. *)
Lemma rw_replenish_one q l g br k w : recv_world q l (with_ring g br w) → buf_id_pos_ br ≠ 0%nat →
  ∃ i br' w', replenish_one br k w = (Ret br', w') ∧
    recv_world q l (with_ring g br' w') ∧ rings w' = rings w ∧
    (∀ a, a ∈ p_sentry_ q :: l → headers (heap w') !! a = headers (heap w) !! a ∧
       payload (heap w') !! a = payload (heap w) !! a) ∧
    free_ids br = free_ids br' ++ [i] ∧ bgid_ br' = bgid_ br ∧ num_bufs br' = num_bufs br ∧
    buf_size_ br' = buf_size_ br ∧ S (buf_id_pos_ br') = buf_id_pos_ br ∧
    io_ring_ (frame w') = io_uring_buf_ring_add (bgid_ br) (brk (heap w) + S_hdr)
      (to_unsigned (buf_size_ br)) (to_ushort i) (io_uring_buf_ring_mask (num_bufs br)) k (io_ring_ (frame w)) ∧
    buffers_only w w'.
Proof.
  intros Hw Hpos. pose proof Hw as [Hh Hs Hq Hok Hr Hsep Hap Hk Hot]. change (heap (with_ring g br w)) with (heap w) in *.
  assert (rings (with_ring g br w) !! g = Some br) as Eg by (unfold rings, with_ring; cbn; by rewrite lookup_insert_eq).
  destruct (Hr _ _ Eg) as [Hbw Hz]. destruct (wf_top _ _ Hbw Hpos) as (i & Hi & Hdef & Ef).
  destruct (replenish_one_run w br k i Hbw Hh Hpos Hz Hi) as (E & Hbw' & Hh' & Hnew & Hm' & Hp').
  set (p := brk (heap w)) in *. set (m' := (recv_buffer_new (buf_size_ br) (heap w)).2) in *.
  set (br1 := br <| buf_id_pos_ ::= pred |>) in *.
  destruct (rw_alloc q l (with_ring g br w) (buf_size_ br) Hw ltac:(lia)) as (Hw1 & (Hdet & Hpl & Hpok & Hpr & Hpo) & Hsame).
  change (heap (with_ring g br w)) with (heap w) in *. fold p m' in Hw1, Hdet, Hpl, Hpok, Hpr, Hpo, Hsame.
  assert (p ≠ default_buf_header) as Hpd by apply Hdet.
  assert (∀ w0, rings w0 = rings w → ∀ g' a, in_ring (with_ring g (br1 <| bufs_ ::= <[i := p]> |>) w0) g' a ↔
    in_ring (with_ring g br w) g' a ∨ (g' = g ∧ a = p)) as Hin.
  { intros w0 E0 g' a. rewrite in_ring_fill by done. unfold with_ring. rewrite !in_ring_set.
    unfold in_ring. by rewrite E0. }
  eexists i, _, _. split; [exact E|]. split_and!; try done; cbn.
  - destruct Hw1 as [_ Hs1 _ Hok1 Hr1 Hsep1 _ Hk1 _].
    split; [exact Hh'|exact Hs1|exact Hq|exact Hok1| | | |exact Hk1|].
    + intros g' br'. unfold rings. cbn. destruct (decide (g' = g)) as [->|Hne].
      * rewrite lookup_insert_eq. intros [= <-]. by split.
      * rewrite lookup_insert_ne by done. intros Hg'. apply (Hr1 g').
        unfold rings, with_ring. cbn. by rewrite lookup_insert_ne.
    + intros g' a [Ha|[-> ->]]%(Hin _ eq_refl); [apply (Hsep1 g' a)|split_and!; [done|apply Hdet..|done]].
      exact Ha.
    + intros g1 g2 a [H1|[-> ->]]%(Hin _ eq_refl) [H2|[-> Ea]]%(Hin _ eq_refl); try done.
      * by eapply Hap.
      * subst a. exfalso. by apply (Hpr g1).
      * exfalso. by apply (Hpr g2).
    + intros a Ha. split; [by apply Hot|]. intros g' [Hg'|[_ ->]]%(Hin _ eq_refl); [|done].
      by apply (proj2 (Hot a Ha) g').
  - intros a Ha. apply Hsame. intros ->. done.
  - unfold num_bufs. cbn. by rewrite length_insert.
  - lia.
  - split; cbn; try done.
    + apply buf_ring_add_sq.
    + apply buf_ring_add_sq.
Qed.

(** The number of buffers before the first empty one. *)
Fixpoint full_prefix m (l : list ptr) : nat :=
  match l with
  | [] => 0
  | p :: l => if decide (size_ <$> headers m !! p = Some 0) then 0 else S (full_prefix m l)
  end.

Lemma full_prefix_ext m m' l : (∀ a, a ∈ l → headers m' !! a = headers m !! a) →
  full_prefix m' l = full_prefix m l.
Proof.
  induction l as [|p l IH]; intros H; [done|]. simpl. rewrite H by left. case_decide; [done|].
  rewrite IH; [done|]. intros a Ha. apply H. by right.
Qed.

(** What the loop, and then [replenish], has done: [n] entries are handed to the
    kernel for the [n] ids on top of the stack. *)
Record replenished q l g br w (n : nat) (k : nat) br' w' : Prop := {
  rp_world : recv_world q l (with_ring g br' w');
  rp_rings : rings w' = rings w;
  rp_only : buffers_only w w';
  rp_seq a : a ∈ p_sentry_ q :: l → headers (heap w') !! a = headers (heap w) !! a ∧
    payload (heap w') !! a = payload (heap w) !! a;
  rp_bgid : bgid_ br' = bgid_ br ∧ num_bufs br' = num_bufs br ∧ buf_size_ br' = buf_size_ br;
  rp_entries : ∃ es ids, length es = n ∧ map snd es = map to_ushort ids ∧
    free_ids br = free_ids br' ++ rev ids ∧
    io_ring_ (frame w') = buf_ring_add_all (bgid_ br) (io_uring_buf_ring_mask (num_bufs br)) k es (io_ring_ (frame w));
}.

Lemma replenished_none q l g br w k : recv_world q l (with_ring g br w) → replenished q l g br w 0 k br w.
Proof.
  intros Hw. split; try done; [apply buffers_only_refl|]. exists [], []. by rewrite app_nil_r.
Qed.

Lemma replenished_cons q l g br w i br1 w1 n k br' w' :
  rings w1 = rings w → buffers_only w w1 →
  (∀ a, a ∈ p_sentry_ q :: l → headers (heap w1) !! a = headers (heap w) !! a ∧
    payload (heap w1) !! a = payload (heap w) !! a) →
  bgid_ br1 = bgid_ br → num_bufs br1 = num_bufs br → buf_size_ br1 = buf_size_ br →
  free_ids br = free_ids br1 ++ [i] →
  io_ring_ (frame w1) = io_uring_buf_ring_add (bgid_ br) (brk (heap w) + S_hdr)
    (to_unsigned (buf_size_ br)) (to_ushort i) (io_uring_buf_ring_mask (num_bufs br)) k (io_ring_ (frame w)) →
  replenished q l g br1 w1 n (S k) br' w' → replenished q l g br w (S n) k br' w'.
Proof.
  intros Hr Ho Hs Eb En Ez Ef Ei [H1 H2 H3 H4 (H5 & H6 & H7) (es & ids & L & Em & Ef' & Er)]. split; try congruence.
  - by eapply buffers_only_trans.
  - intros a Ha. destruct (H4 a Ha) as [-> ->]. by apply Hs.
  - split_and!; congruence.
  - exists ((brk (heap w) + S_hdr, to_unsigned (buf_size_ br), to_ushort i) :: es), (i :: ids).
    split_and!; [by rewrite <- L|by simpl; rewrite Em| |].
    + rewrite Ef, Ef'. simpl. by rewrite app_assoc.
    + rewrite Er, Ei, Eb, En. done.
Qed.

(** Every iteration hands one buffer over, until the sequence ends, an empty
    buffer is reached or no id is left. *)
Lemma replenish_loop_run q g l2 : ∀ l1 fuel br k w,
  recv_world q (l1 ++ l2) (with_ring g br w) → (length l2 ≤ fuel)%nat →
  let n := (full_prefix (heap w) l2 `min` buf_id_pos_ br)%nat in
  ∃ br' w', replenish_loop fuel (hd (p_sentry_ q) l2) (p_sentry_ q) br k w = (Ret (br', k + n)%nat, w') ∧
    replenished q (l1 ++ l2) g br w n k br' w'.
Proof.
  induction l2 as [|p l2 IH]; intros l1 fuel br k w Hw Hf.
  - exists br, w. split; [|by apply replenished_none]. simpl. rewrite Nat.add_0_r.
    destruct fuel; simpl; by rewrite decide_True.
  - destruct fuel as [|fuel]; simpl in Hf; [lia|].
    pose proof (rw_seq _ _ _ Hw) as Hs. change (heap (with_ring g br w)) with (heap w) in Hs.
    pose proof (rep_nodup _ _ _ Hs) as Hnd. pose proof (rep_null _ _ _ Hs) as Hnull.
    pose proof (rep_seg _ _ _ Hs) as Hseg. apply dlseg_app in Hseg as [_ Hseg]. simpl in Hseg.
    destruct (headers (heap w) !! p) as [h|] eqn:E; [|done]. destruct Hseg as (_ & Hnx & _).
    assert (p ≠ p_sentry_ q) as Hps.
    { intros ->. apply NoDup_cons in Hnd as [Hn _]. apply Hn. set_solver. }
    assert (p ≠ nullptr) as Hpn by (intros ->; apply Hnull; set_solver).
    cbn [replenish_loop hd full_prefix]. rewrite decide_False by done. rewrite E. cbn [fmap option_fmap option_map].
    assert (on_heap (view_empty p) w = (Ret (size_ h =? 0), w)) as Ev.
    { unfold view_empty. unfold on_heap, zoom. rewrite (bind_ret _ _ _ _ _ (view_size_run _ _ _ E)). by destruct w. }
    rewrite (bind_ret _ _ _ _ _ Ev). destruct (Z.eqb_spec (size_ h) 0) as [Ez|Ez].
    { rewrite decide_True by (by f_equal). exists br, w. split; [|by apply replenished_none]. by rewrite Nat.min_0_l, Nat.add_0_r. }
    rewrite (decide_False (P := Some (size_ h) = Some 0)) by congruence.
    case_decide as Epos.
    { exists br, w. rewrite Epos, Nat.min_0_r, Nat.add_0_r. split; [done|by apply replenished_none]. }
    destruct (rw_replenish_one q (l1 ++ p :: l2) g br k w Hw Epos) as
      (i & br1 & w1 & E1 & Hw1 & Hr1 & Hs1 & Ef & Eb & En & Esz & Ep & Ei & Ho).
    rewrite (bind_ret _ _ _ _ _ E1).
    assert (on_heap (iter_next p) w1 = (Ret (next_ h), w1)) as En1.
    { unfold on_heap, zoom. erewrite iter_next_wp; [by destruct w1| |done].
      rewrite (proj1 (Hs1 p ltac:(set_solver))). exact E. }
    rewrite (bind_ret _ _ _ _ _ En1), Hnx.
    replace (l1 ++ p :: l2) with ((l1 ++ [p]) ++ l2) in * by (by rewrite <- app_assoc).
    destruct (IH (l1 ++ [p]) fuel br1 (S k) w1 Hw1 ltac:(lia)) as (br' & w' & E' & Hrep).
    rewrite (full_prefix_ext (heap w)) in E', Hrep by (intros a Ha; apply Hs1; set_solver).
    exists br', w'. assert (S (full_prefix (heap w) l2) `min` buf_id_pos_ br =
      S (full_prefix (heap w) l2 `min` buf_id_pos_ br1))%nat as -> by lia.
    split; [by rewrite E', Nat.add_succ_r|]. by eapply replenished_cons.
Qed.

Context {HL : IoUringBufsLaws R}.

(** [replenish]: as many buffers go to the kernel as were received, while there
    are ids, and are published together. *)
Lemma wp_replenish q l w g br (Q : unit → ctx R → Prop) :
  recv_world q l w → rings w !! (g `mod` 2 ^ 16) = Some br →
  (∀ br' w' es ids, recv_world q l w' → buffers_only w w' → rings w' = <[g `mod` 2 ^ 16 := br']> (rings w) →
     (∀ a, a ∈ l → bytes_of (heap w') a = bytes_of (heap w) a) →
     length es = (full_prefix (heap w) l `min` buf_id_pos_ br)%nat →
     map snd es = map to_ushort ids → free_ids br = free_ids br' ++ rev ids →
     buf_ring_provided (bgid_ br) (io_ring_ (frame w')) = buf_ring_provided (bgid_ br) (io_ring_ (frame w)) ++ es →
     Q tt w') →
  wp (replenish g q) w Q.
Proof.
  intros Hw Hg HQ. set (G := g `mod` 2 ^ 16) in *. unfold replenish.
  assert (with_ring G br w = w) as Ew.
  { unfold with_ring, rings in *. destruct w as [[] hp ck co]. unfold upd. cbn in *. do 2 f_equal. by apply insert_id. }
  apply wp_bind. unfold wp at 1. rewrite get_buffer_group_run. fold G. fold (rings w). rewrite Hg.
  apply wp_bind, wp_on_heap, wp_gets.
  replace (w <| heap := heap w |>) with w by (by destruct w).
  pose proof (rw_seq _ _ _ Hw) as Hs. rewrite (rep_begin _ _ _ Hs). unfold seq_end.
  rewrite <- Ew in Hw. 
  destruct (replenish_loop_run q G l [] (size (headers (heap w))) br 0 w Hw (rep_fuel _ _ _ Hs)) as (br' & w1 & E & Hrep).
  cbn [app] in Hrep. apply wp_bind. unfold wp at 1. rewrite E. clear E.
  destruct Hrep as [R1 R2 R3 R4 (R5 & _) (es & ids & Hlen & Hids & Hfree & Hring)].
  set (n := (full_prefix (heap w) l `min` buf_id_pos_ br)%nat) in *.
  assert (buffers_only w (with_ring G br' w1)) as Hbo.
  { eapply buffers_only_trans; [exact R3|]. apply (buffers_only_ring _ G br). by rewrite R2. }
  assert (∀ a, a ∈ l → bytes_of (heap w1) a = bytes_of (heap w) a) as Hbytes.
  { intros a Ha. destruct (R4 a ltac:(by right)) as [E1 E2]. unfold bytes_of, block. by rewrite E1, E2. }
  cbn [Nat.add]. apply wp_bind. unfold wp at 1, set_buffer_group. rewrite on_frame_modify.
  change (w1 <| frame ::= _ |>) with (with_ring G br' w1).
  pose proof (buf_ring_publish (bgid_ br) (io_uring_buf_ring_mask (num_bufs br)) es (io_ring_ (frame w))) as Hpub.
  apply wp_when; intros En.
  - apply bool_decide_eq_true in En. unfold wp. rewrite on_ring_modify.
    eapply (HQ br' _ es ids); [| | |exact Hbytes|exact Hlen|exact Hids|exact Hfree|].
    + eapply recv_world_ext; [..|exact R1]; done.
    + eapply buffers_only_trans; [exact Hbo|]. split; try done; apply buf_ring_advance_sq.
    + cbn. rewrite <- R2. done.
    + cbn. rewrite R5, Hring, <- Hlen. exact Hpub.
  - apply bool_decide_eq_false in En. assert (es = []) as -> by (destruct es; [done|simpl in Hlen; lia]).
    eapply (HQ br' _ [] ids); [exact R1|exact Hbo|by rewrite <- R2|exact Hbytes|exact Hlen|exact Hids|exact Hfree|].
    rewrite app_nil_r. cbn. by rewrite Hring.
Qed.

(** Moving the sequence out leaves an empty one. *)
Lemma wp_rw_move q l w (Q : recv_buffer_sequence * recv_buffer_sequence → ctx R → Prop) :
  recv_world q l w →
  (∀ q1 q2 m', seq_rep m' q1 l → Forall (block_ok m') l → recv_world q2 [] (w <| heap := m' |>) →
     (∀ a, a ∈ l → bytes_of m' a = bytes_of (heap w) a) → Q (q1, q2) (w <| heap := m' |>)) →
  wp (on_heap (sequence_move q)) w Q.
Proof.
  intros Hw HQ. pose proof Hw as [Hh Hs Hq Hok Hr Hsep Hap Hk Hot]. apply wp_on_heap. unfold sequence_move. apply wp_bind.
  apply wp_new_seq; [done|]. intros q0 m0 Hs0 Hh0 Hf0 Hpd Hpay0 Hm0. set (p := p_sentry_ q0) in *.
  assert (∀ a, a ∈ p_sentry_ q :: l ∨ (∃ g, in_ring w g a) ∨ is_other a → a ≠ p) as Hfresh.
  { intros a Ha ->. destruct (rw_alloc_some _ _ _ _ Hw Ha) as [h E]. congruence. }
  assert (p ∉ p_sentry_ q :: l) as Hpl by (intros Hx; by apply (Hfresh p); [left|]).
  assert (seq_rep m0 q l) as Hs1 by (eapply seq_rep_same; [|exact Hs]; intros a Ha; apply Hm0; by intros ->).
  eapply wp_mono; [apply (steal_wp m0 q0 q l); [done|done|done]|].
  intros [q1 q2] m' (Hr1 & Hr2 & Hl & E1 & E2). cbn in Hr1, Hr2, E1, E2. fold p in Hl, E2.
  assert (default_buf_header ∉ p :: p_sentry_ q :: l) as Hd by (pose proof (rep_default _ _ _ Hs); mem_tac).
  assert (∀ a, a ≠ p → block_ok (heap w) a → block_ok m' a) as Hbok.
  { intros a Ha Hb. eapply links_only_block_ok; [exact Hl|].
    apply (block_ok_same (heap w)); [by apply Hm0|by rewrite Hpay0|done]. }
  apply HQ; [done| | |].
  - rewrite Forall_forall in *. intros a Ha. apply Hbok; [|by apply Hok]. intros ->. apply Hpl. by right.
  - split; cbn; [|done|by rewrite E2|constructor| | |done| |].
    + eapply heap_wf_same; [apply Hl| |by apply Hl|done]. intros a. by apply (links_only_is_Some _ _ _ a Hl).
    + intros g br Hg. destruct (Hr g br Hg) as [Hbw ?]. split; [|done].
      eapply links_only_ring_wf; [exact Hl|done|]. eapply wf_heap; [exact Hbw| |apply Hh0].
      intros a Ha Had. rewrite Hm0; [done|]. apply (Hfresh a). right. left. exists g. by exists br.
    + intros g a Ha. destruct (Hsep g a Ha) as (Hal & (? & ? & ?) & ?).
      assert (a ≠ p) as Hne by (apply (Hfresh a); right; left; by exists g).
      split_and!; [|split_and!; [done|done|]|by apply Hbok].
      * rewrite E2. apply not_elem_of_cons in Hal as [? ?]. apply not_elem_of_cons. split; [done|apply not_elem_of_nil].
      * rewrite (lo_out _ _ _ Hl), Hm0; [done|done|mem_tac].
    + apply (kept_links (p :: p_sentry_ q :: l) m0); [|done|].
      * apply (kept_same (heap w)); [done|]. intros a Ha. rewrite Hm0, Hpay0; [done|].
        apply (Hfresh a). by right; right.
      * intros a Ha Hx. apply elem_of_cons in Hx as [->|Hx]; [|by apply (proj1 (Hot a Ha))].
        apply (Hfresh p); [by right; right|done].
    + intros a Ha. destruct (Hot a Ha) as [[? ?]%not_elem_of_cons ?]. split; [|done].
      rewrite E2. apply not_elem_of_cons. split; [done|apply not_elem_of_nil].
  - intros a Ha. rewrite (links_only_bytes _ _ _ _ Hl). unfold bytes_of, block. rewrite Hm0, Hpay0; [done|].
    intros ->. apply Hpl. by right.
Qed.

(** Resuming with buffers hands all of them over and leaves none. *)
Lemma wp_recv_resume_data q l w s br (Q : result recv_buffer_sequence → cell R stream_impl → Prop)
    :
  buffers_ (st_recv s) = q → recv_world q l w → l ≠ [] →
  rings w !! (buffer_group_id_ (st_recv s) `mod` 2 ^ 16) = Some br →
  (∀ q1 q2 w' es ids br', recv_world q2 [] w' → buffers_only w w' → seq_rep (heap w') q1 l →
     Forall (block_ok (heap w')) l → all_bytes (heap w') l = all_bytes (heap w) l →
     rings w' = <[buffer_group_id_ (st_recv s) `mod` 2 ^ 16 := br']> (rings w) →
     length es = (full_prefix (heap w) l `min` buf_id_pos_ br)%nat →
     map snd es = map to_ushort ids → free_ids br = free_ids br' ++ rev ids →
     buf_ring_provided (bgid_ br) (io_ring_ (frame w')) = buf_ring_provided (bgid_ br) (io_ring_ (frame w)) ++ es →
     Q (Ok q1) (Cell w' (Some (upd_recv (λ f, f <| buffers_ := q2 |>) s)))) →
  wp recv_await_resume (Cell w (Some s)) Q.
Proof.
  intros Hq Hw Hl Hbr HQ. unfold recv_await_resume. cell_steps. rewrite Hq.
  pose proof (rep_empty _ _ _ (rw_seq _ _ _ Hw)) as He. rewrite bool_decide_eq_false_2 in He by done. rewrite He.
  apply wp_assert; [done|]. cell_steps. eapply wp_replenish; [exact Hw|exact Hbr|].
  intros br' w1 es ids Hw1 Ho1 Hr1 Hb1 Hlen Hids Hfree Hpub. cell_steps.
  eapply wp_rw_move; [exact Hw1|]. intros q1 q2 m' Hs1 Hok1 Hw2 Hb2. cell_steps.
  apply wp_assert; [by rewrite (rep_empty _ _ _ (rw_seq _ _ _ Hw2))|]. cell_steps.
  apply wp_assert.
  { apply Z.ltb_lt. rewrite (rep_num _ _ _ Hs1). destruct l; [done|]. simpl. lia. }
  cell_steps. eapply (HQ q1 q2 _ es ids br'); try done.
  - eapply buffers_only_trans; [exact Ho1|]. apply buffers_only_heap.
  - apply all_bytes_ext. intros a Ha. cbn. by rewrite Hb2, Hb1.
Qed.

(** ** Delivering data *)

Variable self : ptr.
#[local] Hint Extern 0 (AwaitableBase _ stream_impl) => exact (stream_awaitable_base self) : typeclass_instances.

Lemma wp_stream_dispatch k e w s (Q : option handle → cell R stream_impl → Prop) :
  1 ≤ st_count_ s →
  wp (stream_process_cqe self k e) (Cell w (Some s)) (λ _ c,
    wp (stream_handle k) c (λ h c', wp intrusive_ptr_release c' (λ _ c'', Q h c''))) →
  wp (dispatch k e) (Cell w (Some s)) Q.
Proof.
  intros Hc HQ. unfold dispatch. apply wp_finally_ret. cell_steps.
  apply wp_assert; [by apply Z.leb_le|]. apply wp_bind. exact HQ.
Qed.
Definition filled (p : ptr) (bytes : list Z) m : mem :=
  m <| payload ::= <[p := bytes ++ drop (length bytes) (block m p)]> |>.

Lemma block_filled p bytes m a : block (filled p bytes m) a =
  if decide (a = p) then bytes ++ drop (length bytes) (block m p) else block m a.
Proof.
  unfold block, filled. cbn. case_decide; subst; [by rewrite lookup_insert_eq|by rewrite lookup_insert_ne].
Qed.

Lemma block_ok_filled p bytes m a : (length bytes ≤ length (block m p))%nat →
  block_ok m a → block_ok (filled p bytes m) a.
Proof.
  intros Hl (h & E & Hs & Hc). exists h. split_and!; [done|lia|lia|]. rewrite Hc, block_filled.
  case_decide; subst; [|done]. rewrite length_app, length_drop. lia.
Qed.

Lemma wp_kernel_fill q l w g br i p bytes (Q : unit → ctx R → Prop) :
  recv_world q l w → rings w !! (g `mod` 2 ^ 16) = Some br → bufs_ br !! i = Some p →
  p ≠ default_buf_header → (length bytes ≤ length (block (heap w) p))%nat →
  (recv_world q l (w <| heap ::= filled p bytes |>) → p ∉ l → Q tt (w <| heap ::= filled p bytes |>)) →
  wp (kernel_fill g i bytes) w Q.
Proof.
  intros Hw Hg Hi Hp Hlen HQ. pose proof Hw as [Hh Hs Hq Hok Hr Hsep Hap Hk Hot].
  assert (in_ring w (g `mod` 2 ^ 16) p) as Hin by (exists br; split_and!; [done|by eapply list_elem_of_lookup_2|done]).
  destruct (Hsep _ _ Hin) as ([_ Hpl]%not_elem_of_cons & _).
  unfold kernel_fill. apply wp_bind. unfold wp at 1. rewrite get_buffer_group_run. fold (rings w). rewrite Hg.
  unfold get_buf. rewrite Hi. wp_steps. apply wp_on_heap. unfold wp, write_block.
  rewrite (proj2 (Z.leb_le (0 + _) _)) by lia. cbn [andb]. change (0 <=? 0) with true. cbn [andb].
  apply HQ; [|done].
  assert (∀ a, block_ok (heap w) a → block_ok (filled p bytes (heap w)) a) as Hbok by (intros a; by apply block_ok_filled).
  split; cbn; try done.
  - eapply heap_wf_same; [..|exact Hh]; done.
  - eapply seq_rep_same; [|exact Hs]. done.
  - by eapply Forall_impl.
  - intros g' br' Hg'. destruct (Hr g' br' Hg'). split; [|done]. eapply wf_heap; [eassumption|done|apply Hh].
  - intros g' a Ha. destruct (Hsep g' a Ha) as (? & (? & ? & ?) & ?). split_and!; [done|split_and!; done|by apply Hbok].
  - apply (kept_same (heap w)); [done|]. intros a Ha. split; [done|]. unfold filled. cbn. apply lookup_insert_ne.
    intros <-. by apply (proj2 (Hot p Ha) (g `mod` 2 ^ 16)).
Qed.

(** The stream after one delivery. *)
Definition delivered q' (t : Z) s : stream_impl :=
  upd_recv (λ f, RecvFrame q' (ec_ f) (p_buf_ring_ f) None t (buffer_group_id_ f) true) s.

Lemma wp_deliver q l w s g br i p bytes (Q : option handle → cell R stream_impl → Prop) :
  1 ≤ st_count_ s → buffers_ (st_recv s) = q → recv_world q l w → p_buf_ring_ (st_recv s) = Some g →
  rings w !! (g `mod` 2 ^ 16) = Some br → bufs_ br !! i = Some p → p ≠ default_buf_header →
  bytes ≠ [] → (length bytes ≤ length (block (heap w) p))%nat →
  (∀ q' w', recv_world q' (l ++ [p]) w' → buffers_only w w' →
     rings w' = <[g `mod` 2 ^ 16 := taken br i]> (rings w) →
     (∀ a, a ≠ p → block (heap w') a = block (heap w) a) →
     all_bytes (heap w') (l ++ [p]) = all_bytes (heap w) l ++ bytes →
     Q (rf_h_ (st_recv s)) (Cell w' (Some (delivered q' (clock w) s)))) →
  wp (deliver self g i bytes true) (Cell w (Some s)) Q.
Proof.
  intros Hc Hq Hw Hb Hg Hi Hp Hne Hlen HQ. unfold deliver. cell_steps.
  eapply wp_kernel_fill; [done..|]. intros Hw1 Hpl. set (w1 := w <| heap ::= filled p bytes |>) in *.
  apply wp_stream_dispatch; [done|]. cbn [stream_process_cqe].
  assert (block (heap w1) p = bytes ++ drop (length bytes) (block (heap w) p)) as Ebl.
  { unfold w1. cbn. rewrite block_filled. by rewrite decide_True. }
  eapply (wp_recv_data q l w1 s g br i p); [done..| |].
  { rewrite Ebl, length_app. destruct bytes; [done|]. simpl. lia. }
  intros q' w' Hw' Hbo Hr' Hpay _ Hbytes. cbn [stream_handle]. unfold exchange_h. cell_steps.
  destruct (recv_handle _) as [h f] eqn:Eh. unfold recv_handle in Eh. injection Eh as <- <-. cell_steps.
  apply wp_cell_release; cbn; [intros _|lia]. match goal with |- Q _ (Cell _ (Some ?s1)) =>
    assert (s1 = delivered q' (clock w) s) as -> by (destruct s as [? ? ? ? ? []]; unfold delivered, recv_done, upd_recv, upd; cbn; f_equal; lia) end.
  apply HQ; [done|eapply buffers_only_trans; [apply buffers_only_heap|exact Hbo]|by rewrite Hr'| |].
  - intros a Ha. unfold block. rewrite Hpay. change (block (heap w1) a = block (heap w) a).
    unfold w1. cbn. rewrite block_filled. by rewrite decide_False.
  - rewrite Hbytes, Ebl, Nat2Z.id, take_app_le, take_ge by lia. f_equal.
    apply all_bytes_ext. intros a Ha. unfold bytes_of, w1. cbn. rewrite block_filled, decide_False by (by intros ->).
    done.
Qed.
Lemma chunks_fit_tail m m' br i p bytes chunks : buf_ring_wf m br →
  bufs_ br !! i = Some p → p ≠ default_buf_header →
  (∀ a, a ≠ p → block m' a = block m a) →
  chunks_fit m br ((i, bytes) :: chunks) → chunks_fit m' (taken br i) chunks.
Proof.
  intros Hw Hi Hp Hb [[Hni Hnd]%NoDup_cons [_ Hf]%Forall_cons]. cbn in Hni, Hnd. split; [done|].
  rewrite Forall_forall in *. intros [j b] Hc. destruct (Hf _ Hc) as (Hne & p' & Hj & Hp' & Hl). cbn in *.
  assert (j ≠ i) as Hji by (intros ->; apply Hni, list_elem_of_fmap; by exists (i, b)).
  split; [done|]. exists p'. split_and!; [by rewrite list_lookup_insert_ne|done|].
  rewrite Hb; [done|]. intros ->. by apply Hji, (wf_distinct _ _ Hw j i p).
Qed.

Lemma wp_deliver_all g chunks : ∀ q l w s br (Q : list handle → cell R stream_impl → Prop),
  1 ≤ st_count_ s → buffers_ (st_recv s) = q → recv_world q l w → p_buf_ring_ (st_recv s) = Some g →
  rings w !! (g `mod` 2 ^ 16) = Some br → chunks_fit (heap w) br chunks → chunks ≠ [] →
  (∀ q' l' w' t br', recv_world q' l' w' → buffers_only w w' → rings w' !! (g `mod` 2 ^ 16) = Some br' →
     l' ≠ [] → all_bytes (heap w') l' = all_bytes (heap w) l ++ concat chunks.*2 →
     Q (option_list (rf_h_ (st_recv s))) (Cell w' (Some (delivered q' t s)))) →
  wp (deliver_all self g chunks) (Cell w (Some s)) Q.
Proof.
  induction chunks as [|[i b] chunks IH]; intros q l w s br Q Hc Hq Hw Hb Hg Hfit Hne HQ; [done|].
  pose proof Hfit as [_ [(Hbne & p & Hi & Hp & Hl) _]%Forall_cons]. cbn in Hbne, Hi, Hl.
  destruct (rw_rings _ _ _ Hw _ _ Hg) as [Hbw _].
  cbn [deliver_all]. apply wp_bind. eapply wp_deliver; [done..|].
  intros q1 w1 Hw1 Ho1 Hr1 Hbl1 Hby1. apply wp_bind.
  assert (rings w1 !! (g `mod` 2 ^ 16) = Some (taken br i)) as Hg1 by (rewrite Hr1; apply lookup_insert_eq).
  destruct (decide (chunks = [])) as [->|Hne'].
  { cbn [deliver_all]. do 2 apply wp_ret. rewrite app_nil_r. eapply HQ; try done.
    - by destruct l.
    - cbn. by rewrite app_nil_r. }
  eapply (IH q1 (l ++ [p]) w1); try done.
  - eapply (chunks_fit_tail (heap w)); done.
  - intros q2 l2 w2 t br2 Hw2 Ho2 Hg2 Hl2 Hby2. apply wp_ret. cbn. rewrite app_nil_r.
    assert (delivered q2 t (delivered q1 (clock w) s) = delivered q2 t s) as -> by (by destruct s as [? ? ? ? ? []]).
    eapply HQ; try done; [by eapply buffers_only_trans|].
    rewrite Hby2, Hby1. cbn. by rewrite app_assoc.
Qed.

(** C6. Data reaches the program in order and complete: when completions fill
    buffers of the stream's ring with some chunks, the first of them resumes the
    coroutine that waits, and the sequence it receives flattens to the chunks one
    after the other; the stream is left with an empty sequence and a well-formed
    ring, ready for the next receive. *)
Theorem recv_delivers_in_order g chunks w s br :
  2 ≤ st_count_ s → recv_world (buffers_ (st_recv s)) [] w →
  p_buf_ring_ (st_recv s) = Some g → buffer_group_id_ (st_recv s) = g →
  rings w !! (g `mod` 2 ^ 16) = Some br → chunks_fit (heap w) br chunks → chunks ≠ [] →
  Z.of_nat (length (concat chunks.*2)) < 2 ^ 64 →
  ∃ q w' s', (hs ← deliver_all self g chunks; r ← async_recv_finish self; mret (hs, r)) (Cell w (Some s)) =
      (Ret (option_list (rf_h_ (st_recv s)), Ok q), Cell w' (Some s')) ∧
    to_bytes q (heap w') = (Ret (concat chunks.*2), heap w') ∧
    recv_world (buffers_ (st_recv s')) [] w' ∧ st_count_ s' = st_count_ s - 1 ∧
    rf_initiated_ (st_recv s') = true ∧ rf_h_ (st_recv s') = None ∧ buffers_only w w'.
Proof.
  intros Hc Hw Hb Hid Hg Hfit Hne Hlen.
  match goal with |- context [?m (Cell w (Some s))] =>
    assert (wp m (Cell w (Some s)) (λ r c, ∃ q w' s', r = (option_list (rf_h_ (st_recv s)), Ok q) ∧
      c = Cell w' (Some s') ∧ to_bytes q (heap w') = (Ret (concat chunks.*2), heap w') ∧
      recv_world (buffers_ (st_recv s')) [] w' ∧ st_count_ s' = st_count_ s - 1 ∧
      rf_initiated_ (st_recv s') = true ∧ rf_h_ (st_recv s') = None ∧ buffers_only w w')) as Hm end.
  2:{ apply wp_run in Hm as (r & c & E & q & w' & s' & -> & -> & H). by exists q, w', s'. }
  apply wp_bind. eapply wp_deliver_all; [lia|done..|].
  intros q1 l1 w1 t br1 Hw1 Ho1 Hg1 Hl1 Hby1. apply wp_bind. unfold async_recv_finish. apply wp_finally_ret.
  eapply (wp_recv_resume_data q1 l1 w1 (delivered q1 t s)); [done|done|done|cbn; by rewrite Hid|].
  intros q2 q3 w2 es ids br2 Hw2 Ho2 Hs2 Hok2 Hby2 _ _ _ _ _.
  apply wp_cell_release; cbn; [intros _|lia]. eexists q2, w2, _.
  split_and!; [done|done| | |cbn; lia|done|done|by eapply buffers_only_trans].
  - assert (all_bytes (heap w2) l1 = concat chunks.*2) as E by (rewrite Hby2, Hby1; done).
    rewrite <- E. eapply (to_bytes_run _ _ _ Hs2 Hok2). by rewrite E.
  - exact Hw2.
Qed.

(** C28. A receive that fails ends: the waiting coroutine is resumed with the error
    of the completion, or with ETIMEDOUT when it was cancelled and the program has
    not cancelled the stream; afterwards the error is cleared, no receive is in
    flight and both references are gone. *)
Theorem recv_failure_reported w s res flags :
  3 ≤ st_count_ s → res < 0 → flag_set flags IORING_CQE_F_MORE = false →
  ec_ (st_recv s) = 0 → seq_empty (buffers_ (st_recv s)) = true →
  ∃ s', (h ← dispatch FkRecv (Cqe (Some (self, FkRecv)) res flags); r ← async_recv_finish self; mret (h, r))
      (Cell w (Some s)) =
    (Ret (rf_h_ (st_recv s), Err (recv_error res (stream_cancelled_ s))), Cell w (Some s')) ∧
    ec_ (st_recv s') = 0 ∧ rf_initiated_ (st_recv s') = false ∧ rf_h_ (st_recv s') = None ∧
    buffers_ (st_recv s') = buffers_ (st_recv s) ∧ st_count_ s' = st_count_ s - 2.
Proof.
  intros Hc Hres Hm Hec Hq.
  match goal with |- context [?m (Cell w (Some s))] =>
    assert (wp m (Cell w (Some s)) (λ r c, ∃ s', r = (rf_h_ (st_recv s), Err (recv_error res (stream_cancelled_ s))) ∧
      c = Cell w (Some s') ∧ ec_ (st_recv s') = 0 ∧ rf_initiated_ (st_recv s') = false ∧ rf_h_ (st_recv s') = None ∧
      buffers_ (st_recv s') = buffers_ (st_recv s) ∧ st_count_ s' = st_count_ s - 2)) as Hx end.
  2:{ apply wp_run in Hx as (r & c & E & s' & -> & -> & H). by exists s'. }
  apply wp_bind, wp_stream_dispatch; [lia|]. cbn [stream_process_cqe]. apply wp_recv_error; [done..|].
  cbn [stream_handle]. unfold exchange_h. cell_steps.
  destruct (recv_handle _) as [h f] eqn:Eh. unfold recv_handle in Eh. injection Eh as <- <-. cell_steps.
  apply wp_cell_release; cbn; [intros _|lia]. unfold async_recv_finish. apply wp_bind, wp_finally_ret.
  unfold recv_await_resume. cell_steps. cbn. rewrite Hq. cbn.
  assert (recv_error res (stream_cancelled_ s) ≠ 0) as Hne by (unfold recv_error, ETIMEDOUT; case_match; lia).
  apply wp_assert; [by rewrite (proj2 (Z.eqb_neq _ _) Hne)|]. cell_steps. cbn.
  apply wp_cell_release; cbn; [intros _|lia]. eexists. split_and!; try done. cbn. lia.
Qed.
End RecvLemmas.
