(* ===== verification/StreamInv.v ===== *)
(** A stream or a client in use: what the program and the kernel may do with it,
    the invariant, and that the operations a client shares with a stream keep it.
    [StreamSafe] adds the connections and puts the steps together.

    [stream_sys] adds what the invariant talks about to the object: the handles
    and awaitables of the program and the completions still to come. *)

From S2P Require Import Prelude Uring Buffer BufferSpec BufferFlat Frame BufRing Executor.
From S2P Require Import Awaitable Duration Slots Stream StreamRecv.

Record stream_sys := StreamSys {
  ss_handles : nat; ss_awaiting : nat;
  n_cancel : nat; n_close : nat; n_shutdown : nat; n_send : nat; n_recv : nat;
  n_timeout : nat; n_timeout_cancel : nat; n_socket : nat; n_connect : nat }.
#[export] Instance eta_stream_sys : Eta stream_sys := λ y,
  StreamSys (ss_handles y) (ss_awaiting y) (n_cancel y) (n_close y) (n_shutdown y) (n_send y) (n_recv y)
    (n_timeout y) (n_timeout_cancel y) (n_socket y) (n_connect y).

Inductive stream_op :=
| So_copy | So_drop
| So_timeout (ts : kernel_timespec)
| So_set_buffer_group (bgid : Z)
| So_close (h : handle) | So_close_finish
| So_cancel (h : handle) | So_cancel_finish
| So_shutdown (how : Z) (h : handle) | So_shutdown_finish
| So_send (buf : list Z) (h : handle) | So_send_finish
| So_recv (h : handle) | So_recv_finish
| So_abandon | So_abandon_send        (** a waiting coroutine is destroyed *)
| So_tick (t : Z)
| So_cancel_cqe (res : Z) | So_close_cqe (res : Z) | So_shutdown_cqe (res : Z) | So_send_cqe (res : Z)
| So_timeout_cqe (res flags : Z) | So_timeout_cancel_cqe (res : Z)
| So_data_cqe (i : nat) (len : Z) (more : bool) | So_eof_cqe | So_error_cqe (res : Z)
(** what only a client has *)
| So_client_drop
| So_connect (addr : sockaddr) (h : handle) | So_connect_finish | So_abandon_connect
| So_socket_cqe (res : Z) | So_connect_cqe (res : Z).

Section Sys.
Context {R : Type} {HU : IoUring R} {HB : IoUringBufs R} {HS : UnorderedBegin} {HO : Others}.
Variable self : ptr.
#[local] Hint Extern 0 (AwaitableBase _ stream_impl) => exact (stream_awaitable_base self) : typeclass_instances.

Definition refs (y : stream_sys) : Z :=
  Z.of_nat (ss_handles y) + Z.of_nat (ss_awaiting y) + Z.of_nat (n_cancel y) + Z.of_nat (n_close y) +
  Z.of_nat (n_shutdown y) + Z.of_nat (n_send y) + Z.of_nat (n_recv y) + Z.of_nat (n_timeout y) +
  Z.of_nat (n_timeout_cancel y) + Z.of_nat (n_socket y) + Z.of_nat (n_connect y).

(** The kernel reports data only for a buffer it holds. *)
Definition buffer_at (w : ctx R) (s : stream_impl) (i : nat) : option ptr :=
  g ← p_buf_ring_ (st_recv s);
  br ← buf_rings_ (frame w) !! (g `mod` 2 ^ 16);
  p ← bufs_ br !! i;
  guard (p ≠ default_buf_header);; Some p.

Definition is_client (s : stream_impl) : bool := match st_client s with Some _ => true | None => false end.

(** What only a client can do. *)
Definition client_op (op : stream_op) : bool :=
  match op with
  | So_client_drop | So_connect _ _ | So_connect_finish | So_abandon_connect | So_socket_cqe _ | So_connect_cqe _ => true
  | _ => false
  end.

(** A client may start a connection when its frames are fresh (the assertions of
    [await_suspend] and [await_resume]) and no completion of an earlier one is to
    come; while one is in flight the call is refused.  What goes wrong otherwise
    is in [StreamRounds]. *)
Definition connectable (y : stream_sys) (c : client_part) : bool :=
  initiated_ (cl_socket c) ||
  (negb (initiated_ (cl_connect c)) && negb (done_ (cl_connect c)) && (n_connect y =? 0)%nat).

(** One completion has asked to resume the coroutine that connects. *)
Definition connect_resumed (c : client_part) : bool :=
  if res_ (cl_socket c) <? 0 then negb (done_ (cl_connect c)) else done_ (cl_connect c).

(** What the program and the kernel may do next; what [BOOST_ASSERT]s demand of
    the caller is part of it. *)
Definition stream_op_ok (op : stream_op) (y : stream_sys) (w : ctx R) (s : stream_impl) : bool :=
  match op with
  | So_copy | So_drop | So_timeout _ | So_set_buffer_group _ | So_close _ | So_send _ _ | So_recv _ =>
      negb (ss_handles y =? 0)%nat
  | So_cancel _ | So_shutdown _ _ => negb (ss_handles y =? 0)%nat && negb (fd_ s =? -1)
  | So_close_finish | So_cancel_finish | So_shutdown_finish | So_send_finish | So_abandon | So_abandon_send =>
      negb (ss_awaiting y =? 0)%nat
  | So_recv_finish =>
      negb (ss_awaiting y =? 0)%nat && (negb (seq_empty (buffers_ (st_recv s))) || negb (ec_ (st_recv s) =? 0))
  | So_tick t => clock w <=? t
  | So_cancel_cqe _ => negb (n_cancel y =? 0)%nat
  | So_close_cqe _ => negb (n_close y =? 0)%nat
  | So_shutdown_cqe _ => negb (n_shutdown y =? 0)%nat
  | So_send_cqe _ => negb (n_send y =? 0)%nat
  | So_timeout_cancel_cqe _ => negb (n_timeout_cancel y =? 0)%nat
  | So_timeout_cqe res flags =>
      negb (n_timeout y =? 0)%nat &&
      ((res =? - ECANCELED) ||
       (((res =? - ETIME) || (res =? 0)) &&
        ((0 <=? fd_ s) || negb (recv_is_active (st_recv s) || send_is_active (st_send s)))))
  | So_data_cqe i len more =>
      negb (n_recv y =? 0)%nat &&
      match buffer_at w s i with
      | Some p => (0 <? len) && (len <=? Z.of_nat (length (block (heap w) p)))
      | None => false
      end
  | So_eof_cqe => negb (n_recv y =? 0)%nat
  | So_error_cqe res => negb (n_recv y =? 0)%nat && (res <? 0)
  | So_client_drop => negb (ss_handles y =? 0)%nat && is_client s
  | So_connect _ _ => negb (ss_handles y =? 0)%nat && from_option (connectable y) false (st_client s)
  | So_connect_finish => negb (ss_awaiting y =? 0)%nat && from_option connect_resumed false (st_client s)
  | So_abandon_connect => negb (ss_awaiting y =? 0)%nat && is_client s
  | So_socket_cqe _ => negb (n_socket y =? 0)%nat && is_client s
  (** the connection is linked to the socket operation: it completes after it *)
  | So_connect_cqe _ => negb (n_connect y =? 0)%nat && (n_socket y =? 0)%nat && is_client s
  end.

Definition stream_cqe (k : frame_kind) (res flags : Z) : M (cell R stream_impl) (option handle) :=
  dispatch k (Cqe (Some (self, k)) res flags).

(** An operation in flight has made no progress for too long. *)
Definition stream_expired (w : ctx R) (s : stream_impl) : bool :=
  (recv_is_active (st_recv s) && (timespec_ns (ts_ s) <=? clock w - last_recv_ (st_recv s))) ||
  (send_is_active (st_send s) && (timespec_ns (ts_ s) <=? clock w - last_send_ (st_send s))).

Definition run_stream_op (op : stream_op) (y : stream_sys) (w : ctx R) (s : stream_impl) :
    M (cell R stream_impl) stream_sys :=
  match op with
  | So_copy => intrusive_ptr_add_ref ;; mret (y <| ss_handles ::= S |>)
  | So_drop => stream_dtor self ;; mret (y <| ss_handles ::= pred |>)
  | So_timeout ts => stream_timeout self ts ;; mret y
  | So_set_buffer_group bgid => attempt (stream_set_buffer_group bgid) ;; mret y
  | So_close h => async_close self h ;; mret (y <| ss_awaiting ::= S |> <| n_close ::= S |>)
  | So_close_finish => async_close_finish self ;; mret (y <| ss_awaiting ::= pred |>)
  | So_cancel h => async_cancel self h ;; mret (y <| ss_awaiting ::= S |> <| n_cancel ::= S |>)
  | So_cancel_finish => async_cancel_finish self ;; mret (y <| ss_awaiting ::= pred |>)
  | So_shutdown how h =>
      async_shutdown_start self how h ;; mret (y <| ss_awaiting ::= S |> <| n_shutdown ::= S |>)
  | So_shutdown_finish => async_shutdown_finish self ;; mret (y <| ss_awaiting ::= pred |>)
  | So_send buf h =>
      r ← attempt (async_send self buf h);
      match r with
      | inl _ => mret (y <| ss_awaiting ::= S |> <| n_send ::= S |>)
      | inr _ => mret y
      end
  | So_send_finish => async_send_finish self ;; mret (y <| ss_awaiting ::= pred |>)
  | So_recv h =>
      r ← attempt (async_recv self h);
      match r with
      | inl None => mret (y <| ss_awaiting ::= S |> <| n_recv := if rf_initiated_ (st_recv s) then n_recv y else S (n_recv y) |>)
      | _ => mret y
      end
  | So_recv_finish => async_recv_finish self ;; mret (y <| ss_awaiting ::= pred |>)
  | So_abandon => intrusive_ptr_release ;; mret (y <| ss_awaiting ::= pred |>)
  | So_abandon_send => send_awaitable_dtor self ;; mret (y <| ss_awaiting ::= pred |>)
  | So_tick t => on_world (modify (λ w, w <| clock := t |>)) ;; mret y
  | So_cancel_cqe res => stream_cqe FkCancel res 0 ;; mret (y <| n_cancel ::= pred |>)
  | So_close_cqe res => stream_cqe FkClose res 0 ;; mret (y <| n_close ::= pred |>)
  | So_shutdown_cqe res => stream_cqe FkShutdown res 0 ;; mret (y <| n_shutdown ::= pred |>)
  | So_send_cqe res => stream_cqe FkSend res 0 ;; mret (y <| n_send ::= pred |>)
  | So_timeout_cqe res flags =>
      stream_cqe FkTimeout res flags ;;
      mret (if res =? - ECANCELED then
              if to_cancelled_ (st_timeout s) then y <| n_timeout ::= pred |> else y
            else if stream_expired w s then y <| n_timeout_cancel ::= S |> else y)
  | So_timeout_cancel_cqe res => stream_cqe FkTimeoutCancel res 0 ;; mret (y <| n_timeout_cancel ::= pred |>)
  | So_data_cqe i len more =>
      stream_cqe FkRecv len (data_flags i more) ;; mret (if more then y else y <| n_recv ::= pred |>)
  | So_eof_cqe => stream_cqe FkRecv 0 0 ;; mret (y <| n_recv ::= pred |>)
  | So_error_cqe res => stream_cqe FkRecv res 0 ;; mret (y <| n_recv ::= pred |>)
  | So_client_drop => client_dtor self ;; mret (y <| ss_handles ::= pred |>)
  | So_connect addr h =>
      r ← attempt (async_connect self addr h);
      match r with
      | inl None =>
          mret (y <| ss_awaiting ::= S |> <| n_connect ::= S |>
                  <| n_socket ::= if (0 <=? fd_ s) && connected_ s then id else S |>)
      | _ => mret y
      end
  | So_connect_finish => async_connect_finish self ;; mret (y <| ss_awaiting ::= pred |>)
  | So_abandon_connect => connect_awaitable_dtor self ;; mret (y <| ss_awaiting ::= pred |>)
  | So_socket_cqe res => stream_cqe FkSocket res 0 ;; mret (y <| n_socket ::= pred |>)
  | So_connect_cqe res => stream_cqe FkConnect res 0 ;; mret (y <| n_connect ::= pred |>)
  end.

(** An operation that is not possible in the state does nothing. *)
Definition stream_step (op : stream_op) (y : stream_sys) : M (cell R stream_impl) stream_sys :=
  c ← get;
  match object c with
  | None => mret y
  | Some s => if stream_op_ok op y (world c) s then run_stream_op op y (world c) s else mret y
  end.

Definition run_stream_ops (ops : list stream_op) (y : stream_sys) : M (cell R stream_impl) stream_sys :=
  foldl (λ m op, m ≫= stream_step op) (mret y) ops.

(** ** The invariant *)

(** The frames of a connection, and the completions to come for them. *)
Definition client_conn (ns nc : nat) (c : client_part) : Prop :=
  let sf := cl_socket c in
  let cf := cl_connect c in
  Z.b2z (op_is_active sf) = Z.of_nat ns ∧
  (done_ sf = true → initiated_ sf = true) ∧ (res_ sf < 0 → done_ sf = true) ∧
  (initiated_ sf = false → h_ sf = None) ∧
  Z.b2z (op_is_active cf) ≤ Z.of_nat nc ∧
  (done_ cf = true → ns = 0%nat) ∧ (initiated_ cf = false → h_ cf = None).

(** A stream has no connection. *)
Definition client_counts (ns nc : nat) (oc : option client_part) : Prop :=
  match oc with
  | None => ns = 0%nat ∧ nc = 0%nat
  | Some c => client_conn ns nc c
  end.

(** The counter is the number of references, and a flag is set only while a
    completion is to come. *)
Definition stream_counts (y : stream_sys) (s : stream_impl) : Prop :=
  st_count_ s = refs y ∧
  Z.b2z (op_is_active (st_cancel s)) ≤ Z.of_nat (n_cancel y) ∧
  Z.b2z (op_is_active (st_close s)) ≤ Z.of_nat (n_close y) ∧
  Z.b2z (shutdown_is_active (st_shutdown s)) ≤ Z.of_nat (n_shutdown y) ∧
  Z.b2z (send_is_active (st_send s)) ≤ Z.of_nat (n_send y) ∧
  Z.b2z (rf_initiated_ (st_recv s)) = Z.of_nat (n_recv y) ∧
  Z.b2z (to_initiated_ (st_timeout s)) ≤ Z.of_nat (n_timeout y) ∧
  Z.b2z (tc_initiated_ (st_timeout_cancel s)) ≤ Z.of_nat (n_timeout_cancel y) ∧
  (ec_ (st_recv s) = 0 ∨ rf_initiated_ (st_recv s) = false) ∧
  client_counts (n_socket y) (n_connect y) (st_client s).

(** The slot of the stream. *)
Definition stream_slot (s : stream_impl) : list Z := if 0 <=? fd_ s then [fd_ s] else [].

(** Its slot, those of the other objects and the free ones are all the slots, its
    buffers are sound, and a receive has a ring. *)
Definition stream_world (s : stream_impl) (w : ctx R) : Prop :=
  3 ≤ sq_entries (io_ring_ (frame w)) ∧ slots_ok (stream_slot s ++ other_slots) w ∧ groups_in other_groups w ∧
  ∃ l, recv_world (buffers_ (st_recv s)) l w ∧
    (is_Some (rings w !! (buffer_group_id_ (st_recv s) `mod` 2 ^ 16)) ∨
     l = [] ∧ buffer_group_id_ (st_recv s) = -1 ∧ rf_initiated_ (st_recv s) = false).

(** What is left when the stream is gone. *)
Definition stream_gone (w : ctx R) : Prop :=
  3 ≤ sq_entries (io_ring_ (frame w)) ∧ slots_ok other_slots w ∧ groups_in other_groups w ∧ rest_world w.

Definition stream_inv (y : stream_sys) (c : cell R stream_impl) : Prop :=
  match object c with
  | None => refs y = 0 ∧ stream_gone (world c)
  | Some s => 0 < refs y ∧ stream_counts y s ∧ stream_world s (world c)
  end.
End Sys.

(** ** Lemmas *)
Section InvWorld.
Context {R : Type} {HU : IoUring R} {HUL : IoUringLaws R} {HB : IoUringBufs R} {HBL : IoUringBufsLaws R}.
Context {HSep : IoUringSeparate R} {HS : UnorderedBegin} {HSL : UnorderedBeginLaws} {HO : Others}.
Variable self : ptr.
#[local] Hint Extern 0 (AwaitableBase _ stream_impl) => exact (stream_awaitable_base self) : typeclass_instances.
Implicit Types (w : ctx R) (s : stream_impl) (y : stream_sys).

Lemma is_client_spec s : is_client s = true → ∃ c, st_client s = Some c.
Proof. unfold is_client. destruct (st_client s) as [c|]; [by exists c|done]. Qed.

Lemma client_op_ok op y w s : client_op op = true → stream_op_ok op y w s = true → is_client s = true.
Proof.
  unfold is_client. intros Hop Hok. destruct (st_client s) as [c|] eqn:E; [done|].
  by destruct op; cbn [stream_op_ok] in Hok; unfold is_client in Hok; rewrite ?E, ?andb_false_r in Hok; try done.
Qed.

(** What the world's part depends on. *)
Lemma stream_world_same s s' w : stream_world s w → buffers_ (st_recv s') = buffers_ (st_recv s) →
  fd_ s' = fd_ s → buffer_group_id_ (st_recv s') = buffer_group_id_ (st_recv s) →
  (rf_initiated_ (st_recv s') = true → rf_initiated_ (st_recv s) = true ∨ buffer_group_id_ (st_recv s) ≠ -1) →
  stream_world s' w.
Proof.
  intros (He & Hf & Hgr & l & Hw & Hg) E1 E2 E3 E4. unfold stream_world, stream_slot. rewrite E1, E2, E3.
  split_and!; try done. exists l. split; [done|]. destruct Hg as [?|(-> & Hid & Hi)]; [by left|].
  destruct (rf_initiated_ (st_recv s')) eqn:Ei; [|by right].
  destruct (E4 eq_refl) as [?|?]; congruence.
Qed.

Lemma stream_world_ext s s' w : stream_world s w → st_recv s' = st_recv s → fd_ s' = fd_ s → stream_world s' w.
Proof. intros Hw E1 E2. apply (stream_world_same s); rewrite ?E1; auto. Qed.

Lemma stream_world_queued qs s w w' : stream_world s w → queued qs w w' → stream_world s w'.
Proof.
  intros (He & Hf & Hgr & l & Hw & Hg) Hq. pose proof (queued_entries _ _ _ Hq) as En.
  destruct (queued_same _ _ _ Hq) as (E1 & E2 & E3 & E4 & E5 & E6).
  unfold stream_world. rewrite En. split_and!; [done|by eapply slots_ok_queued|by unfold groups_in, rings; rewrite E4|].
  exists l. split; [by eapply recv_world_ext|]. by unfold rings in *; rewrite E4.
Qed.

Lemma wp_release_fd fd w (Q : unit → ctx R → Prop) : fds_wf w →
  (0 ≤ fd → fd < num_files (params_ (frame w)) ∧ fd ∉ fds_ (frame w)) →
  (∀ w', fds_wf w' → heap w' = heap w → clock w' = clock w → coros w' = coros w →
     frame w' = frame w <| fds_ := fds_ (frame w') |> →
     fds_ (frame w') = (if 0 <=? fd then {[fd]} ∪ fds_ (frame w) else fds_ (frame w)) → Q tt w') →
  wp (release_fd fd) w Q.
Proof.
  intros Hw Hfd HQ. unfold wp. destruct (Z.leb_spec 0 fd) as [H0|H0].
  - destruct (Hfd H0) as [H1 H2]. rewrite release_fd_run by (done || lia). apply HQ; try done.
    apply fds_wf_with; [done|]. intros x [->%elem_of_singleton|Hx]%elem_of_union; [lia|by apply Hw].
  - rewrite release_fd_negative by lia. apply HQ; try done. by destruct w as [[]].
Qed.

(** The slot goes back to the pool and the stream forgets it. *)
Lemma wp_stream_release_slot s w (Q : unit → ctx R → Prop) : stream_world s w →
  (∀ w', stream_world (s <| fd_ := -1 |>) w' → Q tt w') → wp (release_fd (fd_ s)) w Q.
Proof.
  intros (He & Hf & Hgr & l & Hrw & Hg) HQ. unfold stream_slot in Hf. destruct (Z.leb_spec 0 (fd_ s)) as [H0|H0].
  - eapply wp_release_slot; [exact Hf|]. intros w' Hp Hfds Hs'. apply HQ. destruct Hp as [X ->].
    split_and!; [done|done|done|]. exists l. split; [|done]. by eapply recv_world_ext; [..|exact Hrw].
  - apply wp_release_none; [lia|]. apply HQ. split_and!; [done|done|done|]. by exists l.
Qed.

Lemma wp_stream_impl_dtor s w (Q : unit → ctx R → Prop) : stream_world s w → (∀ w', stream_gone w' → Q tt w') →
  wp (stream_impl_dtor s) w Q.
Proof.
  intros Hw HQ. unfold stream_impl_dtor.
  assert (∀ w', stream_world (s <| fd_ := -1 |>) w' → wp (on_heap (sequence_dtor (buffers_ (st_recv s)))) w' Q) as Hfree.
  { intros w' (He & Hs & Hgr & l & Hr & _). eapply wp_rw_free; [exact Hr|]. intros m Hm. apply HQ. by split_and!. }
  apply wp_bind, wp_when; intros E.
  - apply wp_bind, wp_queue_any; [pose proof (proj1 Hw); lia|]. intros w1 Hq1.
    apply wp_bind, wp_submit. intros w2 Hq2.
    apply wp_stream_release_slot; [|exact Hfree]. by eapply stream_world_queued, Hq2; eapply stream_world_queued.
  - apply Hfree. destruct Hw as (He & Hs & Hgr & l & Hr). bool_simp. unfold stream_slot in Hs.
    rewrite (proj2 (Z.leb_gt 0 (fd_ s))) in Hs by lia. split_and!; [done|done|done|by exists l].
Qed.

(** Dropping a reference that [y] no longer counts. *)
Lemma wp_stream_release y s w (Q : unit → cell R stream_impl → Prop) :
  0 ≤ refs y → stream_counts y (upd_count Z.pred s) → stream_world s w →
  (∀ c, stream_inv y c → Q tt c) → wp intrusive_ptr_release (Cell w (Some s)) Q.
Proof.
  intros Hr Hc Hw HQ. pose proof (proj1 Hc) as Hn. cbn in Hn. apply wp_cell_release; cbn; intros E.
  - apply HQ. cbn. split_and!; [lia|done|]. by eapply stream_world_ext.
  - apply wp_stream_impl_dtor; [by eapply stream_world_ext|]. intros w' Hw'. apply HQ. split; [cbn; lia|done].
Qed.

Lemma b2z_bound b : 0 ≤ Z.b2z b ≤ 1.
Proof. destruct b; simpl; lia. Qed.

End InvWorld.

(** Solve what is left for a known new state: most of the parts are as they were. *)
Ltac counts_open :=
  repeat match goal with
  | H : stream_counts _ _ |- _ => destruct H as (? & ? & ? & ? & ? & ? & ? & ? & ? & ?)
  | H : stream_op_ok _ _ _ _ = true |- _ => unfold stream_op_ok in H; bool_simp
  end;
  try match goal with
  | H : rf_initiated_ (st_recv ?s) = _, H1 : Z.b2z (rf_initiated_ (st_recv ?s)) = _ |- _ => rewrite H in H1; cbn in H1
  end.
Ltac count_base := first
  [ assumption | reflexivity | (left; assumption) | (right; reflexivity)
  | (repeat match goal with |- context [Z.b2z ?b] => pose proof (b2z_bound b); generalize dependent (Z.b2z b); intros end; lia) ].
Ltac count_goal :=
  cbn; rewrite ?andb_false_r; cbn;
  first [ count_base
        | match goal with H : rf_initiated_ (st_recv ?s) = _ |- context [rf_initiated_ (st_recv ?s)] => rewrite H end;
          cbn; count_base ].
Ltac counts_solve :=
  counts_open; unfold stream_counts, refs, shutdown_is_active, send_is_active, op_is_active in *; cbn in *;
  unfold upd in *; cbn in *; split_and!; count_goal.
Ltac world_solve :=
  first [ eassumption
        | eapply stream_world_queued; [|eassumption]; world_solve
        | eapply stream_world_ext; [eassumption|done|done] ].
Ltac refs_solve := counts_open; unfold refs in *; cbn in *; unfold upd in *; cbn in *; lia.
Ltac live_solve := cbn [stream_inv object world]; split; [refs_solve|split; [counts_solve|world_solve]].
Ltac release_solve y' := apply (wp_stream_release _ y'); [refs_solve|counts_solve|world_solve|intros ? ?].

Ltac dispatch_start Hc Hr :=
  unfold stream_cqe; apply wp_bind, wp_stream_dispatch; [rewrite (proj1 Hc); lia|];
  cbn [stream_process_cqe stream_handle].
Ltac handle_steps := unfold exchange_h; cell_steps; unfold op_handle, recv_handle, socket_handle; cell_steps.

Section InvLemmas.
Context {R : Type} {HU : IoUring R} {HUL : IoUringLaws R} {HB : IoUringBufs R} {HBL : IoUringBufsLaws R}.
Context {HSep : IoUringSeparate R} {HS : UnorderedBegin} {HSL : UnorderedBeginLaws} {HO : Others}.
Variable self : ptr.
#[local] Hint Extern 0 (AwaitableBase _ stream_impl) => exact (stream_awaitable_base self) : typeclass_instances.
Implicit Types (w : ctx R) (s : stream_impl) (y : stream_sys).

Lemma stream_world_clock s w t : stream_world s w → stream_world s (w <| clock := t |>).
Proof.
  intros (He & Hf & Hgr & l & Hw & Hg). split_and!; try done. exists l. split; [|done].
  by eapply recv_world_ext; [..|exact Hw].
Qed.

Definition timer_cancelled s : stream_impl :=
  if to_initiated_ (st_timeout s) then s <| st_timeout ::= λ f, f <| to_cancelled_ := true |> |> else s.

Definition timer_cancel_sqes s : list sqe :=
  if to_initiated_ (st_timeout s)
  then [Sqe (op_timeout_remove (Some (self, FkTimeout))) None IOSQE_CQE_SKIP_SUCCESS] else [].

Lemma wp_queue_timer_cancel s w (Q : unit → cell R stream_impl → Prop) :
  Z.b2z (to_initiated_ (st_timeout s)) ≤ space w →
  (∀ w', queued (timer_cancel_sqes s) w w' → Q tt (Cell w' (Some (timer_cancelled s)))) →
  wp (queue_timer_cancel self) (Cell w (Some s)) Q.
Proof.
  intros Hsp HQ. unfold queue_timer_cancel, timer_cancel_sqes, timer_cancelled in *. cell_steps.
  destruct (to_initiated_ (st_timeout s)); cell_steps.
  - apply wp_push; [cbn in Hsp; lia|]. intros w' Hq _. by apply HQ.
  - apply HQ, queued_refl.
Qed.

Lemma wp_cancel_timer s w (Q : unit → cell R stream_impl → Prop) : 1 ≤ sq_entries (io_ring_ (frame w)) →
  (∀ w', queued (timer_cancel_sqes s) w w' → Q tt (Cell w' (Some (timer_cancelled s)))) →
  wp (cancel_timer self) (Cell w (Some s)) Q.
Proof.
  intros He HQ. unfold cancel_timer. cell_steps. apply wp_reserve; [done|]. intros w1 Hq1 Hs1. apply wp_bind.
  apply wp_queue_timer_cancel; [pose proof (b2z_bound (to_initiated_ (st_timeout s))); lia|].
  intros w2 Hq2. cell_steps. apply wp_submit. intros w3 Hq3. apply HQ.
  rewrite <- (app_nil_r (timer_cancel_sqes s)). eapply (queued_trans []); [done|]. by eapply queued_trans.
Qed.

Lemma wp_cancel_recv s w (Q : unit → cell R stream_impl → Prop) : 1 ≤ sq_entries (io_ring_ (frame w)) →
  (∀ w', queued (if rf_initiated_ (st_recv s) then [cancel_sqe self FkRecv] else []) w w' →
     Q tt (Cell w' (Some s))) →
  wp (cancel_recv self) (Cell w (Some s)) Q.
Proof.
  intros He HQ. unfold cancel_recv. cell_steps. destruct (rf_initiated_ (st_recv s)); cell_steps.
  - apply wp_queue_one; [lia|]. intros w1 Hq1. cell_steps. apply wp_submit. intros w2 Hq2. apply HQ.
    by apply (queued_trans [_] [] _ w1).
  - apply HQ, queued_refl.
Qed.

(** The last handle, by the counters. *)
Definition last_handle s : bool := st_count_ s - stream_active s =? 1.

Lemma wp_stream_dtor s w (Q : unit → cell R stream_impl → Prop) : 1 ≤ sq_entries (io_ring_ (frame w)) →
  0 < st_count_ s - stream_active s →
  (∀ w', queued (if last_handle s then timer_cancel_sqes s ++ (if rf_initiated_ (st_recv s) then [cancel_sqe self FkRecv] else []) else []) w w' →
     wp intrusive_ptr_release (Cell w' (Some (if last_handle s then timer_cancelled s else s))) Q) →
  wp (stream_dtor self) (Cell w (Some s)) Q.
Proof.
  intros He Hc HQ. unfold stream_dtor, last_handle in *. cell_steps.
  apply wp_assert; [by apply Z.ltb_lt|]. apply wp_bind. cbn [use_count stream_ref_count].
  destruct (st_count_ s - stream_active s =? 1); cell_steps; [|apply HQ, queued_refl].
  apply wp_cancel_timer; [done|]. intros w1 Hq1. apply wp_cancel_recv; [by rewrite (queued_entries _ _ _ Hq1)|].
  intros w2 Hq2. apply HQ. eapply queued_trans; [done|]. unfold timer_cancelled in Hq2.
  by destruct (to_initiated_ (st_timeout s)).
Qed.

Lemma stream_drop_inv y s w : stream_inv y (Cell w (Some s)) → ss_handles y ≠ 0%nat →
  wp (stream_dtor self) (Cell w (Some s)) (λ _, stream_inv (y <| ss_handles ::= pred |>)).
Proof.
  intros (Hr & Hc & Hw) Hh. cbn in Hw. apply wp_stream_dtor.
  - pose proof (proj1 Hw); lia.
  - counts_open. unfold stream_active, timeout_cancel_is_active, recv_is_active, timeout_is_active. unfold refs in *. lia.
  - intros w' Hq. unfold timer_cancelled.
    destruct (last_handle s), (to_initiated_ (st_timeout s)) eqn:Et; release_solve (y <| ss_handles ::= pred |>); done.
Qed.

Lemma stream_set_group_inv y s w bgid : stream_inv y (Cell w (Some s)) →
  wp (attempt (stream_set_buffer_group bgid)) (Cell w (Some s)) (λ _, stream_inv y).
Proof.
  intros (Hr & Hc & Hw). cbn in Hw. apply wp_attempt. unfold stream_set_buffer_group. apply wpx_bind, wpx_wp. cell_steps.
  destruct (rf_initiated_ (st_recv s)) eqn:Ei.
  { apply wpx_bind, wpx_throw_errno; [done|]. live_solve. }
  apply wpx_bind, wpx_wp. cell_steps. apply wpx_bind, wpx_wp. cell_steps. unfold wp. rewrite get_buffer_group_run.
  destruct (buf_rings_ (frame w) !! (bgid `mod` 2 ^ 16)) as [br|] eqn:Eb.
  - apply wpx_wp. cell_steps. cbn [stream_inv object world]. split; [done|]. split; [counts_solve|].
    destruct Hw as (He & Hf & Hgr & l & Hw & Hg). split_and!; try done. exists l. split; [done|]. left.
    unfold rings. cbn. by rewrite Eb.
  - apply wpx_throw_errno; [done|]. live_solve.
Qed.

Lemma stream_op_handles op y w s : stream_inv y (Cell w (Some s)) → stream_op_ok op y w s = true →
  match op with
  | So_copy | So_drop | So_timeout _ | So_set_buffer_group _ | So_tick _ => True
  | _ => False
  end →
  wp (run_stream_op self op y w s) (Cell w (Some s)) stream_inv.
Proof.
  intros (Hr & Hc & Hw) Hok Hop. cbn in Hw. destruct op; try done; cbn [run_stream_op].
  - cell_steps. live_solve.
  - apply wp_bind. eapply wp_mono; [apply (stream_drop_inv y); [done|by counts_open]|]. intros ? c H; exact H.
  - unfold stream_timeout. cell_steps. apply wp_queue_one; [destruct Hw as [? _]; lia|]. intros w' Hq. cell_steps.
    live_solve.
  - apply wp_bind. eapply wp_mono; [by apply (stream_set_group_inv y)|]. intros ? c H; exact H.
  - cell_steps. cbn [stream_inv object world]. split; [done|]. split; [done|]. by apply stream_world_clock.
Qed.

(** Starting an operation. *)
Lemma wp_async_close h s w (Q : unit → cell R stream_impl → Prop) : 3 ≤ sq_entries (io_ring_ (frame w)) →
  (∀ w', queued ([cancel_fd_sqe (fd_ s) None (Z.lor IOSQE_IO_HARDLINK IOSQE_CQE_SKIP_SUCCESS);
                  Sqe (op_close_direct (to_unsigned (fd_ s))) (Some (self, FkClose)) 0] ++ timer_cancel_sqes s) w w' →
     Q tt (Cell w' (Some (upd_count (Z.add 2) (timer_cancelled s)
                            <| stream_cancelled_ := true |> <| st_close ::= op_start h |>)))) →
  wp (async_close self h) (Cell w (Some s)) Q.
Proof.
  intros He HQ. unfold async_close. cell_steps. apply wp_on_throw_ret. unfold close_await_suspend.
  pose proof (b2z_bound (to_initiated_ (st_timeout s))). cell_steps. cbn.
  apply wp_reserve; [lia|]. intros w1 Hq1 Hs1. cell_steps.
  apply wp_push; [lia|]. intros w2 Hq2 Hs2. cell_steps. apply wp_push; [lia|]. intros w3 Hq3 Hs3. cell_steps.
  assert (queued [cancel_fd_sqe (fd_ s) None (Z.lor IOSQE_IO_HARDLINK IOSQE_CQE_SKIP_SUCCESS);
                  Sqe (op_close_direct (to_unsigned (fd_ s))) (Some (self, FkClose)) 0] w w3) as Hq.
  { eapply (queued_trans []); [done|]. by apply (queued_trans [_] [_] _ w2). }
  unfold timer_cancelled, timer_cancel_sqes in *. cbn.
  destruct (to_initiated_ (st_timeout s)) eqn:Et; cell_steps.
  - apply wp_queue_timer_cancel; [unfold upd; cbn; rewrite Et; cbn in *; lia|]. intros w4 Hq4.
    unfold timer_cancelled, timer_cancel_sqes, upd in *. cbn in *. rewrite Et in *. cell_steps.
    match goal with |- Q _ (Cell _ (Some ?a)) => match type of HQ with ∀ w', _ → Q _ (Cell _ (Some ?b)) =>
      assert (a = b) as -> end end.
    { unfold upd, op_start. cbn. f_equal. lia. }
    apply HQ. exact (queued_trans _ _ _ _ _ Hq Hq4).
  - match goal with |- Q _ (Cell _ (Some ?a)) => match type of HQ with ∀ w', _ → Q _ (Cell _ (Some ?b)) =>
      assert (a = b) as -> end end.
    { unfold upd, op_start. cbn. f_equal. lia. }
    by apply HQ.
Qed.

Lemma wp_async_cancel h s w (Q : unit → cell R stream_impl → Prop) : 1 ≤ sq_entries (io_ring_ (frame w)) → fd_ s ≠ -1 →
  (∀ w', queued [cancel_fd_sqe (fd_ s) (Some (self, FkCancel)) 0] w w' →
     Q tt (Cell w' (Some (upd_count (Z.add 2) s <| st_cancel ::= op_start h |> <| stream_cancelled_ := true |>)))) →
  wp (async_cancel self h) (Cell w (Some s)) Q.
Proof.
  intros He Hfd HQ. unfold async_cancel. cell_steps. apply wp_on_throw_ret. unfold cancel_await_suspend.
  cell_steps. apply wp_reserve; [lia|]. intros w1 Hq1 Hs1. cell_steps.
  apply wp_assert; [apply negb_true_iff, Z.eqb_neq; done|]. cell_steps.
  apply wp_push; [lia|]. intros w2 Hq2 _. cell_steps.
  specialize (HQ w2 (queued_trans _ _ _ _ _ Hq1 Hq2)).
  unfold upd in *. cbn in *. replace (Z.succ (Z.succ (st_count_ s))) with (Z.add 2 (st_count_ s)) by lia. exact HQ.
Qed.

Lemma wp_async_shutdown how h s w (Q : unit → cell R stream_impl → Prop) : 1 ≤ sq_entries (io_ring_ (frame w)) →
  fd_ s ≠ -1 →
  (∀ w', queued [Sqe (op_shutdown (fd_ s) how) (Some (self, FkShutdown)) IOSQE_FIXED_FILE] w w' →
     Q tt (Cell w' (Some (upd_count (Z.add 2) s <| st_shutdown ::= λ f, ShutdownFrame (op_start h (sh_op f)) how |>)))) →
  wp (async_shutdown_start self how h) (Cell w (Some s)) Q.
Proof.
  intros He Hfd HQ. unfold async_shutdown_start, async_shutdown. cell_steps. apply wp_on_throw_ret.
  unfold shutdown_await_suspend. cell_steps.
  apply wp_assert; [apply negb_true_iff, Z.eqb_neq; done|]. cell_steps.
  apply wp_queue_one; [lia|]. intros w2 Hq2. cell_steps. specialize (HQ w2 Hq2).
  unfold upd, upd_shutdown, upd in *. cbn in *. replace (Z.succ (Z.succ (st_count_ s))) with (Z.add 2 (st_count_ s)) by lia. exact HQ.
Qed.

Lemma wp_send_awaitable_dtor s w (Q : unit → cell R stream_impl → Prop) : 1 ≤ sq_entries (io_ring_ (frame w)) →
  (∀ w', queued (if send_is_active (st_send s) then [cancel_sqe self FkSend] else []) w w' →
     wp intrusive_ptr_release (Cell w' (Some s)) Q) →
  wp (send_awaitable_dtor self) (Cell w (Some s)) Q.
Proof.
  intros He HQ. unfold send_awaitable_dtor. cell_steps. destruct (send_is_active (st_send s)); cell_steps.
  - apply wp_queue_one; [lia|]. intros w1 Hq1. cell_steps. apply wp_submit. intros w2 Hq2. apply HQ.
    exact (queued_trans [_] [] _ _ _ Hq1 Hq2).
  - apply HQ, queued_refl.
Qed.

Lemma wp_async_send buf h s w (Q : unit → cell R stream_impl → Prop) : 1 ≤ sq_entries (io_ring_ (frame w)) →
  initiated_ (sd_op (st_send s)) = false →
  (∀ w', queued [Sqe (op_send (fd_ s) buf) (Some (self, FkSend)) IOSQE_FIXED_FILE] w w' →
     Q tt (Cell w' (Some (upd_count (Z.add 2) s <| st_send ::= λ f, SendFrame (op_start h (sd_op f)) (clock w) |>)))) →
  wp (async_send self buf h) (Cell w (Some s)) Q.
Proof.
  intros He Hi HQ. unfold async_send. cell_steps. apply wp_on_throw_ret. unfold send_await_suspend. cell_steps.
  cbn. rewrite Hi. cell_steps. apply wp_queue_one; [lia|]. intros w2 Hq2. cell_steps. unfold now. cell_steps.
  specialize (HQ w2 Hq2). destruct (queued_same _ _ _ Hq2) as (_ & -> & _).
  unfold upd, upd_send, upd in *. cbn in *. replace (Z.succ (Z.succ (st_count_ s))) with (Z.add 2 (st_count_ s)) by lia. exact HQ.
Qed.

(** A second send throws EBUSY, but its awaitable cancels the one in flight. *)
Lemma wpx_async_send_busy buf h s w (Q : unit → cell R stream_impl → Prop) (E : exn → cell R stream_impl → Prop) :
  1 ≤ sq_entries (io_ring_ (frame w)) → 0 < st_count_ s → initiated_ (sd_op (st_send s)) = true →
  (∀ w', queued (if send_is_active (st_send s) then [cancel_sqe self FkSend] else []) w w' →
     E (system_error EBUSY) (Cell w' (Some s))) →
  wpx (async_send self buf h) (Cell w (Some s)) Q E.
Proof.
  intros He Hc Hi HE. unfold async_send. apply wpx_bind, wpx_wp. cell_steps. apply wpx_on_throw.
  unfold send_await_suspend. apply wpx_bind, wpx_wp. cell_steps. cbn. rewrite Hi.
  apply wpx_bind, wpx_throw_errno; [done|]. apply wp_send_awaitable_dtor; [done|]. intros w' Hq.
  apply wp_cell_release; cbn; [intros _|lia]. specialize (HE w' Hq).
  replace (upd _ _ _) with s; [done|]. destruct s. unfold upd. cbn. f_equal. lia.
Qed.

Lemma stream_world_new s s' w w' l : stream_world s w → buffers_only w w' →
  recv_world (buffers_ (st_recv s')) l w' → fd_ s' = fd_ s →
  buffer_group_id_ (st_recv s') = buffer_group_id_ (st_recv s) →
  is_Some (rings w !! (buffer_group_id_ (st_recv s) `mod` 2 ^ 16)) → stream_world s' w'.
Proof.
  intros (He & Hf & Hgr & _) [Hfr Hg _ Hen _] Hw E2 E3 Hi. unfold stream_world, stream_slot. rewrite E2, E3, Hen.
  split_and!; [done| |intros g Hin; by apply Hg, Hgr|exists l; split; [done|left; by apply Hg]].
  unfold slots_ok, fds_wf in *. rewrite Hfr. exact Hf.
Qed.

(** The sequence is empty exactly when no buffer is queued; a queued buffer means
    that there is a group. *)
Lemma stream_world_seq s w : stream_world s w →
  ∃ l, recv_world (buffers_ (st_recv s)) l w ∧ seq_empty (buffers_ (st_recv s)) = bool_decide (l = []) ∧
    (l ≠ [] → is_Some (rings w !! (buffer_group_id_ (st_recv s) `mod` 2 ^ 16))).
Proof.
  intros (_ & _ & _ & l & Hw & Hg). exists l. split_and!; [done|by apply (rep_empty _ _ _ (rw_seq _ _ _ Hw))|].
  intros Hl. by destruct Hg as [?|[? _]].
Qed.

Lemma recv_finish_inv y s w : 0 ≤ refs y → stream_counts y (upd_count Z.pred s) → stream_world s w →
  seq_empty (buffers_ (st_recv s)) = false ∨ ec_ (st_recv s) ≠ 0 →
  wp (async_recv_finish self) (Cell w (Some s)) (λ _, stream_inv y).
Proof.
  intros Hr Hc Hw Hres. unfold async_recv_finish. apply wp_finally_ret.
  destruct (stream_world_seq _ _ Hw) as (l & Hrw & Hse & Hg).
  destruct (decide (l = [])) as [->|Hl].
  - rewrite bool_decide_eq_true_2 in Hse by done. destruct Hres as [?|Hec]; [congruence|].
    unfold recv_await_resume. cell_steps. rewrite Hse. cbn [negb orb].
    apply wp_assert; [by apply negb_true_iff, Z.eqb_neq|]. cell_steps.
    apply (wp_stream_release _ y); [done| | |done].
    + counts_solve.
    + apply (stream_world_same s); auto.
  - destruct (Hg Hl) as [br Hbr]. eapply wp_recv_resume_data; [done|done|done|exact Hbr|].
    intros q1 q2 w' es ids br' Hw' Ho' _ _ _ _ _ _ _ _. apply (wp_stream_release _ y); [done|counts_solve| |done].
    eapply stream_world_new; [exact Hw|exact Ho'|done|done|done|]. by eexists.
Qed.

Lemma recv_start_inv y s w h : stream_inv y (Cell w (Some s)) →
  wpx (async_recv self h) (Cell w (Some s))
    (λ r, stream_inv (match r with
                      | None => y <| ss_awaiting ::= S |>
                                  <| n_recv := if rf_initiated_ (st_recv s) then n_recv y else S (n_recv y) |>
                      | Some _ => y
                      end))
    (λ _, stream_inv y).
Proof.
  intros (Hr & Hc & Hw). cbn in Hw. unfold async_recv. apply wpx_bind, wpx_wp. cell_steps. apply wpx_bind, wpx_on_throw.
  unfold recv_await_ready. apply wpx_bind, wpx_wp. cell_steps. cbn.
  destruct (stream_world_seq _ _ Hw) as (l & Hrw & Hse & Hg).
  destruct (seq_empty (buffers_ (st_recv s))) eqn:Ese; cbn [negb].
  2:{ apply wpx_wp. cell_steps. apply wpx_wp. cell_steps. eapply wp_mono; [apply (recv_finish_inv y)|].
      - lia.
      - counts_solve.
      - by apply (stream_world_ext s).
      - by left.
      - intros r c Hi. cell_steps. exact Hi. }
  unfold recv_await_suspend. apply wpx_bind, wpx_wp. cell_steps. apply wpx_bind, wpx_wp. cell_steps. cbn.
  destruct (Z.eqb_spec (ec_ (st_recv s)) 0) as [Eec|Eec]; cbn [negb].
  2:{ rewrite Ese. apply wpx_wp. cell_steps. apply wp_assert; [done|]. cell_steps. apply wpx_wp. cell_steps.
      eapply wp_mono; [apply (recv_finish_inv y)|].
      - lia.
      - counts_solve.
      - apply (stream_world_same s); auto.
      - by right.
      - intros r c Hi. cell_steps. exact Hi. }
  destruct (rf_initiated_ (st_recv s)) eqn:Ei.
  { rewrite Ese. apply wpx_wp. cell_steps. apply wp_assert; [done|]. cell_steps. apply wpx_wp. cell_steps.
    live_solve. }
  destruct (Z.eqb_spec (buffer_group_id_ (st_recv s)) (-1)) as [Eg|Eg].
  { apply wpx_throw_errno; [done|]. release_solve y; done. }
  apply wpx_wp. cell_steps. unfold wp at 1. rewrite get_buffer_group_run. cell_steps.
  unfold schedule_recv. cell_steps. apply wp_queue_one; [pose proof (proj1 Hw); lia|]. intros w1 Hq1.
  unfold now. cell_steps. apply wpx_wp. cell_steps. cbn [stream_inv object world]. split; [refs_solve|]. split.
  - counts_solve.
  - eapply stream_world_queued; [|exact Hq1]. apply (stream_world_same s); auto.
Qed.

Lemma stream_op_starts op y w s : stream_inv y (Cell w (Some s)) → stream_op_ok op y w s = true →
  match op with
  | So_close _ | So_cancel _ | So_shutdown _ _ | So_send _ _ | So_recv _ => True
  | _ => False
  end →
  wp (run_stream_op self op y w s) (Cell w (Some s)) stream_inv.
Proof.
  intros Hi Hok Hop. pose proof Hi as (Hr & Hc & Hw). cbn in Hw. pose proof (proj1 Hw) as He.
  destruct op; try done; cbn [run_stream_op]; apply wp_bind.
  - apply wp_async_close; [done|]. intros w' Hq. apply wp_ret. unfold timer_cancelled.
    destruct (to_initiated_ (st_timeout s)) eqn:Et; live_solve.
  - assert (fd_ s ≠ -1) by (counts_open; done). apply wp_async_cancel; [lia|done|]. intros w' Hq. apply wp_ret. live_solve.
  - assert (fd_ s ≠ -1) by (counts_open; done). apply wp_async_shutdown; [lia|done|]. intros w' Hq. apply wp_ret. live_solve.
  - apply wp_attempt. destruct (initiated_ (sd_op (st_send s))) eqn:Es.
    + apply wpx_async_send_busy; [lia|rewrite (proj1 Hc); done|done|]. intros w' Hq. apply wp_ret. live_solve.
    + apply wpx_wp, wp_async_send; [lia|done|]. intros w' Hq. apply wp_ret. live_solve.
  - apply wp_attempt. eapply wpx_mono; [by apply (recv_start_inv y)| |].
    + intros [r|] c H; exact H.
    + intros e c H; exact H.
Qed.

Lemma wp_err_of {A} res s w (Q : result A → cell R stream_impl → Prop) : res ≠ 0 →
  (∀ r, Q r (Cell w (Some s))) → wp (err_of res) (Cell w (Some s)) Q.
Proof. intros Hr HQ. unfold err_of. apply wp_bind, wp_from_errno; [lia|]. apply wp_ret, HQ. Qed.

Lemma stream_op_finishes op y w s : stream_inv y (Cell w (Some s)) → stream_op_ok op y w s = true →
  match op with
  | So_close_finish | So_cancel_finish | So_shutdown_finish | So_send_finish | So_recv_finish
  | So_abandon | So_abandon_send => True
  | _ => False
  end →
  wp (run_stream_op self op y w s) (Cell w (Some s)) stream_inv.
Proof.
  intros Hi Hok Hop. pose proof Hi as (Hr & Hc & Hw). cbn in Hw. pose proof (proj1 Hw) as He.
  set (y' := y <| ss_awaiting ::= pred |>). destruct op; try done; cbn [run_stream_op]; fold y'; apply wp_bind.
  - unfold async_close_finish. apply wp_finally_ret. unfold close_await_resume. cell_steps.
    destruct (Z.eqb_spec (res_ (st_close s)) 0).
    + cell_steps. release_solve y'. done.
    + apply wp_err_of; [done|]. intros r. release_solve y'. done.
  - unfold async_cancel_finish. apply wp_finally_ret. unfold cancel_await_resume. cell_steps.
    destruct (fd_ s =? -1); [cell_steps; release_solve y'; done|].
    destruct (Z.ltb_spec (res_ (st_cancel s)) 0).
    + apply wp_err_of; [lia|]. intros r. release_solve y'. done.
    + cell_steps. release_solve y'. done.
  - unfold async_shutdown_finish. apply wp_finally_ret. unfold shutdown_await_resume. cell_steps.
    destruct (Z.eqb_spec (res_ (sh_op (st_shutdown s))) 0).
    + cell_steps. release_solve y'. done.
    + apply wp_err_of; [done|]. intros r. release_solve y'. done.
  - unfold async_send_finish. apply wp_finally_ret. unfold send_await_resume. cell_steps.
    destruct (Z.ltb_spec (res_ (sd_op (st_send s))) 0); [apply wp_err_of; [lia|]; intros r|cell_steps];
      (apply wp_send_awaitable_dtor; [lia|]); intros w' Hq; release_solve y'; done.
  - eapply wp_mono; [apply (recv_finish_inv y')|intros r c H; exact H].
    + refs_solve.
    + counts_solve.
    + done.
    + counts_open. destruct (seq_empty (buffers_ (st_recv s))); [right|by left]. cbn in *. by apply Z.eqb_neq, negb_true_iff.
  - release_solve y'. done.
  - apply wp_send_awaitable_dtor; [lia|]. intros w' Hq. release_solve y'. done.
Qed.

(** Completions of the operations with a frame of their own. *)
Lemma stream_close_cqe_inv y s w res : stream_inv y (Cell w (Some s)) → n_close y ≠ 0%nat →
  wp (stream_cqe self FkClose res 0) (Cell w (Some s)) (λ _, stream_inv (y <| n_close ::= pred |>)).
Proof.
  intros (Hr & Hc & Hw) Hn. cbn in Hw. unfold stream_cqe. apply wp_stream_dispatch; [rewrite (proj1 Hc); lia|].
  cbn [stream_process_cqe stream_handle]. unfold close_process_cqe. cell_steps. cbn [fd_ upd eta eta_stream_impl].
  apply wp_stream_release_slot; [done|]. intros w' Hw'. cell_steps. handle_steps.
  apply (wp_stream_release _ (y <| n_close ::= pred |>)); [refs_solve|counts_solve| |done].
  by eapply stream_world_ext.
Qed.

Lemma stream_op_cqes op y w s : stream_inv y (Cell w (Some s)) → stream_op_ok op y w s = true →
  match op with
  | So_cancel_cqe _ | So_close_cqe _ | So_shutdown_cqe _ | So_send_cqe _ | So_timeout_cancel_cqe _ => True
  | _ => False
  end →
  wp (run_stream_op self op y w s) (Cell w (Some s)) stream_inv.
Proof.
  intros Hi Hok Hop. pose proof Hi as (Hr & Hc & Hw). cbn in Hw.
  destruct op; try done; cbn [run_stream_op].
  - dispatch_start Hc Hr. cell_steps. handle_steps. release_solve (y <| n_cancel ::= pred |>). done.
  - apply wp_bind. eapply wp_mono; [apply stream_close_cqe_inv; [done|by counts_open]|]. intros r c H; exact H.
  - dispatch_start Hc Hr. cell_steps. handle_steps. release_solve (y <| n_shutdown ::= pred |>). done.
  - dispatch_start Hc Hr. unfold send_process_cqe. cell_steps. apply wp_when; intros Hres; cell_steps; handle_steps;
      release_solve (y <| n_send ::= pred |>); done.
  - dispatch_start Hc Hr. cell_steps. release_solve (y <| n_timeout_cancel ::= pred |>). done.
Qed.

(** The timer goes on, re-armed when its multishot has ended. *)
Lemma wp_timeout_rearm y s w flags : 0 < refs y → n_timeout y ≠ 0%nat → stream_counts y s → stream_world s w →
  wp (when (negb (flag_set flags IORING_CQE_F_MORE))
       (on_world (queue_one (timeout_sqe self)) ;;
        upd_this (λ s, s <| st_timeout ::= λ f, f <| to_initiated_ := true |> |>)))
    (Cell w (Some s)) (λ _ c, wp intrusive_ptr_add_ref c (λ _ c, wp intrusive_ptr_release c (λ _, stream_inv y))).
Proof.
  intros Hr Hn Hc Hw. pose proof (proj1 Hw). apply wp_when; intros Hmore; cell_steps.
  - apply wp_queue_one; [lia|]. intros w1 Hq1. cell_steps. release_solve y. done.
  - release_solve y. done.
Qed.

(** The outcomes of a timer completion: the timer ends, is re-armed with a new
    duration, or goes on, after cancelling what has made no progress. *)
Lemma stream_timeout_cqe_inv y s w res flags :
  stream_inv y (Cell w (Some s)) → stream_op_ok (So_timeout_cqe res flags) y w s = true →
  wp (run_stream_op self (So_timeout_cqe res flags) y w s) (Cell w (Some s)) stream_inv.
Proof.
  intros Hi Hok. pose proof Hi as (Hr & Hc & Hw). cbn in Hw. pose proof (proj1 Hw) as He.
  cbn [stream_op_ok] in Hok. apply andb_true_iff in Hok as [Hn Hres]. bool_simp. cbn [run_stream_op].
  dispatch_start Hc Hr. unfold timeout_process_cqe. cell_steps. cbn [cqe_res cqe_flags].
  destruct (Z.eqb_spec res (- ECANCELED)) as [Ec|Ec]; cbn [andb].
  - destruct (to_cancelled_ (st_timeout s)) eqn:Et; cell_steps.
    + release_solve (y <| n_timeout ::= pred |>). done.
    + apply wp_queue_one; [lia|]. intros w1 Hq1. cell_steps. release_solve y. done.
  - cbn [orb] in Hres. apply andb_true_iff in Hres as [Hres Hfd].
    assert (negb (res =? - ETIME) && negb (res =? 0) = false) as ->
      by (apply orb_true_iff in Hres as [->| ->]; [done|apply andb_false_r]).
    cell_steps. unfold now. cell_steps. cbn [world]. fold (stream_expired w s).
    destruct (stream_expired w s) eqn:Ex; cell_steps.
    + apply wp_assert.
      { unfold stream_expired in Ex. destruct (recv_is_active _), (send_is_active _), (0 <=? fd_ s); done. }
      cell_steps. apply wp_queue_one; [lia|]. intros w1 Hq1. cell_steps.
      eapply wp_mono; [apply (wp_timeout_rearm (y <| n_timeout_cancel ::= S |>))|intros u c H; exact H].
      * refs_solve.
      * done.
      * counts_solve.
      * world_solve.
    + eapply wp_mono; [apply (wp_timeout_rearm y)|intros u c H; exact H]; done.
Qed.

(** Completions of the receive. *)
Lemma stream_recv_cqe_inv y y' s w res flags more : stream_inv y (Cell w (Some s)) → n_recv y ≠ 0%nat →
  flag_set flags IORING_CQE_F_MORE = more → y' = (if more then y else y <| n_recv ::= pred |>) →
  (∀ Q : unit → cell R stream_impl → Prop,
    (∀ q' ec t w', stream_world (recv_done q' ec t more s) w' → (ec = ec_ (st_recv s) ∨ more = false) →
       Q tt (Cell w' (Some (recv_done q' ec t more s)))) →
    wp (recv_process_cqe (Cqe (Some (self, FkRecv)) res flags)) (Cell w (Some s)) Q) →
  wp (stream_cqe self FkRecv res flags) (Cell w (Some s)) (λ _, stream_inv y').
Proof.
  intros (Hr & Hc & Hw) Hn Hm -> Hcqe. cbn in Hw. unfold stream_cqe. apply wp_stream_dispatch; [rewrite (proj1 Hc); lia|].
  cbn [stream_process_cqe stream_handle]. apply Hcqe. intros q' ec t w' Hw' Hec. handle_steps.
  assert (rf_initiated_ (st_recv s) = true) as Ei
    by (counts_open; destruct (rf_initiated_ (st_recv s)); [done|cbn in *; lia]).
  match goal with |- wp _ (Cell _ (Some ?s1)) _ =>
    apply (wp_stream_release _ (if more then y else y <| n_recv ::= pred |>)); [|
      |apply (stream_world_same (recv_done q' ec t more s)); [exact Hw'|done|done|done|by left]|done] end.
  - destruct more; refs_solve.
  - counts_open. assert (ec_ (st_recv s) = 0) as Eec by (destruct H7; congruence).
    unfold recv_done. destruct more.
    + destruct Hec as [->|?]; [|done]. counts_solve.
    + counts_solve.
Qed.

Lemma buffer_at_spec w s i p : buffer_at w s i = Some p →
  ∃ g br, p_buf_ring_ (st_recv s) = Some g ∧ rings w !! (g `mod` 2 ^ 16) = Some br ∧
    bufs_ br !! i = Some p ∧ p ≠ default_buf_header.
Proof.
  unfold buffer_at, rings. destruct (p_buf_ring_ (st_recv s)) as [g|]; [|done]. simpl.
  destruct (buf_rings_ (frame w) !! (g `mod` 2 ^ 16)) as [br|] eqn:Eb; [|done]. simpl.
  destruct (bufs_ br !! i) as [p'|] eqn:Ei; [|done]. simpl. case_guard; [|done]. intros [= ->]. eauto 10.
Qed.

Lemma stream_op_recv_cqes op y w s : stream_inv y (Cell w (Some s)) → stream_op_ok op y w s = true →
  match op with So_data_cqe _ _ _ | So_eof_cqe | So_error_cqe _ => True | _ => False end →
  wp (run_stream_op self op y w s) (Cell w (Some s)) stream_inv.
Proof.
  intros Hi Hok Hop. pose proof Hi as (Hr & Hc & Hw). cbn in Hw.
  assert (n_recv y ≠ 0%nat) as Hn.
  { destruct op; try done; unfold stream_op_ok in Hok; bool_simp; done. }
  assert (rf_initiated_ (st_recv s) = true) as Ei
    by (pose proof Hc as Hc'; counts_open; destruct (rf_initiated_ (st_recv s)); [done|cbn in *; lia]).
  pose proof Hw as (He & Hf & Hgr & l & Hrw & Hg).
  assert (is_Some (rings w !! (buffer_group_id_ (st_recv s) `mod` 2 ^ 16))) as Hg' by (destruct Hg as [?|(_ & _ & ?)]; congruence || done).
  destruct op; try done; cbn [run_stream_op]; apply wp_bind;
    (eapply wp_mono; [eapply stream_recv_cqe_inv; [exact Hi|exact Hn|..]|intros r c H; exact H]).
  - apply data_flags_spec.
  - done.
  - intros Q HQ. unfold stream_op_ok in Hok. apply andb_true_iff in Hok as [_ Hok].
    destruct (buffer_at w s i) as [p|] eqn:Ep; [|done]. bool_simp.
    destruct (buffer_at_spec _ _ _ _ Ep) as (g & br & Eg & Eb & Epi & Hpd).
    eapply (wp_recv_data _ l w s g br i p); [done|done|done|done|done|done|lia|].
    intros q' w' Hw' Ho' _ _ _ _. apply HQ; [|by left]. eapply stream_world_new; done.
  - done.
  - done.
  - intros Q HQ. eapply (wp_recv_eof _ l w s); [done|done|done|done|].
    intros q' w' p Hw' Ho' _ _ _ _. apply HQ; [|by right]. eapply stream_world_new; done.
  - done.
  - done.
  - intros Q HQ. unfold stream_op_ok in Hok. bool_simp. apply wp_recv_error; [done|done| |].
    { destruct Hc as (_ & _ & _ & _ & _ & _ & _ & _ & [?|?] & _); congruence. }
    apply HQ; [|by right]. eapply stream_world_new; [exact Hw|apply buffers_only_refl|exact Hrw|done..].
Qed.

(** Dropping the last handle stops what would keep the object alive: the
    multishot timer is told to end and is marked as cancelled, and a receive in
    flight is cancelled; dropping another handle queues nothing. *)
Lemma stream_drop_cancels y s w : stream_inv y (Cell w (Some s)) → ss_handles y ≠ 0%nat →
  ∃ c w', stream_dtor self (Cell w (Some s)) = (Ret tt, c) ∧
    queued (if last_handle s then timer_cancel_sqes s ++
              (if rf_initiated_ (st_recv s) then [cancel_sqe self FkRecv] else []) else []) w w' ∧
    (st_count_ s ≠ 1 → ∃ s', c = Cell w' (Some s') ∧ st_count_ s' = st_count_ s - 1 ∧
       to_cancelled_ (st_timeout s') = (last_handle s && to_initiated_ (st_timeout s)) || to_cancelled_ (st_timeout s)) ∧
    (st_count_ s = 1 → object c = None).
Proof.
  intros (Hr & Hc & Hw) Hh. cbn in Hw.
  assert (wp (stream_dtor self) (Cell w (Some s)) (λ _ c, ∃ w',
    queued (if last_handle s then timer_cancel_sqes s ++
              (if rf_initiated_ (st_recv s) then [cancel_sqe self FkRecv] else []) else []) w w' ∧
    (st_count_ s ≠ 1 → ∃ s', c = Cell w' (Some s') ∧ st_count_ s' = st_count_ s - 1 ∧
       to_cancelled_ (st_timeout s') = (last_handle s && to_initiated_ (st_timeout s)) || to_cancelled_ (st_timeout s)) ∧
    (st_count_ s = 1 → object c = None))) as Hx.
  2:{ apply wp_run in Hx as ([] & c & E & w' & H). by exists c, w'. }
  apply wp_stream_dtor; [pose proof (proj1 Hw); lia| |].
  { counts_open. unfold stream_active, timeout_cancel_is_active, recv_is_active, timeout_is_active. unfold refs in *. lia. }
  intros w' Hq. pose proof (stream_world_queued _ _ _ _ Hw Hq) as Hw'.
  assert (st_count_ (if last_handle s then timer_cancelled s else s) = st_count_ s) as Ec
    by (unfold timer_cancelled; by destruct (last_handle s), (to_initiated_ (st_timeout s))).
  apply wp_cell_release; cbn [use_count stream_ref_count]; rewrite Ec; intros E.
  - exists w'. split_and!; [done| |done]. intros _. eexists. split_and!; [done|cbn; rewrite Ec; lia|].
    unfold timer_cancelled. by destruct (last_handle s), (to_initiated_ (st_timeout s)) eqn:?.
  - apply wp_stream_impl_dtor; [|by intros w''; exists w'].
    eapply (stream_world_ext s); [done|..]; unfold timer_cancelled;
      by destruct (last_handle s), (to_initiated_ (st_timeout s)).
Qed.
End InvLemmas.
