(* ===== verification/StreamSafe.v ===== *)
(** A client as a stream in use: connections, and the safety of streams and
    clients along any sequence of operations, completions and ticks. *)

From S2P Require Import Prelude Uring Buffer BufferSpec BufferFlat Frame BufRing Executor.
From S2P Require Import Awaitable Duration Slots Stream StreamRecv StreamInv.

(** Solve what is left for a known new state of a client whose part [Ec] gives. *)
Ltac client_open Ec :=
  counts_open; unfold stream_counts, refs, shutdown_is_active, send_is_active, op_is_active in *;
  unfold upd_socket, upd_connect, upd in *; cbn in *; rewrite ?Ec in *;
  unfold client_counts, client_conn, op_is_active in *; cbn in *; destruct_and?.
Ltac client_counts_solve Ec := client_open Ec; split_and!; count_goal.
Ltac client_live_solve Ec :=
  cbn [stream_inv object world]; split; [client_open Ec; lia|split; [client_counts_solve Ec|world_solve]].

Section SafeLemmas.
Context {R : Type} {HU : IoUring R} {HUL : IoUringLaws R} {HB : IoUringBufs R} {HBL : IoUringBufsLaws R}.
Context {HSep : IoUringSeparate R} {HS : UnorderedBegin} {HSL : UnorderedBeginLaws} {HO : Others}.
Variable self : ptr.
#[local] Hint Extern 0 (AwaitableBase _ stream_impl) => exact (stream_awaitable_base self) : typeclass_instances.
Implicit Types (w : ctx R) (s : stream_impl) (y : stream_sys).

(** ** Dropping a handle of a client *)

Lemma client_drop_inv y s w c : stream_inv y (Cell w (Some s)) → ss_handles y ≠ 0%nat → st_client s = Some c →
  wp (client_dtor self) (Cell w (Some s)) (λ _, stream_inv (y <| ss_handles ::= pred |>)).
Proof.
  intros Hi Hh Ec. pose proof Hi as (Hr & Hc & Hw). cbn in Hw. pose proof (proj1 Hw).
  unfold client_dtor, get_client. cell_steps. rewrite Ec. cell_steps.
  apply wp_assert.
  { apply Z.ltb_lt. counts_open. cbn. rewrite Ec in *. unfold client_counts, client_conn in *. destruct_and!.
    unfold stream_active, client_active, timeout_cancel_is_active, recv_is_active, timeout_is_active, refs in *. lia. }
  destruct (_ =? 1).
  - apply wp_bind, wp_cancel_timer; [lia|]. intros w1 Hq1.
    apply wp_bind, wp_cancel_recv; [rewrite (queued_entries _ _ _ Hq1); lia|]. intros w2 Hq2. unfold timer_cancelled.
    destruct (to_initiated_ (st_timeout s)) eqn:Et; release_solve (y <| ss_handles ::= pred |>); done.
  - by apply stream_drop_inv.
Qed.

(** ** The awaitable of a connection *)

(** What its destructor cancels. *)
Definition connect_cancels (c : client_part) : list sqe :=
  (if op_is_active (cl_socket c) then [Sqe (op_cancel (Some (self, FkSocket))) None 0] else []) ++
  (if op_is_active (cl_connect c) then [Sqe (op_cancel (Some (self, FkConnect))) None 0] else []).

Lemma wp_push_when (b : bool) q w (Q : unit → ctx R → Prop) : Z.b2z b ≤ space w →
  (∀ w', queued (if b then [q] else []) w w' → space w - Z.b2z b ≤ space w' → Q tt w') →
  wp (when b (on_ring (push_sqe q))) w Q.
Proof.
  intros Hs HQ. apply wp_when; intros ->; cbn in *.
  - apply wp_push; [lia|]. intros w' Hq Hs'. apply HQ; [done|lia].
  - apply HQ; [apply queued_refl|lia].
Qed.

Lemma active_initiated f : Z.b2z (op_is_active f) ≤ Z.b2z (initiated_ f).
Proof. unfold op_is_active. by destruct (initiated_ f), (done_ f). Qed.

Lemma wp_connect_awaitable_dtor s w c (Q : unit → cell R stream_impl → Prop) :
  2 ≤ sq_entries (io_ring_ (frame w)) → st_client s = Some c →
  (∀ w', queued (connect_cancels c) w w' → wp intrusive_ptr_release (Cell w' (Some s)) Q) →
  wp (connect_awaitable_dtor self) (Cell w (Some s)) Q.
Proof.
  intros He Ec HQ. unfold connect_awaitable_dtor, get_client. cell_steps. rewrite Ec. cell_steps.
  pose proof (active_initiated (cl_socket c)). pose proof (active_initiated (cl_connect c)).
  pose proof (b2z_bound (initiated_ (cl_socket c))). pose proof (b2z_bound (initiated_ (cl_connect c))).
  apply wp_reserve; [lia|]. intros w1 Hq1 Hs1. cell_steps.
  assert (∀ b q (Q' : unit → cell R stream_impl → Prop) w',
    wp (on_world (when b (on_ring (push_sqe q)))) (Cell w' (Some s)) Q' →
    wp (when b (on_world (on_ring (push_sqe q)))) (Cell w' (Some s)) Q') as Hwhen by (by intros []).
  apply Hwhen, wp_cell_world, wp_push_when; [lia|]. intros w2 Hq2 Hs2. cell_steps.
  apply Hwhen, wp_cell_world, wp_push_when; [lia|]. intros w3 Hq3 Hs3. cell_steps.
  apply wp_submit. intros w4 Hq4. apply HQ. unfold connect_cancels.
  eapply (queued_trans []); [exact Hq1|]. eapply queued_trans; [exact Hq2|].
  rewrite <- (app_nil_r (if op_is_active (cl_connect c) then _ else _)). by eapply queued_trans.
Qed.

Lemma connect_abandon_inv y s w c : 0 ≤ refs y → stream_counts y (upd_count Z.pred s) → stream_world s w →
  st_client s = Some c → wp (connect_awaitable_dtor self) (Cell w (Some s)) (λ _, stream_inv y).
Proof.
  intros Hr Hc Hw Ec. pose proof (proj1 Hw). apply (wp_connect_awaitable_dtor _ _ c); [lia|done|].
  intros w' Hq. apply (wp_stream_release _ y); [done|done|world_solve|done].
Qed.

(** The client after [reset()] on both frames. *)
Definition connect_over s c : stream_impl :=
  s <| st_client := Some (ClientPart op_frame_new op_frame_new (addr_storage_ c)) |>.

Lemma connect_finish_inv y s w c : 0 ≤ refs y → stream_counts y (upd_count Z.pred (connect_over s c)) →
  stream_world s w → st_client s = Some c →
  (res_ (cl_socket c) < 0 → done_ (cl_connect c) = false) →
  (0 ≤ res_ (cl_socket c) → res_ (cl_connect c) < 0 → initiated_ (cl_socket c) = done_ (cl_socket c)) →
  wp (async_connect_finish self) (Cell w (Some s)) (λ _, stream_inv y).
Proof.
  intros Hr Hc Hw Ec H1 H2. unfold async_connect_finish. apply wp_finally_ret.
  unfold connect_await_resume, get_client. cell_steps. rewrite Ec. cell_steps.
  assert (∀ r : result unit, wp (connect_reset ;; mret r) (Cell w (Some s))
    (λ _ c', wp (connect_awaitable_dtor self) c' (λ _, stream_inv y))) as Hover.
  { intros r. unfold connect_reset. cell_steps. unfold upd_socket, upd_connect, upd, op_reset, upd. cbn. rewrite Ec. cbn.
    eapply connect_abandon_inv; [done|exact Hc|world_solve|done]. }
  assert (∀ e, e < 0 → wp (connect_reset ;; err_of (A:=unit) e) (Cell w (Some s))
    (λ _ c', wp (connect_awaitable_dtor self) c' (λ _, stream_inv y))) as Herr.
  { intros e He. specialize (Hover (Err (- e))). unfold connect_reset in *. cell_steps. unfold err_of.
    apply wp_bind, wp_from_errno; [lia|]. exact Hover. }
  destruct (Z.ltb_spec (res_ (cl_socket c)) 0).
  { apply wp_bind, wp_assert; [by rewrite H1|]. by apply Herr. }
  destruct (Z.ltb_spec (res_ (cl_connect c)) 0).
  { apply wp_bind, wp_assert; [rewrite (H2 ltac:(lia) ltac:(lia)); by destruct (done_ (cl_socket c))|]. by apply Herr. }
  apply Hover.
Qed.

(** The entries after the socket's, and the result of a client that is waiting. *)
Lemma wp_connect_linked h fd len s w (Q : bool → cell R stream_impl → Prop) : 2 ≤ space w →
  (∀ w', queued [connect_sqe self fd len; link_timeout_sqe self] w w' →
     Q true (Cell w' (Some (upd_connect (op_start h) (upd_count Z.succ s))))) →
  wp (on_world (on_ring (push_sqe (connect_sqe self fd len))) ;;
      on_world (on_ring (push_sqe (link_timeout_sqe self))) ;;
      intrusive_ptr_add_ref ;;
      upd_this (upd_connect (op_start h)) ;;
      mret true) (Cell w (Some s)) Q.
Proof.
  intros Hs HQ. cell_steps. apply wp_push; [lia|]. intros w1 Hq1 Hs1. cell_steps.
  apply wp_push; [lia|]. intros w2 Hq2 _. cell_steps. apply HQ. exact (queued_trans [_] _ _ _ _ Hq1 Hq2).
Qed.

(** The slot of a connection: the client's own, a free one, or none. *)
Lemma wp_connect_slot s w (Q : bool → cell R stream_impl → Prop) : stream_world s w →
  (∀ fd w', stream_world (s <| fd_ := fd |>) w' → Q true (Cell w' (Some (s <| fd_ := fd |>)))) →
  (stream_world (s <| fd_ := -1 |>) w →
     Q false (Cell w (Some (upd_socket (λ f, f <| res_ := - ENFILE |>) (s <| fd_ := -1 |>))))) →
  wp (if fd_ s =? -1 then
        fd ← on_world get_available_fd;
        upd_this (λ s, s <| fd_ := fd |>) ;;
        if fd <? 0 then upd_this (upd_socket (λ f, f <| res_ := - ENFILE |>)) ;; mret false
        else mret true
      else mret true) (Cell w (Some s)) Q.
Proof.
  intros Hw Hgo Hno. destruct (Z.eqb_spec (fd_ s) (-1)) as [E|E].
  2:{ specialize (Hgo (fd_ s) w). replace (s <| fd_ := fd_ s |>) with s in Hgo by (by destruct s). by apply Hgo. }
  pose proof Hw as (He & Hs & Hgr & l & Hrw & Hg). unfold stream_slot in Hs. rewrite E in Hs. cbn [app] in Hs.
  apply wp_bind, wp_cell_world, (wp_get_slot _ _ _ Hs).
  - intros _. cell_steps. apply Hno. split_and!; [done|done|done|by exists l].
  - intros fd w' _ H0 [X ->] _ Hs'. cell_steps. rewrite (proj2 (Z.ltb_ge fd 0)) by lia. apply wp_ret, Hgo.
    split_and!; [done|unfold stream_slot; cbn; by rewrite (proj2 (Z.leb_le 0 fd))|done|].
    exists l. split; [|done]. by eapply recv_world_ext; [..|exact Hrw].
Qed.

(** [await_suspend] on fresh frames: no slot, a socket to create, or the connected
    socket. *)
Lemma connect_suspend_inv y s w addr sr cr h : 0 < refs y → stream_world s w →
  st_client s = Some (ClientPart (OpFrame None sr false false) (OpFrame None cr false false) addr) →
  stream_counts y s → n_connect y = 0%nat → 
  sa_family addr = AF_INET ∨ sa_family addr = AF_INET6 →
  wp (connect_await_suspend self h) (Cell w (Some (upd_count Z.succ s))) (λ suspended c',
    if suspended then
      stream_inv (y <| ss_awaiting ::= S |> <| n_connect ::= S |>
                    <| n_socket ::= if (0 <=? fd_ s) && connected_ s then id else S |>) c'
    else wp (async_connect_finish self) c' (λ _, stream_inv y)).
Proof.
  intros Hr Hw Ec Hc Hn Hf. pose proof (proj1 Hw) as He. set (s1 := upd_count Z.succ s).
  assert (st_client s1 = st_client s) as Ec1 by done. rewrite Ec in Ec1.
  unfold connect_await_suspend, get_client. apply wp_bind, wp_bind, wp_cell_this. rewrite Ec1. apply wp_ret.
  cbn [cl_socket cl_connect initiated_ h_ negb addr_storage_].
  do 4 (apply wp_bind, wp_assert; [done|]). apply wp_bind, wp_assert; [by destruct Hf as [-> | ->]|].
  apply wp_bind, wp_cell_this.
  assert (n_socket y = 0%nat) as Hs.
  { counts_open. rewrite Ec in *. unfold client_counts, client_conn in *. cbn in *. lia. }
  assert ((0 <=? fd_ s) && connected_ s = (0 <=? fd_ s1) && connected_ s1) as -> by done.
  destruct ((0 <=? fd_ s1) && connected_ s1).
  { apply wp_bind, wp_bind, wp_cell_world, wp_reserve; [lia|]. intros w1 Hq1 Hs1. apply wp_ret, wp_bind, wp_cell_this.
    apply wp_connect_linked; [done|]. intros w2 Hq2. client_live_solve Ec. }
  apply wp_bind, wp_bind, wp_connect_slot; [by eapply stream_world_ext| |].
  - intros fd w1 Hw1. apply wp_bind, wp_cell_this, wp_bind, wp_cell_world, wp_reserve; [apply Hw1|].
    intros w2 Hq2 Hs2. apply wp_bind, wp_cell_world, wp_push; [lia|]. intros w3 Hq3 Hs3.
    apply wp_bind, wp_cell_add_ref, wp_bind, wp_cell_upd, wp_ret, wp_bind, wp_cell_this. apply wp_connect_linked; [lia|]. intros w4 Hq4. client_live_solve Ec.
  - intros Hw1. apply wp_ret, wp_ret. apply (connect_finish_inv y _ _ (ClientPart (OpFrame None (- ENFILE) false false) (OpFrame None cr false false) addr));
      [lia| |exact Hw1| |done|done].
    + unfold connect_over. client_counts_solve Ec.
    + unfold upd_socket, upd. cbn. by rewrite Ec.
Qed.

(** Starting a connection. *)
Lemma connect_start_inv y s w c addr h : stream_inv y (Cell w (Some s)) →
  st_client s = Some c → connectable y c = true →
  wpx (async_connect self addr h) (Cell w (Some s))
    (λ r, stream_inv (match r with
                      | None => y <| ss_awaiting ::= S |> <| n_connect ::= S |>
                                  <| n_socket ::= if (0 <=? fd_ s) && connected_ s then id else S |>
                      | Some _ => y
                      end))
    (λ _, stream_inv y).
Proof.
  intros (Hr & Hc & Hw) Ec Hok. cbn in Hw. pose proof (proj1 Hw) as He.
  unfold async_connect, client_async_connect. apply wpx_bind.
  destruct (negb (sa_family addr =? AF_INET) && negb (sa_family addr =? AF_INET6)) eqn:Ef.
  { apply wpx_bind. apply wpx_throw_errno; [done|]. live_solve. }
  apply wpx_wp. unfold get_client. cell_steps. rewrite Ec. cell_steps.
  set (s1 := s <| st_client ::= _ |>). set (c1 := c <| addr_storage_ := addr |>).
  assert (st_client s1 = Some c1) as Ec1 by (unfold s1, upd; cbn; by rewrite Ec).
  assert (stream_counts y s1) as Hc1 by (unfold s1; client_counts_solve Ec).
  assert (stream_world s1 w) as Hw1 by world_solve.
  apply wpx_bind, wpx_on_throw. unfold connect_await_ready, get_client. apply wpx_bind, wpx_bind.
  apply wpx_wp, wp_bind, wp_cell_this. change (st_client (upd_count Z.succ s1)) with (st_client s1). rewrite Ec1. apply wp_ret.
  change (initiated_ (cl_socket c1)) with (initiated_ (cl_socket c)). unfold connectable in Hok.
  destruct (initiated_ (cl_socket c)) eqn:Ei.
  { apply wpx_bind, wpx_throw_errno; [done|]. apply (connect_abandon_inv y _ _ c1); [lia| |world_solve|done].
    clearbody s1. counts_solve. }
  apply wpx_wp, wp_ret, wp_ret. rewrite orb_false_l in Hok. bool_simp.
  assert (∃ sr cr, c1 = ClientPart (OpFrame None sr false false) (OpFrame None cr false false) addr) as (sr & cr & E1).
  { clear Hc1. client_open Ec. unfold c1. clear s1 c1 Ec1 Hw1.
    destruct c as [[h1 ? i1 d1] [h2 ? i2 d2] ?]. cbn in *. subst. destruct d1; [naive_solver|].
    do 2 eexists. repeat f_equal; auto. }
  assert (fd_ s = fd_ s1) as -> by done. assert (connected_ s = connected_ s1) as -> by done.
  clearbody s1. rewrite E1 in Ec1. apply wpx_wp. eapply wp_mono.
  { eapply (connect_suspend_inv y s1); [done|done|exact Ec1|done|by apply Nat.eqb_eq|].
    apply andb_false_iff in Ef. rewrite !negb_false_iff, !Z.eqb_eq in Ef. exact Ef. }
  intros [] c' Hc'; cbn beta iota in Hc' |- *; apply wpx_wp; [by apply wp_ret|].
  apply wp_bind. eapply wp_mono; [exact Hc'|]. intros r c'' Hi. by apply wp_ret.
Qed.

(** ** The completions of a connection *)

Lemma wp_socket_handle s w c (Q : option handle → cell R stream_impl → Prop) : st_client s = Some c →
  Q (socket_handle (cl_socket c)).1 (Cell w (Some (upd_socket (λ _, (socket_handle (cl_socket c)).2) s))) →
  wp (stream_handle FkSocket) (Cell w (Some s)) Q.
Proof.
  intros Ec HQ. cbn [stream_handle]. unfold get_client, exchange_h. apply wp_bind, wp_bind, wp_cell_this. rewrite Ec.
  cell_steps. by destruct (socket_handle (cl_socket c)).
Qed.

Lemma wp_connect_handle s w c (Q : option handle → cell R stream_impl → Prop) : st_client s = Some c →
  Q (h_ (cl_connect c)) (Cell w (Some (upd_connect (λ _, cl_connect c <| h_ := None |>) s))) →
  wp (stream_handle FkConnect) (Cell w (Some s)) Q.
Proof.
  intros Ec HQ. cbn [stream_handle]. unfold get_client, exchange_h. apply wp_bind, wp_bind, wp_cell_this. by rewrite Ec.
Qed.

(** What the completions do to the frames. *)
Lemma client_conn_socket ns nc c r : client_conn ns nc c → ns ≠ 0%nat → (r < 0 ∨ r = res_ (cl_socket c)) →
  client_conn (pred ns) nc
    (c <| cl_socket := (socket_handle (cl_socket c <| done_ := true |> <| res_ := r |>)).2 |>).
Proof.
  intros (H1 & H2 & H3 & H4 & H5 & H6 & H7) Hn Hr. unfold client_conn, socket_handle, op_handle, op_is_active, upd in *. cbn in *.
  destruct (initiated_ (cl_socket c)), (done_ (cl_socket c)); cbn in *; try lia.
  destruct (Z.ltb_spec r 0); cbn; split_and!; try done; try lia; intros Hd; specialize (H6 Hd); lia.
Qed.

Lemma client_conn_connect nc c r : client_conn 0 nc c →
  client_conn 0 (pred nc) (c <| cl_connect ::= λ f, f <| done_ := true |> <| res_ := r |> <| h_ := None |> |>).
Proof.
  intros (H1 & H2 & H3 & H4 & H5 & H6 & H7). unfold client_conn, op_is_active, upd. cbn.
  rewrite andb_false_r. split_and!; try done; cbn; lia.
Qed.

Ltac counts_with Ec Hcl :=
  counts_open; unfold stream_counts, refs, shutdown_is_active, send_is_active, op_is_active in *;
  unfold upd_socket, upd_connect, upd in *; cbn in *; rewrite ?Ec; cbn; split_and!; first [exact Hcl|count_goal].

Lemma socket_cqe_inv y s w res : stream_inv y (Cell w (Some s)) → n_socket y ≠ 0%nat → is_client s = true →
  wp (stream_cqe self FkSocket res 0) (Cell w (Some s)) (λ _, stream_inv (y <| n_socket ::= pred |>)).
Proof.
  intros (Hr & Hc & Hw) Hn [c Ec]%is_client_spec. cbn in Hw.
  assert (client_conn (n_socket y) (n_connect y) c) as Hcl by (counts_open; by rewrite Ec in *).
  unfold stream_cqe. apply wp_stream_dispatch; [rewrite (proj1 Hc); lia|].
  cbn [stream_process_cqe]. unfold get_client. apply wp_bind, wp_bind, wp_cell_this. rewrite Ec. apply wp_ret.
  unfold socket_process_cqe. cell_steps. cbn [cqe_res]. apply wp_when; intros Hres; bool_simp.
  - cell_steps. change (fd_ (upd_socket _ (upd_socket _ s))) with (fd_ s). apply wp_stream_release_slot; [done|].
    intros w' Hw'. cell_steps. eapply wp_socket_handle; [unfold upd_socket, upd; cbn; by rewrite Ec|].
    apply (client_conn_socket _ _ _ res) in Hcl; [|done|by left].
    apply (wp_stream_release _ (y <| n_socket ::= pred |>)); [refs_solve|counts_with Ec Hcl|world_solve|done].
  - eapply wp_socket_handle; [unfold upd_socket, upd; cbn; by rewrite Ec|].
    apply (client_conn_socket _ _ _ (res_ (cl_socket c))) in Hcl; [|done|by right].
    apply (wp_stream_release _ (y <| n_socket ::= pred |>)); [refs_solve|counts_with Ec Hcl|world_solve|done].
Qed.

Lemma connect_cqe_inv y s w res : stream_inv y (Cell w (Some s)) → n_connect y ≠ 0%nat → n_socket y = 0%nat → is_client s = true →
  wp (stream_cqe self FkConnect res 0) (Cell w (Some s)) (λ _, stream_inv (y <| n_connect ::= pred |>)).
Proof.
  intros (Hr & Hc & Hw) Hn Hn0 [c Ec]%is_client_spec. cbn in Hw.
  assert (client_conn (n_socket y) (n_connect y) c) as Hcl by (counts_open; by rewrite Ec in *). rewrite Hn0 in Hcl.
  unfold stream_cqe. apply wp_stream_dispatch; [rewrite (proj1 Hc); lia|].
  cbn [stream_process_cqe]. unfold get_client. apply wp_bind, wp_bind, wp_cell_this. rewrite Ec. apply wp_ret.
  unfold connect_process_cqe. cell_steps. cbn [cqe_res].
  assert (∀ r b s', s' = s <| connected_ := b |>
      <| st_client := Some (c <| cl_connect ::= λ f, f <| done_ := true |> <| res_ := r |> |>) |> →
    wp (stream_handle FkConnect) (Cell w (Some s'))
      (λ _ c', wp intrusive_ptr_release c' (λ _, stream_inv (y <| n_connect ::= pred |>)))) as Hgo.
  { intros r b s' ->. eapply wp_connect_handle; [done|].
    apply (client_conn_connect _ _ r) in Hcl. rewrite <- Hn0 in Hcl.
    apply (wp_stream_release _ (y <| n_connect ::= pred |>)); [refs_solve|counts_with Ec Hcl|world_solve|done]. }
  destruct (Z.ltb_spec res 0).
  - cell_steps. apply wp_when; intros _; cell_steps.
    + apply (Hgo res false). unfold upd_connect, upd. cbn. by rewrite Ec.
    + apply (Hgo res (connected_ s)). unfold upd_connect, upd. cbn. by rewrite Ec.
  - cell_steps. apply (Hgo (res_ (cl_connect c)) true). unfold upd_connect, upd. cbn. by rewrite Ec.
Qed.

(** ** The steps of a client *)

(** A client that is to be resumed waits for no socket operation, and meets the
    assertions of [await_resume]. *)
Lemma client_conn_resumed ns nc c : client_conn ns nc c → connect_resumed c = true →
  ns = 0%nat ∧ client_conn ns nc (ClientPart op_frame_new op_frame_new (addr_storage_ c)) ∧
  (res_ (cl_socket c) < 0 → done_ (cl_connect c) = false) ∧
  (0 ≤ res_ (cl_socket c) → res_ (cl_connect c) < 0 → initiated_ (cl_socket c) = done_ (cl_socket c)).
Proof.
  intros (H1 & H2 & H3 & H4 & H5 & H6 & H7) Hr. unfold connect_resumed in Hr. unfold op_is_active in *.
  assert (ns = 0%nat) as ->.
  { destruct (Z.ltb_spec (res_ (cl_socket c)) 0) as [Hn|Hn]; [|by apply H6].
    rewrite H3, andb_false_r in H1 by done. cbn in H1. lia. }
  split_and!; [done| | |].
  - unfold client_conn. cbn. split_and!; try done; lia.
  - intros Hn. rewrite (proj2 (Z.ltb_lt _ _) Hn) in Hr. by apply negb_true_iff.
  - intros _ _. destruct (initiated_ (cl_socket c)), (done_ (cl_socket c)); try done.
    by rewrite H2 by done.
Qed.

Lemma client_op_inv op y w s : stream_inv y (Cell w (Some s)) → stream_op_ok op y w s = true → client_op op = true →
  wp (run_stream_op self op y w s) (Cell w (Some s)) stream_inv.
Proof.
  intros Hi Hok Hop. pose proof Hi as (Hr & Hc & Hw). cbn in Hw.
  destruct op; try done; cbn [run_stream_op]; cbn [stream_op_ok] in Hok; bool_simp; apply wp_bind.
  - destruct (is_client_spec s) as [c Ec]; [done|]. eapply wp_mono; [by apply (client_drop_inv y s w c)|]. by intros ? c' ?.
  - destruct (st_client s) as [c|] eqn:Ec; [|done]. apply wp_attempt.
    eapply wpx_mono; [by apply (connect_start_inv y s w c)| |].
    + by intros [r|] c' ?.
    + by intros e c' ?.
  - destruct (st_client s) as [c|] eqn:Ec; [|done].
    assert (client_conn (n_socket y) (n_connect y) c) as Hcl by (clear - Hc Ec; counts_open; by rewrite Ec in *).
    destruct (client_conn_resumed _ _ _ Hcl H0) as (_ & Hcl' & H1 & H2).
    eapply wp_mono; [apply (connect_finish_inv (y <| ss_awaiting ::= pred |>) s w c); try done|by intros ? c' ?].
    + refs_solve.
    + unfold connect_over. counts_with Ec Hcl'.
  - destruct (is_client_spec s) as [c Ec]; [done|].
    eapply wp_mono; [apply (connect_abandon_inv (y <| ss_awaiting ::= pred |>) s w c); try done|by intros ? c' ?].
    + refs_solve.
    + counts_solve.
  - eapply wp_mono; [by apply (socket_cqe_inv y)|by intros ? c' ?].
  - eapply wp_mono; [apply (connect_cqe_inv y); [done|done|by apply Nat.eqb_eq|done]|by intros ? c' ?].
Qed.

Lemma stream_step_inv op y c : stream_inv y c → wp (stream_step self op y) c stream_inv.
Proof.
  destruct c as [w [s|]]; intros Hi; unfold stream_step; apply wp_bind, wp_get; [|by apply wp_ret].
  cbn [object world]. destruct (stream_op_ok op y w s) eqn:Hok; [|by apply wp_ret].
  destruct op;
    first [by apply stream_op_handles|by apply stream_op_starts|by apply stream_op_finishes
          |by apply stream_op_cqes|by apply stream_timeout_cqe_inv|by apply stream_op_recv_cqes|by apply client_op_inv].
Qed.


End SafeLemmas.
