(* ===== verification/StreamRounds.v ===== *)
(** Whole awaits on a stream and on a client: the submissions, the completions,
    what the event loop resumes, and the result the coroutine gets. *)

From S2P Require Import Prelude Uring Buffer BufferSpec BufferFlat Frame BufRing Executor.
From S2P Require Import Awaitable Duration Stream StreamRecv StreamInv StreamSafe.

Section Rounds.
Context {R : Type} {HU : IoUring R} {HB : IoUringBufs R} {HS : UnorderedBegin}.
Variable self : ptr.
#[local] Hint Extern 0 (AwaitableBase _ stream_impl) => exact (stream_awaitable_base self) : typeclass_instances.

(** [co_await s.async_close()] in coroutine [h] and its completion with [res]:
    what the loop resumes, and the result. *)
Definition close_round (h : handle) (res : Z) : M (cell R stream_impl) (option handle * result unit) :=
  async_close self h ;;
  k ← stream_cqe self FkClose res 0;
  r ← async_close_finish self;
  mret (k, r).

(** A connection whose socket operation succeeds: the handles the two completions
    resume, and the result. *)
Definition connect_round (addr : sockaddr) (h : handle) (sres cres : Z) :
    M (cell R stream_impl) (option handle * option handle * result unit) :=
  async_connect self addr h ;;
  k1 ← stream_cqe self FkSocket sres 0;
  k2 ← stream_cqe self FkConnect cres 0;
  r ← async_connect_finish self;
  mret (k1, k2, r).

(** The event loop processes a whole batch before it resumes what the batch asks
    for: a failed socket operation and the connection linked to it, which the
    kernel cancels. *)
Definition connect_failed_batch (addr : sockaddr) (h : handle) (sres : Z) :
    M (cell R stream_impl) (option handle * option handle) :=
  async_connect self addr h ;;
  k1 ← stream_cqe self FkSocket sres 0;
  k2 ← stream_cqe self FkConnect (- ECANCELED) 0;
  mret (k1, k2).

(** The same with the two completions in different batches: the coroutine goes on
    after the first, and tries again after the second. *)
Definition connect_retried (addr : sockaddr) (h : handle) (sres : Z) :
    M (cell R stream_impl) (result unit * option handle * (option handle * option handle * result unit)) :=
  async_connect self addr h ;;
  _ ← stream_cqe self FkSocket sres 0;
  r ← async_connect_finish self;
  k ← stream_cqe self FkConnect (- ECANCELED) 0;
  again ← connect_round addr h 0 0;
  mret (r, k, again).

(** A client that is not connecting. *)
Definition connect_idle (c : client_part) : Prop :=
  cl_socket c = op_frame_new ∧ cl_connect c = op_frame_new.

(** Everything but the two frames of a connection is as it was. *)
Definition connect_frame_only (s s' : stream_impl) : Prop :=
  s' = s <| st_count_ := st_count_ s' |> <| fd_ := fd_ s' |> <| connected_ := connected_ s' |>
         <| st_client := st_client s' |>.
End Rounds.

Section RoundLemmas.
Context {R : Type} {HU : IoUring R} {HUL : IoUringLaws R} {HB : IoUringBufs R} {HBL : IoUringBufsLaws R}.
Context {HSep : IoUringSeparate R} {HS : UnorderedBegin} {HSL : UnorderedBeginLaws}.
Variable self : ptr.
#[local] Hint Extern 0 (AwaitableBase _ stream_impl) => exact (stream_awaitable_base self) : typeclass_instances.
Implicit Types (w : ctx R) (s : stream_impl) (y : stream_sys).

Ltac handle_steps := unfold exchange_h; cell_steps; unfold op_handle, recv_handle, socket_handle; cell_steps.

(** C29. Closing a stream cancels what is in flight on its descriptor and closes
    it, linked in one batch, ends the timer, resumes the coroutine that asked
    and yields the completion's result; the slot goes back to the pool exactly
    once and the stream forgets it. *)
Theorem close_round_result w s h res :
  3 ≤ sq_entries (io_ring_ (frame w)) → fds_wf w → 1 ≤ st_count_ s →
  (0 ≤ fd_ s → fd_ s < num_files (params_ (frame w)) ∧ fd_ s ∉ fds_ (frame w)) →
  ∃ w1 w' s', close_round self h res (Cell w (Some s)) =
      (Ret (Some h, if res =? 0 then Ok tt else Err (- res)), Cell w' (Some s')) ∧
    queued ([cancel_fd_sqe (fd_ s) None (Z.lor IOSQE_IO_HARDLINK IOSQE_CQE_SKIP_SUCCESS);
             Sqe (op_close_direct (to_unsigned (fd_ s))) (Some (self, FkClose)) 0] ++ timer_cancel_sqes self s) w w1 ∧
    io_ring_ (frame w') = io_ring_ (frame w1) ∧
    fds_ (frame w') = (if 0 <=? fd_ s then {[fd_ s]} ∪ fds_ (frame w) else fds_ (frame w)) ∧
    fd_ s' = -1 ∧ connected_ s' = false ∧ st_close s' = op_frame_new ∧ st_count_ s' = st_count_ s ∧
    to_cancelled_ (st_timeout s') = to_initiated_ (st_timeout s) || to_cancelled_ (st_timeout s).
Proof.
  intros He Hf Hc Hfd.
  assert (wp (close_round self h res) (Cell w (Some s)) (λ r c, ∃ w1 w' s',
    r = (Some h, if res =? 0 then Ok tt else Err (- res)) ∧ c = Cell w' (Some s') ∧
    queued ([cancel_fd_sqe (fd_ s) None (Z.lor IOSQE_IO_HARDLINK IOSQE_CQE_SKIP_SUCCESS);
             Sqe (op_close_direct (to_unsigned (fd_ s))) (Some (self, FkClose)) 0] ++ timer_cancel_sqes self s) w w1 ∧
    io_ring_ (frame w') = io_ring_ (frame w1) ∧
    fds_ (frame w') = (if 0 <=? fd_ s then {[fd_ s]} ∪ fds_ (frame w) else fds_ (frame w)) ∧
    fd_ s' = -1 ∧ connected_ s' = false ∧ st_close s' = op_frame_new ∧ st_count_ s' = st_count_ s ∧
    to_cancelled_ (st_timeout s') = to_initiated_ (st_timeout s) || to_cancelled_ (st_timeout s))) as Hx.
  2:{ apply wp_run in Hx as (r & c & E & w1 & w' & s' & -> & -> & H). by exists w1, w', s'. }
  unfold close_round. apply wp_bind, wp_async_close; [done|]. intros w1 Hq1.
  destruct (queued_same _ _ _ Hq1) as (_ & _ & _ & _ & E5 & E6).
  set (s1 := upd_count (Z.add 2) (timer_cancelled s) <| stream_cancelled_ := true |> <| st_close ::= op_start h |>).
  assert (st_count_ s1 = 2 + st_count_ s ∧ fd_ s1 = fd_ s ∧ h_ (st_close s1) = Some h ∧
    to_cancelled_ (st_timeout s1) = to_initiated_ (st_timeout s) || to_cancelled_ (st_timeout s)) as (C1 & C2 & C3 & C4)
    by (unfold s1, timer_cancelled; by destruct (to_initiated_ (st_timeout s))).
  clearbody s1. apply wp_bind. unfold stream_cqe. apply wp_stream_dispatch; [rewrite C1; lia|].
  cbn [stream_process_cqe stream_handle]. unfold close_process_cqe. cell_steps. cbn [fd_ upd eta eta_stream_impl].
  rewrite C2. apply wp_release_fd; [by unfold fds_wf; rewrite E5, E6|by rewrite E5, E6|].
  intros w' _ _ _ _ Hfr Hfds. cell_steps. handle_steps.
  apply wp_cell_release; cbn; rewrite ?C1; intros Ec; [|lia].
  apply wp_bind. unfold async_close_finish. apply wp_finally_ret. unfold close_await_resume. cell_steps.
  cbn. rewrite C3. rewrite E5 in Hfds.
  match goal with |- wp (if _ then _ else _) (Cell _ (Some ?s2)) ?Q =>
    assert (∀ r : result unit, r = (if res =? 0 then Ok tt else Err (- res)) → Q r (Cell w' (Some s2))) as HQ end.
  { intros r ->. apply wp_cell_release; cbn; rewrite ?C1; intros Ec'; [|lia].
    eexists w1, w', _. split_and!; try done; cbn; [by rewrite Hfr|rewrite C1; lia]. }
  destruct (Z.eqb_spec res 0) as [->|Hres]; [by apply wp_ret, HQ|].
  unfold err_of. apply wp_bind, wp_from_errno; [lia|]. by apply wp_ret, HQ.
Qed.

(** A send while another is in flight throws EBUSY, but not without an effect:
    the destructor of the refused awaitable cancels the send in flight. *)
Lemma busy_send_cancels w s buf h :
  1 ≤ sq_entries (io_ring_ (frame w)) → 0 < st_count_ s →
  initiated_ (sd_op (st_send s)) = true → done_ (sd_op (st_send s)) = false →
  ∃ w', async_send self buf h (Cell w (Some s)) = (Throw (system_error EBUSY), Cell w' (Some s)) ∧
    queued [cancel_sqe self FkSend] w w'.
Proof.
  intros He Hc Hi Hd.
  assert (wpx (async_send self buf h) (Cell w (Some s)) (λ _ _, False) (λ e c,
    e = system_error EBUSY ∧ ∃ w', c = Cell w' (Some s) ∧ queued [cancel_sqe self FkSend] w w')) as Hx.
  { apply wpx_async_send_busy; [done|done|done|]. intros w' Hq. split; [done|]. exists w'. split; [done|].
    unfold send_is_active, op_is_active in Hq. by rewrite Hi, Hd in Hq. }
  unfold wpx in Hx. destruct (async_send _ _ _ _) as [[a|e|f] c]; [done| |done].
  destruct Hx as (-> & w' & -> & Hq). by exists w'.
Qed.

(** A connection while another is in flight throws EBUSY as well, and not only
    cancels the one in flight: the address has been replaced before. *)
Lemma busy_connect_cancels w s c addr h :
  2 ≤ sq_entries (io_ring_ (frame w)) → 0 < st_count_ s → st_client s = Some c →
  sa_family addr = AF_INET ∨ sa_family addr = AF_INET6 → initiated_ (cl_socket c) = true →
  ∃ w', async_connect self addr h (Cell w (Some s)) =
      (Throw (system_error EBUSY), Cell w' (Some (s <| st_client := Some (c <| addr_storage_ := addr |>) |>))) ∧
    queued (connect_cancels self c) w w'.
Proof.
  intros He Hc Ec Hs Hi. set (s1 := s <| st_client := Some (c <| addr_storage_ := addr |>) |>).
  assert (wpx (async_connect self addr h) (Cell w (Some s)) (λ _ _, False) (λ e c',
    e = system_error EBUSY ∧ ∃ w', c' = Cell w' (Some s1) ∧ queued (connect_cancels self c) w w')) as Hx.
  2:{ unfold wpx in Hx. destruct (async_connect _ _ _ _) as [[a|e|f] c']; [done| |done].
      destruct Hx as (-> & w' & -> & Hq). by exists w'. }
  unfold async_connect, client_async_connect, get_client. apply wpx_bind, wpx_wp.
  assert (negb (sa_family addr =? AF_INET) && negb (sa_family addr =? AF_INET6) = false) as ->
    by (by destruct Hs as [-> | ->]).
  cell_steps. rewrite Ec. cell_steps. unfold upd. cbn. rewrite Ec. fold s1.
  change (Cell w (Some _)) with (Cell w (Some (upd_count Z.succ s1))).
  apply wpx_bind, wpx_on_throw. unfold connect_await_ready, get_client. apply wpx_bind, wpx_bind, wpx_wp, wp_bind, wp_cell_this.
  cbn [st_client upd_count stream_ref_count]. apply wp_ret. cbn. rewrite Hi. apply wpx_bind, wpx_throw_errno; [done|].
  eapply wp_connect_awaitable_dtor; [done|done|]. intros w' Hq.
  apply wp_cell_release; cbn; [intros _|lia]. split; [done|]. exists w'. split; [|done].
  unfold s1, upd. cbn. by rewrite Z.pred_succ.
Qed.

Definition address_family (addr : sockaddr) : Z := if sa_family addr =? AF_INET then AF_INET else AF_INET6.

(** The three linked entries of a connection. *)
Definition connect_sqes (addr : sockaddr) (fd : Z) : list sqe :=
  [socket_sqe self (address_family addr) fd; connect_sqe self fd (addrlen addr); link_timeout_sqe self].

(** What a started connection leaves in the client. *)
Definition connecting (addr : sockaddr) (h : handle) (fd : Z) s : stream_impl :=
  s <| st_count_ ::= Z.add 3 |> <| fd_ := fd |>
    <| st_client := Some (ClientPart (OpFrame (Some h) 0 true false) (OpFrame (Some h) 0 true false) addr) |>.

Definition supported (addr : sockaddr) : Prop := sa_family addr = AF_INET ∨ sa_family addr = AF_INET6.

Lemma wp_client_async_connect addr s w c (Q : unit → cell R stream_impl → Prop) :
  supported addr → st_client s = Some c →
  Q tt (Cell w (Some (s <| st_count_ ::= Z.succ |> <| st_client := Some (c <| addr_storage_ := addr |>) |>))) →
  wp (client_async_connect addr) (Cell w (Some s)) Q.
Proof.
  intros Hs Hc HQ. unfold client_async_connect, get_client.
  assert (negb (sa_family addr =? AF_INET) && negb (sa_family addr =? AF_INET6) = false) as ->
    by (by destruct Hs as [-> | ->]).
  cell_steps. rewrite Hc. cell_steps. unfold upd in *. cbn in *. rewrite Hc. exact HQ.
Qed.

Lemma wp_async_connect addr h s w c (Q : option (result unit) → cell R stream_impl → Prop) :
  3 ≤ sq_entries (io_ring_ (frame w)) → fds_wf w → fds_ (frame w) ≠ ∅ → supported addr →
  st_client s = Some c → connect_idle c → fd_ s = -1 →
  (∀ fd w', fd ∈ fds_ (frame w) → fds_ (frame w') = fds_ (frame w) ∖ {[fd]} →
     queued (connect_sqes addr fd) (w <| frame ::= λ f, f <| fds_ := fds_ (frame w) ∖ {[fd]} |> |>) w' →
     Q None (Cell w' (Some (connecting addr h fd s)))) →
  wp (async_connect self addr h) (Cell w (Some s)) Q.
Proof.
  intros He Hf Hne Hs Hc [Ei1 Ei2] Hfd HQ. unfold async_connect. apply wp_bind.
  eapply wp_client_async_connect; [done|exact Hc|]. apply wp_bind, wp_on_throw_ret.
  unfold connect_await_ready, connect_await_suspend, get_client. cell_steps. cbn. rewrite Ei1. cbn [initiated_ op_frame_new]. cell_steps.
  cbn. rewrite Ei1, Ei2. cbn [initiated_ h_ op_frame_new negb]. do 4 (apply wp_bind, wp_assert; [done|]).
  apply wp_bind, wp_assert; [by destruct Hs as [-> | ->]|]. cell_steps. cbn. rewrite Hfd.
  change (0 <=? -1) with false. cbn [andb]. change (-1 =? -1) with true. cell_steps.
  destruct (get_available_fd_run w Hf) as [[? _]|(fd & Hin & E)]; [done|].
  unfold wp at 1. rewrite E. cell_steps. cbn. destruct (proj2 Hf fd Hin) as [Hfd0 _].
  rewrite (proj2 (Z.ltb_ge fd 0)) by lia. cell_steps. set (w0 := w <| frame ::= _ |>).
  apply wp_reserve; [done|]. intros w1 Hq1 Hs1. cell_steps. apply wp_push; [lia|]. intros w2 Hq2 Hs2. cell_steps.
  apply wp_push; [lia|]. intros w3 Hq3 Hs3. cell_steps. apply wp_push; [lia|]. intros w4 Hq4 Hs4. cell_steps.
  assert (queued (connect_sqes addr fd) w0 w4) as Hq.
  { eapply (queued_trans []); [exact Hq1|]. eapply (queued_trans [_]); [exact Hq2|].
    eapply (queued_trans [_]); [exact Hq3|]. exact Hq4. }
  specialize (HQ fd w4 Hin). destruct (queued_same _ _ _ Hq) as (_ & _ & _ & _ & E5 & _).
  specialize (HQ E5 Hq). revert HQ. unfold connecting, upd_connect, upd_socket, upd. cbn. rewrite Ei1, Ei2. cbn.
  replace (Z.succ (Z.succ (Z.succ (st_count_ s)))) with (Z.add 3 (st_count_ s)) by lia. done.
Qed.

(** The completion of the socket operation, with the connection to come. *)
Lemma wp_socket_cqe addr h fd s w sres (Q : option handle → cell R stream_impl → Prop) : 0 ≤ sres → 0 ≤ st_count_ s →
  Q None (Cell w (Some (s <| st_count_ ::= Z.add 2 |> <| fd_ := fd |>
     <| st_client := Some (ClientPart (OpFrame (Some h) 0 true true) (OpFrame (Some h) 0 true false) addr) |>))) →
  wp (stream_cqe self FkSocket sres 0) (Cell w (Some (connecting addr h fd s))) Q.
Proof.
  intros Hs Hc HQ. unfold stream_cqe. apply wp_stream_dispatch; [unfold connecting; cbn; lia|].
  cbn [stream_process_cqe stream_handle]. unfold get_client, socket_process_cqe. cell_steps. cbn [cqe_res].
  rewrite (proj2 (Z.ltb_ge sres 0)) by lia. cell_steps. cbn. unfold exchange_h. cell_steps. cbn.
  unfold socket_handle. cbn. cell_steps. apply wp_cell_release; unfold connecting, upd; cbn -[Z.add]; [intros _|lia].
  revert HQ. unfold upd. cbn -[Z.add]. replace (Z.pred (3 + st_count_ s)) with (2 + st_count_ s) by lia. done.
Qed.

Lemma wp_connect_cqe sf addr h fd s w cres (Q : option handle → cell R stream_impl → Prop) : 0 ≤ st_count_ s →
  Q (Some h) (Cell w (Some (s <| st_count_ ::= Z.succ |> <| fd_ := fd |>
     <| connected_ := (0 <=? cres) || (connected_ s && (cres =? - EISCONN)) |>
     <| st_client := Some (ClientPart sf
          (OpFrame None (if cres <? 0 then cres else 0) true true) addr) |>))) →
  wp (stream_cqe self FkConnect cres 0) (Cell w (Some (s <| st_count_ ::= Z.add 2 |> <| fd_ := fd |>
     <| st_client := Some (ClientPart sf (OpFrame (Some h) 0 true false) addr) |>))) Q.
Proof.
  intros Hc HQ. unfold stream_cqe. apply wp_stream_dispatch; [cbn -[Z.add]; lia|].
  cbn [stream_process_cqe stream_handle]. unfold get_client, connect_process_cqe. cell_steps. cbn [cqe_res].
  destruct (Z.ltb_spec cres 0) as [Hlt|Hlt].
  - rewrite (proj2 (Z.leb_gt 0 cres)) in HQ by lia. cell_steps.
    apply wp_when; intros E; bool_simp; cell_steps; cbn -[Z.add]; unfold exchange_h; cell_steps;
      unfold op_handle; cell_steps; apply wp_cell_release; unfold upd; cbn -[Z.add]; [intros _|lia|intros _|lia];
      revert HQ; unfold upd; cbn -[Z.add]; replace (Z.pred (2 + st_count_ s)) with (Z.succ (st_count_ s)) by lia.
    + rewrite (proj2 (Z.eqb_neq _ _) E), andb_false_r. done.
    + rewrite E, Z.eqb_refl, andb_true_r. done.
  - rewrite (proj2 (Z.leb_le 0 cres)) in HQ by lia. cell_steps. cbn -[Z.add]. unfold exchange_h. cell_steps.
    unfold op_handle. cell_steps. apply wp_cell_release; unfold upd; cbn -[Z.add]; [intros _|lia].
    revert HQ. unfold upd. cbn -[Z.add]. replace (Z.pred (2 + st_count_ s)) with (Z.succ (st_count_ s)) by lia. done.
Qed.

(** The resumption of a connection whose completions have both been processed:
    nothing is left to cancel. *)
Lemma wp_async_connect_finish addr fd b s w h1 h2 cres (Q : result unit → cell R stream_impl → Prop) :
  1 ≤ st_count_ s → 0 ≤ sq_entries (io_ring_ (frame w)) →
  (∀ w', queued [] w w' → Q (if cres <? 0 then Err (- cres) else Ok tt)
     (Cell w' (Some (s <| fd_ := fd |> <| connected_ := b |>
        <| st_client := Some (ClientPart op_frame_new op_frame_new addr) |>)))) →
  wp (async_connect_finish self) (Cell w (Some (s <| st_count_ ::= Z.succ |> <| fd_ := fd |> <| connected_ := b |>
     <| st_client := Some (ClientPart (OpFrame h1 0 true true)
          (OpFrame h2 (if cres <? 0 then cres else 0) true true) addr) |>))) Q.
Proof.
  intros Hc He HQ. unfold async_connect_finish. apply wp_finally_ret. unfold connect_await_resume, get_client. cell_steps.
  cbn. cell_steps. cbn.
  assert (∀ r : result unit, r = (if cres <? 0 then Err (- cres) else Ok tt) →
    wp (connect_awaitable_dtor self) (Cell w (Some (s <| st_count_ ::= Z.succ |> <| fd_ := fd |> <| connected_ := b |>
     <| st_client := Some (ClientPart op_frame_new op_frame_new addr) |>))) (λ _ c, Q r c)) as Hd.
  { intros r ->. unfold connect_awaitable_dtor, get_client. cell_steps. cbn. cell_steps. cbn.
    apply wp_reserve; [done|]. intros w1 Hq1 _. cell_steps. apply wp_submit. intros w2 Hq2.
    specialize (HQ w2 (queued_trans _ _ _ _ _ Hq1 Hq2)).
    apply wp_cell_release; unfold upd; cbn; [intros _|lia]. revert HQ. unfold upd. cbn. by rewrite Z.pred_succ. }
  destruct (Z.ltb_spec cres 0) as [Hlt|Hlt].
  - rewrite (proj2 (Z.ltb_lt cres 0)) by done. apply wp_bind, wp_assert; [done|]. unfold connect_reset. cell_steps.
    unfold upd_socket, upd_connect, upd. cbn. unfold err_of. apply wp_bind, wp_from_errno; [lia|]. by apply wp_ret, Hd.
  - rewrite Z.ltb_irrefl. unfold connect_reset. cell_steps. by apply Hd.
Qed.


(** When no slot is free the connection is not started: nothing is submitted and
    the result is ENFILE. *)
Lemma connect_without_slot w s c addr h :
  0 ≤ sq_entries (io_ring_ (frame w)) → fds_wf w → fds_ (frame w) = ∅ → 1 ≤ st_count_ s →
  supported addr → st_client s = Some c → connect_idle c → fd_ s = -1 →
  ∃ w', async_connect self addr h (Cell w (Some s)) =
      (Ret (Some (Err ENFILE)), Cell w' (Some (s <| st_client := Some (ClientPart op_frame_new op_frame_new addr) |>))) ∧
    queued [] w w'.
Proof.
  intros He Hf Hem Hc Hs Hcl [Ei1 Ei2] Hfd.
  assert (wp (async_connect self addr h) (Cell w (Some s)) (λ r c, ∃ w', r = Some (Err ENFILE) ∧
    c = Cell w' (Some (s <| st_client := Some (ClientPart op_frame_new op_frame_new addr) |>)) ∧ queued [] w w')) as Hx.
  2:{ apply wp_run in Hx as (r & c' & E & w' & -> & -> & H). by exists w'. }
  unfold async_connect. apply wp_bind. eapply wp_client_async_connect; [done|exact Hcl|]. apply wp_bind, wp_on_throw_ret.
  unfold connect_await_ready, connect_await_suspend, get_client. cell_steps. cbn. rewrite Ei1. cbn [initiated_ op_frame_new]. cell_steps.
  cbn. rewrite Ei1, Ei2. cbn [initiated_ h_ op_frame_new negb]. do 4 (apply wp_bind, wp_assert; [done|]).
  apply wp_bind, wp_assert; [by destruct Hs as [-> | ->]|]. cell_steps. cbn. rewrite Hfd.
  change (0 <=? -1) with false. cbn [andb]. change (-1 =? -1) with true. cell_steps.
  destruct (get_available_fd_run w Hf) as [[_ E]|(fd & Hin & E)]; [|by rewrite Hem in Hin].
  unfold wp at 1. rewrite E. cell_steps. cbn. cell_steps.
  apply wp_finally_ret. unfold connect_await_resume, get_client, connect_reset. cell_steps. cbn. cell_steps. cbn.
  rewrite Ei1, Ei2. cbn. apply wp_bind, wp_assert; [done|]. cell_steps. unfold err_of. apply wp_bind, wp_from_errno; [done|]. apply wp_ret.
  unfold connect_awaitable_dtor, get_client. cell_steps. cbn. cell_steps. cbn.
  apply wp_reserve; [done|]. intros w1 Hq1 _. cell_steps. apply wp_submit. intros w2 Hq2.
  apply wp_cell_release; unfold upd; cbn; [intros _|lia]. exists w2. split_and!; [done| |by apply (queued_trans [] [] _ w1)].
  unfold upd_connect, upd_socket, op_reset, upd. cbn. rewrite Z.pred_succ. by destruct s; cbn in *; subst.
Qed.

(** The completions of a connection whose socket operation failed: the slot goes back,
    and each completion hands the coroutine out. *)
Lemma wp_socket_cqe_failed addr h fd s w sres (Q : option handle → cell R stream_impl → Prop) :
  sres < 0 → 0 ≤ st_count_ s → fds_wf w → (0 ≤ fd → fd < num_files (params_ (frame w)) ∧ fd ∉ fds_ (frame w)) →
  (∀ w', Q (Some h) (Cell w' (Some (s <| st_count_ ::= Z.add 2 |> <| fd_ := -1 |>
     <| st_client := Some (ClientPart (OpFrame None sres true true) (OpFrame (Some h) 0 true false) addr) |>)))) →
  wp (stream_cqe self FkSocket sres 0) (Cell w (Some (connecting addr h fd s))) Q.
Proof.
  intros Hs Hc Hf Hn HQ. unfold stream_cqe. apply wp_stream_dispatch; [unfold connecting; cbn; lia|].
  cbn [stream_process_cqe stream_handle]. unfold get_client, socket_process_cqe. cell_steps. cbn [cqe_res].
  rewrite (proj2 (Z.ltb_lt sres 0)) by lia. cell_steps. cbn. cell_steps. cbn.
  apply wp_release_fd; [done|done|]. intros w2 _ _ _ _ _ _. specialize (HQ w2).
  cell_steps. unfold exchange_h. cell_steps. cbn. unfold socket_handle. cbn.
  rewrite (proj2 (Z.ltb_lt sres 0)) by lia. unfold op_handle. cell_steps.
  apply wp_cell_release; unfold connecting, upd; cbn -[Z.add]; [intros _|lia].
  revert HQ. unfold upd. cbn -[Z.add]. replace (Z.pred (3 + st_count_ s)) with (2 + st_count_ s) by lia. done.
Qed.

(** When the socket operation of a connection fails, the connection linked to it
    is cancelled, and if both completions arrive in one batch the event loop is
    asked to resume the coroutine twice; the resumption runs into the assertion
    that the connection has not completed. *)
Lemma connect_socket_failure_resumes_twice w s c addr h sres :
  3 ≤ sq_entries (io_ring_ (frame w)) → fds_wf w → fds_ (frame w) ≠ ∅ → 1 ≤ st_count_ s →
  supported addr → st_client s = Some c → connect_idle c → fd_ s = -1 → sres < 0 →
  ∃ c', connect_failed_batch self addr h sres (Cell w (Some s)) = (Ret (Some h, Some h), c') ∧
    (async_connect_finish self c').1 = Fault AssertFailed.
Proof.
  intros He Hf Hne Hc Hs Hcl Hi Hfd Hsr.
  assert (wp (connect_failed_batch self addr h sres) (Cell w (Some s)) (λ r c', r = (Some h, Some h) ∧
    (async_connect_finish self c').1 = Fault AssertFailed)) as Hx.
  2:{ apply wp_run in Hx as (r & c' & E & -> & H). by exists c'. }
  unfold connect_failed_batch. apply wp_bind. eapply wp_async_connect; [done..|]. intros fd w1 Hin Hfds Hq.
  destruct (queued_same _ _ _ Hq) as (_ & _ & _ & _ & E5 & E6). cbn in E5, E6.
  assert (fds_wf w1) as Hf1.
  { unfold fds_wf. rewrite E5, E6. split; [apply Hf|]. intros x [Hx _]%elem_of_difference. by apply Hf. }
  apply wp_bind, wp_socket_cqe_failed; [done|lia|done| |].
  { intros _. rewrite E5, E6. split; [by apply Hf|]. rewrite elem_of_difference, elem_of_singleton. tauto. }
  intros w2. apply wp_bind, wp_connect_cqe; [lia|]. apply wp_ret. split; [done|].
  unfold async_connect_finish, finally, connect_await_resume, get_client, this, assert. munfold. cbn -[Z.add].
  by rewrite (proj2 (Z.ltb_lt sres 0)) by lia.
Qed.
End RoundLemmas.
