(* ===== verification/StreamSamples.v ===== *)
(** The theorems about streams and clients at concrete inputs, on the recording
    ring: a stream with a ring of two buffers of 8 bytes, and a client. *)

From S2P Require Import Prelude Uring Buffer BufferSpec BufferFlat Frame BufRing Executor.
From S2P Require Import LogRing Awaitable Duration Slots Stream StreamRecv StreamInv StreamSafe StreamRounds.

(** Nothing else in the context. *)
Definition alone : Others := {| other_blocks := ∅; other_slots := []; other_groups := [] |}.

Lemma alone_not a : ¬ @is_other alone a.
Proof. by intros [hb H]. Qed.

Definition stream_setup : M (cell log_ring stream_impl) unit :=
  on_world (register_buf_ring 2 8 7) ;;
  fd ← on_world get_available_fd;
  stream_new 512 fd ;;
  stream_set_buffer_group 7.

Definition empty_cell : cell log_ring stream_impl := Cell (log_ctx 8 4 []) None.

Definition world0 : ctx log_ring := Eval vm_compute in world (stream_setup empty_cell).2.
Definition stream0 : stream_impl := Eval vm_compute in default (StreamImpl 0 op_frame_new op_frame_new
  (ShutdownFrame op_frame_new 0) (SendFrame op_frame_new 0) (RecvFrame (Seq 0 0 0 0) 0 None None 0 0 false)
  (TimeoutFrame false false) (TimeoutCancelFrame 0 false) (Ts 0 0) 0 false false None)
  (object (stream_setup empty_cell).2).
(** One handle, and the timer in flight. *)
Definition sys0 : stream_sys := StreamSys 1 0 0 0 0 0 0 1 0 0 0.

Lemma setup_run : stream_setup empty_cell = (Ret tt, Cell world0 (Some stream0)).
Proof. vm_compute. reflexivity. Qed.

Lemma world0_heap : heap_wf (heap world0).
Proof.
  split; [by_compute| |by_compute].
  assert (map_Forall (λ a _, bool_decide (nullptr < a < brk (heap world0))) (headers (heap world0))) as H.
  { apply (bool_decide_unpack _). by_compute. }
  intros a [h Ha]. specialize (H a h Ha). by apply bool_decide_unpack in H.
Qed.

Lemma world0_rings g br : rings world0 !! g = Some br → g = 7 ∧ br = ring_br.
Proof.
  change (rings world0) with ({[ 7 := ring_br ]} : gmap Z buf_ring).
  intros [-> ->]%lookup_singleton_Some. done.
Qed.

Lemma world0_in_ring g p : in_ring world0 g p → g = 7 ∧ (p = 64 ∨ p = 104).
Proof.
  intros (br & [-> ->]%world0_rings & Hp & _). split; [done|]. cbn in Hp.
  apply elem_of_cons in Hp as [->|Hp]; [by left|]. apply elem_of_cons in Hp as [->|Hp]; [by right|].
  by apply not_elem_of_nil in Hp.
Qed.

Lemma world0_rest (HO : Others) : other_blocks = ∅ → rest_world world0.
Proof.
  intros Eo. split; [apply world0_heap| | | | |].
  - intros g br [-> ->]%world0_rings. split; [|reflexivity].
    apply ring_wf_lists; [by_compute| |by_compute]. intros i j p Hi Hj ?. small_lookup.
  - intros g p [-> Hp]%world0_in_ring. destruct Hp as [-> | ->];
      (split; [unfold detached; split_and!; by_compute|eexists; split_and!; [by_compute|by_compute..]]).
  - intros g g' p [-> _]%world0_in_ring [-> _]%world0_in_ring. reflexivity.
  - intros a hb. by rewrite Eo.
  - intros a [hb Ha]. by rewrite Eo in Ha.
Qed.

Lemma world0_recv (HO : Others) : other_blocks = ∅ → recv_world (buffers_ (st_recv stream0)) [] world0.
Proof.
  intros Eo. destruct (world0_rest HO Eo) as [H1 H2 H3 H4 H5 H6].
  split; [exact H1| |by_compute|constructor|exact H2| |exact H4|exact H5|].
  - split; [apply NoDup_singleton|apply not_elem_of_nil..|by_compute|by_compute|by_compute|exact I|by_compute].
  - intros g p Hp. split; [|by apply (H3 g)]. apply world0_in_ring in Hp as [-> [-> | ->]];
      apply (bool_decide_unpack _); by_compute.
  - intros a [hb Ha]. by rewrite Eo in Ha.
Qed.

Lemma world0_free : fds_ (frame world0) = list_to_set [0; 1; 2].
Proof. vm_compute. reflexivity. Qed.

Lemma world0_ok : slots_ok [3] world0.
Proof.
  unfold slots_ok, fds_wf. rewrite world0_free. change (num_files _) with 4. split_and!; [done| |apply NoDup_singleton| |];
    intros fd; rewrite ?elem_of_list_to_set, !elem_of_cons, ?elem_of_nil; lia.
Qed.

Lemma world0_fds : fds_wf world0.
Proof. apply world0_ok. Qed.

Lemma inv0 : @stream_inv _ _ alone sys0 (Cell world0 (Some stream0)).
Proof.
  split; [by_compute|]. split.
  - unfold stream_counts. vm_compute. split_and!; first [reflexivity | discriminate | (left; reflexivity)].
  - split_and!; [by_compute|exact world0_ok|by intros g ?%not_elem_of_nil|]. exists []. split; [by apply world0_recv|]. left. exists ring_br. by_compute.
Qed.

Definition client0 : stream_impl := stream0 <| fd_ := -1 |>
  <| st_client := Some (ClientPart op_frame_new op_frame_new (Sockaddr 0 [])) |>.
Definition loopback : sockaddr := Sockaddr AF_INET [31; 144; 127; 0; 0; 1].

(** Another object holds the slot 3. *)
Definition one_held : Others := {| other_blocks := ∅; other_slots := [3]; other_groups := [7] |}.

Lemma client_inv0 : @stream_inv _ _ one_held sys0 (Cell world0 (Some client0)).
Proof.
  split; [by_compute|]. split.
  - unfold stream_counts. vm_compute. split_and!; first [reflexivity | discriminate | (left; reflexivity)].
  - split_and!; [by_compute|exact world0_ok|intros g ->%list_elem_of_singleton; exists ring_br; by_compute|]. exists []. split; [by apply world0_recv|]. left. exists ring_br. by_compute.
Qed.

(** A session: receives with data and the end of the stream, a busy send, a timer
    completion, and a close; then every reference is dropped. *)
Definition session : list stream_op :=
  [So_timeout (Ts 1 0); So_copy; So_recv 4096; So_data_cqe 0 3 true; So_data_cqe 1 8 true; So_recv_finish;
   So_send [1; 2] 8192; So_send [3] 8192; So_tick 5000000000; So_timeout_cqe (- ETIME) 2; So_timeout_cancel_cqe 0;
   So_send_cqe (- ECANCELED); So_send_finish; So_recv 4096; So_eof_cqe; So_recv_finish;
   So_close 4096; So_timeout_cqe (- ECANCELED) 0; So_close_cqe 0; So_close_finish; So_drop; So_drop].

(** A session of a client: a second call refused while the first is in flight, a
    cancelled connection, one more on the same slot, whose socket fails. *)
Definition client_session : list stream_op :=
  [So_connect (Sockaddr 1 []) 4096; So_connect loopback 4096; So_connect loopback 8192; So_socket_cqe 0;
   So_connect_cqe (- ECANCELED); So_connect_finish; So_connect loopback 4096; So_socket_cqe (- 24); So_connect_finish;
   So_connect_cqe (- ECANCELED); So_client_drop; So_timeout_cqe (- ECANCELED) 0].


(** The stream while a coroutine waits for data. *)
Definition waiting : cell log_ring stream_impl * stream_impl := Eval vm_compute in
  match async_recv 512 4096 (Cell world0 (Some stream0)) with
  | (_, Cell w (Some s)) => (Cell w (Some s), s)
  | (_, Cell w None) => (Cell w None, stream0)
  end.
Definition world1 : ctx log_ring := Eval vm_compute in world waiting.1.
Definition stream1 : stream_impl := Eval vm_compute in waiting.2.

#[local] Existing Instance alone.

Lemma world1_recv : recv_world (buffers_ (st_recv stream1)) [] world1.
Proof. apply (recv_world_ext _ _ world0); [reflexivity|reflexivity|by apply world0_recv]. Qed.

Lemma recv_delivers_in_order_witness :
  ∃ q w' s', (hs ← deliver_all 512 7 [(1%nat, [1; 2; 3]); (0%nat, [4; 5])]; r ← async_recv_finish 512; mret (hs, r))
      (Cell world1 (Some stream1)) = (Ret ([4096], Ok q), Cell w' (Some s')) ∧
    to_bytes q (heap w') = (Ret [1; 2; 3; 4; 5], heap w').
Proof.
  destruct (recv_delivers_in_order 512 7 [(1%nat, [1; 2; 3]); (0%nat, [4; 5])] world1 stream1 ring_br)
    as (q & w' & s' & E & B & _).
  - discriminate.
  - exact world1_recv.
  - reflexivity.
  - reflexivity.
  - by_compute.
  - split; [apply (bool_decide_unpack _); by_compute|].
    repeat constructor; cbn; try discriminate; [exists 104|exists 64]; (split_and!; [reflexivity|discriminate|by_compute || (vm_compute; lia)]).
  - discriminate.
  - reflexivity.
  - exists q, w', s'. split; [exact E|exact B].
Defined.

Lemma recv_failure_reported_witness :
  ∃ s', (h ← stream_cqe 512 FkRecv (- ECANCELED) 0; r ← async_recv_finish 512; mret (h, r)) (Cell world1 (Some stream1)) =
    (Ret (Some 4096, Err ETIMEDOUT), Cell world1 (Some s')) ∧ ec_ (st_recv s') = 0.
Proof.
  destruct (recv_failure_reported 512 world1 stream1 (- ECANCELED) 0) as (s' & E & H & _);
    [discriminate|reflexivity|reflexivity|reflexivity|reflexivity|].
  exists s'. split; [exact E|exact H].
Defined.

(** A buffer with three bytes is queued. *)
Definition queued_data : ctx log_ring * stream_impl := Eval vm_compute in
  match deliver 512 7 1 [1; 2; 3] true (Cell world1 (Some stream1)) with
  | (_, Cell w (Some s)) => (w, s)
  | (_, Cell w None) => (w, stream1)
  end.
Definition world2 : ctx log_ring := Eval vm_compute in queued_data.1.
Definition stream2 : stream_impl := Eval vm_compute in queued_data.2.

Lemma world2_recv : recv_world (buffers_ (st_recv stream2)) [104] world2.
Proof.
  assert (wp (deliver 512 7 1 [1; 2; 3] true) (Cell world1 (Some stream1)) (λ _ c, match object c with
    | Some s => recv_world (buffers_ (st_recv s)) [104] (world c) | None => False end)) as H.
  { eapply (wp_deliver 512 (buffers_ (st_recv stream1)) [] world1 stream1 7 ring_br 1 104);
      [discriminate|reflexivity|exact world1_recv|reflexivity|by_compute|reflexivity|discriminate|discriminate|
       vm_compute; lia|].
    intros q' w' Hw _ _ _ _. exact Hw. }
  vm_compute in H. exact H.
Qed.


Lemma close_round_result_witness :
  ∃ w' s', close_round 512 4096 0 (Cell world0 (Some stream0)) = (Ret (Some 4096, Ok tt), Cell w' (Some s')) ∧
    fd_ s' = -1 ∧ fds_ (frame w') = {[fd_ stream0]} ∪ fds_ (frame world0).
Proof.
  destruct (close_round_result 512 world0 stream0 4096 0) as (w1 & w' & s' & E & _ & _ & F & D & _).
  - discriminate.
  - apply world0_fds.
  - discriminate.
  - intros _. split; [reflexivity|]. apply (bool_decide_unpack _). by_compute.
  - exists w', s'. split_and!; [exact E|exact D|exact F].
Defined.

(** ** A client *)


Lemma client_idle : connect_idle (ClientPart op_frame_new op_frame_new (Sockaddr 0 [])).
Proof. by split. Qed.

Lemma world0_slots : fds_ (frame world0) ≠ ∅.
Proof. intros H. assert (size (fds_ (frame world0)) = 3%nat) as E by by_compute. by rewrite H, size_empty in E. Qed.


Definition full_world : ctx log_ring := world0 <| frame ::= λ f, f <| fds_ := ∅ |> |>.

(** A completion that comes after [reset()] marks the fresh frame: the retry
    connects, but its result is the error of the connection before. *)
Lemma late_completion_spoils_retry :
  ∃ w' s', connect_retried 512 loopback 4096 (- 24) (Cell world0 (Some client0)) =
    (Ret (Err 24, None, (None, Some 4096, Err ECANCELED)), Cell w' (Some s')) ∧ connected_ s' = true.
Proof. do 2 eexists. split; [vm_compute; reflexivity|reflexivity]. Qed.
