(* ===== verification/StreamWatch.v ===== *)
(** Sends, and the timer of a stream: a whole send yields its completion's value, and the
    timer cancels exactly the streams whose operations make no progress. *)

From S2P Require Import Prelude Uring Buffer BufferSpec BufferFlat Frame BufRing Executor.
From S2P Require Import LogRing Awaitable Duration Stream StreamRecv StreamInv StreamSafe StreamSamples.

Section Watch.
Context {R : Type} {HU : IoUring R} {HUL : IoUringLaws R} {HB : IoUringBufs R} {HBL : IoUringBufsLaws R}.
Context {HSep : IoUringSeparate R} {HS : UnorderedBegin} {HSL : UnorderedBeginLaws}.
Variable self : ptr.
#[local] Hint Extern 0 (AwaitableBase _ stream_impl) => exact (stream_awaitable_base self) : typeclass_instances.
Implicit Types (w : ctx R) (s : stream_impl).

(** [co_await s.async_send( buf )] in coroutine [h] and its completion with [res]. *)
Definition send_round (buf : list Z) (h : handle) (res : Z) : M (cell R stream_impl) (option handle * result Z) :=
  async_send self buf h ;;
  k ← stream_cqe self FkSend res 0;
  r ← async_send_finish self;
  mret (k, r).

(** A receive or a send has been in flight without progress for the stream's timeout. *)
Definition stalled w s : Prop :=
  (rf_initiated_ (st_recv s) = true ∧ timespec_ns (ts_ s) ≤ clock w - last_recv_ (st_recv s)) ∨
  (initiated_ (sd_op (st_send s)) = true ∧ done_ (sd_op (st_send s)) = false ∧
   timespec_ns (ts_ s) ≤ clock w - last_send_ (st_send s)).

Lemma stalled_expired w s : stalled w s ↔ stream_expired w s = true.
Proof.
  unfold stalled, stream_expired, recv_is_active, send_is_active, op_is_active.
  rewrite orb_true_iff, !andb_true_iff, negb_true_iff, !Z.leb_le. tauto.
Qed.

#[global] Instance stalled_dec w s : Decision (stalled w s).
Proof. refine (cast_if (decide (stream_expired w s = true))); by rewrite stalled_expired. Defined.

(** The queue entries of an expiry, and the stream after it. *)
Definition watch_sqes w s (more : bool) : list sqe :=
  (if decide (stalled w s) then [cancel_fd_sqe (fd_ s) (Some (self, FkTimeoutCancel)) 0] else []) ++
  (if more then [] else [timeout_sqe self]).

Definition watched w s (more : bool) : stream_impl :=
  s <| st_count_ ::= λ n, if decide (stalled w s) then Z.succ n else n |>
    <| st_timeout_cancel ::= λ f, if decide (stalled w s) then f <| tc_initiated_ := true |> else f |>
    <| st_timeout ::= λ f, if more then f else f <| to_initiated_ := true |> |>.

Ltac handle_steps := unfold exchange_h; cell_steps; unfold op_handle, recv_handle, socket_handle; cell_steps.

Lemma wp_send_cqe s w res (Q : option handle → cell R stream_impl → Prop) : 2 ≤ st_count_ s →
  Q (h_ (sd_op (st_send s))) (Cell w (Some (upd_count Z.pred s
      <| st_send ::= λ f, f <| sd_op := OpFrame None res (initiated_ (sd_op f)) true |> |>
      <| connected_ ::= λ b, if res <? 0 then false else b |>))) →
  wp (stream_cqe self FkSend res 0) (Cell w (Some s)) Q.
Proof.
  intros Hc HQ. unfold stream_cqe. apply wp_stream_dispatch; [lia|]. cbn [stream_process_cqe stream_handle].
  unfold send_process_cqe. cell_steps. cbn [cqe_res].
  destruct (Z.ltb_spec res 0); (apply wp_when; intros E; [|]); try discriminate; cell_steps; handle_steps;
    (apply wp_cell_release; cbn; [intros _|lia]); exact HQ.
Qed.

Lemma wp_async_send_finish s w (Q : result Z → cell R stream_impl → Prop) : 2 ≤ st_count_ s → 1 ≤ sq_entries (io_ring_ (frame w)) →
  (∀ w', queued [] w w' → Q (if res_ (sd_op (st_send s)) <? 0 then Err (- res_ (sd_op (st_send s))) else Ok (res_ (sd_op (st_send s))))
       (Cell w' (Some (upd_count Z.pred s <| st_send ::= λ f, f <| sd_op := op_frame_new |> |>)))) →
  wp (async_send_finish self) (Cell w (Some s)) Q.
Proof.
  intros Hc He HQ. unfold async_send_finish. apply wp_finally_ret. unfold send_await_resume. cell_steps. cbn.
  assert (∀ r, r = (if res_ (sd_op (st_send s)) <? 0 then Err (- res_ (sd_op (st_send s))) else Ok (res_ (sd_op (st_send s)))) →
    wp (send_awaitable_dtor self) (Cell w (Some (s <| st_send ::= send_reset |>))) (λ _ c, Q r c)) as Hd.
  { intros r ->. apply wp_send_awaitable_dtor; [done|]. intros w' Hq. apply wp_cell_release; cbn; [intros _|lia]. exact (HQ w' Hq). }
  destruct (Z.ltb_spec (res_ (sd_op (st_send s))) 0).
  - unfold err_of. apply wp_bind, wp_from_errno; [lia|]. by apply wp_ret, Hd.
  - by apply wp_ret, Hd.
Qed.

(** C30. A send queues exactly one entry, for the caller's bytes on the stream's slot;
    its completion resumes the coroutine that waits, and the result is the number of
    bytes the kernel took or its error.  After that the stream is as it was,
    the time of the send and, after an error, the connection apart. *)
Theorem send_round_result w s buf h res : 1 ≤ sq_entries (io_ring_ (frame w)) → 0 < st_count_ s →
  initiated_ (sd_op (st_send s)) = false →
  ∃ w', send_round buf h res (Cell w (Some s)) =
    (Ret (Some h, if res <? 0 then Err (- res) else Ok res),
     Cell w' (Some (s <| st_send := SendFrame op_frame_new (clock w) |> <| connected_ ::= λ b, if res <? 0 then false else b |>))) ∧
    queued [Sqe (op_send (fd_ s) buf) (Some (self, FkSend)) IOSQE_FIXED_FILE] w w'.
Proof.
  intros He Hc Hi.
  assert (wp (send_round buf h res) (Cell w (Some s)) (λ r c, r = (Some h, if res <? 0 then Err (- res) else Ok res) ∧
    ∃ w', c = Cell w' (Some (s <| st_send := SendFrame op_frame_new (clock w) |> <| connected_ ::= λ b, if res <? 0 then false else b |>)) ∧
      queued [Sqe (op_send (fd_ s) buf) (Some (self, FkSend)) IOSQE_FIXED_FILE] w w')) as Hx.
  2:{ apply wp_run in Hx as (r & c & E & -> & w' & -> & Hq). by exists w'. }
  unfold send_round. apply wp_bind, wp_async_send; [done|done|]. intros w1 Hq1. apply wp_bind, wp_send_cqe; [cbn; lia|].
  apply wp_bind, wp_async_send_finish; [cbn; lia|by rewrite (queued_entries _ _ _ Hq1)|]. intros w2 Hq2. apply wp_ret.
  split; [done|]. exists w2. split; [|exact (queued_trans _ _ _ _ _ Hq1 Hq2)].
  destruct s. unfold upd; cbn. do 3 f_equal. lia.
Qed.

Lemma wp_rearmed s w (more : bool) (Q : option handle → cell R stream_impl → Prop) : 1 ≤ sq_entries (io_ring_ (frame w)) → 0 < st_count_ s →
  (∀ w', queued (if more then [] else [timeout_sqe self]) w w' →
     Q None (Cell w' (Some (s <| st_timeout ::= λ f, if more then f else f <| to_initiated_ := true |> |>)))) →
  wp (S := cell R stream_impl)
    (when (negb more)
       (on_world (queue_one (timeout_sqe self)) ;;
        upd_this (λ s : stream_impl, s <| st_timeout ::= λ f, f <| to_initiated_ := true |> |>))) (Cell w (Some s))
    (λ _ c, wp intrusive_ptr_add_ref c (λ _ c, wp (mret None : M (cell R stream_impl) (option handle)) c
       (λ h c', wp intrusive_ptr_release c' (λ _ c'', Q h c'')))).
Proof.
  intros He Hc HQ. apply wp_when; intros E; destruct more; try discriminate; cell_steps.
  - apply wp_queue_one; [lia|]. intros w1 Hq1. cell_steps. apply wp_ret, wp_cell_release; cbn; [intros _|lia].
    match goal with |- Q _ (Cell _ (Some ?a)) => match type of HQ with ∀ w', _ → Q _ (Cell _ (Some ?b)) => assert (a = b) as -> end end.
    { destruct s. unfold upd; cbn. f_equal. lia. }
    by apply HQ.
  - apply wp_ret, wp_cell_release; cbn; [intros _|lia].
    match goal with |- Q _ (Cell _ (Some ?a)) => match type of HQ with ∀ w', _ → Q _ (Cell _ (Some ?b)) => assert (a = b) as -> end end.
    { destruct s. unfold upd; cbn. f_equal. lia. }
    apply HQ, queued_refl.
Qed.

End Watch.

(** ** On the recording ring *)

Lemma send_round_result_witness : ∃ w', send_round 512 [1; 2; 3] 4096 2 (Cell world0 (Some stream0)) =
  (Ret (Some 4096, Ok 2), Cell w' (Some stream0)).
Proof.
  destruct (send_round_result 512 world0 stream0 [1; 2; 3] 4096 2) as (w' & E & _).
  - vm_compute. discriminate.
  - reflexivity.
  - reflexivity.
  - exists w'. exact E.
Defined.

(** A stream that has waited for data for longer than its timeout. *)
Definition world_late : ctx log_ring := world1 <| clock := 10000000000 |>.

