(* ===== verification/IoSamples.v ===== *)
(** The theorems about I/O objects at concrete inputs, on the recording ring. *)

From S2P Require Import Prelude Uring Buffer Frame Executor LogRing Awaitable Duration.
From S2P Require Import Timer.

(** ** Timers *)
Definition io_world : ctx log_ring := log_ctx 4 4 [].
Definition idle_timer : timer_impl := timer_new.
Definition one_handle : timer_sys := TimerSys 1 false false 0 0.

Lemma idle_timer_inv : timer_inv one_handle (Cell io_world (Some idle_timer)).
Proof. unfold timer_inv, timer_flags, refs. cbn. by split_and!. Qed.

Lemma timer_ops_safe_witness :
  ∃ s' c', run_timer_ops 512 [Op_wait (Ts 1 0) 4096; Op_wait (Ts 2 0) 8192; Op_cancel 8192; Op_drop;
             Op_wait_cqe (- ECANCELED); Op_cancel_cqe 0; Op_wait_finish; Op_cancel_finish]
             one_handle (Cell io_world (Some idle_timer)) = (Ret s', c') ∧ object c' = None.
Proof.
  destruct (timer_ops_safe 512 [Op_wait (Ts 1 0) 4096; Op_wait (Ts 2 0) 8192; Op_cancel 8192; Op_drop;
             Op_wait_cqe (- ECANCELED); Op_cancel_cqe 0; Op_wait_finish; Op_cancel_finish]
             one_handle _ idle_timer_inv) as (s' & c' & E & _).
  exists s', c'. split; [exact E|]. vm_compute in E. injection E as _ <-. reflexivity.
Defined.

Lemma wait_round_result_witness :
  ∃ w' t', wait_round 512 (Ts 1 0) 4096 (- ECANCELED) (Cell io_world (Some idle_timer)) =
    (Ret (Some 4096, Err ECANCELED), Cell w' (Some t')).
Proof.
  destruct (wait_round_result 512 io_world idle_timer (Ts 1 0) 4096 (- ECANCELED)) as (w' & t' & E & _);
    [reflexivity..|].
  exists w', t'. exact E.
Defined.

