(* ===== verification/IoContext.v ===== *)
(** [src/io_context.cpp]: the frame that reads wake-ups and posted tasks from the
    pipe, the event loop [io_context::run] with its guards, and the construction
    and destruction of the shared frame.

    The loop dispatches completions to objects in a table [objs]; an object is
    the pipe frame or one of the library's I/O objects, of type [O], which the
    loop only uses through [AwaitableBase].  The bodies of the user's coroutines,
    what the kernel writes into memory, and [operator new] are arguments
    ([LoopEnv]); so are the calls that set a ring up ([OsSetup]). *)

From S2P Require Import Prelude Uring Buffer Frame Executor Task Awaitable.

(** ** The objects of a program *)

(** An object is of one class or of another. *)
Section Sum.
Context {R A B : Type}.

Definition lift_l {X} (m : M (cell R A) X) : M (cell R (A + B)) X := λ c,
  match object c with
  | Some (inr _) => (Fault WrongClass, c)
  | Some (inl a) => let '(r, c') := m (Cell (world c) (Some a)) in (r, Cell (world c') (inl <$> object c'))
  | None => let '(r, c') := m (Cell (world c) None) in (r, Cell (world c') (inl <$> object c'))
  end.

Definition lift_r {X} (m : M (cell R B) X) : M (cell R (A + B)) X := λ c,
  match object c with
  | Some (inl _) => (Fault WrongClass, c)
  | Some (inr b) => let '(r, c') := m (Cell (world c) (Some b)) in (r, Cell (world c') (inr <$> object c'))
  | None => let '(r, c') := m (Cell (world c) None) in (r, Cell (world c') (inr <$> object c'))
  end.

#[export] Instance sum_ref_count {HA : RefCount A} {HB : RefCount B} : RefCount (A + B) := {|
  use_count o := match o with inl a => use_count a | inr b => use_count b end;
  upd_count f o := match o with inl a => inl (upd_count f a) | inr b => inr (upd_count f b) end |}.

#[export] Instance sum_ref_count_laws {HA : RefCount A} {HB : RefCount B}
  {LA : RefCountLaws A} {LB : RefCountLaws B} : RefCountLaws (A + B).
Proof. split. intros f [a|b]; cbn; apply use_count_upd. Qed.

(** A virtual call goes to the class of the object. *)
Definition sum_awaitable (HA : AwaitableBase R A) (HB : AwaitableBase R B) : AwaitableBase R (A + B) := {|
  destructor o := match o with inl a => destructor a | inr b => destructor b end;
  await_process_cqe k e := λ c,
    match object c with
    | Some (inl _) => lift_l (await_process_cqe k e) c
    | Some (inr _) => lift_r (await_process_cqe k e) c
    | None => (Fault UseAfterFree, c)
    end;
  take_handle k := λ c,
    match object c with
    | Some (inl _) => lift_l (take_handle k) c
    | Some (inr _) => lift_r (take_handle k) c
    | None => (Fault UseAfterFree, c)
    end |}.
End Sum.

(** ** The pipe frame *)

(** [frame]; its executor is the one of the context, and [buffer_] holds the
    word read. *)
Record pipe_frame := PipeFrame { pf_count_ : Z; pf_h_ : option handle; buffer_ : Z; pf_fd_ : Z }.
#[export] Instance eta_pipe_frame : Eta pipe_frame :=
  λ f, PipeFrame (pf_count_ f) (pf_h_ f) (buffer_ f) (pf_fd_ f).

#[export] Instance pipe_ref_count : RefCount pipe_frame := {|
  use_count := pf_count_; upd_count f p := p <| pf_count_ ::= f |> |}.
#[export] Instance pipe_ref_count_laws : RefCountLaws pipe_frame.
Proof. by split. Qed.

Definition pipe_frame_new (fd : Z) : pipe_frame := PipeFrame 0 None 0 fd.

(** [std::coroutine_handle<>::from_address] of a word: null is no handle. *)
Definition handle_of_address (data : Z) : option handle := if data =? 0 then None else Some data.

(** [io_uring_prep_read( sqe, fd_, buffer_, sizeof( buffer_ ), 0 )] *)
Definition read_pipe_sqe (self fd : Z) : sqe := Sqe (op_read fd self 8 0) (Some (self, FkPipe)) 0.

(** What [run] uses that is not code of the repository: where a coroutine frame
    and an object are allocated, what resuming a user's coroutine does, and what
    the kernel writes into the memory it was given while [run] waits. *)
Record loop (R O : Type) := Loop { lctx : ctx R; objs : gmap ptr (pipe_frame + O) }.
Arguments Loop {R O}. Arguments lctx {R O}. Arguments objs {R O}.
#[export] Instance eta_loop R O : Eta (loop R O) := λ l, Loop (lctx l) (objs l).

Class CoroAlloc := { new_coro : gmap Z coro → handle }.
Class CoroAllocLaws `{!CoroAlloc} : Prop := { new_coro_fresh cs : cs !! new_coro cs = None }.

Class LoopEnv (R O : Type) := {
  new_object : gmap ptr (pipe_frame + O) → ptr;
  user_resume : handle → M (loop R O) unit;
  kernel_writes : loop R O → loop R O;
}.
Class LoopEnvLaws (R O : Type) `{!LoopEnv R O} : Prop := {
  new_object_fresh os : os !! new_object os = None;
}.

Section Pipe.
Context {R : Type} {HU : IoUring R} {HA : CoroAlloc}.
Variable self : ptr.

Local Abbreviation PM := (M (cell R pipe_frame)).

Definition schedule_recv : PM unit :=
  p ← this;
  on_world (on_ring (reserve_sqes 1)) ;;
  on_world (on_ring (push_sqe (read_pipe_sqe self (pf_fd_ p)))) ;;
  intrusive_ptr_add_ref.

(** The task at [data] gets a scheduler coroutine; the local [internal_task]
    is destroyed at the end. *)
Definition accept_post (data : Z) : M (ctx R) unit :=
  cs ← gets coros;
  internal_task ← scheduler (new_coro cs) (handle_of_address data);
  add_task internal_task ;;
  on_frame (modify (λ f, f <| run_queue_ ::= λ q, q ++ [internal_task] |>)) ;;
  internal_task_release internal_task.

Definition pipe_process_cqe (e : cqe) : PM unit :=
  when (negb (cqe_res e =? 8))
    (assert (cqe_res e <? 0) ;; throw_errno_as_error_code (- cqe_res e)) ;;
  p ← this;
  match decode_pipe (buffer_ p) with
  | Msg_wake h => upd_this (λ p, p <| pf_h_ := handle_of_address h |>)
  | Msg_post t => on_world (accept_post t)
  | Msg_none => mret tt
  end ;;
  schedule_recv.

Definition pipe_handle : PM (option handle) :=
  p ← this; upd_this (λ p, p <| pf_h_ := None |>) ;; mret (pf_h_ p).

Definition pipe_awaitable_base : AwaitableBase R pipe_frame := {|
  destructor _ := mret tt;
  await_process_cqe k e := match k with FkPipe => pipe_process_cqe e | _ => fail WrongClass end;
  take_handle k := match k with FkPipe => pipe_handle | _ => fail WrongClass end |}.

(** [pipe_awaitable::cancel]: the SQE is filled after its datum is set, and
    [io_uring_prep_cancel] leaves the datum alone. *)
Definition pipe_cancel : M (ctx R) unit :=
  on_ring (reserve_sqes 1) ;;
  on_ring (push_sqe (Sqe (op_cancel (Some (self, FkPipe))) None 0)) ;;
  submit.
End Pipe.

(** ** The loop *)
Section Loop.
Context {R O : Type} {HU : IoUring R} {HQ : IoUringCq R} {HS : UnorderedBegin} {HC : RefCount O}.
Context {HO : ptr → AwaitableBase R O} {HA : CoroAlloc} {HE : LoopEnv R O}.

Local Abbreviation obj := (pipe_frame + O)%type.
Local Abbreviation LM := (M (loop R O)).

Definition object_base (p : ptr) : AwaitableBase R obj := sum_awaitable (pipe_awaitable_base p) (HO p).

Definition on_ctx {A} (m : M (ctx R) A) : LM A := zoom lctx m.

(** A piece of code that works on the object at [p]. *)
Definition at_object {A} (p : ptr) (m : M (cell R obj) A) : LM A := λ s,
  let '(r, c) := m (Cell (lctx s) (objs s !! p)) in
  (r, Loop (world c) (partial_alter (λ _, object c) p (objs s))).

(** [if ( p_frame_->exception_ptr_ ) std::rethrow_exception( ... )] *)
Definition check_exception : M (ctx R) unit :=
  f ← on_frame get;
  match exception_ptr_ f with Some e => throw e | None => mret tt end.

(** [h.resume()].  A scheduler coroutine is only resumed like this from its
    initial suspension; it is resumed again by the final suspension of its task. *)
Definition coro_resume (h : handle) : LM unit :=
  x ← on_ctx (get_coro h);
  match x with
  | UserCoro _ _ _ => user_resume h
  | SchedCoro _ _ =>
      k ← on_ctx (sched_start h);
      match k with Some k => user_resume k | None => mret tt end
  end.

Fixpoint run_queue_loop (fuel : nat) : LM unit :=
  match fuel with
  | 0%nat => fail OutOfFuel
  | S fuel =>
      f ← on_ctx (on_frame get);
      match run_queue_ f with
      | [] => mret tt
      | h :: _ =>
          coro_resume h ;;
          on_ctx (on_frame (modify (λ f, f <| run_queue_ ::= tl |>))) ;;
          on_ctx check_exception ;;
          run_queue_loop fuel
      end
  end.

(** One pass of the loop over completions: [q] adopts the queue's reference. *)
Definition process_cqe (p : ptr) (k : frame_kind) (e : cqe) : LM (option handle) :=
  at_object p
    (let _ := object_base p in
     finally
       (o ← this;
        assert (1 <=? use_count o) ;;
        await_process_cqe k e ;;
        h ← take_handle k;
        on_world check_exception ;;
        mret h)
       intrusive_ptr_release).

Definition cq_advance (n : Z) : LM unit := on_ctx (on_ring (modify (io_uring_cq_advance n))).

(** The loop under [advance_guard], whose destructor advances the queue by the
    completions counted so far, on every way out. *)
Fixpoint process_cqes (count : Z) (es : list cqe) (phandles : list handle) : LM (list handle) :=
  match es with
  | [] => cq_advance count ;; mret phandles
  | e :: es =>
      match cqe_data e with
      | None => process_cqes (count + 1) es phandles
      | Some (p, k) =>
          h ← on_throw (process_cqe p k e) (cq_advance count);
          process_cqes (count + 1) es (match h with Some h => phandles ++ [h] | None => phandles end)
      end
  end.

Fixpoint resume_all (hs : list handle) : LM unit :=
  match hs with [] => mret tt | h :: hs => coro_resume h ;; resume_all hs end.

Definition submit_and_wait : LM unit :=
  on_ctx (on_ring (modify io_uring_submit_and_wait)) ;; modify kernel_writes.

(** The vectors [cqes] and [handles] have room for [cq_entries] elements. *)
Definition wait_batch : LM (list cqe) :=
  submit_and_wait ;;
  num_ready ← on_ctx (on_ring (gets io_uring_cq_ready));
  f ← on_ctx (on_frame get);
  when (param_cq_entries (params_ f) <? num_ready) (fail OutOfBounds) ;;
  on_ctx (on_ring (gets (λ r, io_uring_peek_batch_cqe r num_ready))).

(** The rest of an iteration, after the run queue. *)
Definition poll_io : LM unit :=
  es ← wait_batch;
  hs ← process_cqes 0 es [];
  resume_all hs.

Fixpoint main_loop (fuel : nat) : LM unit :=
  match fuel with
  | 0%nat => fail OutOfFuel
  | S fuel =>
      f ← on_ctx (on_frame get);
      if bool_decide (tasks_ f = ∅) then mret tt else
      on_ctx check_exception ;;
      run_queue_loop fuel ;;
      f ← on_ctx (on_frame get);
      if bool_decide (tasks_ f = ∅) then mret tt else
      poll_io ;;
      main_loop fuel
  end.

(** ** The guards *)

Definition release_at (p : ptr) : LM unit := at_object p (let _ := object_base p in intrusive_ptr_release).

(** The loop of [~guard] over what is left in the completion queue. *)
Fixpoint drain (fuel : nat) (blacklist : list (ptr * frame_kind)) : LM unit :=
  match fuel with
  | 0%nat => fail OutOfFuel
  | S fuel =>
      c ← on_ctx (on_ring (gets io_uring_peek_cqe));
      match c with
      | None => mret tt
      | Some e =>
          match cqe_data e with
          | None => cq_advance 1 ;; drain fuel blacklist
          | Some d =>
              if bool_decide (d ∈ blacklist) then cq_advance 1 ;; drain fuel blacklist
              else release_at d.1 ;; cq_advance 1 ;; drain fuel (d :: blacklist)
          end
      end
  end.

Definition guard_dtor (fuel : nat) : LM unit :=
  on_ctx submit ;; on_ctx clear ;; drain fuel [].

(** [pipe_awaitable]: [new frame( ex, fd )], held by one reference. *)
Definition pipe_awaitable_new (fd : Z) : LM ptr :=
  s ← get;
  let p := new_object (objs s) in
  modify (λ s, s <| objs ::= <[p := inl (pipe_frame_new fd)]> |>) ;;
  at_object p (lift_l (intrusive_ptr_add_ref ;; schedule_recv p)) ;;
  mret p.

Definition pipe_awaitable_dtor (p : ptr) : LM unit := on_ctx (pipe_cancel p) ;; release_at p.

Definition run (fuel : nat) : LM unit :=
  finally
    (f ← on_ctx (on_frame get);
     p ← pipe_awaitable_new (pipefd_ f).1;
     finally (main_loop fuel ;; on_ctx check_exception) (pipe_awaitable_dtor p))
    (guard_dtor fuel).
End Loop.

(** ** io_context_frame *)

(** The calls that set a ring up: [pipe] yields an errno or two descriptors, the
    others a result and what it is of. *)
Class OsSetup (R : Type) := {
  os_pipe : Z + (Z * Z);
  (** sq_entries, cq_entries, flags *)
  io_uring_queue_init_params : Z → Z → Z → Z * R;
  io_uring_register_ring_fd : R → Z * R;
  io_uring_register_files_sparse : Z → R → Z * R;
}.

Definition IORING_SETUP_CQSIZE : Z := 8.
Definition IORING_SETUP_SINGLE_ISSUER : Z := 4096.
Definition IORING_SETUP_DEFER_TASKRUN : Z := 8192.

(** What the process holds open: descriptors of pipes, and rings. *)
Record os_state := OsState { open_fds : list Z; open_rings : nat }.
#[export] Instance eta_os_state : Eta os_state := λ s, OsState (open_fds s) (open_rings s).

(** [static_cast<int>] of a 32-bit unsigned. *)
Definition to_int (n : Z) : Z := let m := n `mod` 2 ^ 32 in if m <? 2 ^ 31 then m else m - 2 ^ 32.

Section Setup.
Context {R : Type} {HS : OsSetup R}.

Definition setup_flags : Z :=
  Z.lor (Z.lor IORING_SETUP_CQSIZE IORING_SETUP_SINGLE_ISSUER) IORING_SETUP_DEFER_TASKRUN.

Definition io_context_frame_new (ps : io_context_params) : M os_state (io_context_frame R) :=
  pipefd ← (match os_pipe with
            | inl e => throw_errno_as_error_code e
            | inr fds => modify (λ s, s <| open_fds ::= λ l, l ++ [fds.1; fds.2] |>) ;; mret fds
            end);
  let '(ret, ring) := io_uring_queue_init_params (param_sq_entries ps) (param_cq_entries ps) setup_flags in
  when (negb (ret =? 0)) (throw_errno_as_error_code (- ret)) ;;
  modify (λ s, s <| open_rings ::= S |>) ;;
  let '(ret, ring) := io_uring_register_ring_fd ring in
  when (negb (ret =? 1)) (throw_errno_as_error_code (- ret)) ;;
  let '(ret, ring) := io_uring_register_files_sparse (num_files ps) ring in
  when (negb (ret =? 0)) (throw_errno_as_error_code (- ret)) ;;
  mret (IoFrame ring ∅ ps None ∅ (list_to_set (seqZ 0 (to_int (num_files ps)))) [] None pipefd).

(** [close( pipefd_[0] ); close( pipefd_[1] ); io_uring_queue_exit( ring )] *)
Definition io_context_frame_dtor (f : io_context_frame R) : M os_state unit :=
  modify (λ s, s <| open_fds ::= filter (λ fd, fd ≠ (pipefd_ f).1 ∧ fd ≠ (pipefd_ f).2) |>) ;;
  modify (λ s, s <| open_rings ::= Nat.pred |>).
End Setup.

(** ** Lemmas *)

(** Queueing and submitting leave the completions that wait where they are; more
    may be posted behind them. *)
Class IoUringCqSq (R : Type) `{!IoUring R} `{!IoUringCq R} : Prop := {
  get_sqe_cq q (r r' : R) : io_uring_get_sqe q r = Some r' → cq_pending r' = cq_pending r;
  submit_cq (r : R) : ∃ l, cq_pending (io_uring_submit r) = cq_pending r ++ l;
  cq_advance_entries n (r : R) : sq_entries (io_uring_cq_advance n r) = sq_entries r;
}.

Section LoopLemmas.
Context {R O : Type} {HU : IoUring R} {HUL : IoUringLaws R} {HQ : IoUringCq R} {HQL : IoUringCqLaws R}.
Context {HS : UnorderedBegin} {HC : RefCount O} {HCL : RefCountLaws O}.
Context {HO : ptr → AwaitableBase R O} {HA : CoroAlloc} {HAL : CoroAllocLaws} {HE : LoopEnv R O}.
Implicit Types s : loop R O.

(** The completions that wait. *)
Definition pending s : list cqe := cq_pending (io_ring_ (frame (lctx s))).

Definition advanced (n : Z) s : loop R O :=
  s <| lctx ::= λ w, w <| frame ::= λ f, f <| io_ring_ ::= io_uring_cq_advance n |> |> |>.

Lemma cq_advance_run n s : cq_advance n s = (Ret tt, advanced n s).
Proof. by destruct s as [[[]]]. Qed.

Lemma pending_advanced n s : pending (advanced n s) = drop (Z.to_nat n) (pending s).
Proof. unfold pending, advanced. cbn. apply cq_advance_pending. Qed.

Lemma wp_at_object {A} p (m : M (cell R (pipe_frame + O)) A) s (Q : A → loop R O → Prop) :
  wp m (Cell (lctx s) (objs s !! p))
    (λ a c, Q a (Loop (world c) (partial_alter (λ _, object c) p (objs s)))) →
  wp (at_object p m) s Q.
Proof. unfold wp, at_object. by destruct (m _) as [[a|e|f] c]. Qed.

(** *** A batch of completions *)

(** The completions [es] are handled one after the other, each by its object, and
    hand out the coroutines [hs]. *)
Inductive handled : list cqe → loop R O → list handle → loop R O → Prop :=
| handled_nil s : handled [] s [] s
| handled_null e es s hs s' : cqe_data e = None → handled es s hs s' → handled (e :: es) s hs s'
| handled_one e es p k s h s1 hs s' : cqe_data e = Some (p, k) →
    process_cqe p k e s = (Ret h, s1) → handled es s1 hs s' →
    handled (e :: es) s (option_list h ++ hs) s'.

Lemma process_cqes_handled es s hs s' : handled es s hs s' → ∀ n acc,
  process_cqes n es acc s = (Ret (acc ++ hs), advanced (n + Z.of_nat (length es)) s').
Proof.
  induction 1 as [s|e es s hs s' Hd _ IH|e es p k s h s1 hs s' Hd Hp _ IH]; intros n acc; cbn.
  - erewrite bind_ret by apply cq_advance_run. by rewrite app_nil_r, Z.add_0_r.
  - rewrite Hd, IH. f_equal. f_equal. lia.
  - rewrite Hd. erewrite bind_ret by (unfold on_throw; by rewrite Hp). rewrite IH.
    f_equal; [by destruct h; rewrite <- ?app_assoc|]. f_equal. lia.
Qed.

Lemma process_cqes_throws es1 s hs s1 : handled es1 s hs s1 → ∀ n acc e es2 p k x s2,
  cqe_data e = Some (p, k) → process_cqe p k e s1 = (Throw x, s2) →
  process_cqes n (es1 ++ e :: es2) acc s = (Throw x, advanced (n + Z.of_nat (length es1)) s2).
Proof.
  induction 1 as [s|e0 es s hs s' Hd0 _ IH|e0 es p0 k0 s h s1 hs s' Hd0 Hp0 _ IH];
    intros n acc e es2 p k x s2 Hd Hp; cbn.
  - rewrite Hd. erewrite bind_throw by (unfold on_throw; rewrite Hp, cq_advance_run; reflexivity).
    by rewrite Z.add_0_r.
  - rewrite Hd0. erewrite IH by done. f_equal. f_equal. lia.
  - rewrite Hd0. erewrite bind_ret by (unfold on_throw; by rewrite Hp0). erewrite IH by done.
    f_equal. f_equal. lia.
Qed.

(** *** Draining the completion queue *)

(** The data of [ds] that are not in [seen], each once, in order. *)
Fixpoint distinct (seen ds : list (ptr * frame_kind)) : list (ptr * frame_kind) :=
  match ds with
  | [] => []
  | d :: ds => if bool_decide (d ∈ seen) then distinct seen ds else d :: distinct (d :: seen) ds
  end.

Lemma elem_of_distinct ds : ∀ seen d, d ∈ distinct seen ds ↔ d ∈ ds ∧ d ∉ seen.
Proof.
  induction ds as [|d0 ds IH]; intros seen d; cbn; [split; [by intros ?%elem_of_nil|by intros [?%elem_of_nil _]]|].
  case_bool_decide as Hin.
  - rewrite IH, elem_of_cons. split; [tauto|]. by intros [[-> | ?] ?].
  - rewrite !elem_of_cons, IH, !elem_of_cons.
    destruct (decide (d = d0)) as [->|]; tauto.
Qed.

Lemma NoDup_distinct ds : ∀ seen, NoDup (distinct seen ds).
Proof.
  induction ds as [|d ds IH]; intros seen; cbn; [constructor|]. case_bool_decide; [done|].
  constructor; [|done]. intros [_ Hn]%elem_of_distinct. by apply Hn; left.
Qed.

(** The references to the object at [p] that the data [ds] stand for. *)
Definition refs_to (p : ptr) (ds : list (ptr * frame_kind)) : Z :=
  Z.of_nat (length (filter (λ d, d.1 = p) ds)).

Lemma refs_to_cons p d ds : refs_to p (d :: ds) = (if decide (d.1 = p) then 1 else 0) + refs_to p ds.
Proof. unfold refs_to. rewrite filter_cons. destruct (decide _); cbn; lia. Qed.

Lemma refs_to_nonneg p ds : 0 ≤ refs_to p ds.
Proof. unfold refs_to. lia. Qed.

(** An object gives up a reference, the last one running its destructor. *)
Lemma release_at_run p o s : objs s !! p = Some o →
  (use_count o ≠ 1 → release_at p s =
     (Ret tt, s <| objs ::= <[p := upd_count Z.pred o]> |>)) ∧
  (use_count o = 1 → ∀ w, @destructor _ _ (object_base p) (upd_count Z.pred o) (lctx s) = (Ret tt, w) →
     release_at p s = (Ret tt, Loop w (delete p (objs s)))).
Proof.
  intros Ho. unfold release_at, at_object, intrusive_ptr_release, upd_this, this. rewrite Ho.
  assert (use_count (upd_count Z.pred o) = use_count o - 1) as Hc by (rewrite use_count_upd; lia).
  split; intros Hu; [|intros w Hd]; munfold; cbn -[use_count upd_count destructor object_base]; rewrite Hc.
  - rewrite (proj2 (Z.eqb_neq _ _)) by lia. cbn. by destruct s.
  - rewrite (proj2 (Z.eqb_eq _ _)) by lia. unfold on_world, zoom. cbn -[use_count upd_count destructor object_base]. by rewrite Hd.
Qed.

(** What the guard does to an object when the completions hold [n] of its
    references. *)
Definition released (n : Z) (o o' : option (pipe_frame + O)) : Prop :=
  match o with
  | None => o' = None
  | Some x =>
      if n =? 0 then o' = Some x
      else if use_count x =? n then o' = None
      else ∃ y, o' = Some y ∧ use_count y = use_count x - n
  end.

(** An invariant that dropping references keeps and under which destructors
    run, without touching the completion queue. *)
Record drainable (J : loop R O → Prop) : Prop := {
  drainable_live s p o : J s → objs s !! p = Some o → use_count o ≠ 1 →
    J (s <| objs ::= <[p := upd_count Z.pred o]> |>);
  drainable_last s p o : J s → objs s !! p = Some o → use_count o = 1 →
    ∃ w, @destructor _ _ (object_base p) (upd_count Z.pred o) (lctx s) = (Ret tt, w) ∧
      cq_pending (io_ring_ (frame w)) = pending s ∧ J (Loop w (delete p (objs s)));
  drainable_seen s : J s → J (advanced 1 s);
}.

(** Every datum in [ds] is a live object with enough references. *)
Definition backed (ds : list (ptr * frame_kind)) s : Prop :=
  ∀ p, match objs s !! p with Some o => refs_to p ds ≤ use_count o | None => refs_to p ds = 0 end.

Lemma release_at_backed J d ds s : drainable J → J s → backed (d :: ds) s →
  ∃ s', release_at d.1 s = (Ret tt, s') ∧ pending s' = pending s ∧ J s' ∧ backed ds s' ∧
    ∀ p o', released (refs_to p ds) (objs s' !! p) o' → released (refs_to p (d :: ds)) (objs s !! p) o'.
Proof.
  intros HJ Hs Hb. pose proof (Hb d.1) as Hd. rewrite refs_to_cons, decide_True in Hd by done.
  pose proof (refs_to_nonneg d.1 ds) as Hn.
  destruct (objs s !! d.1) as [o|] eqn:Eo; [|lia]. destruct (release_at_run d.1 o s Eo) as [Hlive Hlast].
  destruct (Z.eq_dec (use_count o) 1) as [E1|E1].
  - destruct (drainable_last _ HJ s d.1 o Hs Eo E1) as (w & Ew & Hw & Hj). exists (Loop w (delete d.1 (objs s))).
    split_and!; [by apply Hlast|done|done| |].
    + intros p. cbn. destruct (decide (d.1 = p)) as [<-|Hp]; [rewrite lookup_delete_eq; lia|].
      rewrite lookup_delete_ne by done. specialize (Hb p). by rewrite refs_to_cons, decide_False in Hb.
    + intros p o'. cbn. rewrite refs_to_cons. destruct (decide (d.1 = p)) as [<-|Hp].
      * rewrite lookup_delete_eq, Eo. cbn -[use_count]. intros ->.
        rewrite (proj2 (Z.eqb_neq _ 0)) by lia. by rewrite (proj2 (Z.eqb_eq _ _)) by lia.
      * by rewrite lookup_delete_ne.
  - exists (s <| objs ::= <[d.1 := upd_count Z.pred o]> |>).
    assert (use_count (upd_count Z.pred o) = use_count o - 1) as Hc by (rewrite use_count_upd; lia).
    split_and!; [by apply Hlive|done|by apply (drainable_live _ HJ)| |].
    + intros p. cbn -[use_count upd_count]. destruct (decide (d.1 = p)) as [<-|Hp].
      * rewrite lookup_insert_eq, Hc. lia.
      * rewrite lookup_insert_ne by done. specialize (Hb p). by rewrite refs_to_cons, decide_False in Hb.
    + intros p o'. cbn -[use_count upd_count]. rewrite refs_to_cons. destruct (decide (d.1 = p)) as [<-|Hp].
      * rewrite lookup_insert_eq, Eo. cbn -[use_count upd_count]. rewrite Hc, (proj2 (Z.eqb_neq (1 + _) 0)) by lia.
        destruct (Z.eqb_spec (refs_to d.1 ds) 0) as [E0|E0].
        { intros ->. rewrite (proj2 (Z.eqb_neq _ _)) by lia. eexists. split; [done|]. lia. }
        destruct (Z.eqb_spec (use_count o - 1) (refs_to d.1 ds)) as [Eu|Eu].
        { intros ->. by rewrite (proj2 (Z.eqb_eq _ _)) by lia. }
        intros (y & -> & Hy). rewrite (proj2 (Z.eqb_neq _ _)) by lia. eexists. split; [done|]. lia.
      * by rewrite lookup_insert_ne.
Qed.

Lemma drain_run J : drainable J → ∀ l seen fuel s, (length l < fuel)%nat → pending s = l → J s →
  backed (distinct seen (omap cqe_data l)) s →
  ∃ s', drain fuel seen s = (Ret tt, s') ∧ pending s' = [] ∧ J s' ∧
    ∀ p, released (refs_to p (distinct seen (omap cqe_data l))) (objs s !! p) (objs s' !! p).
Proof.
  intros HJ. induction l as [|e l IH]; intros seen [|fuel] s Hf Hp Hj Hb; cbn in Hf; try lia; cbn [drain].
  all: assert (on_ctx (on_ring (gets io_uring_peek_cqe)) s = (Ret (head (pending s)), s)) as E
    by (unfold pending; rewrite <- peek_cqe_pending; by destruct s as [[[]]]); rewrite (bind_ret _ _ _ _ _ E), Hp.
  { exists s. split_and!; [done|done|done|]. intros p. cbn. by destruct (objs s !! p). }
  cbn. assert (∀ s1, pending s1 = e :: l → pending (advanced 1 s1) = l) as Ha
    by (intros s1 H1; by rewrite pending_advanced, H1).
  change (omap cqe_data (e :: l)) with
    (match cqe_data e with Some d => d :: omap cqe_data l | None => omap cqe_data l end) in Hb.
  destruct (cqe_data e) as [d|] eqn:Ed.
  2:{ erewrite bind_ret by apply cq_advance_run.
      destruct (IH seen fuel (advanced 1 s)) as (s' & E' & H); [lia|by apply Ha|by apply drainable_seen|done|].
      by exists s'. }
  cbn [distinct] in Hb |- *. case_bool_decide as Hin.
  { erewrite bind_ret by apply cq_advance_run.
    destruct (IH seen fuel (advanced 1 s)) as (s' & E' & H); [lia|by apply Ha|by apply drainable_seen|done|].
    by exists s'. }
  destruct (release_at_backed J _ _ s HJ Hj Hb) as (s1 & E1 & Hp1 & Hj1 & Hb1 & Hr).
  rewrite (bind_ret _ _ _ _ _ E1). erewrite bind_ret by apply cq_advance_run.
  destruct (IH (d :: seen) fuel (advanced 1 s1)) as (s' & E' & Hp' & Hj' & Hr'); [lia|apply Ha; congruence|by apply drainable_seen|done|].
  exists s'. split_and!; [done|done|done|]. intros p. apply Hr, Hr'.
Qed.
End LoopLemmas.
