(* ===== verification/EventLoop.v ===== *)
(** Theorems about [IoContext]: how wake-ups and posted tasks reach the event loop,
    what a batch of completions does, what the guards release, and what the
    construction of the shared frame establishes. *)

From S2P Require Import Prelude Uring Buffer Frame Executor Task Awaitable IoContext.

(** ** The pipe *)
Section PipeLemmas.
Context {R : Type} {HU : IoUring R} {HUL : IoUringLaws R} {HA : CoroAlloc} {HAL : CoroAllocLaws}.
Variable self : ptr.

Lemma wp_schedule_recv w pf (Q : unit → cell R pipe_frame → Prop) : 1 ≤ sq_entries (io_ring_ (frame w)) →
  (∀ w', queued [read_pipe_sqe self (pf_fd_ pf)] w w' → Q tt (Cell w' (Some (pf <| pf_count_ ::= Z.succ |>)))) →
  wp (schedule_recv self) (Cell w (Some pf)) Q.
Proof.
  intros He HQ. unfold schedule_recv. cell_steps. apply wp_reserve; [done|]. intros w1 Hq1 Hs1. cell_steps.
  apply wp_push; [lia|]. intros w2 Hq2 _. cell_steps. apply HQ.
  by apply (queued_trans [] [read_pipe_sqe self (pf_fd_ pf)] _ w1).
Qed.

(** The context after a task at [t] has been accepted. *)
Definition accepted (n t : handle) (w : ctx R) : ctx R :=
  w <| coros ::= <[n := SchedCoro (IPromise V_uninit None 1) (handle_of_address t)]> |>
    <| frame ::= λ f, f <| tasks_ ::= <[n := n]> |> <| run_queue_ ::= λ q, q ++ [n] |> |>.

Lemma accept_post_run t w : tasks_ (frame w) !! new_coro (coros w) = None →
  accept_post t w = (Ret tt, accepted (new_coro (coros w)) t w).
Proof.
  intros Ht. pose proof (new_coro_fresh (coros w)) as Hc. unfold accept_post. rewrite bind_gets. set (n := new_coro _) in *.
  destruct w as [f hp ck cs]. cbn in Ht, Hc.
  unfold scheduler, internal_task_new, add_task, internal_task_release, get_internal, upd_internal, get_coro,
    set_coro, on_frame, accepted. munfold.
  do 12 (cbn; rewrite ?lookup_insert_eq, ?insert_insert_eq, ?Ht; unfold upd;
          change (Z.pred (Z.succ 1)) with 1).
  reflexivity.
Qed.

(** What the message read does before the next read is scheduled. *)
Definition message_effect (w : ctx R) (pf : pipe_frame) : ctx R * pipe_frame :=
  match decode_pipe (buffer_ pf) with
  | Msg_wake h => (w, pf <| pf_h_ := handle_of_address h |>)
  | Msg_post t => (accepted (new_coro (coros w)) t w, pf)
  | Msg_none => (w, pf)
  end.

Lemma wp_pipe_process e w pf (Q : unit → cell R pipe_frame → Prop) :
  1 ≤ sq_entries (io_ring_ (frame w)) → cqe_res e = 8 → tasks_ (frame w) !! new_coro (coros w) = None →
  (∀ w', queued [read_pipe_sqe self (pf_fd_ pf)] (message_effect w pf).1 w' →
     Q tt (Cell w' (Some ((message_effect w pf).2 <| pf_count_ ::= Z.succ |>)))) →
  wp (pipe_process_cqe self e) (Cell w (Some pf)) Q.
Proof.
  intros He Hr Ht HQ. unfold pipe_process_cqe. rewrite Hr. cell_steps. revert HQ. unfold message_effect.
  destruct (decode_pipe (buffer_ pf)) as [h|t|] eqn:Ed; cbn; intros HQ; cell_steps; rewrite ?Ed; cell_steps.
  - by apply wp_schedule_recv.
  - unfold wp at 1. rewrite accept_post_run by done. by apply wp_schedule_recv.
  - by apply wp_schedule_recv.
Qed.
End PipeLemmas.

Section LoopTheorems.
Context {R O : Type} {HU : IoUring R} {HUL : IoUringLaws R} {HQ : IoUringCq R} {HQL : IoUringCqLaws R}.
Context {HQS : IoUringCqSq R} {HS : UnorderedBegin} {HC : RefCount O} {HCL : RefCountLaws O}.
Context {HO : ptr → AwaitableBase R O} {HA : CoroAlloc} {HAL : CoroAllocLaws} {HE : LoopEnv R O}.
Implicit Types s : loop R O.

Lemma wp_lift_l {A B X} (m : M (cell R A) X) w a (Q : X → cell R (A + B) → Prop) :
  wp m (Cell w (Some a)) (λ x c, Q x (Cell (world c) (inl <$> object c))) →
  wp (lift_l m) (Cell w (Some (inl a))) Q.
Proof. unfold wp, lift_l. cbn. by destruct (m _) as [[x|e|f] c]. Qed.

Lemma wp_check_exception (w : ctx R) (Q : unit → ctx R → Prop) :
  exception_ptr_ (frame w) = None → Q tt w → wp check_exception w Q.
Proof.
  intros Hx Hk. unfold wp, check_exception. by rewrite (bind_ret _ _ _ _ _ (on_frame_get w)), Hx.
Qed.

Lemma queued_exception qs (w w' : ctx R) : queued qs w w' → exception_ptr_ (frame w') = exception_ptr_ (frame w).
Proof. by intros ((r & ->) & _). Qed.

Lemma message_exception (w : ctx R) pf :
  exception_ptr_ (frame (message_effect w pf).1) = exception_ptr_ (frame w).
Proof. unfold message_effect. by destruct (decode_pipe _). Qed.

Lemma message_count (w : ctx R) pf : pf_count_ (message_effect w pf).2 = pf_count_ pf.
Proof. unfold message_effect. by destruct (decode_pipe _). Qed.

(** One completion of the pipe's read: the message is taken, and the next read
    takes over the reference of this one. *)
Lemma process_pipe_cqe p k e pf s : cqe_data e = Some (p, k) → k = FkPipe → cqe_res e = 8 →
  objs s !! p = Some (inl pf) → 1 ≤ pf_count_ pf → exception_ptr_ (frame (lctx s)) = None →
  1 ≤ sq_entries (io_ring_ (frame (lctx s))) →
  tasks_ (frame (lctx s)) !! new_coro (coros (lctx s)) = None →
  ∃ w, queued [read_pipe_sqe p (pf_fd_ pf)] (message_effect (lctx s) pf).1 w ∧
    process_cqe p k e s = (Ret (pf_h_ (message_effect (lctx s) pf).2),
      Loop w (<[p := inl ((message_effect (lctx s) pf).2 <| pf_h_ := None |>)]> (objs s))).
Proof.
  intros _ -> Hr Hp Hc Hx He Ht.
  assert (wp (process_cqe p FkPipe e) s (λ h s', ∃ w,
    queued [read_pipe_sqe p (pf_fd_ pf)] (message_effect (lctx s) pf).1 w ∧
    h = pf_h_ (message_effect (lctx s) pf).2 ∧
    s' = Loop w (<[p := inl ((message_effect (lctx s) pf).2 <| pf_h_ := None |>)]> (objs s)))) as Hw.
  2:{ apply wp_run in Hw as (h & s' & E & w & H & -> & ->). by exists w. }
  apply wp_at_object. rewrite Hp. cbv zeta. apply wp_finally_ret. cell_steps. cbn [use_count sum_ref_count pipe_ref_count].
  apply wp_assert; [by apply Z.leb_le|]. apply wp_bind, wp_lift_l.
  apply wp_pipe_process; [done..|]. intros w Hq. cbn [world object fmap option_fmap option_map].
  apply wp_bind, wp_lift_l. cbn [take_handle pipe_awaitable_base]. unfold pipe_handle. cell_steps.
  cbn [world object fmap option_fmap option_map]. cell_steps.
  apply wp_check_exception; [by rewrite (queued_exception _ _ _ Hq), message_exception|]. cell_steps.
  pose proof (message_count (lctx s) pf) as Hn.
  apply wp_cell_release; cbn -[message_effect]; intros Hu; [|lia].
  exists w. split_and!; [done|done|]. f_equal. unfold upd. cbn -[message_effect].
  rewrite Z.pred_succ. by destruct (message_effect (lctx s) pf).2.
Qed.

(** The event loop listens: the object at [p] is the pipe frame [pf]. *)
Record listening (p : ptr) (pf : pipe_frame) s : Prop := {
  listening_frame : objs s !! p = Some (inl pf);
  listening_count : 1 ≤ pf_count_ pf;
  listening_ok : exception_ptr_ (frame (lctx s)) = None;
  listening_ring : 1 ≤ sq_entries (io_ring_ (frame (lctx s)));
  listening_tasks : dom (tasks_ (frame (lctx s))) ⊆ dom (coros (lctx s));
}.

(** A read of the pipe that completes with a whole word. *)
Definition word_read (p : ptr) (e : cqe) : Prop := cqe_data e = Some (p, FkPipe) ∧ cqe_res e = 8.

Lemma listening_fresh p pf s : listening p pf s → tasks_ (frame (lctx s)) !! new_coro (coros (lctx s)) = None.
Proof.
  intros Hl. apply not_elem_of_dom. intros Hin. apply (listening_tasks _ _ _ Hl), elem_of_dom in Hin as [x Hx].
  by rewrite new_coro_fresh in Hx.
Qed.

Lemma poll_word p pf e s s0 : wait_batch s = (Ret [e], s0) → word_read p e → listening p pf s0 →
  ∃ w, queued [read_pipe_sqe p (pf_fd_ pf)] (message_effect (lctx s0) pf).1 w ∧
    poll_io s = resume_all (option_list (pf_h_ (message_effect (lctx s0) pf).2))
      (advanced 1 (Loop w (<[p := inl ((message_effect (lctx s0) pf).2 <| pf_h_ := None |>)]> (objs s0)))).
Proof.
  intros Hw [Hd Hr] Hl. pose proof (listening_fresh _ _ _ Hl) as Hn. destruct Hl as [Hp Hc Hx He Ht].
  destruct (process_pipe_cqe p FkPipe e pf s0 Hd) as (w & Hq & E); [done..|]. exists w. split; [done|].
  unfold poll_io. rewrite (bind_ret _ _ _ _ _ Hw). cbn [process_cqes]. rewrite Hd.
  erewrite bind_ret; [reflexivity|]. unfold on_throw. erewrite bind_ret by (by rewrite E). cbn -[message_effect].
  erewrite bind_ret by apply cq_advance_run. by destruct (pf_h_ _).
Qed.

(** C15. A coroutine woken through a waker is resumed by the next batch of
    completions that holds the pipe's read, which is scheduled again. *)
Theorem wake_resumes_waiter p pf e h s s0 :
  h `mod` 4 = 0 → 0 < h < 2 ^ 64 → buffer_ pf = Z.lor h wake_mask →
  wait_batch s = (Ret [e], s0) → word_read p e → listening p pf s0 →
  ∃ w, queued [read_pipe_sqe p (pf_fd_ pf)] (lctx s0) w ∧
    poll_io s = coro_resume h (advanced 1 (Loop w (<[p := inl (pf <| pf_h_ := None |>)]> (objs s0)))).
Proof.
  intros Hm Hh Hb Hw Hr Hl. destruct (poll_word p pf e s s0 Hw Hr Hl) as (w & Hq & E). exists w. revert Hq E.
  unfold message_effect. rewrite Hb, (proj1 (decode_tags h Hm ltac:(lia))). cbn. intros Hq ->. split; [done|].
  unfold handle_of_address. rewrite (proj2 (Z.eqb_neq h 0)) by lia. cbn.
  unfold mbind, M_bind. by destruct (coro_resume h _) as [[[]|?|?] ?].
Qed.

Lemma bind_moves {S A B} (m m' : M S A) (k : A → M S B) x x' : m x = m' x' → (m ≫= k) x = (m' ≫= k) x'.
Proof. unfold mbind, M_bind. by intros ->. Qed.

Lemma on_ctx_run {A} (m : M (ctx R) A) s a w : m (lctx s) = (Ret a, w) → on_ctx m s = (Ret a, s <| lctx := w |>).
Proof. intros E. unfold on_ctx, zoom. by rewrite E. Qed.

Lemma sched_start_run n t q pr ls (w : ctx R) : coros w !! n = Some (SchedCoro q (Some t)) →
  coros w !! t = Some (UserCoro pr false ls) → p_continuation pr = None →
  sched_start n w = (Ret (Some t), w <| coros ::= <[t := UserCoro (pr <| p_continuation := Some n |>) false ls]> |>).
Proof.
  intros Hn Ht Hp. unfold sched_start, sched_param, task_await_ready, task_await_suspend, set_continuation.
  unfold mbind at 1, M_bind at 1. rewrite (bind_ret _ _ _ _ _ (get_coro_run _ _ _ Hn)).
  cbn [mret M_ret]. unfold mbind at 1, M_bind at 1. rewrite (bind_ret _ _ _ _ _ (get_coro_run _ _ _ Ht)).
  cbn [mret M_ret]. unfold mbind at 1 2, M_bind at 1 2. rewrite (bind_ret _ _ _ _ _ (get_promise_run _ _ _ _ _ Ht)).
  by rewrite Hp, bind_assert, (upd_promise_run _ _ _ _ _ _ Ht).
Qed.

Lemma coro_resume_scheduled n t q pr ls s : coros (lctx s) !! n = Some (SchedCoro q (Some t)) →
  coros (lctx s) !! t = Some (UserCoro pr false ls) → p_continuation pr = None →
  coro_resume n s = user_resume t
    (s <| lctx ::= λ w, w <| coros ::= <[t := UserCoro (pr <| p_continuation := Some n |>) false ls]> |> |>).
Proof.
  intros Hn Ht Hp. unfold coro_resume.
  rewrite (bind_ret _ _ _ _ _ (on_ctx_run _ _ _ _ (get_coro_run _ _ _ Hn))).
  assert (s <| lctx := lctx s |> = s) as -> by (by destruct s).
  by rewrite (bind_ret _ _ _ _ _ (on_ctx_run _ _ _ _ (sched_start_run _ _ _ _ _ _ Hn Ht Hp))).
Qed.

(** C16. A task posted to the executor is started: once the pipe's read completes,
    its scheduler coroutine is registered and queued, and the next pass over the
    run queue resumes the task, with the scheduler as its continuation. *)
Theorem posted_task_starts p pf e t pr ls fuel s s0 :
  t `mod` 4 = 0 → 0 < t < 2 ^ 64 → buffer_ pf = Z.lor t post_mask → pf_h_ pf = None →
  wait_batch s = (Ret [e], s0) → word_read p e → listening p pf s0 →
  run_queue_ (frame (lctx s0)) = [] → coros (lctx s0) !! t = Some (UserCoro pr false ls) →
  p_continuation pr = None →
  let n := new_coro (coros (lctx s0)) in
  ∃ s2, (poll_io ;; on_ctx check_exception ;; run_queue_loop (S fuel)) s =
      (user_resume t ;; on_ctx (on_frame (modify (λ f, f <| run_queue_ ::= tl |>))) ;;
       on_ctx check_exception ;; run_queue_loop fuel) s2 ∧
    tasks_ (frame (lctx s2)) = <[n := n]> (tasks_ (frame (lctx s0))) ∧ run_queue_ (frame (lctx s2)) = [n] ∧
    coros (lctx s2) = <[t := UserCoro (pr <| p_continuation := Some n |>) false ls]>
      (<[n := SchedCoro (IPromise V_uninit None 1) (Some t)]> (coros (lctx s0))) ∧
    objs s2 = <[p := inl pf]> (objs s0).
Proof.
  intros Hm Ht Hb Hh Hw Hr Hl Hrq Hc Hpc n. destruct (poll_word p pf e s s0 Hw Hr Hl) as (w & Hq & E). revert Hq E.
  unfold message_effect. rewrite Hb, (proj2 (decode_tags t Hm ltac:(lia))). cbn -[accepted]. rewrite Hh. fold n. intros Hq E.
  pose proof (new_coro_fresh (coros (lctx s0))) as Hf. fold n in Hf. assert (t ≠ n) as Hne by congruence.
  rewrite (bind_ret _ _ _ _ _ E). set (s1 := advanced 1 _).
  destruct (queued_same _ _ _ Hq) as (_ & _ & Hco & _).
  assert (tasks_ (frame w) = tasks_ (frame (accepted n t (lctx s0))) ∧
    run_queue_ (frame w) = run_queue_ (frame (accepted n t (lctx s0)))) as [Htk Hrw] by (by destruct Hq as ((r & ->) & _)).
  cbn in Htk, Hrw, Hco. unfold handle_of_address in Hco. rewrite (proj2 (Z.eqb_neq t 0)) in Hco by lia. rewrite Hrq in Hrw.
  assert (s1 <| lctx := lctx s1 |> = s1) as Hs1 by done.
  assert (check_exception (lctx s1) = (Ret tt, lctx s1)) as Hx.
  { apply listening_ok in Hl. unfold check_exception. rewrite (bind_ret _ _ _ _ _ (on_frame_get _)).
    cbn. rewrite (queued_exception _ _ _ Hq). cbn. by rewrite Hl. }
  rewrite (bind_ret _ _ _ _ _ (on_ctx_run _ _ _ _ Hx)), Hs1. cbn [run_queue_loop].
  rewrite (bind_ret _ _ _ _ _ (on_ctx_run _ _ _ _ (on_frame_get (lctx s1)))), Hs1.
  change (run_queue_ (frame (lctx s1))) with (run_queue_ (frame w)). rewrite Hrw. cbn [app].
  eexists. split; [eapply bind_moves, coro_resume_scheduled|].
  - cbn. rewrite Hco. apply lookup_insert_eq.
  - cbn. rewrite Hco. by rewrite lookup_insert_ne.
  - done.
  - cbn. rewrite Htk, Hrw, Hco. split_and!; [done..|]. by destruct pf; cbn in *; subst.
Qed.

(** ** Batches and guards *)

(** C11. A batch of completions is processed in the order of the queue, each
    completion with an object once: the coroutines they hand out are collected
    in that order, and exactly the completions processed leave the queue, also
    when one of them throws. *)
Theorem batch_processed_in_order es1 s hs s1 : handled es1 s hs s1 →
  (process_cqes 0 es1 [] s = (Ret hs, advanced (Z.of_nat (length es1)) s1) ∧
   pending (advanced (Z.of_nat (length es1)) s1) = drop (length es1) (pending s1)) ∧
  ∀ e es2 p k x s2, cqe_data e = Some (p, k) → process_cqe p k e s1 = (Throw x, s2) →
    process_cqes 0 (es1 ++ e :: es2) [] s = (Throw x, advanced (Z.of_nat (length es1)) s2) ∧
    pending (advanced (Z.of_nat (length es1)) s2) = drop (length es1) (pending s2).
Proof.
  intros H. split; [|intros e es2 p k x s2 Hd Hp]; split.
  - by rewrite (process_cqes_handled _ _ _ _ H).
  - by rewrite pending_advanced, Nat2Z.id.
  - by rewrite (process_cqes_throws _ _ _ _ H _ _ _ _ _ _ _ _ Hd Hp).
  - by rewrite pending_advanced, Nat2Z.id.
Qed.

(** The objects and frames that the waiting completions name, each once. *)
Definition pending_data s : list (ptr * frame_kind) := distinct [] (omap cqe_data (pending s)).

(** C12. When the event loop is torn down, the guard empties the completion queue and
    gives up one reference for every operation that has completions in it, however
    many; an object whose last reference this was is destroyed, and no other object
    is touched. *)
Theorem guard_releases_each_once J s : drainable J → J s → backed (pending_data s) s →
  ∃ s', drain (S (length (pending s))) [] s = (Ret tt, s') ∧ pending s' = [] ∧ J s' ∧
    (∀ p, released (refs_to p (pending_data s)) (objs s !! p) (objs s' !! p)) ∧
    NoDup (pending_data s) ∧ ∀ d, d ∈ pending_data s ↔ ∃ e, e ∈ pending s ∧ cqe_data e = Some d.
Proof.
  intros HJ Hj Hb. destruct (drain_run J HJ (pending s) [] (S (length (pending s))) s) as (s' & E & Hp & Hj' & Hr);
    [lia|done..|]. exists s'. split_and!; [done..|apply NoDup_distinct|].
  intros d. unfold pending_data. rewrite elem_of_distinct, list_elem_of_omap. set_solver.
Qed.

(** ** Completions of I/O objects *)

Lemma lift_r_run {A B X} (m : M (cell R B) X) w b x w' b' :
  m (Cell w (Some b)) = (Ret x, Cell w' (Some b')) →
  lift_r (A := A) m (Cell w (Some (inr b))) = (Ret x, Cell w' (Some (inr b'))).
Proof. intros E. unfold lift_r. cbn. by rewrite E. Qed.

(** The loop's handling of a completion of an I/O object is that of the object's
    class; the loop then drops the reference of the queue. *)
Lemma process_io_cqe p k e o o1 o2 w1 w2 h s : objs s !! p = Some (inr o) → 1 ≤ use_count o →
  @await_process_cqe _ _ (HO p) k e (Cell (lctx s) (Some o)) = (Ret tt, Cell w1 (Some o1)) →
  @take_handle _ _ (HO p) k (Cell w1 (Some o1)) = (Ret h, Cell w2 (Some o2)) →
  exception_ptr_ (frame w2) = None → use_count o2 ≠ 1 →
  process_cqe p k e s = (Ret h, Loop w2 (<[p := inr (upd_count Z.pred o2)]> (objs s))).
Proof.
  intros Hp Hc E1 E2 Hx Hu. unfold process_cqe, at_object. rewrite Hp. cbv zeta.
  assert (wp (finally (o ← this; assert (1 <=? use_count o) ;; @await_process_cqe _ _ (object_base p) k e ;;
      h ← @take_handle _ _ (object_base p) k; on_world check_exception ;; mret h)
    (@intrusive_ptr_release _ _ _ (object_base p))) (Cell (lctx s) (Some (inr o : pipe_frame + O)))
    (λ a c, a = h ∧ c = Cell w2 (Some (inr (upd_count Z.pred o2))))) as Hw.
  2:{ apply wp_run in Hw as (a & c & E & -> & ->). by rewrite E. }
  apply wp_finally_ret. cell_steps. apply wp_assert; [by apply Z.leb_le|]. apply wp_bind.
  unfold wp at 1. cbn [await_process_cqe object_base sum_awaitable object].
  rewrite (lift_r_run _ _ _ _ _ _ E1). apply wp_bind.
  unfold wp at 1. cbn [take_handle object_base sum_awaitable object].
  rewrite (lift_r_run _ _ _ _ _ _ E2). cell_steps. apply wp_check_exception; [done|]. cell_steps.
  apply wp_cell_release; [done|]. by intros ?.
Qed.

(** When an operation of an I/O object completes, the coroutine its class hands
    out is resumed in the same pass of the loop, after the object has taken the
    result and given up the operation's reference. *)
Lemma completion_resumes_coroutine p k e o o1 o2 w1 w2 h s s0 :
  wait_batch s = (Ret [e], s0) → cqe_data e = Some (p, k) → objs s0 !! p = Some (inr o) → 1 ≤ use_count o →
  @await_process_cqe _ _ (HO p) k e (Cell (lctx s0) (Some o)) = (Ret tt, Cell w1 (Some o1)) →
  @take_handle _ _ (HO p) k (Cell w1 (Some o1)) = (Ret (Some h), Cell w2 (Some o2)) →
  exception_ptr_ (frame w2) = None → use_count o2 ≠ 1 →
  poll_io s = coro_resume h (advanced 1 (Loop w2 (<[p := inr (upd_count Z.pred o2)]> (objs s0)))).
Proof.
  intros Hw Hd Hp Hc E1 E2 Hx Hu. unfold poll_io. rewrite (bind_ret _ _ _ _ _ Hw). cbn [process_cqes]. rewrite Hd.
  pose proof (process_io_cqe p k e o o1 o2 w1 w2 (Some h) s0 Hp Hc E1 E2 Hx Hu) as E.
  unfold mbind at 1, M_bind at 1. erewrite bind_ret by (unfold on_throw; by rewrite E).
  erewrite bind_ret by apply cq_advance_run. cbn [mret M_ret app resume_all].
  unfold mbind, M_bind. by destruct (coro_resume h _) as [[[]|?|?] ?].
Qed.

(** ** A read of the pipe that fails *)
Lemma process_pipe_error p e pf s : cqe_res e < 0 → objs s !! p = Some (inl pf) → pf_count_ pf = 2 →
  process_cqe p FkPipe e s =
    (Throw (system_error (- cqe_res e)), s <| objs ::= <[p := inl (pf <| pf_count_ := 1 |>)]> |>).
Proof.
  intros Hr Hp Hc. unfold process_cqe, at_object. rewrite Hp. unfold finally.
  erewrite bind_ret by done. cbn [use_count sum_ref_count pipe_ref_count]. rewrite Hc. erewrite bind_ret by done.
  erewrite bind_throw.
  2:{ cbn -[pipe_process_cqe]. unfold lift_l, pipe_process_cqe. cbn [object world]. erewrite bind_throw; [reflexivity|].
      rewrite (proj2 (Z.eqb_neq (cqe_res e) 8)) by lia. cbn [negb when]. rewrite (proj2 (Z.ltb_lt _ _) Hr), bind_assert.
      apply throw_errno_runs. lia. }
  unfold intrusive_ptr_release, upd_this, this. munfold. cbn. rewrite Hc. cbn.
  destruct s; cbn in *. unfold upd. cbn. by rewrite Hc.
Qed.

(** Queueing leaves the waiting completions in front. *)
Definition cq_grows (r r' : R) : Prop := ∃ l, cq_pending r' = cq_pending r ++ l.

Lemma cq_grows_trans r1 r2 r3 : cq_grows r1 r2 → cq_grows r2 r3 → cq_grows r1 r3.
Proof. intros [l1 E1] [l2 E2]. exists (l1 ++ l2). by rewrite E2, E1, app_assoc. Qed.

Lemma wp_reserve_cq n r : n ≤ sq_entries r →
  wp (reserve_sqes n) r (λ _ r', cq_grows r r' ∧ n ≤ io_uring_sq_space_left r').
Proof.
  intros He. unfold reserve_sqes. apply wp_bind, wp_gets, wp_when; intros E; bool_simp.
  - apply wp_modify. split; [apply submit_cq|]. by rewrite submit_space.
  - split; [exists []; by rewrite app_nil_r|done].
Qed.

Lemma wp_push_cq q r : 0 < io_uring_sq_space_left r → wp (push_sqe q) r (λ _ r', cq_grows r r').
Proof.
  intros Hs. unfold push_sqe. apply wp_bind, wp_get. destruct (get_sqe_room q r Hs) as (r' & E & _). rewrite E.
  apply wp_put. exists []. by rewrite app_nil_r, (get_sqe_cq _ _ _ E).
Qed.

Lemma wp_pipe_cancel p (w : ctx R) (Q : unit → ctx R → Prop) : 1 ≤ sq_entries (io_ring_ (frame w)) →
  (∀ w', cq_grows (io_ring_ (frame w)) (io_ring_ (frame w')) → Q tt w') → wp (pipe_cancel p) w Q.
Proof.
  intros He Hk. unfold pipe_cancel. apply wp_bind, wp_on_ring. eapply wp_mono; [by apply wp_reserve_cq|].
  intros [] r1 [G1 S1]. apply wp_bind, wp_on_ring. eapply wp_mono; [apply wp_push_cq; cbn; lia|].
  intros [] r2 G2. unfold submit, submit_ring. apply wp_on_ring, wp_modify, Hk. cbn in *.
  eapply cq_grows_trans; [exact G1|]. eapply cq_grows_trans; [exact G2|]. apply submit_cq.
Qed.

Lemma release_at_gone p s : objs s !! p = None → (release_at p s).1 = Fault UseAfterFree.
Proof. intros Hn. unfold release_at, at_object. by rewrite Hn. Qed.

(** A read of the pipe that fails releases its reference while the completion
    stays in the queue: the pipe frame is deleted with the loop's own reference,
    and the guard, draining the queue, releases it once more. *)
Lemma failed_pipe_read_releases_twice p e es pf s fuel :
  cqe_data e = Some (p, FkPipe) → cqe_res e < 0 → pending s = e :: es →
  objs s !! p = Some (inl pf) → pf_count_ pf = 2 → 1 ≤ sq_entries (io_ring_ (frame (lctx s))) →
  ∃ s1 s2, process_cqes 0 (e :: es) [] s = (Throw (system_error (- cqe_res e)), s1) ∧
    pipe_awaitable_dtor p s1 = (Ret tt, s2) ∧ objs s2 !! p = None ∧
    (drain (S fuel) [] s2).1 = Fault UseAfterFree.
Proof.
  intros Hd Hr Hp Ho Hc He. pose proof (process_pipe_error p e pf s Hr Ho Hc) as E.
  set (s0 := s <| objs ::= _ |>) in E.
  assert (wp (pipe_awaitable_dtor p) (advanced 0 s0) (λ _ s2, objs s2 !! p = None ∧ ∃ l, pending s2 = e :: l)) as Hw.
  { unfold pipe_awaitable_dtor, on_ctx. apply wp_bind, wp_zoom, wp_pipe_cancel; [by cbn; rewrite cq_advance_entries|].
    intros w [l Hl]. assert (cq_pending (io_ring_ (frame (lctx (advanced 0 s0)))) = e :: es) as Ha.
    { change (pending (advanced 0 s0) = e :: es). by rewrite pending_advanced. }
    rewrite Ha in Hl.
    set (s1 := _ <| lctx := w |>).
    destruct (release_at_run p (inl (pf <| pf_count_ := 1 |>)) s1) as [_ Hlast]; [apply lookup_insert_eq|].
    unfold wp. rewrite (Hlast eq_refl w eq_refl). split; [apply lookup_delete_eq|]. by exists (es ++ l). }
  apply wp_run in Hw as ([] & s2 & E2 & Hn & l & Hl). exists (advanced 0 s0), s2. split_and!; [|done|done|].
  - cbn [process_cqes]. rewrite Hd. erewrite bind_throw; [reflexivity|]. unfold on_throw. by rewrite E, cq_advance_run.
  - cbn [drain].
    assert (on_ctx (on_ring (gets io_uring_peek_cqe)) s2 = (Ret (head (pending s2)), s2)) as Ep.
    { unfold pending. rewrite <- peek_cqe_pending. by destruct s2 as [[[]]]. }
    rewrite (bind_ret _ _ _ _ _ Ep), Hl. cbn [head]. rewrite Hd. rewrite bool_decide_eq_false_2 by apply not_elem_of_nil.
    pose proof (release_at_gone p s2 Hn) as Hg. cbn [fst]. unfold mbind, M_bind.
    destruct (release_at p s2) as [[]]; by cbn in Hg |- *.
Qed.
End LoopTheorems.

(** ** Construction of the shared frame *)
Section SetupTheorems.
Context {R : Type} {HS : OsSetup R}.

Lemma all_slots n fd : n < 2 ^ 31 → 0 ≤ n → fd ∈@{gset Z} list_to_set (seqZ 0 (to_int n)) ↔ 0 ≤ fd < n.
Proof.
  intros Hn Hp. rewrite elem_of_list_to_set, elem_of_seqZ. unfold to_int.
  rewrite Z.mod_small by lia. rewrite (proj2 (Z.ltb_lt _ _) Hn). lia.
Qed.

(** The calls of the constructor succeed, with these descriptors and this ring. *)
Definition setup_succeeds (ps : io_context_params) (a b : Z) (r3 : R) : Prop :=
  ∃ r1 r2, os_pipe = inr (a, b) ∧
    io_uring_queue_init_params (param_sq_entries ps) (param_cq_entries ps) setup_flags = (0, r1) ∧
    io_uring_register_ring_fd r1 = (1, r2) ∧ io_uring_register_files_sparse (num_files ps) r2 = (0, r3).

Lemma filter_opened (l : list Z) a b : a ∉ l → b ∉ l →
  filter (λ fd, fd ≠ a ∧ fd ≠ b) (l ++ [a; b]) = l.
Proof.
  intros Ha Hb. rewrite filter_app. rewrite (filter_cons_False _ a), (filter_cons_False _ b) by tauto. rewrite app_nil_r.
  induction l as [|x l IH]; [done|]. apply not_elem_of_cons in Ha as [? ?], Hb as [? ?].
  rewrite filter_cons_True by done. by rewrite IH.
Qed.

(** A constructed frame has no task, no buffers and no pending exception, its
    descriptor pool holds exactly the slots of the table it registered, and
    destroying it closes what the constructor opened. *)
Lemma context_frame_ready ps a b r st : setup_succeeds ps a b r → 0 ≤ num_files ps < 2 ^ 31 →
  a ∉ open_fds st → b ∉ open_fds st →
  ∃ f st', io_context_frame_new ps st = (Ret f, st') ∧ io_ring_ f = r ∧ pipefd_ f = (a, b) ∧
    tasks_ f = ∅ ∧ run_queue_ f = [] ∧ exception_ptr_ f = None ∧ buf_rings_ f = ∅ ∧ fixed_buffers_ f = None ∧
    (∀ fd, fd ∈ fds_ f ↔ 0 ≤ fd < num_files ps) ∧ (∀ hp ck cs, fds_wf (Ctx f hp ck cs)) ∧
    open_rings st' = S (open_rings st) ∧ io_context_frame_dtor f st' = (Ret tt, st).
Proof.
  intros (r1 & r2 & E0 & E1 & E2 & E3) Hn Ha Hb. unfold io_context_frame_new. rewrite E0, E1.
  do 2 eexists. split.
  { munfold. cbn. rewrite E2. cbn. by rewrite E3. }
  cbn [io_ring_ pipefd_ tasks_ run_queue_ exception_ptr_ buf_rings_ fixed_buffers_ fds_].
  split_and!; try done.
  - intros fd. apply all_slots; lia.
  - intros hp ck cs. split; cbn [frame params_ fds_]; [lia|]. intros fd. rewrite all_slots by lia. lia.
  - unfold io_context_frame_dtor. rewrite bind_modify. munfold. cbn. destruct st as [o n]. f_equal. unfold upd. cbn.
    f_equal. by apply filter_opened.
Qed.

(** When the ring cannot be set up the constructor throws after the pipe has been
    opened; no destructor runs for the frame, and both ends stay open. *)
Lemma context_ctor_leaks_pipe ps a b ret r st : os_pipe = inr (a, b) → ret ≠ 0 →
  io_uring_queue_init_params (param_sq_entries ps) (param_cq_entries ps) setup_flags = (ret, r) →
  io_context_frame_new (R := R) ps st =
    (Throw (system_error (- ret)), st <| open_fds ::= λ l, l ++ [a; b] |>).
Proof.
  intros E0 Hr E1. unfold io_context_frame_new. rewrite E0, E1.
  unfold mbind at 1, M_bind at 1. rewrite bind_modify. cbn [mret M_ret].
  rewrite (proj2 (Z.eqb_neq ret 0) Hr). cbn [negb when]. erewrite bind_throw; [done|]. apply throw_errno_runs. lia.
Qed.
End SetupTheorems.
