(* ===== verification/LoopSamples.v ===== *)
(** Event loops on the recording ring, with a timer as the only kind of I/O
    object: the theorems of [EventLoop] at inputs where their hypotheses hold. *)

From S2P Require Import Prelude Uring Buffer Frame Executor LogRing Task Awaitable Duration.
From S2P Require Import Timer IoContext EventLoop.

#[export] Instance log_ring_cq_sq : IoUringCqSq log_ring.
Proof.
  split; cbn.
  - intros q r r' E. destruct (lr_space r); [done|]. by injection E as <-.
  - intros r. exists []. by rewrite app_nil_r.
  - done.
Qed.

#[export] Instance timer_objects : ptr → AwaitableBase log_ring timer_impl := λ _, timer_awaitable_base.

#[export] Instance max_coro : CoroAlloc := {| new_coro cs := fresh (dom cs : gset Z) |}.
#[export] Instance max_coro_laws : CoroAllocLaws.
Proof. split. intros cs. pose proof (is_fresh (dom cs : gset Z)) as H. by apply not_elem_of_dom in H. Qed.

(** The kernel writes [word] into the pipe's buffer; a user's coroutine that is
    resumed does nothing. *)
Definition pipe_at : ptr := 4096.
Definition sample_env (word : Z) : LoopEnv log_ring timer_impl := {|
  new_object os := fresh (dom os : gset Z);
  user_resume _ := mret tt;
  kernel_writes := λ s, s <| objs ::= alter (λ o, match o with
    | inl f => inl (f <| buffer_ := word |>) | inr t => inr t end) pipe_at |> |}.

Definition pipe_cqe (res : Z) : cqe := Cqe (Some (pipe_at, FkPipe)) res 0.
Definition idle_pipe (word : Z) : pipe_frame := PipeFrame 2 None word 100.

(** A suspended coroutine at 1024, and the loop about to wait. *)
Definition waiting_ctx : ctx log_ring :=
  log_ctx 4 4 [[pipe_cqe 8]] <| coros := {[1024 := UserCoro (Promise None V_uninit) false []]} |>.
Definition waiting : loop log_ring timer_impl := Loop waiting_ctx {[pipe_at := inl (idle_pipe 0)]}.
Definition arrived (word : Z) : loop log_ring timer_impl :=
  Loop (waiting_ctx <| frame ::= λ f, f <| io_ring_ ::= io_uring_submit_and_wait |> |>)
    {[pipe_at := inl (idle_pipe word)]}.

Lemma waiting_arrives word : wait_batch (HE := sample_env word) waiting = (Ret [pipe_cqe 8], arrived word).
Proof.
  unfold wait_batch, submit_and_wait, on_ctx, on_ring, on_frame. munfold. cbn -[alter map_alter].
  reflexivity.
Qed.

Lemma arrived_listening word : listening pipe_at (idle_pipe word) (arrived word).
Proof. by split. Qed.

Lemma wake_resumes_waiter_witness :
  ∃ w, queued [read_pipe_sqe pipe_at 100] (lctx (arrived 1025)) w ∧
    poll_io (HE := sample_env 1025) waiting = coro_resume (HE := sample_env 1025) 1024
      (advanced 1 (Loop w (<[pipe_at := inl (idle_pipe 1025)]> (objs (arrived 1025))))).
Proof.
  apply (wake_resumes_waiter (HE := sample_env 1025) pipe_at (idle_pipe 1025) (pipe_cqe 8) 1024 waiting (arrived 1025));
    [done|done|done|apply waiting_arrives|done|apply arrived_listening].
Defined.

Lemma posted_task_starts_witness :
  ∃ s2, (poll_io (HE := sample_env 1026) ;; on_ctx check_exception ;; run_queue_loop (HE := sample_env 1026) 3) waiting =
      (user_resume (LoopEnv := sample_env 1026) 1024 ;;
       on_ctx (on_frame (modify (λ f, f <| run_queue_ ::= tl |>))) ;;
       on_ctx check_exception ;; run_queue_loop (HE := sample_env 1026) 2) s2 ∧
    run_queue_ (frame (lctx s2)) = [new_coro (coros (lctx (arrived 1026)))].
Proof.
  destruct (posted_task_starts (HE := sample_env 1026) pipe_at (idle_pipe 1026) (pipe_cqe 8) 1024
    (Promise None V_uninit) [] 2 waiting (arrived 1026)) as (s2 & E & _ & Hr & _);
    [done|done|done|done|apply waiting_arrives|done|apply arrived_listening|done|done|done|].
  exists s2. split; [exact E|exact Hr].
Defined.

(** A timer that one handle and one operation hold, for the coroutine 1024. *)
Definition timer_at : ptr := 8192.
Definition armed_timer : timer_impl :=
  TimerImpl 2 (TimeoutFrame 0 (Ts 1 0) (Some 1024) true false) (CancelFrame 0 None false false).
Definition timer_cqe : cqe := Cqe (Some (timer_at, FkTimer)) (- ETIME) 0.
Definition null_cqe : cqe := Cqe None 0 0.

Definition timer_objs (word : Z) : gmap ptr (pipe_frame + timer_impl) :=
  {[pipe_at := inl (idle_pipe word); timer_at := inr armed_timer]}.

(** A ring in which the completions [es] wait. *)
Definition queue_of (es : list cqe) (os : gmap ptr (pipe_frame + timer_impl)) : loop log_ring timer_impl :=
  Loop (log_ctx 4 4 [] <| frame ::= λ f, f <| io_ring_ ::= λ r, r <| lr_pending := es |> |> |>) os.

Lemma batch_processed_in_order_witness :
  ∃ s1, process_cqes 0 [null_cqe; timer_cqe; pipe_cqe 8] []
      (queue_of [null_cqe; timer_cqe; pipe_cqe 8] (timer_objs 2049)) = (Ret [1024; 2048], s1) ∧
    pending s1 = [].
Proof.
  set (s := queue_of _ _).
  assert (∃ s1, handled [null_cqe; timer_cqe; pipe_cqe 8] s [1024; 2048] s1 ∧
    drop 3 (pending s1) = []) as (s1 & H & Hd).
  { eexists. split.
    - apply handled_null; [done|]. eapply (handled_one _ _ _ _ _ (Some 1024)); [done|by vm_compute|].
      eapply (handled_one _ _ _ _ _ (Some 2048)); [done|by vm_compute|]. apply handled_nil.
    - by vm_compute. }
  destruct (batch_processed_in_order _ _ _ _ H) as [[E Hp] _].
  eexists. split; [exact E|]. by rewrite Hp.
Defined.

(** A loop that waits for the timer, and the loop once the timer has expired. *)
Definition awaiting_timer : loop log_ring timer_impl :=
  Loop (log_ctx 4 4 [[timer_cqe]]) (timer_objs 0).
Definition timer_expired : loop log_ring timer_impl :=
  Loop (lctx awaiting_timer <| frame ::= λ f, f <| io_ring_ ::= io_uring_submit_and_wait |> |>) (timer_objs 0).
Definition finished_timer : timer_impl :=
  TimerImpl 2 (TimeoutFrame 0 (Ts 1 0) None true true) (CancelFrame 0 None false false).

Lemma awaiting_timer_fires : wait_batch (HE := sample_env 0) awaiting_timer = (Ret [timer_cqe], timer_expired).
Proof. by vm_compute. Qed.

Lemma always_drainable : drainable (O := timer_impl) (R := log_ring) (λ _, True).
Proof. split; try done. intros s p [o|o] _ _ _; by exists (lctx s). Qed.

(** Three completions of two operations. *)
Definition torn_down : loop log_ring timer_impl :=
  queue_of [timer_cqe; pipe_cqe (- ECANCELED); timer_cqe]
    {[pipe_at := inl (idle_pipe 0 <| pf_count_ := 1 |>); timer_at := inr armed_timer]}.

Lemma guard_releases_each_once_witness :
  ∃ s', drain 4 [] torn_down = (Ret tt, s') ∧ pending s' = [] ∧
    objs s' !! pipe_at = None ∧ ∃ t, objs s' !! timer_at = Some t ∧ use_count t = 1.
Proof.
  destruct (guard_releases_each_once (λ _, True) torn_down) as (s' & E & Hp & _ & Hr & _);
    [exact always_drainable|done| |].
  { intros p. destruct (decide (p = pipe_at)) as [->|H1]; [by vm_compute|].
    destruct (decide (p = timer_at)) as [->|H2]; [by vm_compute|].
    unfold torn_down, queue_of. cbn [objs]. rewrite lookup_insert_ne, lookup_singleton_ne by done.
    unfold refs_to. vm_compute pending_data. rewrite !filter_cons_False by done. done. }
  exists s'. split_and!; [exact E|exact Hp|exact (Hr pipe_at)|exact (Hr timer_at)].
Defined.

(** ** Construction *)

Definition ENOMEM : Z := 12.

(** A system that grants everything; one whose rings cannot be created. *)
Definition grants : OsSetup log_ring := {|
  os_pipe := inr (5, 6);
  io_uring_queue_init_params sq cq flags := (0, log_ring_init (Z.to_nat sq) []);
  io_uring_register_ring_fd r := (1, r);
  io_uring_register_files_sparse n r := (0, r) |}.
Definition no_rings : OsSetup log_ring := {|
  os_pipe := inr (5, 6);
  io_uring_queue_init_params sq cq flags := (- ENOMEM, log_ring_init 0 []);
  io_uring_register_ring_fd r := (1, r);
  io_uring_register_files_sparse n r := (0, r) |}.

