(* ===== verification/Acceptor.v ===== *)
(** TCP acceptors ([src/tcp.cpp], lines 40-574): the frames of [acceptor_impl], its
    construction from a listening socket, its destructor, and the awaitables that
    accept, cancel and close.

    The socket calls of the constructor are arguments ([OsSocket]); the constructor
    runs on the context and the descriptors the process holds open. *)

From S2P Require Import Prelude Uring Buffer Frame BufRing Executor Awaitable Duration Slots.
From S2P Require Import Stream IoContext.

Record accept_frame := AcceptFrame { af_h_ : option handle; peer_fd_ : Z; af_initiated_ : bool; af_done_ : bool }.
#[export] Instance eta_accept_frame : Eta accept_frame :=
  λ f, AcceptFrame (af_h_ f) (peer_fd_ f) (af_initiated_ f) (af_done_ f).

Definition acceptor_close_frame : Type := op_frame.

Record acceptor_impl := AcceptorImpl {
  ac_count_ : Z; ac_accept : accept_frame; ac_cancel : cancel_frame; ac_close : acceptor_close_frame;
  ac_addr_ : sockaddr; ac_fd_ : Z; is_ipv4_ : bool }.
#[export] Instance eta_acceptor_impl : Eta acceptor_impl := λ a,
  AcceptorImpl (ac_count_ a) (ac_accept a) (ac_cancel a) (ac_close a) (ac_addr_ a) (ac_fd_ a) (is_ipv4_ a).

#[export] Instance acceptor_ref_count : RefCount acceptor_impl := {|
  use_count := ac_count_; upd_count f a := a <| ac_count_ ::= f |> |}.
#[export] Instance acceptor_ref_count_laws : RefCountLaws acceptor_impl.
Proof. by split. Qed.

Definition accept_frame_new : accept_frame := AcceptFrame None (-1) false false.

(** [accept_frame::reset] *)
Definition accept_reset (f : accept_frame) : accept_frame :=
  f <| af_h_ := None |> <| peer_fd_ := -1 |> <| af_initiated_ := false |> <| af_done_ := false |>.

Definition upd_accept (f : accept_frame → accept_frame) (a : acceptor_impl) : acceptor_impl :=
  a <| ac_accept ::= f |>.
Definition upd_acceptor_cancel (f : op_frame → op_frame) (a : acceptor_impl) : acceptor_impl :=
  a <| ac_cancel ::= f |>.
Definition upd_acceptor_close (f : op_frame → op_frame) (a : acceptor_impl) : acceptor_impl :=
  a <| ac_close ::= f |>.

Definition default_backlog : Z := 256.

(** The socket calls: an errno (0 for success) or what the call yields. *)
Class OsSocket (R : Type) := {
  os_socket : Z → Z + Z;
  os_bind : Z → sockaddr → Z → Z;
  os_listen : Z → Z → Z;
  os_getsockname : Z → Z + (sockaddr * Z);
  io_uring_register_files_update : Z → Z → R → Z * R;
}.

(** A context, and what the process holds open. *)
Record host (R : Type) := Host { host_ctx : ctx R; host_os : os_state }.
Arguments Host {R}. Arguments host_ctx {R}. Arguments host_os {R}.
#[export] Instance eta_host R : Eta (host R) := λ h, Host (host_ctx h) (host_os h).

Section Acceptor.
Context {R : Type} {HU : IoUring R} {HB : IoUringBufs R} {HS : UnorderedBegin}.
(** The address of the object. *)
Variable self : ptr.

Local Abbreviation AM := (M (cell R acceptor_impl)).

(** ** Construction *)

(** [sizeof] of the address the constructor takes. *)
Definition acceptor_addrlen (a : sockaddr) : Z := if sa_family a =? AF_INET6 then 28 else 16.

Definition on_host_ctx {A} (m : M (ctx R) A) : M (host R) A := zoom host_ctx m.
Definition on_os {A} (m : M os_state A) : M (host R) A := zoom host_os m.

Definition os_open (fd : Z) : M os_state unit := modify (λ s, s <| open_fds ::= λ l, l ++ [fd] |>).
Definition os_close (fd : Z) : M os_state unit := modify (λ s, s <| open_fds ::= filter (λ x, x ≠ fd) |>).

(** A call that yields 0 or an errno. *)
Definition checked_call (e : Z) : M (host R) unit := when (negb (e =? 0)) (throw_errno_as_error_code e).

(** The end of the constructor: the socket [fd] bound to [name] moves into the table. *)
Definition acceptor_register {HK : OsSocket R} (fd : Z) (name : sockaddr) (is_ipv4 : bool) : M (host R) acceptor_impl :=
  off ← on_host_ctx get_available_fd;
  when (off <? 0) (e ← from_errno ENFILE; throw (raw_error_code e)) ;;
  ret ← on_host_ctx (on_ring (λ r, let '(ret, r') := io_uring_register_files_update (to_unsigned off) fd r in (Ret ret, r')));
  when (ret <? 0) (throw_errno_as_error_code (- ret)) ;;
  on_os (os_close fd) ;;
  mret (AcceptorImpl 0 accept_frame_new op_frame_new op_frame_new name off is_ipv4).

Definition acceptor_impl_new {HK : OsSocket R} (addr : sockaddr) (backlog : Z) : M (host R) acceptor_impl :=
  let addrlen := acceptor_addrlen addr in
  let is_ipv4 := sa_family addr =? AF_INET in
  assert (is_ipv4 || (sa_family addr =? AF_INET6)) ;;
  let af := if is_ipv4 then AF_INET else AF_INET6 in
  fd ← (match os_socket af with
        | inl e => throw_errno_as_error_code e
        | inr fd => on_os (os_open fd) ;; mret fd
        end);
  checked_call (os_bind fd addr addrlen) ;;
  checked_call (os_listen fd backlog) ;;
  name ← (match os_getsockname fd with
          | inl e => throw_errno_as_error_code e
          | inr name => mret name
          end);
  assert (name.2 =? addrlen) ;;
  acceptor_register fd name.1 is_ipv4.

(** [acceptor( ex, addr )]: the object with the reference of its handle. *)
Definition acceptor_new {HK : OsSocket R} (addr : sockaddr) : M (host R) acceptor_impl :=
  a ← acceptor_impl_new addr default_backlog; mret (upd_count Z.succ a).

(** [ntohs] of the port, the first two bytes after the family in both layouts. *)
Definition acceptor_port (a : acceptor_impl) : Z :=
  match sa_data (ac_addr_ a) with hi :: lo :: _ => 256 * hi + lo | _ => 0 end.

Definition acceptor_impl_dtor (a : acceptor_impl) : M (ctx R) unit :=
  when (0 <=? ac_fd_ a)
    (queue_any (close_direct_sqe (ac_fd_ a)) ;; submit ;; release_fd (ac_fd_ a)).

(** ** Completions *)

Definition accept_process_cqe (e : cqe) : AM unit :=
  let res := cqe_res e in
  when (res <? 0)
    (a ← this;
     assert (0 <=? peer_fd_ (ac_accept a)) ;;
     on_world (release_fd (peer_fd_ (ac_accept a))) ;;
     upd_this (upd_accept (λ f, f <| peer_fd_ := res |>))) ;;
  upd_this (upd_accept (λ f, f <| af_done_ := true |>)).

Definition acceptor_close_process_cqe (e : cqe) : AM unit :=
  upd_this (upd_acceptor_close (op_process_cqe e)) ;;
  a ← this;
  on_world (release_fd (ac_fd_ a)) ;;
  upd_this (λ a, a <| ac_fd_ := -1 |>).

Definition accept_handle (f : accept_frame) : option handle * accept_frame := (af_h_ f, f <| af_h_ := None |>).

(** [handle()] of the frame that [read] reads and [upd] updates. *)
Definition acceptor_exchange_h {F} (read : acceptor_impl → F) (upd : (F → F) → acceptor_impl → acceptor_impl)
    (hd : F → option handle * F) : AM (option handle) :=
  a ← this;
  upd_this (upd (λ f, (hd f).2)) ;;
  mret (hd (read a)).1.

#[export] Instance acceptor_awaitable_base : AwaitableBase R acceptor_impl := {|
  destructor := acceptor_impl_dtor;
  await_process_cqe k e :=
    match k with
    | FkAccept => accept_process_cqe e
    | FkAcceptorCancel => upd_this (upd_acceptor_cancel (op_process_cqe e))
    | FkAcceptorClose => acceptor_close_process_cqe e
    | _ => fail WrongClass
    end;
  take_handle k :=
    match k with
    | FkAccept => acceptor_exchange_h ac_accept upd_accept accept_handle
    | FkAcceptorCancel => acceptor_exchange_h ac_cancel upd_acceptor_cancel op_handle
    | FkAcceptorClose => acceptor_exchange_h ac_close upd_acceptor_close op_handle
    | _ => fail WrongClass
    end |}.

(** ** accept_awaitable *)

Definition accept_awaitable_dtor : AM unit :=
  a ← this;
  let af := ac_accept a in
  when (af_initiated_ af && negb (af_done_ af))
    (on_world (queue_one (cancel_sqe self FkAccept)) ;; on_world submit) ;;
  intrusive_ptr_release.

Definition accept_sqe (fd slot : Z) : sqe :=
  Sqe (op_accept_direct fd (to_unsigned slot)) (Some (self, FkAccept)) IOSQE_FIXED_FILE.

Definition accept_await_suspend (h : handle) : AM unit :=
  a ← this;
  let fd := ac_fd_ a in
  when (af_initiated_ (ac_accept a)) Stream.throw_busy ;;
  file_idx ← on_world get_available_fd;
  when (file_idx <? 0) (throw_errno_as_error_code ENFILE) ;;
  on_world (queue_one (accept_sqe fd file_idx)) ;;
  intrusive_ptr_add_ref ;;
  upd_this (upd_accept (λ f, f <| af_initiated_ := true |> <| af_h_ := Some h |> <| peer_fd_ := file_idx |>)).

(** [error_code::from_errno( -res )] in a result. *)
Definition acceptor_err {A} (res : Z) : AM (result A) := e ← from_errno (- res); mret (Err e).

(** The new stream gets the address [peer]. *)
Definition accept_await_resume (peer : ptr) : AM (result stream_impl) :=
  a ← this;
  let peer_fd := peer_fd_ (ac_accept a) in
  upd_this (upd_accept accept_reset) ;;
  if peer_fd <? 0 then acceptor_err peer_fd else
  s ← on_world (build (stream_new peer peer_fd));
  mret (Ok (s <| connected_ := true |>)).

Definition accept_raw_await_resume : AM (result Z) :=
  a ← this;
  let peer_fd := peer_fd_ (ac_accept a) in
  upd_this (upd_accept accept_reset) ;;
  if peer_fd <? 0 then acceptor_err peer_fd else mret (Ok peer_fd).

(** ** accept_cancel_awaitable *)

Definition accept_cancel_await_suspend (h : handle) : AM unit :=
  a ← this;
  on_world (queue_one (cancel_fd_sqe (ac_fd_ a) (Some (self, FkAcceptorCancel)) 0)) ;;
  intrusive_ptr_add_ref ;;
  upd_this (upd_acceptor_cancel (op_start h)).

Definition accept_cancel_await_resume : AM (result Z) :=
  a ← this;
  let res := res_ (ac_cancel a) in
  upd_this (upd_acceptor_cancel op_reset) ;;
  if res <? 0 then acceptor_err res else mret (Ok res).

(** ** accept_close_awaitable *)

Definition accept_close_await_suspend (h : handle) : AM unit :=
  a ← this;
  let fd := ac_fd_ a in
  when (fd <? 0) (throw_errno_as_error_code EBADFD) ;;
  on_world (on_ring (reserve_sqes 2)) ;;
  on_world (on_ring (push_sqe (cancel_fd_sqe fd None (Z.lor IOSQE_IO_HARDLINK IOSQE_CQE_SKIP_SUCCESS)))) ;;
  on_world (on_ring (push_sqe (Sqe (op_close_direct (to_unsigned fd)) (Some (self, FkAcceptorClose)) 0))) ;;
  intrusive_ptr_add_ref ;;
  upd_this (upd_acceptor_close (op_start h)).

Definition accept_close_await_resume : AM (result Z) :=
  a ← this;
  let res := res_ (ac_close a) in
  upd_this (upd_acceptor_close op_reset) ;;
  if res <? 0 then acceptor_err res else mret (Ok res).

(** ** Awaiting: the temporary awaitable is a reference *)

Definition async_accept (h : handle) : AM unit :=
  intrusive_ptr_add_ref ;; on_throw (accept_await_suspend h) accept_awaitable_dtor.
Definition async_accept_finish (peer : ptr) : AM (result stream_impl) :=
  finally (accept_await_resume peer) accept_awaitable_dtor.
Definition async_accept_raw_finish : AM (result Z) := finally accept_raw_await_resume accept_awaitable_dtor.

Definition acceptor_async_cancel (h : handle) : AM unit :=
  intrusive_ptr_add_ref ;; on_throw (accept_cancel_await_suspend h) intrusive_ptr_release.
Definition acceptor_async_cancel_finish : AM (result Z) := finally accept_cancel_await_resume intrusive_ptr_release.

Definition acceptor_async_close (h : handle) : AM unit :=
  intrusive_ptr_add_ref ;; on_throw (accept_close_await_suspend h) intrusive_ptr_release.
Definition acceptor_async_close_finish : AM (result Z) := finally accept_close_await_resume intrusive_ptr_release.
End Acceptor.
