(* ===== verification/AcceptorSafe.v ===== *)
(** An acceptor in use: along any sequence of operations on it, the object is
    used only while it is alive and no slot is lost or handed out twice; and what
    a whole accept and a whole construction yield. *)

From S2P Require Import Prelude Uring Buffer Frame BufRing Executor Awaitable Duration Slots.
From S2P Require Import Stream IoContext Acceptor.

(** [a_handles] counts the [acceptor] objects, the other counters the awaitables
    and the operations submitted; [a_held] are the slots that accepted connections
    have been given. *)
Record acceptor_sys := AcceptorSys {
  a_handles : nat; a_accepting : bool; a_cancelling : nat; a_closing : nat;
  a_cancel_pend : nat; a_close_pend : nat; a_held : list Z }.
#[export] Instance eta_acceptor_sys : Eta acceptor_sys := λ y,
  AcceptorSys (a_handles y) (a_accepting y) (a_cancelling y) (a_closing y) (a_cancel_pend y) (a_close_pend y) (a_held y).

Inductive acceptor_op :=
| Aop_copy | Aop_drop
| Aop_accept (h : handle) | Aop_accept_finish
| Aop_cancel (h : handle) | Aop_cancel_finish
| Aop_close (h : handle) | Aop_close_finish
| Aop_accept_cqe (res : Z) | Aop_cancel_cqe (res : Z) | Aop_close_cqe (res : Z)
| Aop_give_back (n : nat)      (** a connection releases its slot *).

Section AcceptorSys.
Context {R : Type} {HU : IoUring R} {HB : IoUringBufs R} {HS : UnorderedBegin}.
Variable self : ptr.

#[local] Hint Extern 0 (AwaitableBase _ acceptor_impl) => exact acceptor_awaitable_base : typeclass_instances.

Local Abbreviation AM := (M (cell R acceptor_impl)).

Definition accept_pending (a : acceptor_impl) : bool := af_initiated_ (ac_accept a) && negb (af_done_ (ac_accept a)).

Definition acceptor_cqe (k : frame_kind) (res : Z) : AM (option handle) := dispatch k (Cqe (Some (self, k)) res 0).

Definition give_back (n : nat) (y : acceptor_sys) : AM acceptor_sys :=
  match a_held y !! n with
  | Some fd => on_world (release_fd fd) ;; mret (y <| a_held ::= delete n |>)
  | None => mret y
  end.

(** An operation that is not possible in the state does nothing. *)
Definition run_acceptor_op (op : acceptor_op) (y : acceptor_sys) : AM acceptor_sys :=
  c ← get;
  match op, object c with
  | Aop_give_back n, _ => give_back n y
  | _, None => mret y
  | Aop_copy, _ =>
      if decide (a_handles y = 0%nat) then mret y else
      intrusive_ptr_add_ref ;; mret (y <| a_handles ::= S |>)
  | Aop_drop, _ =>
      if decide (a_handles y = 0%nat) then mret y else
      intrusive_ptr_release ;; mret (y <| a_handles ::= pred |>)
  | Aop_accept h, _ =>
      if decide (a_handles y = 0%nat) then mret y else
      r ← attempt (async_accept self h);
      mret (match r with inl _ => y <| a_accepting := true |> | inr _ => y end)
  | Aop_accept_finish, Some a =>
      if a_accepting y && af_done_ (ac_accept a) then
        r ← async_accept_raw_finish self;
        mret (y <| a_accepting := false |> <| a_held ::= app (match r with Ok fd => [fd] | Err _ => [] end) |>)
      else mret y
  | Aop_cancel h, _ =>
      if decide (a_handles y = 0%nat) then mret y else
      acceptor_async_cancel self h ;; mret (y <| a_cancelling ::= S |> <| a_cancel_pend ::= S |>)
  | Aop_cancel_finish, Some a =>
      if decide (a_cancelling y = 0%nat) then mret y else
      if done_ (ac_cancel a) then
        acceptor_async_cancel_finish ;; mret (y <| a_cancelling ::= pred |>)
      else mret y
  | Aop_close h, _ =>
      if decide (a_handles y = 0%nat) then mret y else
      r ← attempt (acceptor_async_close self h);
      mret (match r with inl _ => y <| a_closing ::= S |> <| a_close_pend ::= S |> | inr _ => y end)
  | Aop_close_finish, Some a =>
      if decide (a_closing y = 0%nat) then mret y else
      if done_ (ac_close a) then
        acceptor_async_close_finish ;; mret (y <| a_closing ::= pred |>)
      else mret y
  | Aop_accept_cqe res, Some a =>
      if accept_pending a then acceptor_cqe FkAccept res ;; mret y else mret y
  | Aop_cancel_cqe res, _ =>
      if decide (a_cancel_pend y = 0%nat) then mret y else
      acceptor_cqe FkAcceptorCancel res ;; mret (y <| a_cancel_pend ::= pred |>)
  | Aop_close_cqe res, _ =>
      if decide (a_close_pend y = 0%nat) then mret y else
      acceptor_cqe FkAcceptorClose res ;; mret (y <| a_close_pend ::= pred |>)
  end.

Definition run_acceptor_ops (ops : list acceptor_op) (y : acceptor_sys) : AM acceptor_sys :=
  foldl (λ m op, m ≫= run_acceptor_op op) (mret y) ops.

(** A whole accept in coroutine [h]: the operation completes with [res], and the
    stream of a connection is allocated at [peer].  What the loop resumes, and the
    result. *)
Definition accept_round (h : handle) (res : Z) (peer : ptr) : AM (option handle * result stream_impl) :=
  async_accept self h ;;
  k ← acceptor_cqe FkAccept res;
  r ← async_accept_finish self peer;
  mret (k, r).

(** The slots the object holds: its own, and the one of the connection to come. *)
Definition own_slot (a : acceptor_impl) : list Z := if 0 <=? ac_fd_ a then [ac_fd_ a] else [].
Definition peer_slot (a : acceptor_impl) : list Z :=
  if af_initiated_ (ac_accept a) && (0 <=? peer_fd_ (ac_accept a)) then [peer_fd_ (ac_accept a)] else [].

(** The references of handles and awaitables, and of operations in flight. *)
Definition acceptor_refs (y : acceptor_sys) : Z :=
  Z.of_nat (a_handles y) + Z.b2z (a_accepting y) + Z.of_nat (a_cancelling y) + Z.of_nat (a_closing y) +
  Z.of_nat (a_cancel_pend y) + Z.of_nat (a_close_pend y).

Definition accept_flags (y : acceptor_sys) (f : accept_frame) : Prop :=
  af_initiated_ f = a_accepting y ∧ (af_done_ f = true → af_initiated_ f = true) ∧
  (af_initiated_ f = true → af_done_ f = false → 0 ≤ peer_fd_ f).

Definition acceptor_inv (y : acceptor_sys) (c : cell R acceptor_impl) : Prop :=
  2 ≤ sq_entries (io_ring_ (frame (world c))) ∧
  match object c with
  | None => acceptor_refs y = 0 ∧ slots_ok (a_held y) (world c)
  | Some a => ac_count_ a = acceptor_refs y + Z.b2z (accept_pending a) ∧ 0 < ac_count_ a ∧
      accept_flags y (ac_accept a) ∧ slots_ok (own_slot a ++ peer_slot a ++ a_held y) (world c)
  end.
End AcceptorSys.

Section AcceptorLemmas.
Context {R : Type} {HU : IoUring R} {HUL : IoUringLaws R} {HB : IoUringBufs R}.
Context {HS : UnorderedBegin} {HSL : UnorderedBeginLaws}.
Variable self : ptr.
Implicit Types (w : ctx R) (a : acceptor_impl) (y : acceptor_sys).

#[local] Hint Extern 0 (AwaitableBase _ acceptor_impl) => exact acceptor_awaitable_base : typeclass_instances.

Lemma b2z_range b : 0 ≤ Z.b2z b ≤ 1.
Proof. destruct b; simpl; lia. Qed.

(** The destructor gives the acceptor's slot back. *)
Lemma wp_acceptor_dtor a l w (Q : unit → ctx R → Prop) : 1 ≤ sq_entries (io_ring_ (frame w)) →
  slots_ok (own_slot a ++ l) w →
  (∀ w', sq_entries (io_ring_ (frame w')) = sq_entries (io_ring_ (frame w)) → slots_ok l w' → Q tt w') →
  wp (acceptor_impl_dtor a) w Q.
Proof.
  intros He Hs HQ. unfold acceptor_impl_dtor, own_slot in *. apply wp_when; intros E; rewrite E in Hs; [|by apply HQ].
  apply wp_bind, wp_queue_any; [lia|]. intros w1 Hq1. apply wp_bind, wp_submit. intros w2 Hq2.
  eapply wp_release_slot; [by eapply slots_ok_queued, slots_ok_queued|]. intros w3 Hp _ Hs3. apply HQ; [|done].
  by rewrite (pool_only_entries _ _ Hp), (queued_entries _ _ _ Hq2), (queued_entries _ _ _ Hq1).
Qed.

(** Dropping a reference that [y] no longer counts. *)
Lemma wp_acceptor_release y a w (Q : unit → cell R acceptor_impl → Prop) : 2 ≤ sq_entries (io_ring_ (frame w)) →
  ac_count_ a = acceptor_refs y + Z.b2z (accept_pending a) + 1 → accept_flags y (ac_accept a) →
  slots_ok (own_slot a ++ peer_slot a ++ a_held y) w →
  (∀ c, acceptor_inv y c → Q tt c) → wp intrusive_ptr_release (Cell w (Some a)) Q.
Proof.
  intros He Hc Hf Hs HQ.
  assert (0 ≤ acceptor_refs y) as Hr by (unfold acceptor_refs; destruct (a_accepting y); cbn; lia).
  apply wp_cell_release; cbn; intros E.
  - pose proof (b2z_range (accept_pending a)) as Hb. apply HQ. split; [done|]. split_and!; [| |done|done].
    + change (Z.pred (ac_count_ a) = acceptor_refs y + Z.b2z (accept_pending a)). lia.
    + change (0 < Z.pred (ac_count_ a)). lia.
  - assert (a_accepting y = false) as Hn.
    { destruct (a_accepting y) eqn:Ea; [|done]. unfold acceptor_refs in Hc. rewrite Ea in Hc.
      pose proof (b2z_range (accept_pending a)). cbn in Hc. lia. }
    destruct Hf as (Hi & _). rewrite Hn in Hi. unfold peer_slot, accept_pending in *. rewrite Hi in *. cbn in *.
    apply (wp_acceptor_dtor _ (a_held y)); [lia|done|]. intros w' He' Hs'. apply HQ. split; cbn; [lia|]. split; [lia|done].
Qed.

(** What [y] counts, with [n] further references to the object. *)
Definition acceptor_ok (n : Z) y a w : Prop :=
  2 ≤ sq_entries (io_ring_ (frame w)) ∧ ac_count_ a = acceptor_refs y + Z.b2z (accept_pending a) + n ∧
  accept_flags y (ac_accept a) ∧ slots_ok (own_slot a ++ peer_slot a ++ a_held y) w.

Lemma acceptor_ok_queued n y a w w' qs : queued qs w w' → acceptor_ok n y a w → acceptor_ok n y a w'.
Proof.
  intros Hq (He & Hc & Hf & Hs). split_and!; [by rewrite (queued_entries _ _ _ Hq)|done|done|by eapply slots_ok_queued].
Qed.

Lemma acceptor_ok_inv y a w : acceptor_ok 0 y a w → 0 < ac_count_ a → acceptor_inv y (Cell w (Some a)).
Proof. intros (He & Hc & Hf & Hs) Hp. split; [done|]. split_and!; [lia|done..]. Qed.

Lemma wp_acceptor_drop y a w (Q : unit → cell R acceptor_impl → Prop) : acceptor_ok 1 y a w →
  (∀ c, acceptor_inv y c → Q tt c) → wp intrusive_ptr_release (Cell w (Some a)) Q.
Proof. intros (He & Hc & Hf & Hs). by apply wp_acceptor_release. Qed.

Lemma wp_accept_dtor y a w (Q : unit → cell R acceptor_impl → Prop) : acceptor_ok 1 y a w →
  (∀ c, acceptor_inv y c → Q tt c) → wp (accept_awaitable_dtor self) (Cell w (Some a)) Q.
Proof.
  intros Ha HQ. unfold accept_awaitable_dtor. cell_steps. apply wp_when; intros E.
  - cell_steps. apply wp_queue_one; [pose proof (proj1 Ha); lia|]. intros w1 Hq1. cell_steps.
    apply wp_submit. intros w2 Hq2. eapply wp_acceptor_drop; [|done]. by eapply acceptor_ok_queued, acceptor_ok_queued.
  - by eapply wp_acceptor_drop.
Qed.

Lemma wpx_async_accept y a w h : acceptor_ok 0 y a w → 0 < ac_count_ a →
  wpx (async_accept self h) (Cell w (Some a))
    (λ _ c, ∃ fd w' a', c = Cell w' (Some a') ∧ fd ∈ fds_ (frame w) ∧ 0 ≤ fd ∧ 0 < ac_count_ a' ∧
       ac_accept a' = AcceptFrame (Some h) fd true false ∧ acceptor_ok 0 (y <| a_accepting := true |>) a' w')
    (λ _ c, acceptor_inv y c ∧ (a_accepting y = true ∨ fds_ (frame w) = ∅)).
Proof.
  intros Ha Hp. unfold async_accept. cellx_steps. apply wpx_on_throw. unfold accept_await_suspend.
  destruct Ha as (He & Hc & Hf & Hs). cellx_steps. apply wpx_when; intros E.
  { apply wpx_throw_errno; [done|]. apply (wp_accept_dtor y).
    - split_and!; [done| |done|done].
      change (Z.succ (ac_count_ a) = acceptor_refs y + Z.b2z (accept_pending a) + 1). lia.
    - intros c Hc'. split; [done|]. left. cbn in E. rewrite <- E. symmetry. apply Hf. }
  destruct Hf as (Hi & Hd & Hpeer). cbn in E. rewrite E in Hi.
  assert (accept_pending a = false) as Hn by (unfold accept_pending; by rewrite E). rewrite Hn in Hc. cbn in Hc.
  assert (peer_slot a = []) as Hps by (unfold peer_slot; by rewrite E). rewrite Hps in Hs.
  cellx_steps. apply (wp_get_slot _ _ _ Hs).
  - intros Hem. apply wpx_bind, wpx_when; [|done]. intros _. apply wpx_throw_errno; [done|].
    apply (wp_accept_dtor y); [|by intros c Hc'; split; [|right]]. split_and!; [done| | |].
    + change (Z.succ (ac_count_ a) = acceptor_refs y + Z.b2z (accept_pending a) + 1). rewrite Hn. cbn. lia.
    + split_and!; [by cbn; rewrite E|done|done].
    + change (peer_slot (upd_count Z.succ a)) with (peer_slot a). by rewrite Hps.
  - intros fd w1 Hin Hfd Hpo _ Hs1. rewrite (proj2 (Z.ltb_ge fd 0)) by lia. cellx_steps.
    apply wp_queue_one; [rewrite (pool_only_entries _ _ Hpo); lia|]. intros w2 Hq2. cellx_steps.
    assert (af_done_ (ac_accept a) = false) as Ed.
    { destruct (af_done_ (ac_accept a)) eqn:Ed; [|done]. rewrite Hd in E by done. done. }
    assert (accept_pending (upd_accept (λ f, f <| af_initiated_ := true |> <| af_h_ := Some h |> <| peer_fd_ := fd |>)
      (upd_count Z.succ (upd_count Z.succ a))) = true) as Hn2 by (unfold accept_pending; cbn; by rewrite Ed).
    eexists fd, w2, _. split_and!; [done|done|done|cbn; lia|unfold upd_accept, upd; cbn; by rewrite Ed|]. split_and!.
    + by rewrite (queued_entries _ _ _ Hq2), (pool_only_entries _ _ Hpo).
    + rewrite Hn2. unfold acceptor_refs in *. cbn. rewrite <- Hi in Hc. cbn in Hc. lia.
    + split_and!; [done|done|by intros _ _].
    + eapply slots_ok_queued; [done|]. eapply slots_ok_perm; [|exact Hs1]. unfold peer_slot, own_slot. cbn.
      rewrite (proj2 (Z.leb_le 0 fd)) by lia. cbn. destruct (0 <=? ac_fd_ a); [apply perm_swap|done].
Qed.

(** The coroutine of a completed accept goes on: the slot is its own now. *)
Lemma wp_accept_raw_finish y a w (Q : result Z → cell R acceptor_impl → Prop) :
  acceptor_ok 0 y a w → a_accepting y = true → af_done_ (ac_accept a) = true →
  (∀ r c, acceptor_inv (y <| a_accepting := false |> <| a_held ::= app (match r with Ok fd => [fd] | Err _ => [] end) |>) c →
     Q r c) →
  wp (async_accept_raw_finish self) (Cell w (Some a)) Q.
Proof.
  intros (He & Hc & (Hi & Hd & Hp) & Hs) Ha Hdn HQ. rewrite Ha in Hi.
  assert (accept_pending a = false) as Hn by (unfold accept_pending; by rewrite Hi, Hdn). rewrite Hn in Hc. cbn in Hc.
  unfold peer_slot in Hs. rewrite Hi in Hs. cbn [andb] in Hs.
  unfold async_accept_raw_finish, accept_raw_await_resume. apply wp_finally_ret. cell_steps. cbn [peer_fd_].
  destruct (Z.ltb_spec (peer_fd_ (ac_accept a)) 0) as [Hlt|Hge].
  - unfold acceptor_err. apply wp_bind, wp_from_errno; [lia|]. cell_steps.
    rewrite (proj2 (Z.leb_gt 0 _)) in Hs by lia.
    apply (wp_accept_dtor (y <| a_accepting := false |>)); [|intros c Hc'; by apply HQ].
    split_and!; [done| |done|done]. unfold acceptor_refs in *. rewrite Ha in Hc. cbn in *. lia.
  - cell_steps. rewrite (proj2 (Z.leb_le 0 _)) in Hs by lia. specialize (HQ (Ok (peer_fd_ (ac_accept a)))).
    apply (wp_accept_dtor (y <| a_accepting := false |> <| a_held ::= app [peer_fd_ (ac_accept a)] |>));
      [|intros c Hc'; by apply HQ].
    split_and!; [done| |done|done]. unfold acceptor_refs in *. rewrite Ha in Hc. cbn in *. lia.
Qed.

(** ** Completions *)

Lemma wp_acceptor_dispatch k e a w (Q : option handle → cell R acceptor_impl → Prop) : 1 ≤ ac_count_ a →
  wp (await_process_cqe k e) (Cell w (Some a)) (λ _ c,
    wp (take_handle k) c (λ h c', wp intrusive_ptr_release c' (λ _ c'', Q h c''))) →
  wp (dispatch k e) (Cell w (Some a)) Q.
Proof.
  intros Hc HQ. unfold dispatch. apply wp_finally_ret. cell_steps.
  apply wp_assert; [by apply Z.leb_le|]. apply wp_bind. exact HQ.
Qed.

(** The completion of an accept, up to the drop of the queue's reference. *)
Lemma wp_accept_cqe y a w res (Q : option handle → cell R acceptor_impl → Prop) :
  acceptor_ok 0 y a w → accept_pending a = true →
  (∀ a' w', acceptor_ok 1 y a' w' → ac_count_ a' = ac_count_ a →
     ac_accept a' = AcceptFrame None (if res <? 0 then res else peer_fd_ (ac_accept a)) true true →
     wp intrusive_ptr_release (Cell w' (Some a')) (λ _ c, Q (af_h_ (ac_accept a)) c)) →
  wp (acceptor_cqe self FkAccept res) (Cell w (Some a)) Q.
Proof.
  intros (He & Hc & (Hi & Hd & Hp) & Hs) Hn HQ. rewrite Hn in Hc. cbn in Hc. unfold accept_pending in Hn.
  apply andb_true_iff in Hn as [Ei Ed]. apply negb_true_iff in Ed. specialize (Hp Ei Ed).
  assert (0 ≤ acceptor_refs y) as Hr by (unfold acceptor_refs; destruct (a_accepting y); cbn; lia).
  unfold peer_slot in Hs. rewrite Ei, (proj2 (Z.leb_le 0 _) Hp) in Hs. cbn [andb] in Hs.
  unfold acceptor_cqe. apply wp_acceptor_dispatch; [lia|].
  cbn [await_process_cqe take_handle acceptor_awaitable_base]. unfold accept_process_cqe, acceptor_exchange_h. cbn [cqe_res].
  destruct (Z.ltb_spec res 0) as [Hlt|Hge]; cell_steps.
  - apply wp_assert; [by apply Z.leb_le|]. cell_steps.
    eapply wp_release_slot; [eapply slots_ok_perm, Hs; symmetry; apply Permutation_middle|]. intros w1 Hpo _ Hs1. cell_steps.
    apply HQ; [|done|unfold upd_accept, accept_handle, upd; cbn; by rewrite Ei]. split_and!; cbn.
    + by rewrite (pool_only_entries _ _ Hpo).
    + unfold accept_pending. cbn. rewrite andb_false_r. cbn. lia.
    + split_and!; [done|done|done].
    + unfold peer_slot. cbn. rewrite (proj2 (Z.leb_gt 0 res)) by lia. by rewrite andb_false_r.
  - apply HQ; [|done|unfold upd_accept, accept_handle, upd; cbn; by rewrite Ei]. split_and!; cbn; [done| | |].
    + unfold accept_pending. cbn. rewrite andb_false_r. cbn. lia.
    + split_and!; [done|done|done].
    + unfold peer_slot. cbn. by rewrite Ei, (proj2 (Z.leb_le 0 _) Hp).
Qed.

Lemma wp_acceptor_cancel_cqe y a w res (Q : option handle → cell R acceptor_impl → Prop) :
  acceptor_ok 0 y a w → a_cancel_pend y ≠ 0%nat →
  (∀ c, acceptor_inv (y <| a_cancel_pend ::= pred |>) c → Q (h_ (ac_cancel a)) c) →
  wp (acceptor_cqe self FkAcceptorCancel res) (Cell w (Some a)) Q.
Proof.
  intros (He & Hc & Hf & Hs) Hp HQ. pose proof (b2z_range (accept_pending a)) as Hb.
  assert (Z.of_nat (a_cancel_pend y) ≤ acceptor_refs y) as Hr by (unfold acceptor_refs; destruct (a_accepting y); cbn; lia).
  unfold acceptor_cqe. apply wp_acceptor_dispatch; [lia|].
  cbn [await_process_cqe take_handle acceptor_awaitable_base]. unfold acceptor_exchange_h. cell_steps.
  eapply wp_acceptor_drop; [|exact HQ]. split_and!; [done| |done|done].
  change (ac_count_ a = acceptor_refs (y <| a_cancel_pend ::= pred |>) + Z.b2z (accept_pending a) + 1).
  unfold acceptor_refs in *. cbn. lia.
Qed.

Lemma wp_acceptor_close_cqe y a w res (Q : option handle → cell R acceptor_impl → Prop) :
  acceptor_ok 0 y a w → a_close_pend y ≠ 0%nat →
  (∀ c, acceptor_inv (y <| a_close_pend ::= pred |>) c → Q (h_ (ac_close a)) c) →
  wp (acceptor_cqe self FkAcceptorClose res) (Cell w (Some a)) Q.
Proof.
  intros (He & Hc & Hf & Hs) Hp HQ. pose proof (b2z_range (accept_pending a)) as Hb.
  assert (Z.of_nat (a_close_pend y) ≤ acceptor_refs y) as Hr by (unfold acceptor_refs; destruct (a_accepting y); cbn; lia).
  unfold acceptor_cqe. apply wp_acceptor_dispatch; [lia|].
  cbn [await_process_cqe take_handle acceptor_awaitable_base]. unfold acceptor_close_process_cqe, acceptor_exchange_h. cell_steps. cbn [ac_fd_].
  assert (∀ w', sq_entries (io_ring_ (frame w')) = sq_entries (io_ring_ (frame w)) → slots_ok (peer_slot a ++ a_held y) w' →
    acceptor_ok 1 (y <| a_close_pend ::= pred |>) (upd_acceptor_close (λ f, (op_handle f).2)
      (upd_acceptor_close (op_process_cqe (Cqe (Some (self, FkAcceptorClose)) res 0)) a <| ac_fd_ := -1 |>)) w') as Hok.
  { intros w' He' Hs'. split_and!; [lia| |done|done].
    change (ac_count_ a = acceptor_refs (y <| a_close_pend ::= pred |>) + Z.b2z (accept_pending a) + 1).
    unfold acceptor_refs in *. cbn. lia. }
  unfold own_slot in Hs. change (ac_fd_ (upd_acceptor_close _ a)) with (ac_fd_ a).
  destruct (Z.leb_spec 0 (ac_fd_ a)) as [H0|H0].
  - eapply wp_release_slot; [exact Hs|]. intros w1 Hpo _ Hs1. cell_steps.
    eapply wp_acceptor_drop; [apply Hok; [by apply pool_only_entries|done]|exact HQ].
  - apply wp_release_none; [done|]. cell_steps. eapply wp_acceptor_drop; [by apply Hok|exact HQ].
Qed.

(** ** Cancelling and closing *)

Lemma wp_acceptor_async_cancel y a w h (Q : unit → cell R acceptor_impl → Prop) : acceptor_ok 0 y a w → 0 < ac_count_ a →
  (∀ c, acceptor_inv (y <| a_cancelling ::= S |> <| a_cancel_pend ::= S |>) c → Q tt c) →
  wp (acceptor_async_cancel self h) (Cell w (Some a)) Q.
Proof.
  intros (He & Hc & Hf & Hs) Hp HQ. unfold acceptor_async_cancel. cell_steps. apply wp_on_throw_ret.
  unfold accept_cancel_await_suspend. cell_steps. apply wp_queue_one; [lia|]. intros w1 Hq. cell_steps. apply HQ.
  apply acceptor_ok_inv; [|cbn; lia]. eapply acceptor_ok_queued; [exact Hq|]. split_and!; [done| |done|done].
  change (Z.succ (Z.succ (ac_count_ a)) = acceptor_refs (y <| a_cancelling ::= S |> <| a_cancel_pend ::= S |>)
    + Z.b2z (accept_pending a) + 0). unfold acceptor_refs in *. cbn -[Z.of_nat]. lia.
Qed.

Lemma wp_acceptor_cancel_finish y a w (Q : result Z → cell R acceptor_impl → Prop) :
  acceptor_ok 0 y a w → a_cancelling y ≠ 0%nat →
  (∀ r c, acceptor_inv (y <| a_cancelling ::= pred |>) c → Q r c) →
  wp acceptor_async_cancel_finish (Cell w (Some a)) Q.
Proof.
  intros (He & Hc & Hf & Hs) Hp HQ. unfold acceptor_async_cancel_finish, accept_cancel_await_resume. apply wp_finally_ret.
  cell_steps.
  assert (acceptor_ok 1 (y <| a_cancelling ::= pred |>) (upd_acceptor_cancel op_reset a) w) as Hok.
  { split_and!; [done| |done|done].
    change (ac_count_ a = acceptor_refs (y <| a_cancelling ::= pred |>) + Z.b2z (accept_pending a) + 1).
    unfold acceptor_refs in *. cbn. lia. }
  destruct (Z.ltb_spec (res_ (ac_cancel a)) 0).
  - unfold acceptor_err. apply wp_bind, wp_from_errno; [lia|]. cell_steps. eapply wp_acceptor_drop; [done|by intros c; apply HQ].
  - cell_steps. eapply wp_acceptor_drop; [done|by intros c; apply HQ].
Qed.

Lemma wpx_acceptor_async_close y a w h : acceptor_ok 0 y a w → 0 < ac_count_ a →
  wpx (acceptor_async_close self h) (Cell w (Some a))
    (λ _ c, acceptor_inv (y <| a_closing ::= S |> <| a_close_pend ::= S |>) c) (λ _ c, acceptor_inv y c).
Proof.
  intros (He & Hc & Hf & Hs) Hp. unfold acceptor_async_close. cellx_steps. apply wpx_on_throw.
  unfold accept_close_await_suspend. cellx_steps. apply wpx_when; intros E.
  { apply wpx_throw_errno; [done|]. apply (wp_acceptor_drop y); [|done]. split_and!; [done| |done|done].
    change (Z.succ (ac_count_ a) = acceptor_refs y + Z.b2z (accept_pending a) + 1). lia. }
  cellx_steps. apply wp_reserve; [done|]. intros w1 Hq1 Hsp1. cellx_steps.
  apply wp_push; [lia|]. intros w2 Hq2 Hsp2. cellx_steps. apply wp_push; [lia|]. intros w3 Hq3 _. cellx_steps.
  apply acceptor_ok_inv; [|cbn; lia].
  eapply acceptor_ok_queued; [exact Hq3|]. eapply acceptor_ok_queued; [exact Hq2|]. eapply acceptor_ok_queued; [exact Hq1|].
  split_and!; [done| |done|done].
  change (Z.succ (Z.succ (ac_count_ a)) = acceptor_refs (y <| a_closing ::= S |> <| a_close_pend ::= S |>)
    + Z.b2z (accept_pending a) + 0). unfold acceptor_refs in *. cbn -[Z.of_nat]. lia.
Qed.

Lemma wp_acceptor_close_finish y a w (Q : result Z → cell R acceptor_impl → Prop) :
  acceptor_ok 0 y a w → a_closing y ≠ 0%nat →
  (∀ r c, acceptor_inv (y <| a_closing ::= pred |>) c → Q r c) →
  wp acceptor_async_close_finish (Cell w (Some a)) Q.
Proof.
  intros (He & Hc & Hf & Hs) Hp HQ. unfold acceptor_async_close_finish, accept_close_await_resume. apply wp_finally_ret.
  cell_steps.
  assert (acceptor_ok 1 (y <| a_closing ::= pred |>) (upd_acceptor_close op_reset a) w) as Hok.
  { split_and!; [done| |done|done].
    change (ac_count_ a = acceptor_refs (y <| a_closing ::= pred |>) + Z.b2z (accept_pending a) + 1).
    unfold acceptor_refs in *. cbn. lia. }
  destruct (Z.ltb_spec (res_ (ac_close a)) 0).
  - unfold acceptor_err. apply wp_bind, wp_from_errno; [lia|]. cell_steps. eapply wp_acceptor_drop; [done|by intros c; apply HQ].
  - cell_steps. eapply wp_acceptor_drop; [done|by intros c; apply HQ].
Qed.

Lemma give_back_inv n y c : acceptor_inv y c → wp (give_back n y) c (λ y' c', acceptor_inv y' c').
Proof.
  destruct c as [w o]. intros [He Ho]. cbn [world] in He. unfold give_back.
  destruct (a_held y !! n) as [fd|] eqn:En; [|by apply wp_ret].
  pose proof (delete_Permutation _ _ _ En) as Hp. apply wp_bind, wp_on_world. cbn [world]. destruct o as [a|].
  - destruct Ho as (Hc & Hpos & Hf & Hs).
    eapply (wp_release_slot fd (own_slot a ++ peer_slot a ++ delete n (a_held y))).
    { eapply slots_ok_perm, Hs. revert Hp. generalize (delete n (a_held y)). intros d ->.
      rewrite !app_assoc. symmetry. apply Permutation_middle. }
    intros w1 Hpo _ Hs1. apply wp_ret. split; [cbn; by rewrite (pool_only_entries _ _ Hpo)|]. by split_and!.
  - destruct Ho as [Hr Hs]. eapply (wp_release_slot fd (delete n (a_held y))).
    { by eapply slots_ok_perm, Hs. }
    intros w1 Hpo _ Hs1. apply wp_ret. split; [cbn; by rewrite (pool_only_entries _ _ Hpo)|]. by split.
Qed.

Lemma run_acceptor_op_inv op y c : acceptor_inv y c → wp (run_acceptor_op self op y) c (λ y' c', acceptor_inv y' c').
Proof.
  destruct c as [w o]. intros Hi. apply wp_bind, wp_get. cbn [object].
  destruct o as [a|]; [|destruct op; try (by apply wp_ret); by apply give_back_inv].
  assert (acceptor_ok 0 y a w ∧ 0 < ac_count_ a) as [Hok Hpos].
  { destruct Hi as (He & Hc & Hpos & Hf & Hs). split; [split_and!; [done|lia|done|done]|done]. }
  pose proof Hok as (He & Hc & Hf & Hs).
  destruct op as [| |h| |h| |h| |res|res|res|n]; [..|by apply give_back_inv]; try case_decide; try by apply wp_ret, acceptor_ok_inv.
  - cell_steps. apply acceptor_ok_inv; [|cbn; lia]. split_and!; [done| |done|done].
    change (Z.succ (ac_count_ a) = acceptor_refs (y <| a_handles ::= S |>) + Z.b2z (accept_pending a) + 0).
    unfold acceptor_refs in *. cbn -[Z.of_nat]. lia.
  - apply wp_bind, (wp_acceptor_drop (y <| a_handles ::= pred |>)); [|intros c H'; by apply wp_ret].
    split_and!; [done| |done|done]. unfold acceptor_refs in *. cbn. lia.
  - apply wp_bind, wp_attempt. eapply wpx_mono; [by apply wpx_async_accept| |by intros e c [? _]; apply wp_ret].
    intros [] c (fd & w' & a' & -> & _ & _ & Hp' & _ & Ho'). by apply wp_ret, acceptor_ok_inv.
  - destruct (a_accepting y && _) eqn:E; [|by apply wp_ret, acceptor_ok_inv]. apply andb_true_iff in E as [E1 E2].
    apply wp_bind. eapply wp_accept_raw_finish; [done..|]. intros r c H'. by apply wp_ret.
  - apply wp_bind. eapply wp_acceptor_async_cancel; [done..|]. intros c H'. by apply wp_ret.
  - destruct (done_ _); [|by apply wp_ret, acceptor_ok_inv].
    apply wp_bind. eapply wp_acceptor_cancel_finish; [done..|]. intros r c H'. by apply wp_ret.
  - apply wp_bind, wp_attempt. eapply wpx_mono; [by apply wpx_acceptor_async_close|by intros; apply wp_ret..].
  - destruct (done_ _); [|by apply wp_ret, acceptor_ok_inv].
    apply wp_bind. eapply wp_acceptor_close_finish; [done..|]. intros r c H'. by apply wp_ret.
  - destruct (accept_pending a) eqn:E; [|by apply wp_ret, acceptor_ok_inv].
    apply wp_bind. eapply wp_accept_cqe; [done..|]. intros a' w' Ho' _ _.
    eapply wp_acceptor_drop; [done|]. intros c H'. by apply wp_ret.
  - apply wp_bind. eapply wp_acceptor_cancel_cqe; [done..|]. intros c H'. by apply wp_ret.
  - apply wp_bind. eapply wp_acceptor_close_cqe; [done..|]. intros c H'. by apply wp_ret.
Qed.

(** C13. Along any sequence of copies, destructions, accepts, cancellations, closes,
    resumptions and completions of an acceptor, and of connections that give their
    slots back, no step faults; the counter is the number of handles, awaitables
    and operations in flight; and the acceptor's slot, the slot of the connection
    to come, the slots of the connections made and the free ones are together all
    the slots, each once. *)
Theorem acceptor_ops_safe ops y c : acceptor_inv y c →
  ∃ y' c', run_acceptor_ops self ops y c = (Ret y', c') ∧ acceptor_inv y' c'.
Proof.
  intros Hi. apply wp_run, wp_foldl_inv; [|done]. intros op y' c'. apply run_acceptor_op_inv.
Qed.

(** ** A whole accept *)

(** A stream on the slot [fd], held by its handle and its timer. *)
Definition fresh_stream (fd : Z) (st : stream_impl) : Prop :=
  fd_ st = fd ∧ st_count_ st = 2 ∧ to_initiated_ (st_timeout st) = true ∧ to_cancelled_ (st_timeout st) = false ∧
  rf_initiated_ (st_recv st) = false ∧ st_client st = None.

Lemma wp_build_stream peer fd w (Q : stream_impl → ctx R → Prop) : 1 ≤ sq_entries (io_ring_ (frame w)) →
  (∀ st w1 w', fresh_stream fd st → w1 = w <| heap := heap w1 |> → queued [timeout_sqe peer] w1 w' → Q st w') →
  wp (build (stream_new peer fd)) w Q.
Proof.
  intros He HQ. apply wp_build. unfold stream_new, stream_impl_new, now, sequence_new.
  do 2 apply wp_bind. apply wp_on_world, wp_gets, wp_bind, wp_on_world, wp_on_heap.
  unfold wp at 1. apply wp_bind, wp_modify. cbn [world object].
  unfold upd at 1. cbn [world object]. cell_steps. apply wp_queue_one; [cbn; lia|]. intros w' Hq. cell_steps.
  eexists. split; [reflexivity|]. refine (HQ _ _ _ _ _ Hq); [unfold fresh_stream; by split_and!|done].
Qed.

(** The same with a stream for the connection. *)
Lemma wp_accept_finish y a w peer (Q : result stream_impl → cell R acceptor_impl → Prop) :
  acceptor_ok 0 (y <| a_accepting := true |>) a w → a_accepting y = false → af_done_ (ac_accept a) = true →
  (∀ r c, (if peer_fd_ (ac_accept a) <? 0 then r = Err (- peer_fd_ (ac_accept a)) ∧ acceptor_inv y c
     else (∃ st, r = Ok st ∧ fresh_stream (peer_fd_ (ac_accept a)) (st <| connected_ := false |>) ∧ connected_ st = true) ∧
       acceptor_inv (y <| a_held ::= cons (peer_fd_ (ac_accept a)) |>) c) → Q r c) →
  wp (async_accept_finish self peer) (Cell w (Some a)) Q.
Proof.
  intros (He & Hc & (Hi & Hd & Hp) & Hs) Ha Hdn HQ. cbn in Hi.
  assert (accept_pending a = false) as Hn by (unfold accept_pending; by rewrite Hi, Hdn). rewrite Hn in Hc. cbn in Hc.
  unfold peer_slot in Hs. rewrite Hi in Hs. cbn [andb] in Hs.
  unfold async_accept_finish, accept_await_resume. apply wp_finally_ret. cell_steps. cbn [peer_fd_].
  destruct (Z.ltb_spec (peer_fd_ (ac_accept a)) 0) as [Hlt|Hge].
  - unfold acceptor_err. apply wp_bind, wp_from_errno; [lia|]. cell_steps.
    rewrite (proj2 (Z.leb_gt 0 _)) in Hs by lia.
    apply (wp_accept_dtor y); [|intros c Hc'; by apply HQ].
    split_and!; [done| |by split_and!|done]. unfold acceptor_refs in *. rewrite Ha. cbn in *. lia.
  - cell_steps. rewrite (proj2 (Z.leb_le 0 _)) in Hs by lia.
    apply wp_build_stream; [lia|]. intros st w1 w2 Hst Hw1 Hq. cell_steps.
    apply (wp_accept_dtor (y <| a_held ::= cons (peer_fd_ (ac_accept a)) |>)).
    + assert (slots_ok (own_slot a ++ [peer_fd_ (ac_accept a)] ++ a_held y) w1) as Hs1 by (by rewrite Hw1).
      split_and!; [rewrite (queued_entries _ _ _ Hq), Hw1; done| |by split_and!|by eapply slots_ok_queued].
      unfold acceptor_refs in *. cbn in *. rewrite Ha. cbn. lia.
    + intros c Hc'. apply HQ. split; [|done]. eexists. split; [done|]. split; [|done].
      destruct Hst as (H1 & H2 & H3 & H4 & H5 & H6). by split_and!.
Qed.

(** C32. A whole accept: the operation is submitted for a free slot; the completion
    resumes the coroutine; a connection becomes a connected stream on that slot,
    with its timer running; an error is the result, and the slot is free again.
    The acceptor can accept once more. *)
Theorem accept_round_result y a w h res peer : acceptor_inv y (Cell w (Some a)) → a_accepting y = false →
  fds_ (frame w) ≠ ∅ →
  ∃ fd r c, accept_round self h res peer (Cell w (Some a)) = (Ret (Some h, r), c) ∧ fd ∈ fds_ (frame w) ∧
    if res <? 0 then r = Err (- res) ∧ acceptor_inv y c
    else (∃ st, r = Ok st ∧ fresh_stream fd (st <| connected_ := false |>) ∧ connected_ st = true) ∧
      acceptor_inv (y <| a_held ::= cons fd |>) c.
Proof.
  intros (He & Hc & Hpos & Hf & Hs) Ha Hne.
  assert (acceptor_ok 0 y a w) as Hok by (split_and!; [done|lia|done|done]).
  assert (wp (accept_round self h res peer) (Cell w (Some a)) (λ x c, ∃ fd, x.1 = Some h ∧ fd ∈ fds_ (frame w) ∧
    if res <? 0 then x.2 = Err (- res) ∧ acceptor_inv y c
    else (∃ st, x.2 = Ok st ∧ fresh_stream fd (st <| connected_ := false |>) ∧ connected_ st = true) ∧
      acceptor_inv (y <| a_held ::= cons fd |>) c)) as Hw.
  2:{ apply wp_run in Hw as ([k r] & c & E & fd & Hk & Hin & H). cbn in Hk, H. subst k. by exists fd, r, c. }
  unfold accept_round. apply wp_bind. pose proof (wpx_async_accept y a w h Hok Hpos) as Hx. unfold wpx in Hx.
  unfold wp at 1. destruct (async_accept self h _) as [[[]|e|f] c1]; [|by destruct Hx as (_ & [?|?]); congruence|done].
  destruct Hx as (fd & w1 & a1 & -> & Hin & Hfd & Hp1 & Ef & Hok1).
  apply wp_bind. eapply wp_accept_cqe; [exact Hok1|unfold accept_pending; by rewrite Ef|].
  rewrite Ef. cbn [af_h_ peer_fd_]. intros a2 w2 (He2 & Hc2 & Hf2 & Hs2) Hcnt Ef2.
  assert (0 ≤ acceptor_refs y) as Hr by (unfold acceptor_refs; destruct (a_accepting y); cbn; lia).
  assert (acceptor_refs (y <| a_accepting := true |>) = acceptor_refs y + 1) as Hr1
    by (unfold acceptor_refs; rewrite Ha; cbn; lia).
  assert (accept_pending a2 = false) as Hn2 by (unfold accept_pending; by rewrite Ef2).
  rewrite Hn2 in Hc2. cbn in Hc2.
  apply wp_cell_release; cbn; [intros _|lia].
  apply wp_bind, (wp_accept_finish y); [|done|by cbn; rewrite Ef2|].
  { split_and!; [done| |done|done].
    change (Z.pred (ac_count_ a2) = acceptor_refs (y <| a_accepting := true |>) + Z.b2z (accept_pending a2) + 0).
    rewrite Hn2. cbn. lia. }
  intros r c HQ. change (ac_accept (a2 <| ac_count_ ::= Z.pred |>)) with (ac_accept a2) in HQ. rewrite Ef2 in HQ.
  cbn [peer_fd_] in HQ. apply wp_ret. exists fd. split_and!; [done|done|]. cbn [snd].
  destruct (Z.ltb_spec res 0) as [Hlt|Hge]; [by rewrite (proj2 (Z.ltb_lt res 0)) in HQ by done|].
  by rewrite (proj2 (Z.ltb_ge fd 0)) in HQ by lia.
Qed.
End AcceptorLemmas.

(** ** Construction *)
Section ConstructionTheorems.
Context {R : Type} {HU : IoUring R} {HUL : IoUringLaws R} {HB : IoUringBufs R} {HK : OsSocket R}.
Context {HS : UnorderedBegin} {HSL : UnorderedBeginLaws}.
Implicit Types w : ctx R.

Definition family_ok (addr : sockaddr) : Prop := sa_family addr = AF_INET ∨ sa_family addr = AF_INET6.

(** The socket calls for [addr] succeed on the descriptor [fd]; it is bound to [name]. *)
Definition listens (addr : sockaddr) (fd : Z) (name : sockaddr) : Prop :=
  os_socket (sa_family addr) = inr fd ∧ os_bind fd addr (acceptor_addrlen addr) = 0 ∧
  os_listen fd default_backlog = 0 ∧ os_getsockname fd = inr (name, acceptor_addrlen addr).

Lemma wp_on_os {A} (m : M os_state A) w st (Q : A → host R → Prop) :
  wp m st (λ a st', Q a (Host w st')) → wp (on_os m) (Host w st) Q.
Proof. exact (wp_zoom host_os m (Host w st) Q). Qed.

Lemma wp_on_host_ctx {A} (m : M (ctx R) A) w st (Q : A → host R → Prop) :
  wp m w (λ a w', Q a (Host w' st)) → wp (on_host_ctx m) (Host w st) Q.
Proof. exact (wp_zoom host_ctx m (Host w st) Q). Qed.

Lemma filter_closed (l : list Z) fd : fd ∉ l → filter (λ x, x ≠ fd) (l ++ [fd]) = l.
Proof.
  intros Hn. rewrite filter_app, (filter_cons_False _ fd) by tauto. rewrite app_nil_r.
  induction l as [|x l IH]; [done|]. apply not_elem_of_cons in Hn as [? ?].
  rewrite filter_cons_True by done. by rewrite IH.
Qed.

Lemma wpx_checked_call e (s : host R) (Q : unit → host R → Prop) (E : exn → host R → Prop) :
  (e ≠ 0 → E (system_error e) s) → (e = 0 → Q tt s) → wpx (checked_call e) s Q E.
Proof.
  intros H1 H2. unfold checked_call. apply wpx_when; intros Hb; bool_simp; [|by apply H2].
  apply wpx_throw_errno; [done|by apply H1].
Qed.

(** The calls up to the choice of the slot. *)
Lemma wpx_acceptor_setup addr fd name w st (Q : acceptor_impl → host R → Prop) E :
  family_ok addr → listens addr fd name →
  wpx (acceptor_register fd name (sa_family addr =? AF_INET)) (Host w (st <| open_fds ::= λ l, l ++ [fd] |>)) Q E →
  wpx (acceptor_impl_new addr default_backlog) (Host w st) Q E.
Proof.
  intros Hf (E1 & E2 & E3 & E4) HQ. unfold acceptor_impl_new.
  assert ((if sa_family addr =? AF_INET then AF_INET else AF_INET6) = sa_family addr) as ->
    by (destruct Hf as [-> | ->]; done).
  apply wpx_bind, wpx_wp, wp_assert; [by destruct Hf as [-> | ->]|]. rewrite E1.
  apply wpx_bind, wpx_wp, wp_bind, wp_on_os, wp_modify, wp_ret.
  apply wpx_bind, wpx_checked_call; [by rewrite E2|intros _]. apply wpx_bind, wpx_checked_call; [by rewrite E3|intros _].
  rewrite E4. apply wpx_bind, wpx_wp, wp_ret. apply wpx_bind, wpx_wp, wp_assert; [apply Z.eqb_refl|]. exact HQ.
Qed.

(** An acceptor is constructed on a free slot and bound to the name the system
    reports, whose port it has; the socket's own descriptor is closed again; and
    the new acceptor is idle, with one reference. *)
Lemma acceptor_new_ready addr fd name l w st :
  family_ok addr → listens addr fd name → fd ∉ open_fds st → slots_ok l w → fds_ (frame w) ≠ ∅ →
  2 ≤ sq_entries (io_ring_ (frame w)) →
  (∀ off r, ∃ r', io_uring_register_files_update off fd r = (1, r') ∧ sq_entries r' = sq_entries r) →
  ∃ a w', acceptor_new addr (Host w st) = (Ret a, Host w' st) ∧ ac_fd_ a ∈ fds_ (frame w) ∧ ac_addr_ a = name ∧
    is_ipv4_ a = (sa_family addr =? AF_INET) ∧ acceptor_inv (AcceptorSys 1 false 0 0 0 0 l) (Cell w' (Some a)).
Proof.
  intros Hf Hl Hn Hs Hne He Hreg.
  assert (wpx (acceptor_new addr) (Host w st) (λ a h, ∃ w', h = Host w' st ∧ ac_fd_ a ∈ fds_ (frame w) ∧ ac_addr_ a = name ∧
    is_ipv4_ a = (sa_family addr =? AF_INET) ∧ acceptor_inv (AcceptorSys 1 false 0 0 0 0 l) (Cell w' (Some a)))
    (λ _ _, False)) as Hw.
  2:{ unfold wpx in Hw. destruct (acceptor_new addr _) as [[a|e|f] h]; [|done..].
      destruct Hw as (w' & -> & H). by exists a, w'. }
  unfold acceptor_new. apply wpx_bind. eapply wpx_acceptor_setup; [done..|]. unfold acceptor_register.
  apply wpx_bind, wpx_wp, wp_on_host_ctx, (wp_get_slot l); [done|done|]. intros off w1 Hin Hoff Hpo _ Hs1.
  rewrite (proj2 (Z.ltb_ge off 0)) by lia. apply wpx_bind, wpx_wp, wp_ret.
  apply wpx_bind, wpx_wp, wp_on_host_ctx, wp_on_ring. unfold wp at 1.
  destruct (Hreg (to_unsigned off) (io_ring_ (frame w1))) as (r' & -> & Hr').
  cbn [Z.ltb Z.compare]. apply wpx_bind, wpx_wp, wp_ret. apply wpx_bind, wpx_wp, wp_on_os, wp_modify, wpx_wp.
  apply wp_ret. apply wpx_wp, wp_ret. eexists. split.
  { f_equal. destruct st as [o n]. unfold upd. cbn. by rewrite filter_closed. }
  split_and!; [done|done|done|]. split; [cbn; by rewrite Hr', (pool_only_entries _ _ Hpo)|].
  cbn. split_and!; [done|done|by split_and!|]. unfold own_slot, peer_slot. cbn.
  rewrite (proj2 (Z.leb_le 0 off)) by lia. destruct w1 as [[]]. exact Hs1.
Qed.

(** When the socket cannot be registered the constructor throws the error; the
    socket's descriptor stays open and the slot it took is never free again. *)
Lemma acceptor_ctor_leaks addr fd name l w st ret :
  family_ok addr → listens addr fd name → slots_ok l w → fds_ (frame w) ≠ ∅ → ret < 0 →
  (∀ off r, io_uring_register_files_update off fd r = (ret, r)) →
  ∃ off w', acceptor_new addr (Host w st) =
      (Throw (system_error (- ret)), Host w' (st <| open_fds ::= λ l, l ++ [fd] |>)) ∧
    off ∈ fds_ (frame w) ∧ fds_ (frame w') = fds_ (frame w) ∖ {[off]}.
Proof.
  intros Hf Hl Hs Hne Hr Hreg.
  assert (wpx (acceptor_new addr) (Host w st) (λ _ _, False) (λ e h, ∃ off w', e = system_error (- ret) ∧
    h = Host w' (st <| open_fds ::= λ l, l ++ [fd] |>) ∧
    off ∈ fds_ (frame w) ∧ fds_ (frame w') = fds_ (frame w) ∖ {[off]})) as Hw.
  2:{ unfold wpx in Hw. destruct (acceptor_new addr _) as [[a|e|f] h]; [done| |done].
      destruct Hw as (off & w' & -> & -> & H). by exists off, w'. }
  unfold acceptor_new. apply wpx_bind. eapply wpx_acceptor_setup; [done..|]. unfold acceptor_register.
  apply wpx_bind, wpx_wp, wp_on_host_ctx, (wp_get_slot l); [done|done|]. intros off w1 Hin Hoff Hpo Hfds _.
  rewrite (proj2 (Z.ltb_ge off 0)) by lia. apply wpx_bind, wpx_wp, wp_ret.
  apply wpx_bind, wpx_wp, wp_on_host_ctx, wp_on_ring. unfold wp at 1. rewrite Hreg.
  rewrite (proj2 (Z.ltb_lt ret 0)) by lia. apply wpx_bind, wpx_throw_errno; [lia|].
  eexists off, _. split_and!; [done|done|done|]. by destruct w1 as [[]].
Qed.
End ConstructionTheorems.
