(* ===== verification/AcceptorSamples.v ===== *)
(** Acceptors on the recording ring: the theorems of [AcceptorSafe] at inputs where
    their hypotheses hold. *)

From S2P Require Import Prelude Uring Buffer Frame BufRing Executor LogRing Awaitable Duration.
From S2P Require Import Slots Stream IoContext Acceptor AcceptorSafe.

(** A table of four slots, the slots [l] of which are free. *)
Definition table_of (l : list Z) : ctx log_ring :=
  log_ctx 4 4 [] <| frame ::= λ f, f <| params_ := Params 8 8 4 |> <| fds_ := list_to_set l |> |>.

Definition listener : acceptor_impl :=
  AcceptorImpl 1 accept_frame_new op_frame_new op_frame_new (Sockaddr AF_INET [31; 144]) 0 true.
Definition one_acceptor : acceptor_sys := AcceptorSys 1 false 0 0 0 0 [].

Lemma table_ok held free : NoDup held →
  (∀ fd, fd ∈ held → fd ∉ free) → (∀ fd, 0 ≤ fd < 4 ↔ fd ∈ held ∨ fd ∈ free) → slots_ok held (table_of free).
Proof.
  intros Hn Hd Ha. split_and!; [split; [done|]|done| |]; cbn -[list_to_set].
  - intros fd Hin%elem_of_list_to_set. apply Ha. by right.
  - intros fd. by rewrite elem_of_list_to_set.
  - intros fd Hin. rewrite elem_of_list_to_set. by apply Hd.
Qed.

Ltac table_tac :=
  apply table_ok; [apply (bool_decide_unpack _); by vm_compute| |];
  intros fd; rewrite ?elem_of_cons, ?elem_of_nil; lia.

Lemma listener_inv : acceptor_inv one_acceptor (Cell (table_of [1; 2; 3]) (Some listener)).
Proof. split; [done|]. split_and!; [done|done|by split_and!|]. change (slots_ok [0] (table_of [1; 2; 3])). table_tac. Qed.

Definition sample_ops : list acceptor_op :=
  [Aop_accept 1024; Aop_accept 2048; Aop_accept_cqe 0; Aop_accept_finish; Aop_accept 1024; Aop_close 4096;
   Aop_accept_cqe (- ECANCELED); Aop_accept_finish; Aop_close_cqe 0; Aop_close_finish; Aop_close 4096; Aop_drop; Aop_give_back 0].

Lemma acceptor_ops_safe_witness :
  ∃ y' c', run_acceptor_ops 512 sample_ops one_acceptor (Cell (table_of [1; 2; 3]) (Some listener)) = (Ret y', c') ∧
    object c' = None ∧ elements (fds_ (frame (world c'))) ≡ₚ [0; 1; 2; 3].
Proof.
  destruct (acceptor_ops_safe 512 sample_ops one_acceptor _ listener_inv) as (y' & c' & E & _).
  exists y', c'. split; [exact E|]. vm_compute in E. injection E as _ <-. split; [reflexivity|].
  vm_compute elements. apply (bool_decide_unpack _). by vm_compute.
Defined.

Lemma accept_round_result_witness :
  ∃ fd st c, accept_round 512 1024 0 8192 (Cell (table_of [1; 2; 3]) (Some listener)) = (Ret (Some 1024, Ok st), c) ∧
    fresh_stream fd (st <| connected_ := false |>).
Proof.
  destruct (accept_round_result 512 one_acceptor listener (table_of [1; 2; 3]) 1024 0 8192 listener_inv eq_refl)
    as (fd & r & c & E & _ & (st & -> & Hst & _) & _); [by vm_compute|].
  exists fd, st, c. split; [exact E|exact Hst].
Defined.

(** ** Construction *)

(** A system whose socket calls succeed, and that registers files with [ret]. *)
Definition sockets (ret : Z) : OsSocket log_ring := {|
  os_socket _ := inr 7;
  os_bind _ _ _ := 0;
  os_listen _ _ := 0;
  os_getsockname _ := inr (Sockaddr AF_INET [31; 144], 16);
  io_uring_register_files_update _ _ r := (ret, r) |}.

Definition any_port : sockaddr := Sockaddr AF_INET [0; 0].

