(* ===== verification/File.v ===== *)
(** Files ([include/fiona/file.hpp], [src/file.cpp]): the frames of [file_impl] and the
    awaitables that open, write and read.

    [write_frame] and [read_frame] have the same members and their awaitables the
    same code up to the opcode, so both are [rw_frame]s, and the operations take
    the side they work on. *)

From S2P Require Import Prelude Uring Buffer Frame BufRing Executor Awaitable Slots IoContext.

(** [std::span<unsigned char>] *)
Record span := Span { sp_data : ptr; sp_size : Z }.
Definition span_empty : span := Span 0 0.

Record open_frame := OpenFrame {
  of_h_ : option handle; temp_fd_ : Z; pathname_ : string; of_flags_ : Z;
  of_res_ : Z; of_initiated_ : bool; of_done_ : bool }.
#[export] Instance eta_open_frame : Eta open_frame := λ f,
  OpenFrame (of_h_ f) (temp_fd_ f) (pathname_ f) (of_flags_ f) (of_res_ f) (of_initiated_ f) (of_done_ f).

Record rw_frame := RwFrame {
  rw_buf_ : span; rw_h_ : option handle; buf_index_ : Z; rw_res_ : Z; rw_initiated_ : bool; rw_done_ : bool }.
#[export] Instance eta_rw_frame : Eta rw_frame := λ f,
  RwFrame (rw_buf_ f) (rw_h_ f) (buf_index_ f) (rw_res_ f) (rw_initiated_ f) (rw_done_ f).
Definition write_frame : Type := rw_frame.
Definition read_frame : Type := rw_frame.

Record file_impl := FileImpl {
  fl_count_ : Z; fl_open : open_frame; fl_write : write_frame; fl_read : read_frame; file_fd_ : Z }.
#[export] Instance eta_file_impl : Eta file_impl :=
  λ f, FileImpl (fl_count_ f) (fl_open f) (fl_write f) (fl_read f) (file_fd_ f).

#[export] Instance file_ref_count : RefCount file_impl := {|
  use_count := fl_count_; upd_count g f := f <| fl_count_ ::= g |> |}.
#[export] Instance file_ref_count_laws : RefCountLaws file_impl.
Proof. by split. Qed.

Definition open_frame_new : open_frame := OpenFrame None (-1) EmptyString (-1) 0 false false.
Definition rw_frame_new : rw_frame := RwFrame span_empty None (-1) 0 false false.

(** [reset()] of the frames: every member gets its initial value. *)
Definition open_reset (f : open_frame) : open_frame :=
  f <| of_h_ := None |> <| temp_fd_ := -1 |> <| pathname_ := EmptyString |> <| of_flags_ := -1 |>
    <| of_res_ := 0 |> <| of_initiated_ := false |> <| of_done_ := false |>.
Definition write_reset (f : write_frame) : write_frame :=
  f <| rw_buf_ := span_empty |> <| rw_h_ := None |> <| buf_index_ := -1 |> <| rw_res_ := 0 |>
    <| rw_initiated_ := false |> <| rw_done_ := false |>.
Definition read_reset (f : read_frame) : read_frame :=
  f <| rw_h_ := None |> <| rw_buf_ := span_empty |> <| buf_index_ := -1 |> <| rw_res_ := 0 |>
    <| rw_initiated_ := false |> <| rw_done_ := false |>.

Definition upd_open (g : open_frame → open_frame) (f : file_impl) : file_impl := f <| fl_open ::= g |>.
Definition upd_write (g : write_frame → write_frame) (f : file_impl) : file_impl := f <| fl_write ::= g |>.
Definition upd_read (g : read_frame → read_frame) (f : file_impl) : file_impl := f <| fl_read ::= g |>.

(** What is particular to writing and to reading. *)
Inductive rw_side := Side_write | Side_read.

Definition side_get (d : rw_side) (f : file_impl) : rw_frame :=
  match d with Side_write => fl_write f | Side_read => fl_read f end.
Definition side_upd (d : rw_side) (g : rw_frame → rw_frame) : file_impl → file_impl :=
  match d with Side_write => upd_write g | Side_read => upd_read g end.
Definition side_kind (d : rw_side) : frame_kind := match d with Side_write => FkWrite | Side_read => FkRead end.
Definition side_reset (d : rw_side) : rw_frame → rw_frame :=
  match d with Side_write => write_reset | Side_read => read_reset end.

(** The SQE of an operation: on a registered buffer when there is an index. *)
Definition side_op (d : rw_side) (fd : Z) (f : rw_frame) : sqe_op :=
  let data := sp_data (rw_buf_ f) in
  let len := to_unsigned (sp_size (rw_buf_ f)) in
  let offset := 0 in
  match d with
  | Side_write =>
      if 0 <=? buf_index_ f then op_write_fixed fd data len offset (buf_index_ f) else op_write fd data len offset
  | Side_read =>
      if 0 <=? buf_index_ f then op_read_fixed fd data len offset (buf_index_ f) else op_read fd data len offset
  end.

Section File.
Context {R : Type} {HU : IoUring R} {HB : IoUringBufs R} {HS : UnorderedBegin}.
(** The address of the object. *)
Variable self : ptr.

Local Abbreviation FM := (M (cell R file_impl)).

(** [file( ex )]: the object with the reference of its handle. *)
Definition file_new : file_impl := FileImpl 1 open_frame_new rw_frame_new rw_frame_new (-1).

Definition file_close_sqe (fd : Z) : sqe := Sqe (op_close_direct (to_unsigned fd)) None IOSQE_CQE_SKIP_SUCCESS.

Definition file_impl_dtor (f : file_impl) : M (ctx R) unit :=
  when (0 <=? file_fd_ f)
    (queue_any (file_close_sqe (file_fd_ f)) ;; submit ;; release_fd (file_fd_ f)).

(** ** Completions *)

Definition open_process_cqe (e : cqe) : FM unit :=
  upd_this (upd_open (λ o, o <| of_done_ := true |> <| of_res_ := cqe_res e |>)) ;;
  f ← this;
  (if 0 <=? cqe_res e then upd_this (λ f, f <| file_fd_ := temp_fd_ (fl_open f) |>)
   else
     assert (0 <=? temp_fd_ (fl_open f)) ;;
     on_world (release_fd (temp_fd_ (fl_open f)))) ;;
  upd_this (upd_open (λ o, o <| temp_fd_ := -1 |>)).

Definition rw_process_cqe (e : cqe) (f : rw_frame) : rw_frame :=
  f <| rw_res_ := cqe_res e |> <| rw_done_ := true |>.

Definition file_take_handle {F} (read : file_impl → F) (upd : (F → F) → file_impl → file_impl)
    (hd : F → option handle * F) : FM (option handle) :=
  f ← this;
  upd_this (upd (λ x, (hd x).2)) ;;
  mret (hd (read f)).1.

Definition open_handle (f : open_frame) : option handle * open_frame := (of_h_ f, f <| of_h_ := None |>).
Definition rw_handle (f : rw_frame) : option handle * rw_frame := (rw_h_ f, f <| rw_h_ := None |>).

#[export] Instance file_awaitable_base : AwaitableBase R file_impl := {|
  destructor := file_impl_dtor;
  await_process_cqe k e :=
    match k with
    | FkOpen => open_process_cqe e
    | FkWrite => upd_this (upd_write (rw_process_cqe e))
    | FkRead => upd_this (upd_read (rw_process_cqe e))
    | _ => fail WrongClass
    end;
  take_handle k :=
    match k with
    | FkOpen => file_take_handle fl_open upd_open open_handle
    | FkWrite => file_take_handle fl_write upd_write rw_handle
    | FkRead => file_take_handle fl_read upd_read rw_handle
    | _ => fail WrongClass
    end |}.

(** ** The calls that make an awaitable: its arguments go into the frame *)

Definition file_async_open (pathname : string) (flags : Z) : FM unit :=
  upd_this (upd_open (λ o, o <| pathname_ := pathname |> <| of_flags_ := flags |>)) ;;
  intrusive_ptr_add_ref.

Definition file_async_write (msg : span) : FM unit :=
  upd_this (upd_write (λ f, f <| rw_buf_ := msg |>)) ;; intrusive_ptr_add_ref.

(** [data] is the address of the pool's buffer. *)
Definition file_async_write_fixed (data : ptr) (b : fixed_buffer) : FM unit :=
  upd_this (upd_write (λ f, f <| rw_buf_ := Span data (fb_len b) |> <| buf_index_ := to_int (Z.of_nat (fb_index b)) |>)) ;;
  intrusive_ptr_add_ref.

Definition file_async_read (buf : span) : FM unit :=
  upd_this (upd_read (λ f, f <| rw_buf_ := buf |>)) ;; intrusive_ptr_add_ref.

Definition file_async_read_fixed (data : ptr) (b : fixed_buffer) : FM unit :=
  upd_this (upd_read (λ f, f <| rw_buf_ := Span data (fb_size b) |> <| buf_index_ := to_int (Z.of_nat (fb_index b)) |>)) ;;
  intrusive_ptr_add_ref.

(** ** open_awaitable *)

Definition open_awaitable_dtor : FM unit :=
  f ← this;
  when (of_initiated_ (fl_open f) && negb (of_done_ (fl_open f)))
    (on_world (queue_one (cancel_sqe self FkOpen)) ;; on_world submit) ;;
  intrusive_ptr_release.

Definition open_sqe (path : string) (flags slot : Z) : sqe :=
  Sqe (op_openat_direct path flags (to_unsigned slot)) (Some (self, FkOpen)) 0.

Definition open_await_suspend (h : handle) : FM unit :=
  f ← this;
  on_world (on_ring (reserve_sqes 1)) ;;
  file_index ← on_world get_available_fd;
  on_world (on_ring (push_sqe (open_sqe (pathname_ (fl_open f)) (of_flags_ (fl_open f)) file_index))) ;;
  intrusive_ptr_add_ref ;;
  upd_this (upd_open (λ o, o <| of_initiated_ := true |> <| of_h_ := Some h |> <| temp_fd_ := file_index |>)).

Definition file_err {A} (res : Z) : FM (result A) := e ← from_errno (- res); mret (Err e).

Definition open_await_resume : FM (result unit) :=
  f ← this;
  let res := of_res_ (fl_open f) in
  upd_this (upd_open open_reset) ;;
  if res =? 0 then mret (Ok tt) else file_err res.

(** ** write_awaitable and read_awaitable *)

Definition rw_awaitable_dtor (d : rw_side) : FM unit :=
  f ← this;
  when (rw_initiated_ (side_get d f) && negb (rw_done_ (side_get d f)))
    (on_world (queue_one (cancel_sqe self (side_kind d))) ;; on_world submit) ;;
  intrusive_ptr_release.

Definition rw_sqe (d : rw_side) (fd : Z) (f : rw_frame) : sqe :=
  Sqe (side_op d fd f) (Some (self, side_kind d)) IOSQE_FIXED_FILE.

Definition rw_await_suspend (d : rw_side) (h : handle) : FM unit :=
  f ← this;
  when (rw_initiated_ (side_get d f)) (throw_errno_as_error_code EBUSY) ;;
  on_world (on_ring (reserve_sqes 1)) ;;
  on_world (queue_any (rw_sqe d (file_fd_ f) (side_get d f))) ;;
  intrusive_ptr_add_ref ;;
  upd_this (side_upd d (λ f, f <| rw_initiated_ := true |> <| rw_h_ := Some h |>)).

Definition rw_await_resume (d : rw_side) : FM (result Z) :=
  f ← this;
  let res := rw_res_ (side_get d f) in
  upd_this (side_upd d (side_reset d)) ;;
  if res <? 0 then file_err res else mret (Ok res).

Definition write_awaitable_dtor : FM unit := rw_awaitable_dtor Side_write.
Definition read_awaitable_dtor : FM unit := rw_awaitable_dtor Side_read.
Definition write_await_suspend : handle → FM unit := rw_await_suspend Side_write.
Definition read_await_suspend : handle → FM unit := rw_await_suspend Side_read.
Definition write_await_resume : FM (result Z) := rw_await_resume Side_write.
Definition read_await_resume : FM (result Z) := rw_await_resume Side_read.

(** ** Awaiting: the temporary awaitable is destroyed when the coroutine goes on,
    or when starting the operation throws *)

Definition await_open (pathname : string) (flags : Z) (h : handle) : FM unit :=
  file_async_open pathname flags ;; on_throw (open_await_suspend h) open_awaitable_dtor.
Definition await_open_finish : FM (result unit) := finally open_await_resume open_awaitable_dtor.

(** [mk] is one of the calls above. *)
Definition await_rw (d : rw_side) (mk : FM unit) (h : handle) : FM unit :=
  mk ;; on_throw (rw_await_suspend d h) (rw_awaitable_dtor d).
Definition await_rw_finish (d : rw_side) : FM (result Z) := finally (rw_await_resume d) (rw_awaitable_dtor d).

(** ** Whole operations: what the loop resumes, and the result *)
Definition file_cqe (k : frame_kind) (res : Z) : FM (option handle) := dispatch k (Cqe (Some (self, k)) res 0).

Definition open_round (pathname : string) (flags : Z) (h : handle) (res : Z) : FM (option handle * result unit) :=
  await_open pathname flags h ;;
  k ← file_cqe FkOpen res;
  r ← await_open_finish;
  mret (k, r).

Definition rw_round (d : rw_side) (mk : FM unit) (h : handle) (res : Z) : FM (option handle * result Z) :=
  await_rw d mk h ;;
  k ← file_cqe (side_kind d) res;
  r ← await_rw_finish d;
  mret (k, r).
End File.
