(* ===== verification/FileSafe.v ===== *)
(** Files in use: along any sequence of operations a file is used only while it is
    alive and no slot is lost or shared, as long as it is opened once at a time and
    a slot is free; what happens otherwise; and what whole operations yield. *)

From S2P Require Import Prelude Uring Buffer Frame BufRing Executor Awaitable Slots IoContext File.

(** [f_handles] counts the [file] objects; the flags tell which awaitables exist. *)
Record file_sys := FileSys { f_handles : nat; f_opening : bool; f_writing : bool; f_reading : bool }.
#[export] Instance eta_file_sys : Eta file_sys :=
  λ y, FileSys (f_handles y) (f_opening y) (f_writing y) (f_reading y).

Definition sys_side (d : rw_side) (y : file_sys) : bool :=
  match d with Side_write => f_writing y | Side_read => f_reading y end.
Definition sys_set (d : rw_side) (b : bool) (y : file_sys) : file_sys :=
  match d with Side_write => y <| f_writing := b |> | Side_read => y <| f_reading := b |> end.

Inductive file_op :=
| Fop_copy | Fop_drop
| Fop_open (path : string) (flags : Z) (h : handle) | Fop_open_cqe (res : Z) | Fop_open_finish
| Fop_rw (d : rw_side) (buf : span) (h : handle)
| Fop_rw_fixed (d : rw_side) (data : ptr) (b : fixed_buffer) (h : handle)
| Fop_rw_cqe (d : rw_side) (res : Z) | Fop_rw_finish (d : rw_side).

Section FileSys.
Context {R : Type} {HU : IoUring R} {HB : IoUringBufs R} {HS : UnorderedBegin}.
Variable self : ptr.

#[local] Hint Extern 0 (AwaitableBase _ file_impl) => exact file_awaitable_base : typeclass_instances.

Local Abbreviation FM := (M (cell R file_impl)).

Definition open_pending (f : file_impl) : bool := of_initiated_ (fl_open f) && negb (of_done_ (fl_open f)).
Definition rw_pending (d : rw_side) (f : file_impl) : bool :=
  rw_initiated_ (side_get d f) && negb (rw_done_ (side_get d f)).

Definition make_rw (d : rw_side) (buf : span) : FM unit :=
  match d with Side_write => file_async_write buf | Side_read => file_async_read buf end.
Definition make_rw_fixed (d : rw_side) (data : ptr) (b : fixed_buffer) : FM unit :=
  match d with Side_write => file_async_write_fixed data b | Side_read => file_async_read_fixed data b end.

(** Starting an operation on a side. *)
Definition start_rw (d : rw_side) (mk : FM unit) (h : handle) (y : file_sys) : FM file_sys :=
  if decide (f_handles y = 0%nat) then mret y else
  r ← attempt (await_rw self d mk h);
  mret (match r with inl _ => sys_set d true y | inr _ => y end).

(** The file may be opened: it is not open, is not being opened, and a slot is free. *)
Definition may_open (f : file_impl) (w : ctx R) : bool :=
  (file_fd_ f <? 0) && negb (of_initiated_ (fl_open f)) && negb (bool_decide (fds_ (frame w) = ∅)).

(** An operation that is not possible in the state does nothing. *)
Definition run_file_op (op : file_op) (y : file_sys) : FM file_sys :=
  c ← get;
  match object c with
  | None => mret y
  | Some f =>
      match op with
      | Fop_copy =>
          if decide (f_handles y = 0%nat) then mret y else
          intrusive_ptr_add_ref ;; mret (y <| f_handles ::= S |>)
      | Fop_drop =>
          if decide (f_handles y = 0%nat) then mret y else
          intrusive_ptr_release ;; mret (y <| f_handles ::= pred |>)
      | Fop_open path flags h =>
          if decide (f_handles y = 0%nat) then mret y else
          if may_open f (world c) then
            await_open self path flags h ;; mret (y <| f_opening := true |>)
          else mret y
      | Fop_open_cqe res =>
          if open_pending f then file_cqe self FkOpen res ;; mret y else mret y
      | Fop_open_finish =>
          if f_opening y && of_done_ (fl_open f) then
            await_open_finish self ;; mret (y <| f_opening := false |>)
          else mret y
      | Fop_rw d buf h => start_rw d (make_rw d buf) h y
      | Fop_rw_fixed d data b h => start_rw d (make_rw_fixed d data b) h y
      | Fop_rw_cqe d res =>
          if rw_pending d f then file_cqe self (side_kind d) res ;; mret y else mret y
      | Fop_rw_finish d =>
          if sys_side d y && rw_done_ (side_get d f) then
            await_rw_finish self d ;; mret (sys_set d false y)
          else mret y
      end
  end.

Definition run_file_ops (ops : list file_op) (y : file_sys) : FM file_sys :=
  foldl (λ m op, m ≫= run_file_op op) (mret y) ops.

(** The slots the file holds: its own, and the one it is being opened on. *)
Definition file_slot (f : file_impl) : list Z := if 0 <=? file_fd_ f then [file_fd_ f] else [].
Definition temp_slot (f : file_impl) : list Z := if open_pending f then [temp_fd_ (fl_open f)] else [].

Definition file_refs (y : file_sys) : Z :=
  Z.of_nat (f_handles y) + Z.b2z (f_opening y) + Z.b2z (f_writing y) + Z.b2z (f_reading y).
Definition pending_ops (f : file_impl) : Z :=
  Z.b2z (open_pending f) + Z.b2z (rw_pending Side_write f) + Z.b2z (rw_pending Side_read f).

Definition rw_flags (b : bool) (f : rw_frame) : Prop :=
  rw_initiated_ f = b ∧ (rw_done_ f = true → rw_initiated_ f = true).

Definition file_flags (y : file_sys) (f : file_impl) : Prop :=
  of_initiated_ (fl_open f) = f_opening y ∧ (of_done_ (fl_open f) = true → of_initiated_ (fl_open f) = true) ∧
  (open_pending f = true → 0 ≤ temp_fd_ (fl_open f) ∧ file_fd_ f < 0) ∧
  rw_flags (f_writing y) (fl_write f) ∧ rw_flags (f_reading y) (fl_read f).

(** What [y] counts, with [n] further references, and the slots [l] outside. *)
Definition file_ok (n : Z) (l : list Z) (y : file_sys) (f : file_impl) (w : ctx R) : Prop :=
  1 ≤ sq_entries (io_ring_ (frame w)) ∧ fl_count_ f = file_refs y + pending_ops f + n ∧
  file_flags y f ∧ slots_ok (file_slot f ++ temp_slot f ++ l) w.

Definition file_inv (l : list Z) (y : file_sys) (c : cell R file_impl) : Prop :=
  match object c with
  | None => 1 ≤ sq_entries (io_ring_ (frame (world c))) ∧ file_refs y = 0 ∧ slots_ok l (world c)
  | Some f => 0 < fl_count_ f ∧ file_ok 0 l y f (world c)
  end.
End FileSys.

Section FileLemmas.
Context {R : Type} {HU : IoUring R} {HUL : IoUringLaws R} {HB : IoUringBufs R}.
Context {HS : UnorderedBegin} {HSL : UnorderedBeginLaws}.
Variable self : ptr.
Implicit Types (w : ctx R) (f : file_impl) (y : file_sys) (l : list Z).

#[local] Hint Extern 0 (AwaitableBase _ file_impl) => exact file_awaitable_base : typeclass_instances.

Lemma file_ok_queued n l y f w w' qs : queued qs w w' → file_ok n l y f w → file_ok n l y f w'.
Proof.
  intros Hq (He & Hc & Hf & Hs). split_and!; [by rewrite (queued_entries _ _ _ Hq)|done|done|by eapply slots_ok_queued].
Qed.

(** Only the counter, and what it counts, differ. *)
Lemma file_ok_count n n' l y f f' w : file_ok n l y f w → fl_open f' = fl_open f → fl_write f' = fl_write f →
  fl_read f' = fl_read f → file_fd_ f' = file_fd_ f → fl_count_ f' = fl_count_ f - n + n' → file_ok n' l y f' w.
Proof.
  intros (He & Hc & Hf & Hs) E1 E2 E3 E4 E5. unfold file_ok, pending_ops, file_flags, file_slot, temp_slot, open_pending,
    rw_pending in *. cbn [side_get] in *. rewrite E1, E2, E3, E4, E5. split_and!; try done; try apply Hf. lia.
Qed.

Lemma pending_nonneg f : 0 ≤ pending_ops f.
Proof.
  unfold pending_ops. destruct (open_pending f), (rw_pending Side_write f), (rw_pending Side_read f); simpl; lia.
Qed.

Lemma file_refs_nonneg y : 0 ≤ file_refs y.
Proof. unfold file_refs. destruct (f_opening y), (f_writing y), (f_reading y); simpl; lia. Qed.

Lemma wp_file_dtor f l w (Q : unit → ctx R → Prop) : 1 ≤ sq_entries (io_ring_ (frame w)) →
  slots_ok (file_slot f ++ l) w →
  (∀ w', sq_entries (io_ring_ (frame w')) = sq_entries (io_ring_ (frame w)) → slots_ok l w' → Q tt w') →
  wp (file_impl_dtor f) w Q.
Proof.
  intros He Hs HQ. unfold file_impl_dtor, file_slot in *. apply wp_when; intros E; rewrite E in Hs; [|by apply HQ].
  apply wp_bind, wp_queue_any; [lia|]. intros w1 Hq1. apply wp_bind, wp_submit. intros w2 Hq2.
  eapply wp_release_slot; [by eapply slots_ok_queued, slots_ok_queued|]. intros w3 Hp _ Hs3. apply HQ; [|done].
  by rewrite (pool_only_entries _ _ Hp), (queued_entries _ _ _ Hq2), (queued_entries _ _ _ Hq1).
Qed.

(** The object lives on unless this was the last reference. *)
Definition dropped l y f (c : cell R file_impl) : Prop :=
  file_inv l y c ∧ (fl_count_ f ≠ 1 → object c = Some (upd_count Z.pred f)).

Lemma wp_file_drop_live l y f w (Q : unit → cell R file_impl → Prop) : file_ok 1 l y f w →
  (∀ c, dropped l y f c → Q tt c) → wp intrusive_ptr_release (Cell w (Some f)) Q.
Proof.
  intros Hok HQ. pose proof Hok as (He & Hc & Hf & Hs). pose proof (pending_nonneg f). pose proof (file_refs_nonneg y).
  apply wp_cell_release; cbn; intros E.
  - apply HQ. split; [|done]. split; [cbn; lia|]. eapply file_ok_count; [exact Hok|done..|]. cbn. lia.
  - assert (open_pending f = false) as Hn.
    { destruct (open_pending f) eqn:Eo; [|done]. unfold pending_ops in *. rewrite Eo in *. 
      destruct (rw_pending Side_write f), (rw_pending Side_read f); simpl in *; lia. }
    unfold temp_slot in Hs. rewrite Hn in Hs.
    apply (wp_file_dtor _ l); [done|done|]. intros w' He' Hs'. apply HQ. split; [|done]. split; cbn; [lia|]. split; [lia|done].
Qed.

Lemma wp_file_drop l y f w (Q : unit → cell R file_impl → Prop) : file_ok 1 l y f w →
  (∀ c, file_inv l y c → Q tt c) → wp intrusive_ptr_release (Cell w (Some f)) Q.
Proof. intros Hok HQ. eapply wp_file_drop_live; [done|]. intros c [Hc _]. by apply HQ. Qed.

(** ** Writing and reading *)

Lemma wp_rw_dtor_live d l y f w (Q : unit → cell R file_impl → Prop) : file_ok 1 l y f w →
  (∀ c, dropped l y f c → Q tt c) → wp (rw_awaitable_dtor self d) (Cell w (Some f)) Q.
Proof.
  intros Hok HQ. unfold rw_awaitable_dtor. cell_steps. apply wp_when; intros E.
  - cell_steps. apply wp_queue_one; [pose proof (proj1 Hok); lia|]. intros w1 Hq1. cell_steps.
    apply wp_submit. intros w2 Hq2. eapply wp_file_drop_live; [|done]. by eapply file_ok_queued, file_ok_queued.
  - by eapply wp_file_drop_live.
Qed.

Lemma wp_rw_dtor d l y f w (Q : unit → cell R file_impl → Prop) : file_ok 1 l y f w →
  (∀ c, file_inv l y c → Q tt c) → wp (rw_awaitable_dtor self d) (Cell w (Some f)) Q.
Proof. intros Hok HQ. eapply wp_rw_dtor_live; [done|]. intros c [Hc _]. by apply HQ. Qed.

(** A call that makes an awaitable for the side [d]. *)
Definition makes_rw (d : rw_side) (mk : M (cell R file_impl) unit) : Prop :=
  ∃ b i, ∀ f w, mk (Cell w (Some f)) =
    (Ret tt, Cell w (Some (upd_count Z.succ (side_upd d (λ x, x <| rw_buf_ := b |> <| buf_index_ := i (buf_index_ x) |>) f)))).

Lemma make_rw_makes d buf : makes_rw d (make_rw d buf).
Proof. exists buf, (λ i, i). intros f w. by destruct d, f as [? ? [] [] ?]. Qed.

Lemma make_rw_fixed_makes d data b : makes_rw d (make_rw_fixed d data b).
Proof. destruct d; eexists _, (λ _, _); intros f w; by destruct f as [? ? [] [] ?]. Qed.

(** Changing one side's frame without its flags. *)
Lemma file_ok_side d g n l y f w : (∀ x, rw_initiated_ (g x) = rw_initiated_ x) → (∀ x, rw_done_ (g x) = rw_done_ x) →
  file_ok n l y f w → file_ok n l y (side_upd d g f) w.
Proof.
  intros G1 G2 (He & Hc & Hf & Hs). unfold file_ok, pending_ops, file_flags, rw_flags, file_slot, temp_slot, open_pending,
    rw_pending in *. destruct d; cbn in *; rewrite ?G1, ?G2; done.
Qed.

Lemma file_ok_start d g l y f w : file_ok 2 l y f w → rw_initiated_ (side_get d f) = false →
  (∀ x, rw_initiated_ (g x) = true) → (∀ x, rw_done_ (g x) = rw_done_ x) →
  file_ok 0 l (sys_set d true y) (side_upd d g f) w.
Proof.
  intros (He & Hc & Hf & Hs) Ei G1 G2. destruct Hf as (Ho1 & Ho2 & Ho3 & [Hw1 Hw2] & [Hr1 Hr2]).
  unfold file_ok, pending_ops, file_flags, rw_flags, file_slot, temp_slot, open_pending, rw_pending, file_refs in *.
  destruct d; cbn in *; rewrite ?G1, ?G2.
  - assert (rw_done_ (fl_write f) = false) as Ed by (destruct (rw_done_ (fl_write f)); [by rewrite Hw2 in Ei|done]).
    rewrite Ei in Hw1. rewrite Ei, Ed, <- ?Hw1 in *. cbn in *. split_and!; try done. lia.
  - assert (rw_done_ (fl_read f) = false) as Ed by (destruct (rw_done_ (fl_read f)); [by rewrite Hr2 in Ei|done]).
    rewrite Ei in Hr1. rewrite Ei, Ed, <- ?Hr1 in *. cbn in *. split_and!; try done. lia.
Qed.

Lemma side_upd_count d (f : file_impl) : fl_count_ (side_upd d id f) = fl_count_ f.
Proof. by destruct d. Qed.

Lemma wpx_await_rw d mk h l y f w : makes_rw d mk → file_ok 0 l y f w → 0 < fl_count_ f →
  wpx (await_rw self d mk h) (Cell w (Some f)) (λ _ c, file_inv l (sys_set d true y) c) (λ _ c, file_inv l y c).
Proof.
  intros (b & i & Hmk) Hok Hp. unfold await_rw. apply wpx_bind. unfold wpx at 1. rewrite Hmk.
  set (g := λ x : rw_frame, x <| rw_buf_ := b |> <| buf_index_ := i (buf_index_ x) |>).
  assert (file_ok 0 l y (side_upd d g f) w) as Hok1 by (by apply file_ok_side).
  set (f1 := side_upd d g f) in *. assert (fl_count_ f1 = fl_count_ f) as Hc1 by (by destruct d).
  assert (file_ok 1 l y (upd_count Z.succ f1) w) as Hok2 by (eapply file_ok_count; [exact Hok1|done..|cbn; lia]).
  apply wpx_on_throw. unfold rw_await_suspend. cellx_steps. apply wpx_when; intros E.
  { apply wpx_throw_errno; [done|]. by apply (wp_rw_dtor d l y). }
  cellx_steps. apply wp_reserve; [apply Hok|]. intros w1 Hq1 _. cellx_steps.
  apply wp_queue_any; [rewrite (queued_entries _ _ _ Hq1); pose proof (proj1 Hok); lia|]. intros w2 Hq2. cellx_steps.
  split; [destruct d; cbn; lia|]. apply file_ok_start; [|by destruct d|done|done].
  eapply file_ok_queued; [exact Hq2|]. eapply file_ok_queued; [exact Hq1|].
  eapply file_ok_count; [exact Hok1|done..|]. cbn. lia.
Qed.

Lemma start_rw_inv d mk h l y f w : makes_rw d mk → file_ok 0 l y f w → 0 < fl_count_ f →
  wp (start_rw self d mk h y) (Cell w (Some f)) (λ y' c', file_inv l y' c').
Proof.
  intros Hmk Hok Hp. unfold start_rw. case_decide; [by apply wp_ret|]. apply wp_bind, wp_attempt.
  eapply wpx_mono; [by apply wpx_await_rw|by intros; apply wp_ret..].
Qed.

(** ** Completions *)

Lemma wp_file_dispatch k e f w (Q : option handle → cell R file_impl → Prop) : 1 ≤ fl_count_ f →
  wp (await_process_cqe k e) (Cell w (Some f)) (λ _ c,
    wp (take_handle k) c (λ h c', wp intrusive_ptr_release c' (λ _ c'', Q h c''))) →
  wp (dispatch k e) (Cell w (Some f)) Q.
Proof.
  intros Hc HQ. unfold dispatch. apply wp_finally_ret. cell_steps.
  apply wp_assert; [by apply Z.leb_le|]. apply wp_bind. exact HQ.
Qed.

(** The completed frame. *)
Definition rw_completed (res : Z) (x : rw_frame) : rw_frame :=
  x <| rw_res_ := res |> <| rw_done_ := true |> <| rw_h_ := None |>.

Lemma file_ok_complete d res l y f w : file_ok 0 l y f w → rw_pending d f = true →
  file_ok 1 l y (side_upd d (rw_completed res) f) w.
Proof.
  intros (He & Hc & Hf & Hs) Hp. destruct Hf as (Ho1 & Ho2 & Ho3 & [Hw1 Hw2] & [Hr1 Hr2]).
  unfold file_ok, pending_ops, file_flags, rw_flags, file_slot, temp_slot, open_pending, rw_pending in *.
  apply andb_true_iff in Hp as [Ei Ed]. apply negb_true_iff in Ed.
  destruct d; cbn in *; rewrite ?Ei, ?Ed in *; cbn in *; split_and!; try done; lia.
Qed.

Lemma wp_rw_cqe d res l y f w (Q : option handle → cell R file_impl → Prop) :
  file_ok 0 l y f w → rw_pending d f = true →
  wp intrusive_ptr_release (Cell w (Some (side_upd d (rw_completed res) f))) (λ _ c, Q (rw_h_ (side_get d f)) c) →
  wp (file_cqe self (side_kind d) res) (Cell w (Some f)) Q.
Proof.
  intros Hok Hp HQ. unfold file_cqe. apply wp_file_dispatch.
  { pose proof (file_refs_nonneg y). destruct Hok as (_ & Hc & _). unfold pending_ops in Hc.
    destruct d; rewrite Hp in Hc; destruct (open_pending f), (rw_pending Side_write f), (rw_pending Side_read f); simpl in *; lia. }
  destruct d; cbn [await_process_cqe take_handle file_awaitable_base side_kind]; unfold file_take_handle; cell_steps; exact HQ.
Qed.

(** ** The coroutine goes on *)

Lemma file_ok_finish d l y f w : file_ok 0 l y f w → sys_side d y = true → rw_done_ (side_get d f) = true →
  file_ok 1 l (sys_set d false y) (side_upd d (side_reset d) f) w.
Proof.
  intros (He & Hc & Hf & Hs) Hy Hd. destruct Hf as (Ho1 & Ho2 & Ho3 & [Hw1 Hw2] & [Hr1 Hr2]).
  unfold file_ok, pending_ops, file_flags, rw_flags, file_slot, temp_slot, open_pending, rw_pending, file_refs in *.
  destruct d; cbn in *; rewrite Hd, Hy, ?andb_false_r in *; cbn in *; split_and!; try done; lia.
Qed.

Lemma wp_await_rw_finish d l y f w (Q : result Z → cell R file_impl → Prop) :
  file_ok 0 l y f w → sys_side d y = true → rw_done_ (side_get d f) = true →
  (∀ c, file_inv l (sys_set d false y) c →
     Q (if rw_res_ (side_get d f) <? 0 then Err (- rw_res_ (side_get d f)) else Ok (rw_res_ (side_get d f))) c) →
  wp (await_rw_finish self d) (Cell w (Some f)) Q.
Proof.
  intros Hok Hy Hd HQ. pose proof (file_ok_finish d l y f w Hok Hy Hd) as Hok1.
  unfold await_rw_finish, rw_await_resume. apply wp_finally_ret. cell_steps.
  destruct (Z.ltb_spec (rw_res_ (side_get d f)) 0).
  - unfold file_err. apply wp_bind, wp_from_errno; [lia|]. cell_steps. by eapply wp_rw_dtor.
  - cell_steps. by eapply wp_rw_dtor.
Qed.

(** ** Opening *)

Lemma wp_open_dtor l y f w (Q : unit → cell R file_impl → Prop) : file_ok 1 l y f w →
  (∀ c, dropped l y f c → Q tt c) → wp (open_awaitable_dtor self) (Cell w (Some f)) Q.
Proof.
  intros Hok HQ. unfold open_awaitable_dtor. cell_steps. apply wp_when; intros E.
  - cell_steps. apply wp_queue_one; [pose proof (proj1 Hok); lia|]. intros w1 Hq1. cell_steps.
    apply wp_submit. intros w2 Hq2. eapply wp_file_drop_live; [|done]. by eapply file_ok_queued, file_ok_queued.
  - by eapply wp_file_drop_live.
Qed.

Definition opening_frame (h : handle) (fd : Z) (path : string) (flags res : Z) : open_frame :=
  OpenFrame (Some h) fd path flags res true false.

Lemma wp_await_open path flags h l y f w (Q : unit → cell R file_impl → Prop) :
  file_ok 0 l y f w → 0 < fl_count_ f → may_open f w = true →
  (∀ fd w' f', fd ∈ fds_ (frame w) → file_ok 0 l (y <| f_opening := true |>) f' w' → 0 < fl_count_ f' →
     fl_open f' = opening_frame h fd path flags (of_res_ (fl_open f)) → file_fd_ f' = file_fd_ f →
     queued [open_sqe self path flags fd] (w <| frame ::= λ fr, fr <| fds_ := fds_ (frame w) ∖ {[fd]} |> |>) w' →
     Q tt (Cell w' (Some f'))) →
  wp (await_open self path flags h) (Cell w (Some f)) Q.
Proof.
  intros (He & Hc & Hf & Hs) Hp Hm HQ. unfold may_open in Hm.
  apply andb_true_iff in Hm as [Hm Hne]. apply andb_true_iff in Hm as [Hfd Hi].
  apply Z.ltb_lt in Hfd. apply negb_true_iff in Hi. apply negb_true_iff, bool_decide_eq_false in Hne.
  assert (of_done_ (fl_open f) = false) as Hd.
  { destruct Hf as (_ & Hd & _). destruct (of_done_ (fl_open f)); [by rewrite Hd in Hi|done]. }
  assert (f_opening y = false) as Hy by (destruct Hf as (<- & _); done).
  assert (temp_slot f = []) as Ht by (unfold temp_slot, open_pending; by rewrite Hi). rewrite Ht in Hs.
  unfold await_open, file_async_open. cell_steps. apply wp_on_throw_ret. unfold open_await_suspend. cell_steps.
  apply wp_reserve; [done|]. intros w1 Hq1 Hsp1. cell_steps.
  pose proof (slots_ok_queued _ _ _ _ Hq1 Hs) as Hs1. destruct (queued_same _ _ _ Hq1) as (_ & _ & _ & _ & Ef1 & _).
  apply (wp_get_slot _ _ _ Hs1); [by rewrite Ef1|]. intros fd w2 Hin Hfd0 Hpo Hfds Hs2. cell_steps.
  apply wp_push; [destruct Hpo as [X ->]; unfold space in *; cbn; lia|]. intros w3 Hq3 _. cell_steps.
  rewrite Ef1 in Hin, Hfds. eapply HQ; [exact Hin| |cbn; lia|unfold upd_open, opening_frame, upd; cbn; by rewrite Hd|done|].
  - split_and!.
    + by rewrite (queued_entries _ _ _ Hq3), (pool_only_entries _ _ Hpo), (queued_entries _ _ _ Hq1).
    + unfold pending_ops, rw_pending, open_pending, file_refs in *. cbn in *. rewrite Hd, Hy, Hi in *. cbn in *. lia.
    + destruct Hf as (_ & _ & _ & Hw & Hr). by split_and!.
    + eapply slots_ok_queued; [exact Hq3|]. eapply slots_ok_perm; [|exact Hs2].
      unfold file_slot, temp_slot, open_pending. cbn. by rewrite (proj2 (Z.leb_gt 0 _) Hfd), Hd.
  - cbn in Hq3. destruct Hq1 as ((r1 & E1) & T1 & N1), Hpo as [X E2]. subst w1 w2. cbn in Hfds, T1, N1. subst X.
    destruct Hq3 as ((r3 & ->) & T3 & N3). cbn in T3, N3. split_and!; cbn.
    + exists r3. by destruct w as [[]].
    + rewrite T3, T1, app_nil_r. done.
    + congruence.
Qed.

(** The file once its opening has completed with [res]. *)
Definition open_completed (res : Z) (f : file_impl) : file_impl :=
  f <| file_fd_ := if 0 <=? res then temp_fd_ (fl_open f) else file_fd_ f |>
    <| fl_open ::= λ o, o <| of_done_ := true |> <| of_res_ := res |> <| temp_fd_ := -1 |> <| of_h_ := None |> |>.

Lemma wp_open_cqe res l y f w (Q : option handle → cell R file_impl → Prop) :
  file_ok 0 l y f w → open_pending f = true →
  (∀ w', file_ok 1 l y (open_completed res f) w' →
     (fds_ (frame w') = if 0 <=? res then fds_ (frame w) else {[temp_fd_ (fl_open f)]} ∪ fds_ (frame w)) →
     wp intrusive_ptr_release (Cell w' (Some (open_completed res f))) (λ _ c, Q (of_h_ (fl_open f)) c)) →
  wp (file_cqe self FkOpen res) (Cell w (Some f)) Q.
Proof.
  intros (He & Hc & Hf & Hs) Hp HQ. pose proof (file_refs_nonneg y) as Hr.
  destruct Hf as (Ho1 & Ho2 & Ho3 & Hwf & Hrf). destruct (Ho3 Hp) as [Ht Hfd].
  unfold temp_slot, file_slot in Hs. rewrite Hp, (proj2 (Z.leb_gt 0 _) Hfd) in Hs. cbn [app] in Hs.
  assert (Z.b2z (rw_pending Side_write f) + Z.b2z (rw_pending Side_read f) = pending_ops f - 1 ∧ 1 ≤ pending_ops f) as [Hpo Hpp].
  { unfold pending_ops. rewrite Hp. destruct (rw_pending Side_write f), (rw_pending Side_read f); simpl; lia. }
  assert (of_initiated_ (fl_open f) = true) as Hi by (unfold open_pending in Hp; by apply andb_true_iff in Hp as [? _]).
  assert (∀ w', sq_entries (io_ring_ (frame w')) = sq_entries (io_ring_ (frame w)) →
    slots_ok (file_slot (open_completed res f) ++ l) w' → file_ok 1 l y (open_completed res f) w') as Hok.
  { intros w' He' Hs'. split_and!; [lia| | |].
    - unfold pending_ops, open_pending, rw_pending in *. cbn. rewrite andb_false_r. cbn in *. lia.
    - split_and!; [done|by cbn|unfold open_pending; cbn; by rewrite andb_false_r|done|done].
    - unfold temp_slot, open_pending. cbn. by rewrite andb_false_r. }
  unfold file_cqe. apply wp_file_dispatch; [lia|].
  cbn [await_process_cqe take_handle file_awaitable_base]. unfold open_process_cqe, file_take_handle. cell_steps. cbn [cqe_res].
  unfold open_completed, file_slot in *. destruct (Z.leb_spec 0 res) as [Hge|Hlt]; cell_steps.
  - cbn in Hok. rewrite (proj2 (Z.leb_le 0 _) Ht) in Hok. by apply HQ; [apply Hok|].
  - apply wp_assert; [by apply Z.leb_le|]. cell_steps. cbn in Hok. rewrite (proj2 (Z.leb_gt 0 _) Hfd) in Hok.
    eapply wp_release_slot; [exact Hs|]. intros w1 Hpo1 Hfds Hs1. cell_steps.
    apply HQ; [|done]. apply Hok; [by apply pool_only_entries|done].
Qed.

Lemma wp_await_open_finish l y f w (Q : result unit → cell R file_impl → Prop) :
  file_ok 0 l y f w → f_opening y = true → of_done_ (fl_open f) = true →
  (∀ c, dropped l (y <| f_opening := false |>) (upd_open open_reset f) c →
     Q (if of_res_ (fl_open f) =? 0 then Ok tt else Err (- of_res_ (fl_open f))) c) →
  wp (await_open_finish self) (Cell w (Some f)) Q.
Proof.
  intros (He & Hc & Hf & Hs) Hy Hd HQ.
  assert (open_pending f = false) as Hn by (unfold open_pending; by rewrite Hd, andb_false_r).
  assert (file_ok 1 l (y <| f_opening := false |>) (upd_open open_reset f) w) as Hok.
  { destruct Hf as (Ho1 & Ho2 & Ho3 & Hwf & Hrf). unfold temp_slot in Hs. rewrite Hn in Hs.
    split_and!; [done| | |done].
    - unfold pending_ops, rw_pending, file_refs in *. rewrite Hn, Hy in Hc. cbn in *. lia.
    - by split_and!. }
  unfold await_open_finish, open_await_resume. apply wp_finally_ret. cell_steps.
  destruct (Z.eqb_spec (of_res_ (fl_open f)) 0).
  - cell_steps. by eapply wp_open_dtor.
  - unfold file_err. apply wp_bind, wp_from_errno; [lia|]. cell_steps. by eapply wp_open_dtor.
Qed.

Lemma run_file_op_inv op l y c : file_inv l y c → wp (run_file_op self op y) c (λ y' c', file_inv l y' c').
Proof.
  destruct c as [w [f|]]; intros Hi; apply wp_bind, wp_get; cbn [object]; [|by apply wp_ret].
  pose proof Hi as [Hp Hok]. cbn [world] in *.
  destruct op as [| |path flags h|res| |d buf h|d data b h|d res|d]; try case_decide; try by apply wp_ret.
  - cell_steps. split; [cbn; lia|]. destruct Hok as (He & Hc & Hf & Hs). split_and!; [done| |done|done].
    change (Z.succ (fl_count_ f) = file_refs (y <| f_handles ::= S |>) + pending_ops f + 0).
    unfold file_refs in *. cbn -[Z.of_nat]. lia.
  - apply wp_bind, (wp_file_drop l (y <| f_handles ::= pred |>)); [|intros c Hc'; by apply wp_ret].
    destruct Hok as (He & Hc & Hf & Hs). split_and!; [done| |done|done]. unfold file_refs in *. cbn. lia.
  - destruct (may_open f w) eqn:Em; [|by apply wp_ret]. apply wp_bind. eapply wp_await_open; [done..|].
    intros fd w' f' _ Hok' Hp' _ _ _. by apply wp_ret.
  - destruct (open_pending f) eqn:Ep; [|by apply wp_ret]. apply wp_bind. eapply wp_open_cqe; [done..|].
    intros w' Hok' _. eapply wp_file_drop; [done|]. intros c Hc'. by apply wp_ret.
  - destruct (f_opening y && _) eqn:E; [|by apply wp_ret]. apply andb_true_iff in E as [E1 E2].
    apply wp_bind. eapply wp_await_open_finish; [done..|]. intros c [Hc' _]. by apply wp_ret.
  - apply start_rw_inv; [apply make_rw_makes|done|done].
  - apply start_rw_inv; [apply make_rw_fixed_makes|done|done].
  - destruct (rw_pending d f) eqn:Ep; [|by apply wp_ret]. apply wp_bind. eapply wp_rw_cqe; [done..|].
    eapply wp_file_drop; [by apply file_ok_complete|]. intros c Hc'. by apply wp_ret.
  - destruct (sys_side d y && _) eqn:E; [|by apply wp_ret]. apply andb_true_iff in E as [E1 E2].
    apply wp_bind. eapply wp_await_rw_finish; [done..|]. intros c Hc'. by apply wp_ret.
Qed.

(** C14. Along any sequence of copies, destructions, openings (of a file that is not
    open or being opened, while a slot is free), reads and writes, also on registered
    buffers, resumptions and completions, a file is used only while it is alive, its
    counter is the number of handles, awaitables and operations in flight, and its
    slot, the slot it is being opened on, those of others and the free ones are all
    the slots, each once. *)
Theorem file_ops_safe ops l y c : file_inv l y c →
  ∃ y' c', run_file_ops self ops y c = (Ret y', c') ∧ file_inv l y' c'.
Proof.
  intros Hi. apply wp_run, wp_foldl_inv; [|done]. intros op y' c'. apply run_file_op_inv.
Qed.

(** C33. A whole opening of a file: the coroutine is resumed; on success the file has
    the free slot it took; otherwise the completion's error is the result and the
    slot is free again. *)
Theorem open_round_result path flags h res l y f w : file_inv l y (Cell w (Some f)) → f_handles y ≠ 0%nat →
  f_opening y = false → may_open f w = true →
  ∃ fd f' w', open_round self path flags h res (Cell w (Some f)) =
      (Ret (Some h, if res =? 0 then Ok tt else Err (- res)), Cell w' (Some f')) ∧
    fd ∈ fds_ (frame w) ∧ file_fd_ f' = (if 0 <=? res then fd else file_fd_ f) ∧ file_inv l y (Cell w' (Some f')).
Proof.
  intros [Hp Hok] Hh Hy Hm.
  assert (wp (open_round self path flags h res) (Cell w (Some f)) (λ r c, ∃ fd f' w',
    r = (Some h, if res =? 0 then Ok tt else Err (- res)) ∧ c = Cell w' (Some f') ∧
    fd ∈ fds_ (frame w) ∧ file_fd_ f' = (if 0 <=? res then fd else file_fd_ f) ∧ file_inv l y (Cell w' (Some f')))) as Hw.
  2:{ apply wp_run in Hw as (r & c & E & fd & f' & w' & -> & -> & H). by exists fd, f', w'. }
  assert (f_handles y ≠ 0%nat → 2 ≤ file_refs (y <| f_opening := true |>)) as Hr.
  { unfold file_refs. cbn. destruct (f_writing y), (f_reading y); simpl; lia. }
  unfold open_round. apply wp_bind. eapply wp_await_open; [done..|]. intros fd w1 f1 Hin Hok1 Hp1 Eo Efd _.
  assert (open_pending f1 = true) as Hpd by (unfold open_pending; by rewrite Eo).
  apply wp_bind. eapply wp_open_cqe; [done..|]. rewrite Eo. cbn [of_h_ opening_frame]. intros w2 Hok2 _.
  assert (fl_count_ f1 = fl_count_ (open_completed res f1)) as Hcnt by done.
  assert (3 ≤ fl_count_ f1) as Hc3.
  { destruct Hok1 as (_ & Hc & _). rewrite Hc. unfold pending_ops. rewrite Hpd.
    destruct (rw_pending Side_write f1), (rw_pending Side_read f1); specialize (Hr Hh); simpl; lia. }
  apply wp_cell_release; cbn [use_count file_ref_count]; intros Hu; [|lia]. set (f2 := upd_count Z.pred (open_completed res f1)).
  assert (file_ok 0 l (y <| f_opening := true |>) f2 w2) as Hok3 by (eapply file_ok_count; [exact Hok2|done..|cbn; lia]).
  apply wp_bind. eapply wp_await_open_finish; [exact Hok3|done..|].
  assert (of_res_ (fl_open f2) = res) as -> by done.
  intros c [Hc Hlive]. apply wp_ret. destruct c as [w3 o]. cbn [object] in Hlive. rewrite Hlive in Hc |- * by (cbn; lia).
  eexists fd, _, w3. split_and!; [done|done|done| |].
  - cbn. by rewrite Eo, Efd.
  - destruct y as [n b ? ?]. cbn in Hy. subst b. exact Hc.
Qed.

(** ** A whole operation, by stages: [f] with [c] references and [x] as its frame of
    the side [d]. *)
Definition with_side (d : rw_side) (c : Z) (x : rw_frame) (f : file_impl) : file_impl :=
  match d with
  | Side_write => FileImpl c (fl_open f) x (fl_read f) (file_fd_ f)
  | Side_read => FileImpl c (fl_open f) (fl_write f) x (file_fd_ f)
  end.

Lemma with_side_same d x f : side_get d f = x → with_side d (fl_count_ f) x f = f.
Proof. by destruct d, f; cbn; intros <-. Qed.

Lemma wp_rw_started d buf h f w (Q : unit → cell R file_impl → Prop) :
  1 ≤ sq_entries (io_ring_ (frame w)) → side_get d f = rw_frame_new →
  (∀ w1 w', queued [] w w1 → queued [rw_sqe self d (file_fd_ f) (rw_frame_new <| rw_buf_ := buf |>)] w1 w' →
     Q tt (Cell w' (Some (with_side d (Z.succ (Z.succ (fl_count_ f))) (RwFrame buf (Some h) (-1) 0 true false) f)))) →
  wp (await_rw self d (make_rw d buf) h) (Cell w (Some f)) Q.
Proof.
  intros He Hd HQ. unfold await_rw. apply wp_bind.
  assert (make_rw d buf (Cell w (Some f)) =
    (Ret tt, Cell w (Some (with_side d (Z.succ (fl_count_ f)) (RwFrame buf None (-1) 0 false false) f)))) as E.
  { destruct d, f; cbn in Hd; by subst. }
  unfold wp at 1. rewrite E. apply wp_on_throw_ret. unfold rw_await_suspend. set (x := RwFrame buf None (-1) 0 false false) in *.
  set (f1 := with_side d _ x f). assert (side_get d f1 = x ∧ file_fd_ f1 = file_fd_ f) as [Ex Ef] by (by destruct d).
  cell_steps. rewrite Ex, Ef. apply wp_when; [done|]. intros _. cell_steps. apply wp_reserve; [done|].
  intros w1 Hq1 _. cell_steps. apply wp_queue_any; [rewrite (queued_entries _ _ _ Hq1); lia|]. intros w2 Hq2. cell_steps.
  specialize (HQ w1 w2 Hq1 Hq2). by destruct d.
Qed.

Lemma wp_rw_completed d res f w c b h i r (Q : option handle → cell R file_impl → Prop) : 1 < c →
  Q (Some h) (Cell w (Some (with_side d (Z.pred c) (RwFrame b None i res true true) f))) →
  wp (file_cqe self (side_kind d) res) (Cell w (Some (with_side d c (RwFrame b (Some h) i r true false) f))) Q.
Proof.
  intros Hc HQ. unfold file_cqe. apply wp_file_dispatch; [destruct d; cbn; lia|].
  destruct d; cbn [await_process_cqe take_handle file_awaitable_base side_kind]; unfold file_take_handle; cell_steps;
    (apply wp_cell_release; cbn; intros Hu; [exact HQ|lia]).
Qed.

Lemma wp_rw_finished d f w c b i res (Q : result Z → cell R file_impl → Prop) : 1 < c →
  Q (if res <? 0 then Err (- res) else Ok res) (Cell w (Some (with_side d (Z.pred c) rw_frame_new f))) →
  wp (await_rw_finish self d) (Cell w (Some (with_side d c (RwFrame b None i res true true) f))) Q.
Proof.
  intros Hc HQ. unfold await_rw_finish, rw_await_resume. apply wp_finally_ret.
  assert (∀ Q' : unit → cell R file_impl → Prop, Q' tt (Cell w (Some (with_side d (Z.pred c) rw_frame_new f))) →
    wp (rw_awaitable_dtor self d) (Cell w (Some (with_side d c rw_frame_new f))) Q') as Hdt.
  { intros Q' HQ'. unfold rw_awaitable_dtor. cell_steps. apply wp_when; [by destruct d|]. intros _.
    apply wp_cell_release; destruct d; cbn; intros Hu; [done|done|lia|lia]. }
  assert (side_upd d (side_reset d) (with_side d c (RwFrame b None i res true true) f) = with_side d c rw_frame_new f) as Er
    by (by destruct d).
  assert (rw_res_ (side_get d (with_side d c (RwFrame b None i res true true) f)) = res) as Es by (by destruct d).
  cell_steps. rewrite Er, Es. destruct (Z.ltb_spec res 0); [unfold file_err; apply wp_bind, wp_from_errno; [lia|]|];
    cell_steps; by apply Hdt.
Qed.

(** C34. A whole write or read of an open or closed file none of whose operations of
    that direction is in flight: exactly one SQE for the caller's buffer is queued, the
    coroutine is resumed, the completion's value is the result, a negative one as the
    error, and the file ends exactly as it was. *)
Theorem rw_round_result d buf h res l y f w : file_inv l y (Cell w (Some f)) → side_get d f = rw_frame_new →
  ∃ w1 w', rw_round self d (make_rw d buf) h res (Cell w (Some f)) =
      (Ret (Some h, if res <? 0 then Err (- res) else Ok res), Cell w' (Some f)) ∧
    queued [] w w1 ∧ queued [rw_sqe self d (file_fd_ f) (rw_frame_new <| rw_buf_ := buf |>)] w1 w' ∧
    file_inv l y (Cell w' (Some f)).
Proof.
  intros [Hp Hok] Hd. set (v := if res <? 0 then Err (- res) else Ok res).
  assert (wp (rw_round self d (make_rw d buf) h res) (Cell w (Some f)) (λ r c, r = (Some h, v) ∧ ∃ w1 w',
    c = Cell w' (Some f) ∧ queued [] w w1 ∧
    queued [rw_sqe self d (file_fd_ f) (rw_frame_new <| rw_buf_ := buf |>)] w1 w')) as Hw.
  { unfold rw_round. apply wp_bind, wp_rw_started; [apply Hok|done|]. intros w1 w2 H1 H2. apply wp_bind, wp_rw_completed; [lia|].
    rewrite Z.pred_succ. apply wp_bind, wp_rw_finished; [lia|]. rewrite Z.pred_succ.
    apply wp_ret. rewrite with_side_same by done. split; [done|]. by exists w1, w2. }
  apply wp_run in Hw as (r & c & E & -> & w1 & w' & -> & H1 & H2). exists w1, w'. split_and!; [done..|].
  split; [done|]. by eapply file_ok_queued, file_ok_queued.
Qed.

(** ** Opening when no slot is free *)

(** The kernel is asked to choose a slot, which nothing records. *)
Lemma open_without_slot path flags h l f w : 1 ≤ sq_entries (io_ring_ (frame w)) → slots_ok l w → fds_ (frame w) = ∅ →
  ∃ f' w', await_open self path flags h (Cell w (Some f)) = (Ret tt, Cell w' (Some f')) ∧
    temp_fd_ (fl_open f') = -1 ∧ fl_count_ f' = fl_count_ f + 2 ∧ queued [open_sqe self path flags (-1)] w w'.
Proof.
  intros He Hw Hem. assert (wp (await_open self path flags h) (Cell w (Some f)) (λ _ c, ∃ f' w', c = Cell w' (Some f') ∧
    temp_fd_ (fl_open f') = -1 ∧ fl_count_ f' = fl_count_ f + 2 ∧ queued [open_sqe self path flags (-1)] w w')) as Hx.
  2:{ apply wp_run in Hx as ([] & c & E & f' & w' & -> & H). by exists f', w'. }
  unfold await_open, file_async_open. cell_steps. apply wp_on_throw_ret. unfold open_await_suspend. cell_steps.
  apply wp_reserve; [done|]. intros w1 Hq1 Hsp. cell_steps. destruct (queued_same _ _ _ Hq1) as (_ & _ & _ & _ & Ef & _).
  eapply wp_get_slot; [by eapply slots_ok_queued| |intros fd w2 Hin; by rewrite Ef, Hem in Hin]. intros _. cell_steps.
  apply wp_push; [lia|]. intros w2 Hq2 _. cell_steps.
  eexists _, w2. split_and!; [done|done|cbn; lia|]. by apply (queued_trans [] _ _ w1).
Qed.

(** A successful completion then leaves the file closed, a failed one violates the assertion. *)
Lemma open_cqe_without_slot res h f w : 1 < fl_count_ f → temp_fd_ (fl_open f) = -1 → of_h_ (fl_open f) = Some h →
  if 0 <=? res
  then ∃ f', file_cqe self FkOpen res (Cell w (Some f)) = (Ret (Some h), Cell w (Some f')) ∧ file_fd_ f' = -1
  else (file_cqe self FkOpen res (Cell w (Some f))).1 = Fault AssertFailed.
Proof.
  intros Hc Ht Hh. destruct (Z.leb_spec 0 res).
  - assert (wp (file_cqe self FkOpen res) (Cell w (Some f)) (λ r c, ∃ f', r = Some h ∧ c = Cell w (Some f') ∧ file_fd_ f' = -1)) as Hx.
    2:{ apply wp_run in Hx as (r & c & E & f' & -> & -> & H'). by exists f'. }
    unfold file_cqe. apply wp_file_dispatch; [lia|]. cbn [await_process_cqe take_handle file_awaitable_base].
    unfold open_process_cqe, file_take_handle. cell_steps. cbn [cqe_res]. rewrite (proj2 (Z.leb_le 0 res)) by done. cell_steps.
    apply wp_cell_release; cbn; intros Hu; [|lia]. by eexists.
  - destruct f as [cnt [] wf rf fd]. cbn in Hc, Ht, Hh. subst. unfold file_cqe, dispatch, finally, this, open_process_cqe, upd_this. munfold. cbn.
    assert (1 <=? cnt = true) as -> by lia. by destruct res.
Qed.

(** A write or read whose awaitable was dropped before it was awaited leaves the
    index of its registered buffer behind: the next plain one uses that buffer. *)
Lemma stale_buffer_index d data b buf f w : ∃ f',
  (make_rw_fixed d data b ;; make_rw d buf) (Cell w (Some f)) = (Ret tt, Cell w (Some f')) ∧
  rw_buf_ (side_get d f') = buf ∧ buf_index_ (side_get d f') = to_int (Z.of_nat (fb_index b)).
Proof. destruct d, f; by eexists. Qed.

(** A write or read refused with EBUSY cancels the one in flight. *)
Lemma busy_rw_cancels d buf h f w : 1 ≤ sq_entries (io_ring_ (frame w)) → 0 < fl_count_ f → rw_pending d f = true →
  ∃ w' f', await_rw self d (make_rw d buf) h (Cell w (Some f)) = (Throw (system_error EBUSY), Cell w' (Some f')) ∧
    queued [cancel_sqe self (side_kind d)] w w' ∧ rw_buf_ (side_get d f') = buf.
Proof.
  intros He Hc Hp.
  assert (wpx (await_rw self d (make_rw d buf) h) (Cell w (Some f)) (λ _ _, False) (λ e c, e = system_error EBUSY ∧
    ∃ w' f', c = Cell w' (Some f') ∧ queued [cancel_sqe self (side_kind d)] w w' ∧ rw_buf_ (side_get d f') = buf)) as Hx.
  { unfold await_rw. apply wpx_bind.
    assert (make_rw d buf (Cell w (Some f)) = (Ret tt, Cell w (Some (upd_count Z.succ (side_upd d (λ x, x <| rw_buf_ := buf |>) f))))) as E
      by (destruct d; by destruct f as [? ? [] [] ?]).
    unfold wpx at 1. rewrite E. set (f1 := side_upd d _ f).
    assert (rw_pending d f1 = true ∧ rw_buf_ (side_get d f1) = buf ∧ fl_count_ f1 = fl_count_ f) as (Hp1 & Hb & Hc1) by (by destruct d).
    assert (∀ g, side_get d (upd_count g f1) = side_get d f1) as Hg by (by destruct d).
    pose proof Hp1 as [Hi _]%andb_true_iff.
    apply wpx_on_throw. unfold rw_await_suspend. cellx_steps. rewrite Hg, Hi. cbn [when]. 
    apply wpx_throw_errno; [done|]. unfold rw_awaitable_dtor. cell_steps. rewrite Hg. fold (rw_pending d f1). rewrite Hp1.
    cbn [when]. cell_steps. apply wp_queue_one; [lia|]. intros w1 Hq1. cell_steps. apply wp_submit. intros w2 Hq2.
    apply wp_cell_release; cbn [use_count file_ref_count]; intros Hu; [|cbn in Hu; lia].
    split; [done|]. eexists w2, _. split_and!; [done|by apply (queued_trans [_] [] _ w1)|]. by destruct d.
  }
  unfold wpx in Hx. destruct (await_rw _ _ _ _ _) as [[a|e|?] c]; [done| |done].
  destruct Hx as (-> & w' & f' & -> & H). by exists w', f'.
Qed.
End FileLemmas.
