(* ===== verification/FileSamples.v ===== *)
(** Files on the recording ring: the theorems of [FileSafe] at inputs where their
    hypotheses hold. *)

From S2P Require Import Prelude Uring Buffer Frame BufRing Executor LogRing Awaitable Slots IoContext AcceptorSamples File FileSafe.

Definition log_path : string := "fiona.log".
Definition one_file : file_sys := FileSys 1 false false false.

(** A file on slot 0, idle. *)
Definition opened : file_impl := file_new <| file_fd_ := 0 |>.

Lemma closed_inv : file_inv [] one_file (Cell (table_of [0; 1; 2; 3]) (Some file_new)).
Proof. split; [done|]. split_and!; [done|done|by split_and!|]. change (slots_ok [] (table_of [0; 1; 2; 3])). table_tac. Qed.

Lemma opened_inv : file_inv [] one_file (Cell (table_of [1; 2; 3]) (Some opened)).
Proof. split; [done|]. split_and!; [done|done|by split_and!|]. change (slots_ok [0] (table_of [1; 2; 3])). table_tac. Qed.

(** Opened, written and read at the same time, the second write refused, dropped
    while the read is in flight. *)
Definition sample_ops : list file_op :=
  [Fop_open log_path 66 1024; Fop_open_cqe 0; Fop_open_finish; Fop_rw Side_write (Span 4096 5) 1024;
   Fop_rw Side_read (Span 8192 16) 2048; Fop_copy; Fop_rw Side_write (Span 4096 9) 3072; Fop_rw_cqe Side_write 5;
   Fop_rw_finish Side_write; Fop_drop; Fop_drop; Fop_rw_cqe Side_read (- ECANCELED); Fop_rw_finish Side_read].

Lemma file_ops_safe_witness :
  ∃ y' c', run_file_ops 512 sample_ops one_file (Cell (table_of [0; 1; 2; 3]) (Some file_new)) = (Ret y', c') ∧
    object c' = None ∧ elements (fds_ (frame (world c'))) ≡ₚ [0; 1; 2; 3].
Proof.
  destruct (file_ops_safe 512 sample_ops [] one_file _ closed_inv) as (y' & c' & E & _).
  exists y', c'. split; [exact E|]. vm_compute in E. injection E as _ <-. split; [reflexivity|].
  vm_compute elements. apply (bool_decide_unpack _). by vm_compute.
Defined.

Lemma open_round_result_witness :
  ∃ fd f' w', open_round 512 log_path 66 1024 0 (Cell (table_of [0; 1; 2; 3]) (Some file_new)) =
    (Ret (Some 1024, Ok tt), Cell w' (Some f')) ∧ file_fd_ f' = fd ∧ fd ∈ [0; 1; 2; 3].
Proof.
  destruct (open_round_result 512 log_path 66 1024 0 [] one_file file_new _ closed_inv) as (fd & f' & w' & E & Hin & Hfd & _);
    [done|done|by vm_compute|].
  exists fd, f', w'. split; [exact E|]. split; [exact Hfd|]. apply elem_of_list_to_set in Hin. exact Hin.
Defined.

Lemma rw_round_result_witness :
  ∃ w1 w', rw_round 512 Side_read (file_async_read (Span 8192 16)) 2048 16 (Cell (table_of [1; 2; 3]) (Some opened)) =
      (Ret (Some 2048, Ok 16), Cell w' (Some opened)) ∧
    queued [Sqe (op_read 0 8192 16 0) (Some (512, FkRead)) IOSQE_FIXED_FILE] w1 w'.
Proof.
  destruct (rw_round_result 512 Side_read (Span 8192 16) 2048 16 [] one_file opened _ opened_inv) as (w1 & w' & E & _ & Hq & _);
    [done|]. exists w1, w'. split; [exact E|exact Hq].
Defined.
