(* ===== verification/Component.v ===== *)
(** Objects of several classes on one context.

    What an object owns besides itself is its [footprint]: the blocks of its
    receive sequence, the slots of its descriptors and the groups it takes buffers
    from.  [Component] is what a class of objects promises to a program that has
    many of them: in a context where its footprint and that of everything else are
    apart, its operations do not fault, leave a footprint that is apart again, and
    do not touch the blocks of the others.  [table_safe] is proved against this
    promise; [ComponentIo] has the classes of the runtime. *)

From S2P Require Import Prelude Uring Buffer BufferSpec Frame BufRing Executor Awaitable Keeps Slots.
From S2P Require Import Stream StreamRecv IoContext EventLoop.

(** ** Footprints *)

Record footprint := Footprint { fp_blocks : list ptr; fp_slots : list Z; fp_groups : list Z }.

#[export] Instance fp_empty : Empty footprint := Footprint [] [] [].
#[export] Instance fp_union : DisjUnion footprint := λ F G,
  Footprint (fp_blocks F ++ fp_blocks G) (fp_slots F ++ fp_slots G) (fp_groups F ++ fp_groups G).

(** The order does not matter. *)
#[export] Instance fp_equiv : Equiv footprint := λ F G,
  fp_blocks F ≡ₚ fp_blocks G ∧ fp_slots F ≡ₚ fp_slots G ∧ fp_groups F ≡ₚ fp_groups G.

Definition total (P : gmap ptr footprint) : footprint := foldr (⊎) ∅ (map_to_list P).*2.

#[export] Instance fp_equivalence : Equivalence (≡@{footprint}).
Proof.
  split.
  - by intros F.
  - by intros F G (? & ? & ?).
  - intros F G H (? & ? & ?) (? & ? & ?). split_and!; by etrans.
Qed.

#[export] Instance fp_union_proper : Proper ((≡) ==> (≡) ==> (≡@{footprint})) (⊎).
Proof. intros F F' (E1 & E2 & E3) G G' (E4 & E5 & E6). split_and!; cbn; by f_equiv. Qed.

Lemma fp_union_assoc (F G H : footprint) : F ⊎ (G ⊎ H) ≡ (F ⊎ G) ⊎ H.
Proof. split_and!; cbn; by rewrite app_assoc. Qed.

Lemma fp_union_comm (F G : footprint) : F ⊎ G ≡ G ⊎ F.
Proof. split_and!; cbn; apply Permutation_app_comm. Qed.

Lemma fp_union_empty (F : footprint) : F ⊎ ∅ ≡ F.
Proof. split_and!; cbn; by rewrite app_nil_r. Qed.

Lemma fp_empty_union (F : footprint) : ∅ ⊎ F ≡ F.
Proof. by split_and!. Qed.

Lemma total_insert P p F : P !! p = None → total (<[p := F]> P) ≡ F ⊎ total P.
Proof.
  intros Hp. unfold total. assert (∀ l l' : list footprint, l ≡ₚ l' → foldr (⊎) ∅ l ≡ foldr (⊎) ∅ l') as Hperm.
  { induction 1 as [|x l l' _ IH|x y l|l1 l2 l3 _ IH1 _ IH2]; cbn; [done|by rewrite IH| |by rewrite IH1].
    by rewrite !fp_union_assoc, (fp_union_comm y x). }
  rewrite (Hperm _ (F :: (map_to_list P).*2)); [done|]. by rewrite map_to_list_insert.
Qed.

Lemma total_take P p F : P !! p = Some F → total P ≡ F ⊎ total (delete p P).
Proof. intros Hp. rewrite <- total_insert by apply lookup_delete_eq. by rewrite insert_delete_id. Qed.

Lemma total_set P p F : total (<[p := F]> P) ≡ F ⊎ total (delete p P).
Proof. rewrite <- total_insert by apply lookup_delete_eq. by rewrite insert_delete_eq. Qed.

Lemma total_blocks P p F : P !! p = Some F → fp_blocks F ⊆ fp_blocks (total P).
Proof. intros Hp a Ha. destruct (total_take P p F Hp) as (-> & _). apply elem_of_app. by left. Qed.

(** ** A context and what is owned in it *)

(** The slots owned and the free ones are all the slots; the blocks owned are
    allocated, different, and in no ring; the rings are well-formed and apart. *)
Record base {R} `{!IoUring R} (F : footprint) (w : ctx R) : Prop := {
  bs_entries : 3 ≤ sq_entries (io_ring_ (frame w));
  bs_slots : slots_ok (fp_slots F) w;
  bs_groups : groups_in (fp_groups F) w;
  bs_heap : heap_wf (heap w);
  bs_rings g br : rings w !! g = Some br → buf_ring_wf (heap w) br ∧ 0 < buf_size_ br;
  bs_sep g p : in_ring w g p → detached (heap w) p ∧ block_ok (heap w) p;
  bs_apart g g' p : in_ring w g p → in_ring w g' p → g = g';
  bs_nodup : NoDup (fp_blocks F);
  bs_alloc a : a ∈ fp_blocks F → is_Some (headers (heap w) !! a);
  bs_owned a : a ∈ fp_blocks F → ∀ g, ¬ in_ring w g a;
}.

(** The blocks [l] are as they were. *)
Definition same_blocks (l : list ptr) (m m' : mem) : Prop :=
  ∀ a, a ∈ l → headers m' !! a = headers m !! a ∧ payload m' !! a = payload m !! a.

Section Base.
Context {R : Type} {HU : IoUring R}.
Implicit Types w : ctx R.

#[export] Instance base_proper : Proper ((≡) ==> eq ==> iff) (base (R := R)).
Proof.
  assert (∀ F G w, F ≡ G → base F w → base G w) as H.
  { intros F G w (E1 & E2 & E3) [B1 B2 B3 B4 B5 B6 B7 B8 B9 B10]. split; try done.
    - by eapply slots_ok_perm.
    - intros g Hg. apply B3. by rewrite E3.
    - by rewrite <- E1.
    - intros a Ha. apply B9. by rewrite E1.
    - intros a Ha. apply B10. by rewrite E1. }
  intros F G E w _ <-. split; [by apply H|]. by apply H.
Qed.

Lemma same_blocks_refl l m : same_blocks l m m.
Proof. done. Qed.

Lemma same_blocks_sub l l' m m' : l ⊆ l' → same_blocks l' m m' → same_blocks l m m'.
Proof. intros Hl Hs a Ha. apply Hs. by apply Hl. Qed.

Lemma base_queued qs F w w' {HUL : IoUringLaws R} : base F w → queued qs w w' → base F w'.
Proof.
  intros Hb Hq. pose proof (queued_entries _ _ _ Hq) as En. destruct (queued_same _ _ _ Hq) as (E1 & _ & _ & E4 & E5 & E6).
  assert (∀ g p, in_ring w' g p ↔ in_ring w g p) as Hin by (intros; unfold in_ring, rings; by rewrite E4).
  destruct Hb as [B1 B2 B3 B4 B5 B6 B7 B8 B9 B10].
  split; rewrite ?E1, ?En; try done; [by eapply slots_ok_queued|..]; unfold groups_in, rings in *; rewrite ?E4; try done;
    setoid_rewrite Hin; done.
Qed.

(** A context with another pool of slots and another ring, and the same buffers. *)
Lemma base_world F G w w' : base F w → fp_blocks G = fp_blocks F → fp_groups G = fp_groups F →
  heap w' = heap w → rings w' = rings w → 3 ≤ sq_entries (io_ring_ (frame w')) → slots_ok (fp_slots G) w' → base G w'.
Proof.
  intros [B1 B2 B3 B4 B5 B6 B7 B8 B9 B10] E1 E2 Eh Er He Hs.
  assert (∀ g p, in_ring w' g p ↔ in_ring w g p) as Hin by (intros; unfold in_ring; by rewrite Er).
  split; rewrite ?Eh, ?Er, ?E1, ?E2; unfold groups_in; rewrite ?Er; try done; setoid_rewrite Hin; done.
Qed.
End Base.

(** ** Registering a ring of buffers *)
Section Register.
Context {R : Type} {HU : IoUring R} {HUL : IoUringLaws R} {HB : IoUringBufs R} {HBL : IoUringBufsLaws R}.
Context {HSep : IoUringSeparate R}.
Implicit Types w : ctx R.

Lemma register_keeps_entries n sz g : keeps (λ w, sq_entries (io_ring_ (frame w))) (register_buf_ring n sz g).
Proof.
  assert (∀ A (m : M mem A), keeps (λ w, sq_entries (io_ring_ (frame w))) (on_heap m)) as Hheap.
  { intros A m w. unfold on_heap, zoom. by destruct (m (heap w)). }
  assert (∀ A (m : M R A), keeps sq_entries m → keeps (λ w, sq_entries (io_ring_ (frame w))) (on_ring m)) as Hring.
  { intros A m Hm. apply keeps_on_ring; [by intros w r|done]. }
  assert (∀ f, keeps (λ w, sq_entries (io_ring_ (frame w))) (on_frame (modify (λ fr, fr <| buf_rings_ ::= f |>)))) as Hset.
  { intros f w. by rewrite on_frame_modify. }
  unfold register_buf_ring. apply keeps_bind; [intros w; by rewrite on_frame_get|]. intros fr.
  destruct (buf_rings_ fr !! g); [apply keeps_throw_errno|]. unfold buf_ring_new, buf_ring_setup.
  apply keeps_bind; [|intros br; apply Hset]. apply keeps_bind.
  { apply keeps_bind; [apply Hring|].
    - intros r. pose proof (setup_buf_ring_sq (to_unsigned n) g r) as [_ E]. by destruct (io_uring_setup_buf_ring _ _ r).
    - intros ret. destruct (negb (ret =? 0)); [apply keeps_throw_errno|apply keeps_ret]. }
  intros br. apply keeps_bind; [apply Hheap|]. intros l. cbv zeta. apply keeps_bind.
  - generalize (io_uring_buf_ring_mask (to_unsigned (Z.of_nat (length l)))) 0%nat. intros mask. induction l as [|p l IH]; intros i; [apply keeps_ret|]. cbn [provide_bufs].
    apply keeps_bind; [apply Hheap|]. intros cap. apply keeps_bind; [apply keeps_assert|]. intros _.
    apply keeps_bind; [apply Hring; intros r; apply buf_ring_add_sq|]. intros _. apply IH.
  - intros _. apply keeps_bind; [apply Hring; intros r; apply buf_ring_advance_sq|]. intros _. apply keeps_ret.
Qed.

(** Everything below the break of the heap is as it was. *)
Definition heap_grows (m m' : mem) : Prop :=
  ∀ a, a < brk m → headers m' !! a = headers m !! a ∧ payload m' !! a = payload m !! a.

(** A new ring [br] of fresh buffers for the group [g]. *)
Lemma base_new_ring F w w1 br g r : base F w → heap_wf (heap w1) → buf_ring_wf (heap w1) br → 0 < buf_size_ br →
  frame w1 = frame w <| io_ring_ := r |> → sq_entries r = sq_entries (io_ring_ (frame w)) → heap_grows (heap w) (heap w1) →
  (∀ p, p ∈ bufs_ br → brk (heap w) ≤ p ∧ headers (heap w1) !! p = Some (Hdr 0 (buf_size_ br) nullptr nullptr) ∧
     payload (heap w1) !! p = Some (replicate (Z.to_nat (buf_size_ br)) 0)) → rings w !! g = None →
  base F (w1 <| frame ::= λ f, f <| buf_rings_ ::= <[g := br]> |> |>).
Proof.
  intros [B1 B2 B3 B4 B5 B6 B7 B8 B9 B10] Hh Hbw Hz Hf Hr Hgrow Hfresh Hg.
  assert (∀ a, is_Some (headers (heap w) !! a) → a < brk (heap w)) as Hlow by (intros a Ha; by apply (hw_alloc _ B4)).
  assert (rings w1 = rings w) as Er by (unfold rings; by rewrite Hf).
  assert (∀ g' p, in_ring w1 g' p ↔ in_ring w g' p) as Hin1 by (intros; unfold in_ring; by rewrite Er).
  assert (∀ g' p, in_ring w g' p → p < brk (heap w)) as Hold.
  { intros g' p Hp. destruct (B6 g' p Hp) as (_ & h & E & _). apply Hlow. by eexists. }
  assert (∀ g', ¬ in_ring w g g') as Hnone by (intros p (b & E & _); congruence).
  set (w2 := w1 <| frame ::= _ |>).
  assert (∀ g' p, in_ring w2 g' p ↔ if decide (g' = g) then p ∈ bufs_ br ∧ p ≠ default_buf_header else in_ring w g' p) as Hin.
  { intros g' p. unfold w2. rewrite in_ring_set. case_decide; [done|apply Hin1]. }
  split; try done.
  - cbn. rewrite Hf. cbn. lia.
  - unfold slots_ok, fds_wf in *. cbn. by rewrite Hf.
  - intros g' Hg'. unfold w2, rings. cbn. destruct (decide (g' = g)) as [->|]; [by rewrite lookup_insert_eq; eexists|].
    rewrite lookup_insert_ne by done. change (is_Some (rings w1 !! g')). rewrite Er. by apply B3.
  - intros g' br'. unfold w2, rings. cbn. intros [[<- <-]|[Hne Hg']]%lookup_insert_Some; [done|].
    change (rings w1 !! g' = Some br') in Hg'. rewrite Er in Hg'. destruct (B5 g' br' Hg') as [Hw' ?]. split; [|done].
    eapply wf_heap; [exact Hw'| |apply Hh]. intros p Hp Hpd. destruct (Hgrow p) as [-> _]; [|done].
    apply (Hold g'). by exists br'.
  - intros g' p Hp%Hin. case_decide as E.
    + destruct Hp as [Hp Hpd]. destruct (Hfresh p Hp) as (Hlo & Eh & Ep). split.
      * pose proof (hw_brk _ B4). unfold detached, default_buf_header, nullptr in *. split_and!; [lia|done|]. cbn. by rewrite Eh.
      * exists (Hdr 0 (buf_size_ br) nullptr nullptr). unfold block. cbn. rewrite Ep. cbn. rewrite length_replicate. split_and!; [done|lia|lia|lia].
    + destruct (B6 g' p Hp) as ((? & ? & ?) & ?). destruct (Hgrow p (Hold _ _ Hp)) as [E1 E2].
      split; [|by eapply block_ok_same]. split_and!; [done|done|]. cbn. by rewrite E1.
  - intros g1 g2 p H1%Hin H2%Hin. repeat case_decide; subst; [done| | |by eapply B7].
    + destruct (Hfresh p (proj1 H2)) as [? _]. specialize (Hold _ _ H1). lia.
    + destruct (Hfresh p (proj1 H1)) as [? _]. specialize (Hold _ _ H2). lia.
  - intros a Ha. cbn. destruct (Hgrow a) as [-> _]; [by apply Hlow, B9|by apply B9].
  - intros a Ha g' Hp%Hin. case_decide; [|by apply (B10 a Ha g')].
    destruct (Hfresh a (proj1 Hp)) as [? _]. specialize (Hlow a (B9 a Ha)). lia.
Qed.

(** Registering a ring keeps everything apart, whether it succeeds or throws. *)
Lemma wpx_register_ring n sz g F w : base F w → 0 < sz → 0 ≤ n < 2 ^ 32 →
  let Q := λ w', base F w' ∧ same_blocks (fp_blocks F) (heap w) (heap w') in
  wpx (register_buf_ring n sz g) w (λ _, Q) (λ _, Q).
Proof.
  intros Hb Hsz Hn Q. pose proof (register_keeps_entries n sz g w) as Hent.
  assert (Q w) as Hsame by (split; [done|apply same_blocks_refl]).
  assert (∀ w' r, heap w' = heap w → frame w' = frame w <| io_ring_ := r |> →
    sq_entries r = sq_entries (io_ring_ (frame w)) → Q w') as Hring.
  { intros w' r Eh Ef Er. split; [|by rewrite Eh]. pose proof (bs_entries _ _ Hb). pose proof (bs_slots _ _ Hb) as Hs.
    eapply base_world; [exact Hb|done|done|done|by unfold rings; rewrite Ef|rewrite Ef; cbn; lia|].
    unfold slots_ok, fds_wf in *. by rewrite Ef. }
  unfold wpx, register_buf_ring in *. rewrite (bind_ret _ _ _ _ _ (on_frame_get w)) in *.
  destruct (buf_rings_ (frame w) !! g) as [br0|] eqn:E0; [by rewrite throw_errno_runs|].
  assert (to_unsigned n = n) as Eun by (unfold to_unsigned; rewrite Z.mod_small; lia). rewrite Eun in *.
  destruct (io_uring_setup_buf_ring n g (io_ring_ (frame w))) as [ret r1] eqn:Es.
  pose proof (buf_ring_new_run w n sz g ret r1 (bs_heap _ _ Hb) Hsz Hn Es) as H. case_decide.
  - destruct H as (br & w1 & E & Hw & Hh & _ & _ & Ez & _ & _ & Hgrow & Hfresh & r & Hf).
    rewrite (bind_ret _ _ _ _ _ E), on_frame_modify in *. cbn [fst snd] in *. split.
    + apply (base_new_ring F w w1 br g r); rewrite ?Ez; try done. cbn in Hent. by rewrite Hf in Hent.
    + intros a Ha. apply Hgrow. by apply (hw_alloc _ (bs_heap _ _ Hb)), (bs_alloc _ _ Hb).
  - destruct H as (w1 & E & Eh & r & Hf). rewrite (bind_throw _ _ _ _ _ E) in *. cbn [snd] in Hent. rewrite Hf in Hent. by eapply Hring.
Qed.
End Register.

(** ** The interface *)

(** [owners] is what holds references to an object: handles, awaitables, operations
    in flight.  [act] is what the program and the kernel can do to it. *)
Class Component (R O : Type) := {
  owners : Type;
  act : Type;
  perform : ptr → act → owners → M (cell R O) owners;
  owns : footprint → owners → option O → ctx R → Prop;
}.
Arguments owners R O {_}. Arguments act R O {_}.

Section Promise.
Context {R O : Type} {HU : IoUring R} {HC : Component R O}.

(** The object, with a new footprint, is apart from [X], whose blocks are as they
    were in [w]. *)
Definition settled (X : footprint) (w : ctx R) (y : owners R O) (c : cell R O) : Prop :=
  ∃ F, owns F y (object c) (world c) ∧ base (F ⊎ X) (world c) ∧ same_blocks (fp_blocks X) (heap w) (heap (world c)).
End Promise.

Class ComponentLaws (R O : Type) `{!IoUring R} `{!Component R O} : Prop := {
  owns_kept F (y : owners R O) o w w' : owns F y o w → same_blocks (fp_blocks F) (heap w) (heap w') → owns F y o w';
  perform_safe p (a : act R O) F X y o w : owns F y o w → base (F ⊎ X) w →
    wp (perform p a y) (Cell w o) (settled X w);
}.

(** ** Two classes *)
Section Sum.
Context {R A B : Type} {HU : IoUring R} {HA : Component R A} {HB : Component R B}.

#[export] Instance sum_component : Component R (A + B) := {|
  owners := owners R A + owners R B;
  act := act R A + act R B;
  perform p a y :=
    match a, y with
    | inl a, inl y => y' ← lift_l (perform p a y); mret (inl y')
    | inr a, inr y => y' ← lift_r (perform p a y); mret (inr y')
    | _, y => mret y
    end;
  owns F y o w :=
    match y with
    | inl y => ∃ oa, o = inl <$> oa ∧ owns F y oa w
    | inr y => ∃ ob, o = inr <$> ob ∧ owns F y ob w
    end |}.

Lemma wp_lift_left {X} (m : M (cell R A) X) w oa (Q : X → cell R (A + B) → Prop) :
  wp m (Cell w oa) (λ x c, Q x (Cell (world c) (inl <$> object c))) → wp (lift_l m) (Cell w (inl <$> oa)) Q.
Proof. unfold wp, lift_l. destruct oa; cbn; by destruct (m _) as [[x|e|f] c]. Qed.

Lemma wp_lift_right {X} (m : M (cell R B) X) w ob (Q : X → cell R (A + B) → Prop) :
  wp m (Cell w ob) (λ x c, Q x (Cell (world c) (inr <$> object c))) → wp (lift_r m) (Cell w (inr <$> ob)) Q.
Proof. unfold wp, lift_r. destruct ob; cbn; by destruct (m _) as [[x|e|f] c]. Qed.

#[export] Instance sum_component_laws {LA : ComponentLaws R A} {LB : ComponentLaws R B} : ComponentLaws R (A + B).
Proof.
  split.
  - intros F [y|y] o w w' (o' & -> & Ho) Hs; (exists o'; split; [done|by eapply owns_kept]).
  - assert (∀ F X (y : owners R A + owners R B) o w, owns F y o w → base (F ⊎ X) w → settled X w y (Cell w o)) as Hret.
    { intros F X y o w Ho Hb. exists F. split_and!; [exact Ho|exact Hb|apply same_blocks_refl]. }
    intros p [a|a] F X [y|y] o w Ho Hb; cbn [perform sum_component];
      try (apply wp_ret; by eapply Hret); destruct Ho as (o' & -> & Ho); apply wp_bind.
    + apply wp_lift_left. eapply wp_mono; [by eapply perform_safe|]. intros y' c (F' & Ho' & Hb' & Hs').
      apply wp_ret. exists F'. split_and!; [by eexists|done|done].
    + apply wp_lift_right. eapply wp_mono; [by eapply perform_safe|]. intros y' c (F' & Ho' & Hb' & Hs').
      apply wp_ret. exists F'. split_and!; [by eexists|done|done].
Qed.
End Sum.

(** ** The table of the loop *)
Section Table.
Context {R O : Type} {HU : IoUring R} {HC : Component R O}.

Abbreviation LM := (M (loop R O)).
Abbreviation table := (gmap ptr (owners R O)).

(** An operation on the object at [p]. *)
Definition at_component (p : ptr) (m : M (cell R O) (owners R O)) (T : table) : LM table :=
  y ← at_object p (lift_r m); mret (<[p := y]> T).

Definition table_act (p : ptr) (a : act R O) (T : table) : LM table :=
  match T !! p with
  | Some y => at_component p (perform p a y) T
  | None => mret T
  end.

(** Each object of [T] has a footprint; these and [X] are apart. *)
Definition entry_ok (s : loop R O) (p : ptr) (oy : option (owners R O)) (oF : option footprint) : Prop :=
  match oy, oF with
  | Some y, Some F => ∃ o, objs s !! p = inr <$> o ∧ owns F y o (lctx s)
  | None, None => True
  | _, _ => False
  end.

Definition table_inv (X : footprint) (T : table) (s : loop R O) : Prop :=
  ∃ P, base (total P ⊎ X) (lctx s) ∧ ∀ p, entry_ok s p (T !! p) (P !! p).
End Table.

Section TableLemmas.
Context {R O : Type} {HU : IoUring R} {HC : Component R O} {HL : ComponentLaws R O}.
Implicit Types (s : loop R O) (T : gmap ptr (owners R O)).

Lemma entry_ok_kept s s' p oy oF : entry_ok s p oy oF → objs s' !! p = objs s !! p →
  (∀ F, oF = Some F → same_blocks (fp_blocks F) (heap (lctx s)) (heap (lctx s'))) → entry_ok s' p oy oF.
Proof.
  unfold entry_ok. intros He Ho Hs. destruct oy as [y|], oF as [F|]; try done.
  destruct He as (o & E & Hy). exists o. rewrite Ho. split; [done|]. eapply owns_kept; [done|]. by apply Hs.
Qed.

(** The object at [p] has changed, the others are apart. *)
Lemma table_settled p y c T s P X : (∀ q, q ≠ p → entry_ok s q (T !! q) (P !! q)) →
  settled (total (delete p P) ⊎ X) (lctx s) y c →
  table_inv X (<[p := y]> T) (Loop (world c) (partial_alter (λ _, inr <$> object c) p (objs s))).
Proof.
  intros Hall (F & Ho & Hb & Hs). exists (<[p := F]> P). split.
  - by rewrite total_set, <- fp_union_assoc.
  - intros q. destruct (decide (q = p)) as [->|Hq].
    + rewrite !lookup_insert_eq. exists (object c). split; [apply lookup_partial_alter_eq|done].
    + rewrite !lookup_insert_ne by done. eapply entry_ok_kept; [by apply Hall|by apply lookup_partial_alter_ne|].
      intros G HG. eapply same_blocks_sub; [|exact Hs]. intros a Ha. cbn. apply elem_of_app. left.
      eapply total_blocks; [by rewrite lookup_delete_ne|done].
Qed.

Lemma wp_at_component p m T s P X o : (∀ q, q ≠ p → entry_ok s q (T !! q) (P !! q)) → objs s !! p = inr <$> o →
  wp m (Cell (lctx s) o) (settled (total (delete p P) ⊎ X) (lctx s)) →
  wp (at_component p m T) s (λ T', table_inv X T').
Proof.
  intros Hall Hp Hm. unfold at_component. apply wp_bind, wp_at_object. rewrite Hp. apply wp_lift_right.
  eapply wp_mono; [exact Hm|]. intros y c Hy. apply wp_ret. by eapply table_settled.
Qed.

(** What is known of the object at [p] and of the others. *)
Lemma table_entry p y T s X : table_inv X T s → T !! p = Some y → ∃ P F o,
  (∀ q, q ≠ p → entry_ok s q (T !! q) (P !! q)) ∧ objs s !! p = inr <$> o ∧ owns F y o (lctx s) ∧
  base (F ⊎ (total (delete p P) ⊎ X)) (lctx s).
Proof.
  intros (P & Hb & Hall) Hy. pose proof (Hall p) as Hp. rewrite Hy in Hp. destruct (P !! p) as [F|] eqn:HF; [|done].
  destruct Hp as (o & Hp & Ho). exists P, F, o. split_and!; [by intros|done|done|].
  by rewrite fp_union_assoc, <- (total_take P p F).
Qed.

Lemma table_act_inv p a T s X : table_inv X T s → wp (table_act p a T) s (table_inv X).
Proof.
  intros Hi. unfold table_act. destruct (T !! p) as [y|] eqn:Hy; [|by apply wp_ret].
  destruct (table_entry p y T s X Hi Hy) as (P & F & o & Hall & Hp & Ho & Hb).
  eapply wp_at_component; [exact Hall|exact Hp|]. by eapply perform_safe.
Qed.

(** A new object, made of what was outside. *)
Lemma wp_table_new p m T s G X : table_inv (G ⊎ X) T s → T !! p = None → objs s !! p = None →
  (∀ Y, base (G ⊎ Y) (lctx s) → wp m (Cell (lctx s) None) (settled Y (lctx s))) →
  wp (at_component p m T) s (table_inv X).
Proof.
  intros (P & Hb & Hall) HT Hp Hm. eapply (wp_at_component _ _ _ _ P _ None); [by intros|done|].
  assert (delete p P = P) as ->.
  { apply delete_id. specialize (Hall p). rewrite HT in Hall. by destruct (P !! p). }
  apply Hm. by rewrite fp_union_assoc, (fp_union_comm G), <- fp_union_assoc.
Qed.

(** An object hands a part of its footprint out. *)
Lemma table_hand_out p y y' T s G X : table_inv X T s → T !! p = Some y →
  (∀ F o, owns F y o (lctx s) → ∃ F', F ≡ G ⊎ F' ∧ owns F' y' o (lctx s)) → table_inv (G ⊎ X) (<[p := y']> T) s.
Proof.
  intros (P & Hb & Hall) HT Hg. pose proof (Hall p) as Hp. rewrite HT in Hp.
  destruct (P !! p) as [F|] eqn:HF; [|done]. destruct Hp as (o & Hp & Ho). destruct (Hg F o Ho) as (F' & E & Ho').
  exists (<[p := F']> P). split.
  - rewrite (total_take P p F HF), E in Hb. by rewrite total_set, fp_union_assoc, (fp_union_comm _ G), fp_union_assoc.
  - intros q. destruct (decide (q = p)) as [->|Hq]; [rewrite !lookup_insert_eq; by exists o|].
    by rewrite !lookup_insert_ne.
Qed.

(** Something happens to the context that leaves everything apart. *)
Lemma wp_on_ctx_table {A} (m : M (ctx R) A) T s X : table_inv X T s →
  (∀ F, base F (lctx s) → wp m (lctx s) (λ _ w, base F w ∧ same_blocks (fp_blocks F) (heap (lctx s)) (heap w))) →
  wp (on_ctx m ;; mret T) s (table_inv X).
Proof.
  intros (P & Hb & Hall) Hm. apply wp_bind. unfold on_ctx. apply wp_zoom. eapply wp_mono; [by apply Hm|].
  intros a w [Hb' Hs]. apply wp_ret. exists P. split; [done|]. intros q. eapply entry_ok_kept; [by apply Hall|done|].
  intros F HF. eapply same_blocks_sub; [|exact Hs]. intros b Hin. cbn. apply elem_of_app. left. by eapply total_blocks.
Qed.
End TableLemmas.
