(* ===== verification/ComponentLoop.v ===== *)
(** Components under the event loop: a completion that is possible at an object is
    processed by the loop as the component does it, so a batch of completions for
    any objects of the table keeps them all apart. *)

From S2P Require Import Prelude Uring Buffer Frame BufRing Executor Awaitable Keeps Slots.
From S2P Require Import StreamRecv IoContext EventLoop Component.

(** ** Dispatching at an object of several classes *)

Lemma wp_bind_inv {S A B} (m : M S A) (k : A → M S B) s Q : wp (m ≫= k) s Q → wp m s (λ a s', wp (k a) s' Q).
Proof. unfold wp, mbind, M_bind. by destruct (m s) as [[a|e|f] s']. Qed.

Lemma wp_finally_inv {S A} (m : M S A) d s (Q : A → S → Prop) :
  wp (finally m d) s Q → wp m s (λ a s', wp d s' (λ _ s'', Q a s'')).
Proof.
  unfold wp, finally. destruct (m s) as [[a|e|f] s']; [by destruct (d s') as [[]]| |done].
  by destruct (d s') as [[]].
Qed.

(** The virtual functions of a class: none brings an object back, and none touches
    the exception of the context. *)
Definition pending_exception {R} (w : ctx R) : option exn := exception_ptr_ (frame w).

Class Virtuals (R O : Type) (HA : AwaitableBase R O) : Prop := {
  handle_needs_object k w (Q : option handle → cell R O → Prop) :
    wp (take_handle k) (Cell w None) Q → ∃ h c, object c = None ∧ Q h c;
  process_keeps k e : keeps (of_world (O := O) pending_exception) (await_process_cqe k e);
  handle_keeps k : keeps (of_world (O := O) pending_exception) (take_handle k);
  destructor_keeps o : keeps pending_exception (destructor o);
}.

#[export] Instance exception_ring_blind {R} {HU : IoUring R} : RingBlind (R := R) pending_exception.
Proof. done. Qed.
#[export] Instance exception_pool_blind {R} : PoolBlind (R := R) pending_exception.
Proof. done. Qed.
#[export] Instance exception_buffer_blind {R} : BufferBlind (R := R) pending_exception.
Proof. done. Qed.
#[export] Instance exception_group_blind {R} : GroupBlind (R := R) pending_exception.
Proof. done. Qed.

Section Dispatch.
Context {R A B : Type} {HCA : RefCount A} {HCB : RefCount B} {HA : AwaitableBase R A} {HB : AwaitableBase R B}.
Local Existing Instance sum_awaitable.

(** What [dispatch] does before the reference is released. *)
Lemma wp_dispatch_inv {O} {HC : RefCount O} {H : AwaitableBase R O} {HV : Virtuals R O H} k e w (o : O) (Q : option handle → cell R O → Prop) :
  wp (dispatch k e) (Cell w (Some o)) Q →
  1 ≤ use_count o ∧ wp (await_process_cqe k e) (Cell w (Some o)) (λ _ c, ∃ o1, object c = Some o1 ∧
    wp (take_handle k) (Cell (world c) (Some o1)) (λ h c', wp intrusive_ptr_release c' (λ _, Q h))).
Proof.
  unfold dispatch. intros Hd%wp_finally_inv.
  assert (wp (assert (1 <=? use_count o) ;; await_process_cqe k e ;; take_handle k) (Cell w (Some o))
    (λ h c, wp intrusive_ptr_release c (λ _, Q h))) as Hd1 by exact Hd. clear Hd.
  unfold assert in Hd1. destruct (Z.leb_spec 1 (use_count o)); [|done]. split; [done|].
  assert (wp (await_process_cqe k e ;; take_handle k) (Cell w (Some o)) (λ h c, wp intrusive_ptr_release c (λ _, Q h)))
    as Hd%wp_bind_inv by exact Hd1.
  eapply wp_mono; [exact Hd|]. intros [] [w1 [o1|]] Hh; [by exists o1|].
  by apply handle_needs_object in Hh as (h & [w2 [o2|]] & Hn & Hr).
Qed.

Lemma wp_release_lift_l w (oa : option A) (Q : unit → cell R (A + B) → Prop) :
  wp intrusive_ptr_release (Cell w oa) (λ u c, Q u (Cell (world c) (inl <$> object c))) →
  wp intrusive_ptr_release (Cell w (inl <$> oa)) Q.
Proof.
  destruct oa as [a|]; [|done]. unfold wp, intrusive_ptr_release, upd_this, this, on_world. munfold. cbn.
  destruct (use_count (upd_count Z.pred a) =? 0); cbn; [|done].
  by destruct (destructor _ _) as [[]].
Qed.

Lemma wp_release_lift_r w (ob : option B) (Q : unit → cell R (A + B) → Prop) :
  wp intrusive_ptr_release (Cell w ob) (λ u c, Q u (Cell (world c) (inr <$> object c))) →
  wp intrusive_ptr_release (Cell w (inr <$> ob)) Q.
Proof.
  destruct ob as [b|]; [|done]. unfold wp, intrusive_ptr_release, upd_this, this, on_world. munfold. cbn.
  destruct (use_count (upd_count Z.pred b) =? 0); cbn; [|done].
  by destruct (destructor _ _) as [[]].
Qed.

Lemma wp_dispatch_l {HV : Virtuals R A HA} k e w a (Q : option handle → cell R (A + B) → Prop) :
  wp (dispatch k e) (Cell w (Some a)) (λ h c, Q h (Cell (world c) (inl <$> object c))) →
  wp (dispatch k e) (Cell w (Some (inl a))) Q.
Proof.
  intros [Hc Hd]%wp_dispatch_inv. unfold dispatch. apply wp_finally_ret, wp_bind, wp_cell_this, wp_bind.
  apply wp_assert; [by apply Z.leb_le|]. apply wp_bind. apply (wp_lift_left (await_process_cqe k e) _ (Some a)).
  eapply wp_mono; [exact Hd|]. intros [] c (a1 & -> & Hh). apply (wp_lift_left (take_handle k) _ (Some a1)).
  eapply wp_mono; [exact Hh|]. intros h c' Hr. apply wp_release_lift_l. by destruct c'.
Qed.

Lemma wp_dispatch_r {HV : Virtuals R B HB} k e w b (Q : option handle → cell R (A + B) → Prop) :
  wp (dispatch k e) (Cell w (Some b)) (λ h c, Q h (Cell (world c) (inr <$> object c))) →
  wp (dispatch k e) (Cell w (Some (inr b))) Q.
Proof.
  intros [Hc Hd]%wp_dispatch_inv. unfold dispatch. apply wp_finally_ret, wp_bind, wp_cell_this, wp_bind.
  apply wp_assert; [by apply Z.leb_le|]. apply wp_bind. apply (wp_lift_right (await_process_cqe k e) _ (Some b)).
  eapply wp_mono; [exact Hd|]. intros [] c (b1 & -> & Hh). apply (wp_lift_right (take_handle k) _ (Some b1)).
  eapply wp_mono; [exact Hh|]. intros h c' Hr. apply wp_release_lift_r. by destruct c'.
Qed.
End Dispatch.

Lemma keeps_lift_l {R A B X T} (f : ctx R → T) (m : M (cell R A) X) :
  keeps (of_world f) m → keeps (of_world (O := A + B) f) (lift_l m).
Proof.
  intros Hm [w [[a|b]|]]; unfold lift_l; cbn; [|done|].
  - specialize (Hm (Cell w (Some a))). by destruct (m _).
  - specialize (Hm (Cell w None)). by destruct (m _).
Qed.

Lemma keeps_lift_r {R A B X T} (f : ctx R → T) (m : M (cell R B) X) :
  keeps (of_world f) m → keeps (of_world (O := A + B) f) (lift_r m).
Proof.
  intros Hm [w [[a|b]|]]; unfold lift_r; cbn; [done| |].
  - specialize (Hm (Cell w (Some b))). by destruct (m _).
  - specialize (Hm (Cell w None)). by destruct (m _).
Qed.

Lemma sum_virtuals {R A B} {HA : AwaitableBase R A} {HB : AwaitableBase R B} :
  Virtuals R A HA → Virtuals R B HB → Virtuals R (A + B) (sum_awaitable HA HB).
Proof.
  intros VA VB. split.
  - intros k w Q [].
  - intros k e [w [[a|b]|]]; [|..|done].
    + exact (keeps_lift_l _ _ (process_keeps k e) (Cell w (Some (inl a)))).
    + exact (keeps_lift_r _ _ (process_keeps k e) (Cell w (Some (inr b)))).
  - intros k [w [[a|b]|]]; [|..|done].
    + exact (keeps_lift_l _ _ (handle_keeps k) (Cell w (Some (inl a)))).
    + exact (keeps_lift_r _ _ (handle_keeps k) (Cell w (Some (inr b)))).
  - intros [a|b]; cbn; apply destructor_keeps.
Qed.

(** ** The loop *)

Section ProcessCqe.
Context {R O : Type} {HU : IoUring R} {HUL : IoUringLaws R} {HQ : IoUringCq R} {HS : UnorderedBegin}.
Context {HC : RefCount O} {HCL : RefCountLaws O} {HO : ptr → AwaitableBase R O} {HV : ∀ p, Virtuals R O (HO p)}.
Context {HA : CoroAlloc} {HE : LoopEnv R O}.
Implicit Types s : loop R O.

(** The loop processes a completion as [dispatch] does, while no exception is
    pending. *)
Lemma wp_process_cqe p k e s o (Q : option handle → loop R O → Prop) :
  objs s !! p = Some (inr o) → pending_exception (lctx s) = None →
  wp (@dispatch _ _ _ (HO p) k e) (Cell (lctx s) (Some o)) (λ h c,
    pending_exception (world c) = None → Q h (Loop (world c) (partial_alter (λ _, inr <$> object c) p (objs s)))) →
  wp (process_cqe p k e) s Q.
Proof.
  intros Hp Hx Hd.
  pose proof (keeps_dispatch (HA := HO p) pending_exception k e destructor_keeps (process_keeps k e) (handle_keeps k)
    (Cell (lctx s) (Some o))) as Hk. unfold of_world in Hk. cbn [world] in Hk. rewrite Hx in Hk.
  assert (wp (@dispatch _ _ _ (HO p) k e) (Cell (lctx s) (Some o)) (λ h c,
    Q h (Loop (world c) (partial_alter (λ _, inr <$> object c) p (objs s))))) as Hd1.
  { unfold wp in Hd |- *. destruct (dispatch k e _) as [[h|x|f] c]; [|done|done]. by apply Hd. }
  apply (wp_dispatch_inv (H := HO p)) in Hd1 as [Hc Hpr]. apply wp_at_object. rewrite Hp. cbv zeta. apply wp_finally_ret.
  apply wp_bind, wp_cell_this, wp_bind, wp_assert; [by apply Z.leb_le|]. apply wp_bind.
  apply (wp_lift_right (@await_process_cqe _ _ (HO p) k e) _ (Some o)).
  pose proof (process_keeps (HA := HO p) k e (Cell (lctx s) (Some o))) as Hk1. unfold of_world in Hk1. cbn [world] in Hk1. rewrite Hx in Hk1.
  unfold wp at 1 in Hpr. unfold wp at 1. destruct (@await_process_cqe _ _ (HO p) k e _) as [[[]|x|f] c1]; [|done|done].
  destruct Hpr as (o1 & -> & Hh). apply wp_bind, (wp_lift_right (@take_handle _ _ (HO p) k) _ (Some o1)).
  pose proof (handle_keeps (HA := HO p) k (Cell (world c1) (Some o1))) as Hk2. unfold of_world in Hk2. cbn [world fst snd] in Hk1, Hk2. rewrite Hk1 in Hk2.
  unfold wp at 1 in Hh. unfold wp at 1. destruct (@take_handle _ _ (HO p) k _) as [[h|x|f] c2]; [|done|done]. cbn [snd] in Hk2.
  apply wp_bind, wp_on_world. cbn [world]. apply wp_check_exception; [exact Hk2|]. apply wp_ret.
  apply (wp_release_lift_r (HA := pipe_awaitable_base p) (HB := HO p)). destruct c2 as [w2 o2]. cbn. exact Hh.
Qed.
End ProcessCqe.

(** ** Completions of a component

    [completion] is what the loop's processing of a completion with these fields is
    to an object with these owners; [possible] tells whether the kernel may post it. *)
Class Completes (R O : Type) {HC : Component R O} := {
  completion : owners R O → frame_kind → Z → Z → option (act R O);
  possible : act R O → owners R O → O → ctx R → bool;
}.

Class CompletesLaws (R O : Type) {HC : Component R O} {HN : RefCount O} (HO : ptr → AwaitableBase R O)
    {HF : Completes R O} : Prop := {
  completes p (a : act R O) (y : owners R O) o k res flags w (Q : owners R O → cell R O → Prop) :
    completion y k res flags = Some a → possible a y o w = true → wp (perform p a y) (Cell w (Some o)) Q →
    ∃ y', (perform p a y (Cell w (Some o))).1 = Ret y' ∧
      wp (@dispatch _ _ _ (HO p) k (Cqe (Some (p, k)) res flags)) (Cell w (Some o)) (λ _ c, Q y' c);
}.

Section SumCompletes.
Context {R A B : Type} {HA : Component R A} {HB : Component R B} {NA : RefCount A} {NB : RefCount B}.
Context {FA : Completes R A} {FB : Completes R B}.
Context {OA : ptr → AwaitableBase R A} {OB : ptr → AwaitableBase R B}.

#[export] Instance sum_completes : Completes R (A + B) := @Build_Completes R (A + B) sum_component
  (λ y k res flags,
    match y with
    | inl y => inl <$> completion y k res flags
    | inr y => inr <$> completion y k res flags
    end)
  (λ a y o w,
    match a, y, o with
    | inl a, inl y, inl o => possible a y o w
    | inr a, inr y, inr o => possible a y o w
    | _, _, _ => false
    end).

Lemma sum_completes_laws {VA : ∀ p, Virtuals R A (OA p)} {VB : ∀ p, Virtuals R B (OB p)} :
  CompletesLaws R A OA → CompletesLaws R B OB → CompletesLaws R (A + B) (λ p, sum_awaitable (OA p) (OB p)).
Proof.
  intros LA LB. split.
  intros p a y o k res flags w Q Hk Hp Hw.
  destruct y as [y|y]; cbn in Hk; apply fmap_Some in Hk as (a' & Hk & ->); destruct o as [o|o]; try done; cbn in Hp;
    cbn [perform sum_component] in Hw |- *; apply wp_bind_inv in Hw.
  - assert (wp (perform p a' y) (Cell w (Some o)) (λ y' c, Q (inl y') (Cell (world c) (inl <$> object c)))) as Hw'.
    { unfold wp, lift_l in Hw. cbn in Hw. unfold wp. by destruct (perform p a' y _) as [[y'|x|f] c]. }
    destruct (completes (HO := OA) p a' y o k res flags w _ Hk Hp Hw') as (y' & E & Hd). exists (inl y'). split.
    + unfold mbind, M_bind, lift_l. cbn. by destruct (perform p a' y _) as [[?|?|?] c]; cbn in E |- *; simplify_eq.
    + by apply wp_dispatch_l.
  - assert (wp (perform p a' y) (Cell w (Some o)) (λ y' c, Q (inr y') (Cell (world c) (inr <$> object c)))) as Hw'.
    { unfold wp, lift_r in Hw. cbn in Hw. unfold wp. by destruct (perform p a' y _) as [[y'|x|f] c]. }
    destruct (completes (HO := OB) p a' y o k res flags w _ Hk Hp Hw') as (y' & E & Hd). exists (inr y'). split.
    + unfold mbind, M_bind, lift_r. cbn. by destruct (perform p a' y _) as [[?|?|?] c]; cbn in E |- *; simplify_eq.
    + by apply wp_dispatch_r.
Qed.
End SumCompletes.

(** ** Batches *)
Section Batch.
Context {R O : Type} {HU : IoUring R} {HUL : IoUringLaws R} {HQ : IoUringCq R} {HQL : IoUringCqLaws R} {HQS : IoUringCqSq R}.
Context {HS : UnorderedBegin} {HC : RefCount O} {HCL : RefCountLaws O} {HO : ptr → AwaitableBase R O}.
Context {HV : ∀ p, Virtuals R O (HO p)} {HA : CoroAlloc} {HE : LoopEnv R O}.
Context {HM : Component R O} {HML : ComponentLaws R O} {HF : Completes R O} {HFL : CompletesLaws R O HO}.
Implicit Types (s : loop R O) (T : gmap ptr (owners R O)).

(** The owners after the action [a] at [p]. *)
Definition owners_after (p : ptr) (a : act R O) (y : owners R O) (o : O) (w : ctx R) : owners R O :=
  match (perform p a y (Cell w (Some o))).1 with Ret y' => y' | _ => y end.

(** The table after the completions, each of which is possible when its turn comes;
    a completion without user data is for no object.  This asks nothing of what
    processing them does. *)
Fixpoint batch_table (es : list cqe) T s : option (gmap ptr (owners R O)) :=
  match es with
  | [] => Some T
  | e :: es =>
      match cqe_data e with
      | None => batch_table es T s
      | Some (p, k) =>
          match T !! p, objs s !! p with
          | Some y, Some (inr o) =>
              match completion y k (cqe_res e) (cqe_flags e) with
              | Some a =>
                  if possible a y o (lctx s) then
                    batch_table es (<[p := owners_after p a y o (lctx s)]> T) (process_cqe p k e s).2
                  else None
              | None => None
              end
          | _, _ => None
          end
      end
  end.

(** A possible completion. *)
Lemma wp_process_possible p a y o k e T s X : table_inv X T s → T !! p = Some y → objs s !! p = Some (inr o) →
  cqe_data e = Some (p, k) → completion y k (cqe_res e) (cqe_flags e) = Some a → possible a y o (lctx s) = true →
  pending_exception (lctx s) = None →
  wp (process_cqe p k e) s (λ _ s', table_inv X (<[p := owners_after p a y o (lctx s)]> T) s' ∧ pending_exception (lctx s') = None).
Proof.
  intros Hi Hy Hp Hd Hk Ha Hx. destruct (table_entry p y T s X Hi Hy) as (P & F & o' & Hall & Hp' & Ho & Hb).
  rewrite Hp in Hp'. destruct o' as [o'|]; [|done]. injection Hp' as <-.
  destruct (completes (HO := HO) p a y o k (cqe_res e) (cqe_flags e) (lctx s) _ Hk Ha (perform_safe p a F _ y (Some o) (lctx s) Ho Hb))
    as (y' & E & Hw).
  assert (Cqe (Some (p, k)) (cqe_res e) (cqe_flags e) = e) as Ee by (destruct e; cbn in *; congruence). rewrite Ee in Hw.
  apply (wp_process_cqe p k e s o); [done|done|]. eapply wp_mono; [exact Hw|]. intros h c Hset Hx'. split; [|exact Hx'].
  unfold owners_after. rewrite E. by eapply table_settled.
Qed.

(** The loop processes a batch of possible completions. *)
Lemma batch_handled es X : ∀ T T' s, table_inv X T s → pending_exception (lctx s) = None → batch_table es T s = Some T' →
  ∃ hs s', handled es s hs s' ∧ table_inv X T' s' ∧ pending_exception (lctx s') = None.
Proof.
  induction es as [|e es IH]; intros T T' s Hi Hx Hb; cbn in Hb.
  - injection Hb as <-. exists [], s. split_and!; [constructor|done|done].
  - destruct (cqe_data e) as [[p k]|] eqn:Hd.
    2:{ destruct (IH T T' s Hi Hx Hb) as (hs & s' & H & H'). exists hs, s'. split; [by constructor|done]. }
    destruct (T !! p) as [y|] eqn:Hy; [|done]. destruct (objs s !! p) as [[?|o]|] eqn:Hp; [done| |done].
    destruct (completion _ _ _ _) as [a|] eqn:Hk; [|done]. destruct (possible _ _ _ _) eqn:Ha; [|done].
    pose proof (wp_process_possible p a y o k e T s X Hi Hy Hp Hd Hk Ha Hx) as Hw. apply wp_run in Hw as (h & s1 & E & Hi1 & Hx1).
    rewrite E in Hb. destruct (IH _ T' s1 Hi1 Hx1 Hb) as (hs & s' & H & H').
    exists (option_list h ++ hs), s'. split; [by econstructor|done].
Qed.

Lemma advanced_inv n T s X : table_inv X T s → table_inv X T (advanced n s).
Proof.
  intros (P & Hb & Hall). exists P. split.
  - eapply base_world; [exact Hb|done|done|done|done| |apply Hb]. cbn. rewrite cq_advance_entries. apply Hb.
  - intros q. eapply entry_ok_kept; [by apply Hall|done|]. intros F _. apply same_blocks_refl.
Qed.
End Batch.
