(* ===== verification/ComponentIo.v ===== *)
(** The classes of I/O objects as components: what a timer, an acceptor and a file
    own, and that none of their operations touches what others own. *)

From S2P Require Import Prelude Uring Buffer BufferSpec Frame BufRing Executor Awaitable Keeps Duration Slots.
From S2P Require Import Timer Stream StreamRecv StreamInv IoContext Acceptor AcceptorSafe File FileSafe EventLoop Component.

(** ** What the objects without buffers leave alone *)
Section Keep.
Context {R : Type} {HU : IoUring R}.

(** The buffers, the rings of buffers and the size of the submission queue; and the
    slots. *)
Definition buffers_of (w : ctx R) : mem * gmap Z buf_ring * Z := (heap w, rings w, sq_entries (io_ring_ (frame w))).
Definition all_but_ring (w : ctx R) : mem * gmap Z buf_ring * Z * gset Z * io_context_params :=
  (buffers_of w, fds_ (frame w), params_ (frame w)).

#[export] Instance buffers_ring_blind : RingBlind buffers_of.
Proof. intros w r E. unfold buffers_of, rings. cbn. by rewrite E. Qed.
#[export] Instance buffers_pool_blind : PoolBlind buffers_of.
Proof. done. Qed.
#[export] Instance all_but_ring_blind : RingBlind all_but_ring.
Proof. intros w r E. unfold all_but_ring, buffers_of, rings. cbn. by rewrite E. Qed.

Lemma slots_ok_all_but l (w w' : ctx R) : all_but_ring w' = all_but_ring w → slots_ok l w → slots_ok l w'.
Proof. intros [= _ _ _ E1 E2] Hs. unfold slots_ok, fds_wf in *. by rewrite E1, E2. Qed.
End Keep.

(** ** Timers *)
Section Timers.
Context {R : Type} {HU : IoUring R} {HUL : IoUringLaws R}.

Lemma timer_op_keeps p op y : keeps (of_world all_but_ring) (run_timer_op (R := R) p op y).
Proof. keeps_solve ltac:(cbn [destructor await_process_cqe take_handle timer_awaitable_base]). Qed.
End Timers.

Section Instances.
Context {R : Type} {HU : IoUring R} {HUL : IoUringLaws R}.

(** An operation that leaves the buffers alone settles if its slots do. *)
Lemma settled_slots {O} {HC : Component R O} F F' X (w : ctx R) y (c : cell R O) : base (F ⊎ X) w →
  buffers_of (world c) = buffers_of w → fp_blocks F' = fp_blocks F → fp_groups F' = fp_groups F →
  owns F' y (object c) (world c) → slots_ok (fp_slots F' ++ fp_slots X) (world c) → settled X w y c.
Proof.
  intros Hb [= Eh Er En] E1 E2 Ho Hs. exists F'. split_and!; [done| |by rewrite Eh].
  eapply (base_world (F ⊎ X)); [done|cbn; by rewrite E1|cbn; by rewrite E2|done|done| |done].
  rewrite En. apply Hb.
Qed.

(** *** Timers own no descriptor *)

Definition timer_owned (y : timer_sys) (o : option timer_impl) : Prop :=
  match o with
  | None => Timer.refs y = 0
  | Some t => use_count t = Timer.refs y ∧ 0 < Timer.refs y ∧ timer_flags y t
  end.

#[export] Instance timer_component : Component R timer_impl := {|
  owners := timer_sys; act := timer_op; perform := run_timer_op;
  owns F y o _ := F = ∅ ∧ timer_owned y o |}.

#[export] Instance timer_component_laws : ComponentLaws R timer_impl.
Proof.
  split; [by intros ? ? ? ? ? ?|]. intros p a F X y o w [-> Ho] Hb.
  eapply wp_mono; [apply (wp_keeps (of_world all_but_ring)); [apply timer_op_keeps|]|].
  { apply run_timer_op_inv. split; [|exact Ho]. pose proof (bs_entries _ _ Hb). cbn. lia. }
  intros y' c [[_ Hi] Hk]. apply (settled_slots ∅ ∅); [done|exact (f_equal (λ k, k.1.1) Hk)|done|done|by split|].
  eapply slots_ok_all_but; [exact Hk|]. apply Hb.
Qed.
End Instances.

Section Descriptors.
Context {R : Type} {HU : IoUring R} {HUL : IoUringLaws R} {HB : IoUringBufs R}.
Context {HS : UnorderedBegin} {HSL : UnorderedBeginLaws}.

(** *** Acceptors own their slot, that of the connection to come, and those of the
    connections that have not got an object of their own yet. *)

Definition acceptor_slots (y : acceptor_sys) (o : option acceptor_impl) : list Z :=
  match o with Some a => own_slot a ++ peer_slot a | None => [] end ++ a_held y.

Definition acceptor_owned (y : acceptor_sys) (o : option acceptor_impl) : Prop :=
  match o with
  | None => acceptor_refs y = 0
  | Some a => ac_count_ a = acceptor_refs y + Z.b2z (accept_pending a) ∧ 0 < ac_count_ a ∧ accept_flags y (ac_accept a)
  end.

(** A slot that is given back is one the acceptor has handed out. *)
Definition in_hand (op : acceptor_op) (y : acceptor_sys) : bool :=
  match op with Aop_give_back n => (n <? length (a_held y))%nat | _ => true end.

(** The slots of the others, as if this acceptor's connections had them. *)
Definition with_held (l : list Z) (y : acceptor_sys) : acceptor_sys := y <| a_held ::= λ held, held ++ l |>.

Lemma acceptor_inv_owned l y c : acceptor_inv (with_held l y) c ↔
  2 ≤ sq_entries (io_ring_ (frame (world c))) ∧ acceptor_owned y (object c) ∧
  slots_ok (acceptor_slots y (object c) ++ l) (world (R := R) c).
Proof.
  unfold acceptor_inv, acceptor_owned, acceptor_slots, with_held. destruct (object c) as [a|]; cbn; [|done].
  rewrite <- !app_assoc. tauto.
Qed.

Lemma acceptor_op_keeps p op y : keeps (of_world buffers_of) (run_acceptor_op (R := R) p op y).
Proof. keeps_solve ltac:(cbn [destructor await_process_cqe take_handle acceptor_awaitable_base]). Qed.

Lemma delete_beside {A} (l k : list A) n : (n < length l)%nat → delete n (l ++ k) = delete n l ++ k.
Proof. revert n. induction l as [|x l IH]; intros [|n] Hn; cbn in *; [lia|lia|done|]. f_equal. apply IH. lia. Qed.

(** The step does not depend on the slots of the others. *)
Lemma acceptor_op_frame p op y l c (Q : acceptor_sys → cell R acceptor_impl → Prop) :
  in_hand op y = true → wp (run_acceptor_op p op (with_held l y)) c Q → wp (run_acceptor_op p op y) c (λ y', Q (with_held l y')).
Proof.
  intros Hn HQ. unfold run_acceptor_op in *. apply wp_bind, wp_get.
  assert (∀ k : cell R acceptor_impl → M (cell R acceptor_impl) acceptor_sys, wp (get ≫= k) c Q → wp (k c) c Q) as Hget by done.
  apply Hget in HQ. clear Hget.
  assert (∀ A (m : M (cell R acceptor_impl) A) k k', (∀ a, k' a = with_held l (k a)) →
    wp (m ≫= λ a, mret (k' a)) c Q → wp (m ≫= λ a, mret (k a)) c (λ y', Q (with_held l y'))) as Hk.
  { intros A m k k' Hk. unfold wp, mbind, M_bind. destruct (m c) as [[]]; cbn; by rewrite ?Hk. }
  destruct op as [| | | | | | | | | | |n].
  12: { apply Nat.ltb_lt in Hn. unfold give_back in *. cbn in HQ. destruct (lookup_lt_is_Some_2 _ _ Hn) as [fd E]. rewrite E.
    rewrite lookup_app_l, E in HQ by done. eapply Hk, HQ. intros u. unfold with_held, upd. cbn. by rewrite delete_beside. }
  all: destruct (object c) as [a|]; [|exact HQ].
  all: cbn [with_held a_handles a_accepting a_cancelling a_closing a_cancel_pend a_close_pend upd eta eta_acceptor_sys] in *.
  all: repeat case_decide; try exact HQ.
  all: try (case_match; [|exact HQ]).
  all: by eapply Hk, HQ; intros [].
Qed.

#[export] Instance acceptor_component : Component R acceptor_impl := {|
  owners := acceptor_sys; act := acceptor_op; perform := run_acceptor_op;
  owns F y o _ := F = Footprint [] (acceptor_slots y o) [] ∧ acceptor_owned y o |}.

#[export] Instance acceptor_component_laws : ComponentLaws R acceptor_impl.
Proof.
  split; [by intros ? ? ? ? ? ?|]. intros p a F X y o w [-> Ho] Hb. cbn [perform acceptor_component].
  pose proof (bs_slots _ _ Hb) as Hs. pose proof (bs_entries _ _ Hb) as He.
  assert (acceptor_inv (with_held (fp_slots X) y) (Cell w o)) as Hi.
  { apply acceptor_inv_owned. split_and!; [cbn; lia|done|exact Hs]. }
  eapply wp_mono; [apply (wp_keeps (of_world buffers_of)); [apply acceptor_op_keeps|]|].
  { destruct (in_hand a y) eqn:Hn.
    - apply (acceptor_op_frame p a y (fp_slots X)); [exact Hn|]. eapply run_acceptor_op_inv. exact Hi.
    - destruct a as [| | | | | | | | | | |n]; try done. unfold run_acceptor_op, give_back. apply wp_bind, wp_get.
      apply Nat.ltb_ge in Hn. cbn. rewrite lookup_ge_None_2 by done. apply wp_ret. exact Hi. }
  intros y' c [Hi' Hk]. apply acceptor_inv_owned in Hi' as (_ & Ho' & Hs').
  by apply (settled_slots (Footprint [] (acceptor_slots y o) []) (Footprint [] (acceptor_slots y' (object c)) [])).
Qed.

(** *** Files own their slot and the one they are being opened on *)

Definition file_slots (o : option file_impl) : list Z :=
  match o with Some f => file_slot f ++ temp_slot f | None => [] end.

Definition file_owned (y : file_sys) (o : option file_impl) : Prop :=
  match o with
  | None => file_refs y = 0
  | Some f => 0 < fl_count_ f ∧ fl_count_ f = file_refs y + pending_ops f ∧ file_flags y f
  end.

Lemma file_inv_owned l y c : file_inv l y c ↔
  1 ≤ sq_entries (io_ring_ (frame (world c))) ∧ file_owned y (object c) ∧ slots_ok (file_slots (object c) ++ l) (world (R := R) c).
Proof.
  unfold file_inv, file_ok, file_owned, file_slots. destruct (object c) as [f|]; [|done].
  rewrite <- !app_assoc, Z.add_0_r. tauto.
Qed.

Lemma file_op_keeps p op y : keeps (of_world buffers_of) (run_file_op (R := R) p op y).
Proof. keeps_solve ltac:(cbn [destructor await_process_cqe take_handle file_awaitable_base]). Qed.

#[export] Instance file_component : Component R file_impl := {|
  owners := file_sys; act := file_op; perform := run_file_op;
  owns F y o _ := F = Footprint [] (file_slots o) [] ∧ file_owned y o |}.

#[export] Instance file_component_laws : ComponentLaws R file_impl.
Proof.
  split; [by intros ? ? ? ? ? ?|]. intros p a F X y o w [-> Ho] Hb.
  pose proof (bs_slots _ _ Hb) as Hs. pose proof (bs_entries _ _ Hb) as He.
  eapply wp_mono; [apply (wp_keeps (of_world buffers_of)); [apply file_op_keeps|]|].
  { apply (run_file_op_inv _ _ (fp_slots X)), file_inv_owned. split_and!; [cbn; lia|done|exact Hs]. }
  intros y' c [Hi' Hk]. apply file_inv_owned in Hi' as (_ & Ho' & Hs').
  by apply (settled_slots (Footprint [] (file_slots o) []) (Footprint [] (file_slots (object c)) [])).
Qed.
End Descriptors.
