(* ===== verification/ComponentStream.v ===== *)
(** Streams and clients as components: what a stream owns, and [StreamSafe]'s
    invariant of one stream among others as that of a component. *)

From S2P Require Import Prelude Uring Buffer BufferSpec Frame BufRing Executor Awaitable Duration Slots.
From S2P Require Import Stream StreamRecv StreamInv StreamSafe Component.

(** What [X] is to an object in a context with the heap [m]. *)
Definition others_of (X : footprint) (m : mem) : Others := {|
  other_blocks := map_imap (λ a h, if decide (a ∈ fp_blocks X) then Some (h, payload m !! a) else None) (headers m);
  other_slots := fp_slots X;
  other_groups := fp_groups X |}.

Section Others.
Implicit Types (X : footprint) (m : mem).

Lemma other_block X m a hb : other_blocks (Others := others_of X m) !! a = Some hb ↔
  a ∈ fp_blocks X ∧ headers m !! a = Some hb.1 ∧ payload m !! a = hb.2.
Proof.
  cbn. rewrite map_lookup_imap. destruct (headers m !! a) as [h|]; cbn; [|naive_solver].
  destruct hb as [h' b]. cbn. case_decide; naive_solver.
Qed.

Lemma is_other_of X m a : is_other (HO := others_of X m) a ↔ a ∈ fp_blocks X ∧ is_Some (headers m !! a).
Proof.
  unfold is_other. split.
  - intros [hb (Ha & E & _)%other_block]. by split; [|eexists].
  - intros [Ha [h E]]. exists (h, payload m !! a). by apply other_block.
Qed.

Lemma kept_of_refl X m : others_kept (HO := others_of X m) m.
Proof. by intros a hb (_ & ? & ?)%other_block. Qed.

Lemma kept_of X m m' : (∀ a, a ∈ fp_blocks X → is_Some (headers m !! a)) →
  others_kept (HO := others_of X m) m' → same_blocks (fp_blocks X) m m'.
Proof.
  intros Ha Hk a Hin. destruct (Ha a Hin) as [h E].
  destruct (Hk a (h, payload m !! a)) as [-> ->]; [by apply other_block|]. by rewrite E.
Qed.
End Others.

Section Streams.
Context {R : Type} {HU : IoUring R} {HUL : IoUringLaws R} {HB : IoUringBufs R} {HBL : IoUringBufsLaws R}.
Context {HSep : IoUringSeparate R} {HS : UnorderedBegin} {HSL : UnorderedBeginLaws}.
Implicit Types (w : ctx R) (s : stream_impl) (y : stream_sys).

(** A stream owns the blocks of its sequence and its slot; it uses the group of its
    buffers, unless it has none and receives nothing. *)
Definition stream_owned (F : footprint) (y : stream_sys) (o : option stream_impl) (w : ctx R) : Prop :=
  match o with
  | None => refs y = 0 ∧ F = ∅
  | Some s =>
      let q := buffers_ (st_recv s) in
      let id := buffer_group_id_ (st_recv s) in
      0 < refs y ∧ stream_counts y s ∧ ∃ l gs,
        F = Footprint (p_sentry_ q :: l) (stream_slot s) gs ∧
        seq_rep (heap w) q l ∧ p_sentry_ q ≠ default_buf_header ∧ Forall (block_ok (heap w)) l ∧
        (gs = [id `mod` 2 ^ 16] ∨ gs = [] ∧ l = [] ∧ id = -1 ∧ rf_initiated_ (st_recv s) = false)
  end.

Lemma stream_owned_kept F y o w w' : stream_owned F y o w → same_blocks (fp_blocks F) (heap w) (heap w') →
  stream_owned F y o w'.
Proof.
  destruct o as [s|]; [|done]. intros (Hr & Hc & l & gs & -> & Hs & Hd & Hok & Hg) Hsame. split_and!; [done|done|].
  exists l, gs. split_and!; [done| |done| |done].
  - eapply seq_rep_same; [|exact Hs]. intros a Ha. by apply Hsame.
  - rewrite Forall_forall in *. intros a Ha. destruct (Hsame a) as [E1 E2]; [by right|].
    eapply block_ok_same; [done|done|]. by apply Hok.
Qed.

(** Among others, a stream meets the invariant of [StreamInv]. *)
Lemma stream_owned_inv F X y o w : stream_owned F y o w → base (F ⊎ X) w →
  stream_inv (HO := others_of X (heap w)) y (Cell w o).
Proof.
  intros Ho [B1 B2 B3 B4 B5 B6 B7 B8 B9 B10]. cbn in *. apply NoDup_app in B8 as (_ & Hdisj & _).
  assert (groups_in (fp_groups X) w) as Hgr by (intros g Hg; apply B3, elem_of_app; by right).
  assert (∀ a, a ∈ fp_blocks X → ∀ g, ¬ in_ring w g a) as HX by (intros a Ha; apply B10, elem_of_app; by right).
  destruct o as [s|].
  - destruct Ho as (Hr & Hc & l & gs & -> & Hs & Hd & Hok & Hg). cbn in *. split_and!; [done|done|]. cbn.
    split_and!; [done|exact B2|exact Hgr|]. exists l. split.
    + split; try done.
      * intros g p Hp. split; [|by eapply B6]. intros Hin. apply (B10 p) with (g := g); [|done].
        apply (elem_of_app (_ :: l)). by left.
      * apply kept_of_refl.
      * intros a [Ha _]%is_other_of. split; [|by apply HX]. intros Hin. by apply (Hdisj a).
    + destruct Hg as [->|(-> & -> & ? & ?)]; [left; apply B3; left|by right].
  - destruct Ho as [Hr ->]. split; [exact Hr|]. split_and!; [exact B1|exact B2|exact Hgr|]. split; try done.
    + apply kept_of_refl.
    + intros a [Ha _]%is_other_of. by apply HX.
Qed.

(** And a stream that meets it is apart from the others. *)
Lemma stream_inv_settled X y w c : NoDup (fp_blocks X) →
  (∀ a, a ∈ fp_blocks X → is_Some (headers (heap w) !! a)) → stream_inv (HO := others_of X (heap w)) y c →
  ∃ F, stream_owned F y (object c) (world c) ∧ base (F ⊎ X) (world c) ∧
    same_blocks (fp_blocks X) (heap w) (heap (world c)).
Proof.
  intros Hnd Hal Hi. unfold stream_inv in Hi. destruct (object c) as [s|].
  - destruct Hi as (Hr & Hc & He & Hs & Hgr & l & [W1 W2 W3 W4 W5 W6 W7 W8 W9] & Hg). cbn in Hs, Hgr.
    pose proof (kept_of _ _ _ Hal W8) as Hsame.
    set (q := buffers_ (st_recv s)) in *. set (id := buffer_group_id_ (st_recv s)) in *.
    assert (∃ gs, groups_in gs (world c) ∧ (gs = [id `mod` 2 ^ 16] ∨ gs = [] ∧ l = [] ∧ id = -1 ∧ rf_initiated_ (st_recv s) = false))
      as (gs & Hgs & Hg').
    { destruct Hg as [Hg|Hg]; [exists [id `mod` 2 ^ 16]|exists []]; (split; [|by auto]); intros g Hin.
      - by apply list_elem_of_singleton in Hin as ->.
      - by apply not_elem_of_nil in Hin. }
    exists (Footprint (p_sentry_ q :: l) (stream_slot s) gs). split_and!; [|split; cbn|done].
    + split_and!; [done|done|]. by exists l, gs.
    + done.
    + done.
    + intros g [Hin|Hin]%elem_of_app; [by apply Hgs|by apply Hgr].
    + done.
    + done.
    + intros g p Hp. by apply (W6 g).
    + done.
    + apply (NoDup_app (p_sentry_ q :: l)). split_and!; [apply W2| |done]. intros a Ha Hin.
      by apply (W9 a); [apply is_other_of; auto|].
    + intros a [Ha|Ha]%(elem_of_app (p_sentry_ q :: l)).
      * apply elem_of_cons in Ha as [->|Ha]; [by eapply rep_sentry_alloc|by eapply rep_alloc].
      * destruct (Hsame a Ha) as [-> _]. by apply Hal.
    + intros a [Ha|Ha]%(elem_of_app (p_sentry_ q :: l)).
      * intros g Hg1. destruct (W6 g a Hg1) as [Hn _]. by apply Hn.
      * apply W9, is_other_of. auto.
  - destruct Hi as (Hr & He & Hs & Hgr & [W1 W2 W3 W4 W5 W6]). pose proof (kept_of _ _ _ Hal W5) as Hsame.
    exists ∅. split_and!; [done|split; cbn; try done|done].
    + intros a Ha. destruct (Hsame a Ha) as [-> _]. by apply Hal.
    + intros a Ha. apply W6, is_other_of. auto.
Qed.

#[export] Instance stream_component : Component R stream_impl := {|
  owners := stream_sys; act := stream_op; perform := stream_step;
  owns := stream_owned |}.

#[export] Instance stream_component_laws : ComponentLaws R stream_impl.
Proof.
  split; [intros; by eapply stream_owned_kept|]. intros p a F X y o w Ho Hb.
  eapply wp_mono; [apply (stream_step_inv (HO := others_of X (heap w))); by eapply stream_owned_inv|].
  intros y' c Hi. pose proof (bs_nodup _ _ Hb) as Hn. pose proof (bs_alloc _ _ Hb) as Hal. cbn in Hn, Hal.
  apply NoDup_app in Hn as (_ & _ & Hn). eapply stream_inv_settled; [exact Hn| |exact Hi].
  intros b Hin. apply Hal, elem_of_app. by right.
Qed.

(** ** New streams and clients *)

(** The constructor of a sequence allocates a block apart from everything. *)
Lemma wp_base_sequence F w (Q : recv_buffer_sequence → ctx R → Prop) : base F w →
  (∀ q w', seq_rep (heap w') q [] → p_sentry_ q ≠ default_buf_header → base (Footprint [p_sentry_ q] [] [] ⊎ F) w' →
     same_blocks (fp_blocks F) (heap w) (heap w') → Q q w') →
  wp (on_heap sequence_new) w Q.
Proof.
  intros [B1 B2 B3 B4 B5 B6 B7 B8 B9 B10] HQ. apply wp_on_heap, wp_new_seq; [done|]. intros q m Hs Hw Hf Hd Hp Hm.
  assert (∀ a, is_Some (headers (heap w) !! a) → headers m !! a = headers (heap w) !! a ∧ payload m !! a = payload (heap w) !! a)
    as Hsame by (intros a [h E]; rewrite Hp; split; [apply Hm; congruence|done]).
  assert (∀ g p, in_ring w g p → is_Some (headers (heap w) !! p)) as Hring.
  { intros g p Hin. destruct (B6 g p Hin) as (_ & h & E & _). by eexists. }
  apply HQ; [exact Hs|done| |intros a Ha; by apply Hsame, B9]. split; cbn; try done.
  - intros g br Hg. destruct (B5 g br Hg) as [Hbw ?]. split; [|done]. eapply wf_heap; [exact Hbw| |apply Hw].
    intros p Hin Hpd. destruct (Hsame p) as [-> _]; [|done]. apply (Hring g). by exists br.
  - intros g p Hin. destruct (B6 g p Hin) as ((? & ? & ?) & ?). destruct (Hsame p (Hring _ _ Hin)) as [E1 E2].
    split; [|by eapply block_ok_same]. split_and!; [done|done|by rewrite E1].
  - constructor; [|done]. intros Hin. destruct (B9 _ Hin) as [h E]. congruence.
  - intros a [->|Ha]%elem_of_cons; [by eapply rep_sentry_alloc|]. destruct (Hsame a) as [-> _]; by apply B9.
  - intros a [->|Ha]%elem_of_cons g Hin; [destruct (Hring _ _ Hin); congruence|by apply (B10 a Ha g)].
Qed.

(** A handle, and the timer in flight. *)
Definition new_stream_owners : stream_sys := StreamSys 1 0 0 0 0 0 0 1 0 0 0.

Lemma wp_stream_impl_new p d F w (Q : unit → cell R stream_impl → Prop) : base F w →
  (∀ q t w', seq_rep (heap w') q [] → p_sentry_ q ≠ default_buf_header → base (Footprint [p_sentry_ q] [] [] ⊎ F) w' →
     same_blocks (fp_blocks F) (heap w) (heap w') →
     Q tt (Cell w' (Some (StreamImpl 1 op_frame_new op_frame_new (ShutdownFrame op_frame_new 0) (SendFrame op_frame_new t)
       (RecvFrame q 0 None None t (-1) false) (TimeoutFrame true false) (TimeoutCancelFrame 0 false)
       (Ts 3 0) (-1) false false d)))) →
  wp (stream_impl_new p d) (Cell w None) Q.
Proof.
  intros Hb HQ. unfold stream_impl_new, now. apply wp_bind, wp_on_world, wp_gets, wp_bind, wp_on_world.
  cbn [world]. apply (wp_base_sequence F); [done|]. intros q w1 Hs Hd Hb1 Hsame. apply wp_bind, wp_modify.
  unfold upd at 1. cbn [world object]. cell_steps. apply wp_queue_one; [pose proof (bs_entries _ _ Hb1); cbn in *; lia|].
  intros w2 Hq. cell_steps. destruct (queued_same _ _ _ Hq) as (Eh & _). cbn in Eh. apply HQ; [by rewrite Eh|done| |by rewrite Eh].
  by eapply base_queued.
Qed.

(** What a new stream or client is to be: idle, with its timer in flight. *)
Lemma stream_new_settled X F w w' s : base (Footprint [p_sentry_ (buffers_ (st_recv s))] [] [] ⊎ F) w' →
  F ≡ Footprint [] (stream_slot s) [] ⊎ X → seq_rep (heap w') (buffers_ (st_recv s)) [] →
  p_sentry_ (buffers_ (st_recv s)) ≠ default_buf_header → same_blocks (fp_blocks X) (heap w) (heap w') →
  stream_counts new_stream_owners s → buffer_group_id_ (st_recv s) = -1 →
  settled X w new_stream_owners (Cell w' (Some s)).
Proof.
  intros Hb HF Hs Hd Hsame Hc Hg. rewrite HF, fp_union_assoc in Hb.
  exists (Footprint [p_sentry_ (buffers_ (st_recv s))] (stream_slot s) []). split_and!; [|exact Hb|done].
  split; [by compute|]. split; [done|]. exists [], []. split_and!; [done|done|done|by constructor|]. right.
  split_and!; [done|done|done|]. destruct Hc as (_ & _ & _ & _ & _ & Hr & _). by destruct (rf_initiated_ (st_recv s)).
Qed.

Lemma wp_client_settled p X w : base X w → wp (client_new p) (Cell w None) (λ _, settled X w new_stream_owners).
Proof.
  intros Hb. unfold client_new. apply wp_bind, (wp_stream_impl_new _ _ X); [done|]. intros q t w' Hs Hd Hb' Hsame.
  apply wp_cell_add_ref. apply (stream_new_settled X X); try done.
  vm_compute. split_and!; first [done | by left | by right].
Qed.

(** A stream on a slot that is nobody's. *)
Lemma wp_stream_settled p fd X w : base (Footprint [] [fd] [] ⊎ X) w →
  wp (stream_new p fd) (Cell w None) (λ _, settled X w new_stream_owners).
Proof.
  intros Hb. assert (0 ≤ fd) as Hfd by (apply (slots_ok_range _ _ fd (bs_slots _ _ Hb)); left).
  unfold stream_new. apply wp_bind, (wp_stream_impl_new _ _ (Footprint [] [fd] [] ⊎ X)); [done|].
  intros q t w' Hs Hd Hb' Hsame. apply wp_bind, wp_cell_upd, wp_cell_add_ref.
  apply (stream_new_settled X (Footprint [] [fd] [] ⊎ X)); try done.
  - unfold stream_slot. cbn. by rewrite (proj2 (Z.leb_le 0 fd)).
  - vm_compute. split_and!; first [done | by left | by right].
Qed.
End Streams.
