(* ===== verification/Program.v ===== *)
(** The runtime as a whole: the event loop with every kind of I/O object in its table,
    and data on their way from a completion to the coroutine that receives them. *)

From S2P Require Import Prelude Uring Buffer BufferSpec BufferFlat Frame BufRing Executor Task Awaitable Duration.
From S2P Require Import Timer Stream StreamRecv StreamInv StreamSafe Acceptor File IoContext EventLoop.

(** ** The objects of a program *)

Abbreviation io_object := (timer_impl + (stream_impl + (acceptor_impl + file_impl)))%type.

Definition stream_object (s : stream_impl) : io_object := inr (inl s).

Section Program.
Context {R : Type} {HU : IoUring R} {HUL : IoUringLaws R} {HQ : IoUringCq R} {HB : IoUringBufs R} {HBL : IoUringBufsLaws R}.
Context {HSep : IoUringSeparate R} {HS : UnorderedBegin} {HSL : UnorderedBeginLaws} {HO : Others} {HA : CoroAlloc}.

(** A virtual call on an object goes to the class it was made as. *)
#[local] Instance io_objects : ptr → AwaitableBase R io_object := λ p,
  sum_awaitable timer_awaitable_base
    (sum_awaitable (stream_awaitable_base p) (sum_awaitable acceptor_awaitable_base file_awaitable_base)).

Context {HE : LoopEnv R io_object}.
Implicit Types (s : loop R io_object) (st : stream_impl) (w : ctx R).

(** Code that works on the stream at [p]. *)
Definition at_stream {A} (p : ptr) (m : M (cell R stream_impl) A) : M (loop R io_object) A :=
  at_object p (lift_r (lift_r (lift_l m))).

(** The coroutine at the end of [co_await s.async_recv()]. *)
Definition receive (p : ptr) : M (loop R io_object) (result recv_buffer_sequence) := at_stream p (async_recv_finish p).

(** Lifting what a stream does to the table. *)
Lemma lift_l_run {A B X} (m : M (cell R A) X) w a x w' a' :
  m (Cell w (Some a)) = (Ret x, Cell w' (Some a')) →
  lift_l (B := B) m (Cell w (Some (inl a))) = (Ret x, Cell w' (Some (inl a'))).
Proof. intros E. unfold lift_l. cbn. by rewrite E. Qed.

Lemma stream_call_run {X} (m : M (cell R stream_impl) X) w st x w' st' :
  m (Cell w (Some st)) = (Ret x, Cell w' (Some st')) →
  lift_r (A := timer_impl) (lift_l (B := acceptor_impl + file_impl) m) (Cell w (Some (stream_object st))) =
    (Ret x, Cell w' (Some (stream_object st'))).
Proof. intros E. by apply lift_r_run, lift_l_run. Qed.

Lemma at_stream_run {X} p (m : M (cell R stream_impl) X) s st x w' st' : objs s !! p = Some (inr (stream_object st)) →
  m (Cell (lctx s) (Some st)) = (Ret x, Cell w' (Some st')) →
  at_stream p m s = (Ret x, Loop w' (<[p := inr (stream_object st')]> (objs s))).
Proof.
  intros Hp E. unfold at_stream, at_object. rewrite Hp.
  rewrite (lift_r_run _ _ _ _ _ _ (stream_call_run _ _ _ _ _ _ E)). done.
Qed.

Lemma io_process_stream p k e w st w' st' :
  stream_process_cqe p k e (Cell w (Some st)) = (Ret tt, Cell w' (Some st')) →
  @await_process_cqe _ _ (io_objects p) k e (Cell w (Some (stream_object st))) = (Ret tt, Cell w' (Some (stream_object st'))).
Proof. intros E. cbn. by rewrite E. Qed.

Lemma io_handle_stream p k w st h w' st' :
  stream_handle k (Cell w (Some st)) = (Ret h, Cell w' (Some st')) →
  @take_handle _ _ (io_objects p) k (Cell w (Some (stream_object st))) = (Ret h, Cell w' (Some (stream_object st'))).
Proof. intros E. cbn. by rewrite E. Qed.

(** What the completion of a receive with data leaves, and the result its receiver gets. *)
Lemma data_cqe_run p st w g br i pb len more : recv_world (buffers_ (st_recv st)) [] w → p_buf_ring_ (st_recv st) = Some g →
  rings w !! (g `mod` 2 ^ 16) = Some br → bufs_ br !! i = Some pb → pb ≠ default_buf_header →
  0 < len ≤ Z.of_nat (length (block (heap w) pb)) →
  ∃ q w1, stream_process_cqe p FkRecv (Cqe (Some (p, FkRecv)) len (data_flags i more)) (Cell w (Some st)) =
      (Ret tt, Cell w1 (Some (recv_done q (ec_ (st_recv st)) (clock w) more st))) ∧
    recv_world q [pb] w1 ∧ buffers_only w w1 ∧ rings w1 = <[g `mod` 2 ^ 16 := taken br i]> (rings w) ∧
    bytes_of (heap w1) pb = take (Z.to_nat len) (block (heap w) pb).
Proof.
  intros Hw Hb Hg Hi Hp Hlen.
  assert (wp (recv_process_cqe (Cqe (Some (p, FkRecv)) len (data_flags i more))) (Cell w (Some st)) (λ _ c, ∃ q w1,
    c = Cell w1 (Some (recv_done q (ec_ (st_recv st)) (clock w) more st)) ∧
    recv_world q [pb] w1 ∧ buffers_only w w1 ∧ rings w1 = <[g `mod` 2 ^ 16 := taken br i]> (rings w) ∧
    bytes_of (heap w1) pb = take (Z.to_nat len) (block (heap w) pb))) as H.
  { eapply wp_recv_data; [done|exact Hw|exact Hb|exact Hg|exact Hi|exact Hp|exact Hlen|].
    intros q w1 Hw1 Ho Hr _ _ Hby. exists q, w1. split_and!; [done|exact Hw1|exact Ho|exact Hr|].
    cbn in Hby. unfold all_bytes in Hby. cbn in Hby. by rewrite app_nil_r in Hby. }
  apply wp_run in H as ([] & c & E & q & w1 & -> & H). by exists q, w1.
Qed.

Lemma receive_run p s st q pb br : objs s !! p = Some (inr (stream_object st)) → 2 ≤ st_count_ st →
  buffers_ (st_recv st) = q → recv_world q [pb] (lctx s) → rings (lctx s) !! (buffer_group_id_ (st_recv st) `mod` 2 ^ 16) = Some br →
  ∃ q1 s2, receive p s = (Ret (Ok q1), s2) ∧ seq_rep (heap (lctx s2)) q1 [pb] ∧ Forall (block_ok (heap (lctx s2))) [pb] ∧
    all_bytes (heap (lctx s2)) [pb] = all_bytes (heap (lctx s)) [pb].
Proof.
  intros Hp Hc Hq Hw Hbr.
  assert (wp (async_recv_finish p) (Cell (lctx s) (Some st)) (λ r c, ∃ q1 w' st', r = Ok q1 ∧ c = Cell w' (Some st') ∧
    seq_rep (heap w') q1 [pb] ∧ Forall (block_ok (heap w')) [pb] ∧ all_bytes (heap w') [pb] = all_bytes (heap (lctx s)) [pb])) as H.
  { unfold async_recv_finish. apply wp_finally_ret. eapply wp_recv_resume_data; [exact Hq|exact Hw|done|exact Hbr|].
    intros q1 q2 w' es ids br' _ _ Hs Hok Hby _ _ _ _ _.
    apply (wp_cell_release (HA := stream_awaitable_base p)); cbn; [intros _|lia]. by eexists q1, w', _. }
  apply wp_run in H as (r & c & E & q1 & w' & st' & -> & -> & Hs & Hok & Hby).
  eexists q1, _. split; [eapply at_stream_run; [exact Hp|exact E]|]. by split_and!.
Qed.

(** C7. Data reach the coroutine that waits for them: when the kernel reports [len] bytes in a
    buffer of the stream's group, one pass of the event loop resumes the coroutine that
    awaits the receive, and what that coroutine is given are those [len] bytes. *)
Theorem data_resumes_receiver p i (more : bool) len s s0 st h g br pb :
  wait_batch s = (Ret [Cqe (Some (p, FkRecv)) len (data_flags i more)], s0) →
  objs s0 !! p = Some (inr (stream_object st)) → 3 ≤ st_count_ st → rf_h_ (st_recv st) = Some h →
  recv_world (buffers_ (st_recv st)) [] (lctx s0) → exception_ptr_ (frame (lctx s0)) = None →
  p_buf_ring_ (st_recv st) = Some g → buffer_group_id_ (st_recv st) = g → rings (lctx s0) !! (g `mod` 2 ^ 16) = Some br →
  bufs_ br !! i = Some pb → pb ≠ default_buf_header → 0 < len ≤ Z.of_nat (length (block (heap (lctx s0)) pb)) → len < 2 ^ 31 →
  ∃ s1 q s2, poll_io s = coro_resume h s1 ∧ receive p s1 = (Ret (Ok q), s2) ∧
    to_bytes q (heap (lctx s2)) = (Ret (take (Z.to_nat len) (block (heap (lctx s0)) pb)), heap (lctx s2)).
Proof.
  intros Hwait Hp Hc Hh Hw Hx Hb Hg Hr Hi Hd Hl Hl64.
  destruct (data_cqe_run p st (lctx s0) g br i pb len more Hw Hb Hr Hi Hd Hl) as (q & w1 & E1 & Hw1 & Ho & Hr1 & Hby).
  set (st1 := recv_done q (ec_ (st_recv st)) (clock (lctx s0)) more st) in *.
  set (st2 := upd_recv (λ f, f <| rf_h_ := None |>) st1).
  assert (stream_handle FkRecv (Cell w1 (Some st1)) = (Ret (Some h), Cell w1 (Some st2))) as E2.
  { unfold stream_handle, exchange_h, recv_handle, this, upd_this. munfold. cbn. by rewrite Hh. }
  pose proof (completion_resumes_coroutine p FkRecv _ (stream_object st) (stream_object st1) (stream_object st2) w1 w1 h
    s s0 Hwait eq_refl Hp) as Hrun.
  assert (st_count_ st2 = st_count_ st + (if more then 1 else 0)) as Hc2 by (destruct more; cbn; lia).
  rewrite Hrun; [|change (1 ≤ st_count_ st); lia|by apply io_process_stream|by apply io_handle_stream|by rewrite (bo_frame _ _ Ho)|change (st_count_ st2 ≠ 1); destruct more; lia].
  set (s1 := advanced 1 _).
  assert (recv_world q [pb] (lctx s1)) as Hw2 by (by eapply recv_world_ext; [| |exact Hw1]).
  edestruct (receive_run p s1 (upd_count Z.pred st2) q pb) as (q1 & s2 & E3 & Hs & Hok & Hall);
    [by apply lookup_insert_eq|change (2 ≤ Z.pred (st_count_ st2)); destruct more; lia|by destruct more|exact Hw2| |].
  { replace (buffer_group_id_ _) with g by (by destruct more). change (rings (lctx s1)) with (rings w1).
    by rewrite Hr1, lookup_insert_eq. }
  exists s1, q1, s2. split; [done|]. split; [exact E3|].
  assert (all_bytes (heap (lctx s1)) [pb] = take (Z.to_nat len) (block (heap (lctx s0)) pb)) as Hb1.
  { unfold all_bytes. cbn [concat map]. by rewrite app_nil_r. }
  rewrite <- Hb1, <- Hall. apply to_bytes_run; [done|done|].
  rewrite Hall, Hb1, length_take. lia.
Qed.
End Program.
