(* ===== verification/ProgramSafe.v ===== *)
(** A whole program: any number of timers, streams, clients, acceptors and files on
    one context, used in any order.  The classes are composed as components, so what
    is shown of one object among others holds for all of them at once. *)

From S2P Require Import Prelude Uring Buffer BufferSpec Frame BufRing Executor Awaitable Keeps Duration Slots.
From S2P Require Import Timer Stream StreamRecv StreamInv StreamSafe IoContext Acceptor AcceptorSafe File FileSafe EventLoop.
From S2P Require Import Component ComponentIo ComponentStream Program.

(** What is done to one object. *)
Abbreviation io_act := (timer_op + (stream_op + (acceptor_op + file_op)))%type.
(** What holds references to it. *)
Abbreviation io_owners := (timer_sys + (stream_sys + (acceptor_sys + file_sys)))%type.

(** What a program does next: an operation, a resumption, a completion or a
    destruction at an object; a new object at an address; the end of an accept,
    whose connection gets the address [peer]; a stream on the slot of a connection
    that was accepted without one; a ring of buffers; and time. *)
Inductive program_act :=
| Do (p : ptr) (a : io_act)
| Make_timer (p : ptr) | Make_file (p : ptr) | Make_client (p : ptr)
| Accept_stream (p peer : ptr)
| Make_stream (peer p : ptr) (n : nat)
| Register_ring (num_bufs buf_size bgid : Z)
| Tick (t : Z).

Section ProgramSafe.
Context {R : Type} {HU : IoUring R} {HUL : IoUringLaws R} {HB : IoUringBufs R} {HBL : IoUringBufsLaws R}.
Context {HSep : IoUringSeparate R} {HS : UnorderedBegin} {HSL : UnorderedBeginLaws}.

Abbreviation LM := (M (loop R io_object)).
Abbreviation table := (gmap ptr io_owners).

(** The classes together. *)
Definition io_component : Component R io_object := sum_component.
#[local] Existing Instance io_component.

(** [new]: the address is not in use. *)
Definition made (o : io_object) (y : io_owners) : M (cell R io_object) io_owners :=
  modify (λ c, c <| object := Some o |>) ;; mret y.

Definition make_at (p : ptr) (m : M (cell R io_object) io_owners) (T : table) : LM table :=
  s ← get;
  if decide (T !! p = None ∧ objs s !! p = None) then at_component (HC := io_component) p m T else mret T.

Definition new_timer_owners : io_owners := inl (TimerSys 1 false false 0 0).
Definition new_file_owners : io_owners := inr (inr (inr (FileSys 1 false false false))).

(** The coroutine that awaits the acceptor at [p] goes on. *)
Definition accept_stream (p peer : ptr) (T : table) : LM table :=
  s ← get;
  match T !! p, objs s !! p with
  | Some (inr (inr (inl y))), Some (inr (inr (inr (inl a)))) =>
      if a_accepting y && af_done_ (ac_accept a) && bool_decide (T !! peer = None ∧ objs s !! peer = None) then
        r ← at_object p (lift_r (lift_r (lift_r (lift_l (async_accept_finish p peer)))));
        let T := <[p := inr (inr (inl (y <| a_accepting := false |>)))]> T in
        match r with
        | Ok st =>
            modify (λ s, s <| objs ::= <[peer := inr (stream_object st)]> |>) ;;
            mret (<[peer := inr (inl new_stream_owners)]> T)
        | Err _ => mret T
        end
      else mret T
  | _, _ => mret T
  end.

(** The slot of the connection passes from the acceptor to the stream. *)
Definition make_stream (peer p : ptr) (n : nat) (T : table) : LM table :=
  s ← get;
  match T !! p with
  | Some (inr (inr (inl y))) =>
      match a_held y !! n with
      | Some fd =>
          if decide (T !! peer = None ∧ objs s !! peer = None) then
            at_component (HC := io_component) peer (lift_r (lift_l (stream_new peer fd)) ;; mret (inr (inl new_stream_owners)))
              (<[p := inr (inr (inl (y <| a_held ::= delete n |>)))]> T)
          else mret T
      | None => mret T
      end
  | _ => mret T
  end.

Definition program_step (a : program_act) (T : table) : LM table :=
  match a with
  | Do p a => table_act (HC := io_component) p a T
  | Make_timer p => make_at p (made (inl timer_new) new_timer_owners) T
  | Make_file p => make_at p (made (inr (inr (inr file_new))) new_file_owners) T
  | Make_client p => make_at p (lift_r (lift_l (client_new p)) ;; mret (inr (inl new_stream_owners))) T
  | Accept_stream p peer => accept_stream p peer T
  | Make_stream peer p n => make_stream peer p n T
  | Register_ring n sz bgid =>
      if (0 <=? n) && (n <? 2 ^ 32) && (0 <? sz) then on_ctx (attempt (register_buf_ring n sz bgid)) ;; mret T else mret T
  | Tick t => s ← get; if clock (lctx s) <=? t then on_ctx (modify (λ w, w <| clock := t |>)) ;; mret T else mret T
  end.

Definition run_program (l : list program_act) (T : table) : LM table :=
  foldl (λ m a, m ≫= program_step a) (mret T) l.

(** Each object has what it owns; this and [X], which is nobody's, are apart. *)
Definition program_inv (X : footprint) (T : table) (s : loop R io_object) : Prop :=
  table_inv (HC := io_component) X T s.

(** ** New objects *)

Lemma wp_made o y X w : (∀ w, owns (R := R) ∅ (y : owners R io_object) (Some o) w) → base X w →
  wp (made o y) (Cell w None) (settled X w).
Proof.
  intros Ho Hb. apply wp_bind, wp_modify, wp_ret. exists ∅. split_and!; [apply Ho|by rewrite fp_empty_union|apply same_blocks_refl].
Qed.

Lemma make_at_inv p m (T : table) s X : (∀ Y, base Y (lctx s) → wp m (Cell (lctx s) None) (settled Y (lctx s))) →
  program_inv X T s → wp (make_at p m T) s (program_inv X).
Proof.
  intros Hm Hi. apply wp_bind, wp_get. case_decide as Hp; [|by apply wp_ret]. destruct Hp as [HT Hp].
  apply (wp_table_new (HC := io_component) p m T s ∅ X); [|done..|].
  - destruct Hi as (P & Hb & Hall). exists P. split; [by rewrite fp_empty_union|done].
  - intros Y Hb. apply Hm. by rewrite fp_empty_union in Hb.
Qed.

Lemma wp_lift_stream (m : M (cell R stream_impl) unit) y X w :
  wp m (Cell w None) (λ _, settled X w (y : owners R stream_impl)) →
  wp (lift_r (lift_l m) ;; mret (inr (inl y))) (Cell w None) (settled (O := io_object) X w).
Proof.
  intros Hm. apply wp_bind, (wp_lift_right _ _ None), (wp_lift_left _ _ None). eapply wp_mono; [exact Hm|].
  intros [] c (F & Ho & Hb & Hs). apply wp_ret. exists F. split_and!; [|done|done]. do 2 (eexists; split; [done|]). exact Ho.
Qed.

Lemma acceptor_hands_out y n fd F o (w : ctx R) : a_held y !! n = Some fd →
  owns F (inr (inr (inl y)) : owners R io_object) o w →
  ∃ F', F ≡ Footprint [] [fd] [] ⊎ F' ∧ owns F' (inr (inr (inl (y <| a_held ::= delete n |>))) : owners R io_object) o w.
Proof.
  intros Hn (o1 & -> & o2 & -> & o3 & -> & -> & Ho).
  exists (Footprint [] (acceptor_slots (y <| a_held ::= delete n |>) o3) []). split.
  - split_and!; [done| |done]. unfold acceptor_slots. cbn. rewrite (delete_Permutation _ _ _ Hn) at 1.
    by rewrite Permutation_middle.
  - do 3 (eexists; split; [done|]). done.
Qed.

Lemma make_stream_inv peer p n (T : table) s X : program_inv X T s → wp (make_stream peer p n T) s (program_inv X).
Proof.
  intros Hi. apply wp_bind, wp_get. destruct (T !! p) as [[?|[?|[y|?]]]|] eqn:HT; try by apply wp_ret.
  destruct (a_held y !! n) as [fd|] eqn:Hn; [|by apply wp_ret]. case_decide as Hp; [|by apply wp_ret]. destruct Hp as [HT' Hp].
  apply (wp_table_new (HC := io_component) _ _ _ _ (Footprint [] [fd] []) X).
  - apply (table_hand_out (HC := io_component) p (inr (inr (inl y))) (inr (inr (inl (y <| a_held ::= delete n |>)))) T s);
      [exact Hi|exact HT|]. intros F o Ho. by eapply acceptor_hands_out.
  - rewrite lookup_insert_ne; [done|]. congruence.
  - done.
  - intros Y Hb. apply wp_lift_stream. by apply wp_stream_settled.
Qed.

(** ** The end of an accept *)

Abbreviation acceptor_fp y o := (Footprint [] (acceptor_slots y o) []).

Lemma accept_dtor_keeps p : keeps (of_world buffers_of) (accept_awaitable_dtor (R := R) p).
Proof. keeps_solve ltac:(cbn [destructor acceptor_awaitable_base]). Qed.

(** The awaitable is destroyed. *)
Lemma wp_accept_dtor_owned p y a X w (Q : unit → cell R acceptor_impl → Prop) :
  ac_count_ a = acceptor_refs y + Z.b2z (accept_pending a) + 1 → accept_flags y (ac_accept a) →
  base (acceptor_fp y (Some a) ⊎ X) w →
  (∀ c, acceptor_owned y (object c) → base (acceptor_fp y (object c) ⊎ X) (world c) → heap (world c) = heap w → Q tt c) →
  wp (accept_awaitable_dtor p) (Cell w (Some a)) Q.
Proof.
  intros Hc Hf Hb HQ. eapply wp_mono; [apply (wp_keeps (of_world buffers_of)); [apply accept_dtor_keeps|]|].
  - apply (wp_accept_dtor _ (with_held (fp_slots X) y) _ _ (λ _, acceptor_inv (with_held (fp_slots X) y))); [|done].
    split_and!; [pose proof (bs_entries _ _ Hb); lia|exact Hc|exact Hf|].
    pose proof (bs_slots _ _ Hb) as Hs. cbn in Hs. unfold with_held. cbn. by rewrite <- !app_assoc in Hs.
  - intros [] c [Hi Hk]. apply acceptor_inv_owned in Hi as (_ & Ho & Hs). pose proof Hk as [= Eh Er En].
    apply HQ; [done| |done]. eapply (base_world _ _ w); [exact Hb|done|done|done|done| |exact Hs].
    rewrite En. apply Hb.
Qed.

(** The acceptor, and the stream of the connection. *)
Definition accepted (X : footprint) (w : ctx R) (y : acceptor_sys) (r : result stream_impl) (c : cell R acceptor_impl) : Prop :=
  acceptor_owned y (object c) ∧ same_blocks (fp_blocks X) (heap w) (heap (world c)) ∧
  match r with
  | Ok st => ∃ G, stream_owned G new_stream_owners (Some st) (world c) ∧ base (G ⊎ (acceptor_fp y (object c) ⊎ X)) (world c)
  | Err _ => base (acceptor_fp y (object c) ⊎ X) (world c)
  end.

Lemma wp_accept_settled p peer y a X w :
  acceptor_owned y (Some a) → base (acceptor_fp y (Some a) ⊎ X) w → a_accepting y = true → af_done_ (ac_accept a) = true →
  wp (async_accept_finish p peer) (Cell w (Some a)) (accepted X w (y <| a_accepting := false |>)).
Proof.
  intros (Hc & Hpos & Hi & Hd & Hp) Hb Ha Hdn. rewrite Ha in Hi. set (y' := y <| a_accepting := false |>).
  assert (accept_pending a = false) as Hn by (unfold accept_pending; by rewrite Hi, Hdn). rewrite Hn in Hc. cbn in Hc.
  set (a' := upd_accept accept_reset a).
  assert (ac_count_ a' = acceptor_refs y' + Z.b2z (accept_pending a') + 1) as Hc'.
  { unfold acceptor_refs in *. rewrite Ha in Hc. cbn in *. lia. }
  assert (accept_flags y' (ac_accept a')) as Hf' by (by split_and!).
  unfold async_accept_finish, accept_await_resume. apply wp_finally_ret. cell_steps. fold a'.
  unfold acceptor_slots, peer_slot in Hb. rewrite Hi in Hb. cbn [andb] in Hb.
  destruct (Z.ltb_spec (peer_fd_ (ac_accept a)) 0) as [Hlt|Hge].
  - rewrite (proj2 (Z.leb_gt 0 _)) in Hb by lia. unfold acceptor_err. apply wp_bind, wp_from_errno; [lia|]. cell_steps.
    apply (wp_accept_dtor_owned _ y' _ X); [done|done|exact Hb|]. intros c Ho Hbc Eh. split_and!; [done|by rewrite Eh|done].
  - rewrite (proj2 (Z.leb_le 0 _)) in Hb by lia. set (fd := peer_fd_ (ac_accept a)) in *.
    assert (base (Footprint [] [fd] [] ⊎ (acceptor_fp y' (Some a') ⊎ X)) w) as Hb'.
    { rewrite fp_union_assoc. revert Hb. apply base_proper; [|done]. f_equiv. split_and!; [done| |done].
      unfold acceptor_slots, peer_slot. cbn. rewrite <- !app_assoc. apply Permutation_middle. }
    cell_steps. apply wp_build. eapply wp_mono; [by apply wp_stream_settled|].
    intros [] c (G & Ho & Hbc & Hs). destruct c as [w1 [st|]]; [|by destruct Ho as [Ho _]; cbn in Ho]. cbn in Ho, Hbc, Hs.
    exists st. split; [done|]. cell_steps.
    apply (wp_accept_dtor_owned _ y' _ (G ⊎ X)); [done|done| |].
    { by rewrite fp_union_assoc, (fp_union_comm (acceptor_fp y' _) G), <- fp_union_assoc. }
    intros c Hoc Hbc' Eh. split_and!; [done|by rewrite Eh|]. exists G. split.
    + eapply (stream_owned_kept G new_stream_owners (Some (st <| connected_ := true |>)) w1); [exact Ho|by rewrite Eh].
    + by rewrite fp_union_assoc, (fp_union_comm G (acceptor_fp _ _)), <- fp_union_assoc.
Qed.

Lemma wp_at_acceptor p (m : M (cell R acceptor_impl) (result stream_impl)) a s (Q : result stream_impl → loop R io_object → Prop) :
  objs s !! p = Some (inr (inr (inr (inl a)))) →
  wp m (Cell (lctx s) (Some a)) (λ r c,
    Q r (Loop (world c) (partial_alter (λ _, inr <$> (inr <$> (inr <$> (inl <$> object c)))) p (objs s)))) →
  wp (at_object p (lift_r (lift_r (lift_r (lift_l m))))) s Q.
Proof.
  intros Hp Hm. apply wp_at_object. rewrite Hp. apply (wp_lift_right _ _ (Some _)), (wp_lift_right _ _ (Some _)), (wp_lift_right _ _ (Some _)).
  apply (wp_lift_left _ _ (Some a)). exact Hm.
Qed.

(** The acceptor at [p] after an accept, in the table. *)
Lemma accepted_entry p y r c X w os : accepted X w y r c →
  entry_ok (HC := io_component) (Loop (world c) (partial_alter (λ _, inr <$> (inr <$> (inr <$> (inl <$> object c)))) p os)) p
    (Some (inr (inr (inl y)))) (Some (acceptor_fp y (object c))).
Proof.
  intros (Ho & _). exists (inr <$> (inr <$> (inl <$> object c))). split; [apply lookup_partial_alter_eq|].
  do 3 (eexists; split; [done|]). by split.
Qed.

Lemma program_inv_open X (T : table) s : program_inv X T s → ∃ P, base (total P ⊎ X) (lctx s) ∧
  ∀ p oy, T !! p = oy → entry_ok (HC := io_component) s p oy (P !! p).
Proof. intros (P & Hb & Hall). exists P. split; [done|]. intros p oy <-. apply Hall. Qed.

Lemma accept_stream_inv p peer (T : table) s X : program_inv X T s → wp (accept_stream p peer T) s (program_inv X).
Proof.
  intros Hi. apply wp_bind, wp_get.
  destruct (T !! p) as [[?|[?|[y|?]]]|] eqn:HT; try by apply wp_ret.
  destruct (objs s !! p) as [[?|[?|[?|[a|?]]]]|] eqn:Hp; try by apply wp_ret.
  destruct (_ && _ && _) eqn:Hok; [|by apply wp_ret].
  apply andb_true_iff in Hok as [[Ha Hd]%andb_true_iff [HTq Hq]%bool_decide_eq_true].
  assert (peer ≠ p) as Hne by congruence.
  destruct (program_inv_open X T s Hi) as (P & Hb & Hall). pose proof (Hall p _ HT) as HP.
  destruct (P !! p) as [F|] eqn:HF; [|done]. destruct HP as (o & Eo & Ho). rewrite Hp in Eo.
  destruct Ho as (o1 & -> & o2 & -> & o3 & -> & -> & Ho). destruct o3 as [a0|]; [|done].
  assert (a0 = a) as -> by (cbn in Eo; congruence).
  apply wp_bind, (wp_at_acceptor _ _ a); [done|]. eapply wp_mono.
  { apply (wp_accept_settled p peer y a (total (delete p P) ⊎ X)); [done| |done|done].
    by rewrite fp_union_assoc, <- (total_take P p). }
  intros r c Hacc. pose proof (accepted_entry p _ _ _ _ _ (objs s) Hacc) as Hentry. destruct Hacc as (_ & Hs & Hr).
  set (y' := y <| a_accepting := false |>) in *.
  set (s1 := Loop _ _) in *. set (P1 := <[p := acceptor_fp y' (object c)]> P).
  assert (∀ q, entry_ok (HC := io_component) s1 q (<[p := inr (inr (inl y'))]> T !! q) (P1 !! q)) as Hall1.
  { intros q. destruct (decide (q = p)) as [->|Hqp]; [unfold P1; by rewrite !lookup_insert_eq|]. unfold P1. rewrite !lookup_insert_ne by done.
    eapply entry_ok_kept; [by apply Hall|by apply lookup_partial_alter_ne|]. intros G HG.
    eapply same_blocks_sub; [|exact Hs]. intros b Hin. apply elem_of_app. left. eapply total_blocks; [by rewrite lookup_delete_ne|done]. }
  destruct r as [st|e].
  - destruct Hr as (G & HG & Hbc). apply wp_bind, wp_modify, wp_ret.
    assert (P1 !! peer = None) as HPq.
    { unfold P1. rewrite lookup_insert_ne by done. pose proof (Hall peer _ HTq) as Hn. by destruct (P !! peer). }
    exists (<[peer := G]> P1). split.
    + rewrite total_insert by done. unfold P1. rewrite total_set. cbn. by rewrite <- !fp_union_assoc.
    + intros q. destruct (decide (q = peer)) as [->|Hqp].
      * rewrite !lookup_insert_eq. exists (Some (stream_object st)). split; [apply lookup_insert_eq|].
        by do 2 (eexists (Some _); split; [done|]).
      * rewrite !(lookup_insert_ne _ peer) by done. eapply entry_ok_kept; [apply Hall1|by apply lookup_insert_ne|]. done.
  - apply wp_ret. exists P1. split; [|done]. unfold P1. by rewrite total_set, <- fp_union_assoc.
Qed.

Lemma program_step_inv a (T : table) s X : program_inv X T s → wp (program_step a T) s (program_inv X).
Proof.
  intros Hi. destruct a as [p a|p|p|p|p peer|peer p n|n sz g|t]; cbn [program_step].
  - by apply (table_act_inv (HC := io_component)).
  - apply make_at_inv; [|done]. intros Y Hb. apply wp_made; [|done]. intros w. by exists (Some timer_new).
  - apply make_at_inv; [|done]. intros Y Hb. apply wp_made; [|done]. intros w.
    do 3 (eexists (Some _); split; [done|]). split; [done|]. by vm_compute.
  - apply make_at_inv; [|done]. intros Y Hb. apply wp_lift_stream. by apply wp_client_settled.
  - by apply accept_stream_inv.
  - by apply make_stream_inv.
  - destruct (_ && _ && _) eqn:E; [|by apply wp_ret]. bool_simp.
    apply (wp_on_ctx_table (HC := io_component)); [exact Hi|]. intros F Hb.
    apply wp_attempt. by eapply wpx_register_ring.
  - apply wp_bind, wp_get. destruct (clock (lctx s) <=? t); [|by apply wp_ret].
    apply (wp_on_ctx_table (HC := io_component)); [exact Hi|]. intros F Hb. apply wp_modify.
    split; [|apply same_blocks_refl]. eapply base_world; [exact Hb|done..|apply Hb|apply Hb].
Qed.

Lemma run_program_inv l (T : table) s X : program_inv X T s → wp (run_program l T) s (program_inv X).
Proof.
  intros Hi. apply wp_foldl_inv; [|done]. intros a T' s'. apply program_step_inv.
Qed.
End ProgramSafe.
