(* ===== verification/ProgramLoop.v ===== *)
(** The event loop with every kind of I/O object in its table: which completions the
    kernel may post for them, and that any batch of such completions is processed
    safely. *)

From S2P Require Import Prelude Uring Buffer Frame BufRing Executor Awaitable Keeps Duration Slots.
From S2P Require Import Timer Stream StreamRecv StreamInv StreamSafe IoContext Acceptor AcceptorSafe File FileSafe EventLoop.
From S2P Require Import Component ComponentLoop ComponentIo ComponentStream Program ProgramSafe.

Section Virtuals.
Context {R : Type} {HU : IoUring R} {HUL : IoUringLaws R} {HB : IoUringBufs R} {HS : UnorderedBegin}.

#[export] Instance timer_virtuals : Virtuals R timer_impl timer_awaitable_base.
Proof.
  split; [intros k w Q; destruct k; by intros []|..];
    keeps_solve ltac:(cbn [destructor await_process_cqe take_handle timer_awaitable_base]).
Qed.

#[export] Instance acceptor_virtuals : Virtuals R acceptor_impl acceptor_awaitable_base.
Proof.
  split; [intros k w Q; destruct k; by intros []|..];
    keeps_solve ltac:(cbn [destructor await_process_cqe take_handle acceptor_awaitable_base]).
Qed.

#[export] Instance file_virtuals : Virtuals R file_impl file_awaitable_base.
Proof.
  split; [intros k w Q; destruct k; by intros []|..];
    keeps_solve ltac:(cbn [destructor await_process_cqe take_handle file_awaitable_base]).
Qed.

#[export] Instance stream_virtuals p : Virtuals R stream_impl (stream_awaitable_base p).
Proof.
  split; [intros k w Q; destruct k; first [by intros [] | by exists None, (Cell w None)]|..];
    keeps_solve ltac:(cbn [destructor await_process_cqe take_handle stream_awaitable_base]).
Qed.
End Virtuals.

(** ** Which completions the kernel posts

    A completion belongs to the operation of its frame; it is possible while that
    operation is in flight. *)

Section Completes.
Context {R : Type} {HU : IoUring R} {HUL : IoUringLaws R} {HB : IoUringBufs R} {HBL : IoUringBufsLaws R}.
Context {HSep : IoUringSeparate R} {HS : UnorderedBegin} {HSL : UnorderedBeginLaws}.

Lemma get_bind {S A} (k : S → M S A) s : (get ≫= k) s = k s s.
Proof. done. Qed.

(** It suffices that the operation is the dispatch, and then counts. *)
Lemma completes_by_dispatch {O} {HC : Component R O} {HN : RefCount O} (HO : ptr → AwaitableBase R O) (HF : Completes R O) :
  (∀ p (a : act R O) (y : owners R O) o k res flags w, completion y k res flags = Some a → possible a y o w = true →
    ∃ y', perform p a y (Cell w (Some o)) =
      (@dispatch _ _ _ (HO p) k (Cqe (Some (p, k)) res flags) ;; mret y') (Cell w (Some o))) →
  CompletesLaws R O HO.
Proof.
  intros H. split. intros p a y o k res flags w Q Hk Ha Hw. destruct (H p a y o k res flags w Hk Ha) as [y' E].
  exists y'. unfold wp in Hw. rewrite E in Hw |- *. revert Hw. unfold wp, mbind, M_bind, mret, M_ret.
  by destruct (dispatch _ _ _) as [[h|e|f] c].
Qed.

#[export] Instance timer_completes : Completes R timer_impl := @Build_Completes R timer_impl timer_component
  (λ y k res flags,
    if decide (flags = 0) then
      match k with FkTimer => Some (Op_wait_cqe res) | FkTimerCancel => Some (Op_cancel_cqe res) | _ => None end
    else None)
  (λ a y t w,
    match a with
    | Op_wait_cqe _ => bool_decide (wait_pend y ≠ 0%nat)
    | Op_cancel_cqe _ => bool_decide (cancel_pend y ≠ 0%nat)
    | _ => false
    end).

#[export] Instance timer_completes_laws : CompletesLaws R timer_impl (λ _, timer_awaitable_base).
Proof.
  apply completes_by_dispatch. intros p a y t k res flags w Hk Ha. cbn in Hk, Ha |- *. case_decide as Hf; [|done]. subst flags.
  unfold run_timer_op. setoid_rewrite get_bind. cbn [object].
  destruct k; simplify_eq; apply bool_decide_eq_true in Ha; rewrite decide_False by exact Ha; by eexists.
Qed.

#[export] Instance acceptor_completes : Completes R acceptor_impl := @Build_Completes R acceptor_impl acceptor_component
  (λ y k res flags,
    if decide (flags = 0) then
      match k with
      | FkAccept => Some (Aop_accept_cqe res)
      | FkAcceptorCancel => Some (Aop_cancel_cqe res)
      | FkAcceptorClose => Some (Aop_close_cqe res)
      | _ => None
      end
    else None)
  (λ a y o w,
    match a with
    | Aop_accept_cqe _ => accept_pending o
    | Aop_cancel_cqe _ => bool_decide (a_cancel_pend y ≠ 0%nat)
    | Aop_close_cqe _ => bool_decide (a_close_pend y ≠ 0%nat)
    | _ => false
    end).

#[export] Instance acceptor_completes_laws : CompletesLaws R acceptor_impl (λ _, acceptor_awaitable_base).
Proof.
  apply completes_by_dispatch. intros p a y o k res flags w Hk Ha. cbn in Hk, Ha |- *. case_decide as Hf; [|done]. subst flags.
  unfold run_acceptor_op. setoid_rewrite get_bind. cbn [object].
  destruct k; simplify_eq; first [rewrite Ha | apply bool_decide_eq_true in Ha; rewrite decide_False by exact Ha]; by eexists.
Qed.

#[export] Instance file_completes : Completes R file_impl := @Build_Completes R file_impl file_component
  (λ y k res flags,
    if decide (flags = 0) then
      match k with
      | FkOpen => Some (Fop_open_cqe res)
      | FkWrite => Some (Fop_rw_cqe Side_write res)
      | FkRead => Some (Fop_rw_cqe Side_read res)
      | _ => None
      end
    else None)
  (λ a y f w,
    match a with
    | Fop_open_cqe _ => open_pending f
    | Fop_rw_cqe d _ => rw_pending d f
    | _ => false
    end).

#[export] Instance file_completes_laws : CompletesLaws R file_impl (λ _, file_awaitable_base).
Proof.
  apply completes_by_dispatch. intros p a y o k res flags w Hk Ha. cbn in Hk, Ha |- *. case_decide as Hf; [|done]. subst flags.
  unfold run_file_op. setoid_rewrite get_bind. cbn [object].
  destruct k; simplify_eq; rewrite Ha; by eexists.
Qed.

(** A receive ends with an error or at the end of the stream, or brings data in a
    buffer of the group. *)
Definition recv_completion (res flags : Z) : option stream_op :=
  if res <? 0 then if flags =? 0 then Some (So_error_cqe res) else None
  else if res =? 0 then if flags =? 0 then Some So_eof_cqe else None
  else
    let i := Z.to_nat (Z.shiftr flags IORING_CQE_BUFFER_SHIFT) in
    let more := flag_set flags IORING_CQE_F_MORE in
    if flags =? data_flags i more then Some (So_data_cqe i res more) else None.

#[export] Instance stream_completes : Completes R stream_impl := @Build_Completes R stream_impl stream_component
  (λ y k res flags,
    match k with
    | FkRecv => recv_completion res flags
    | FkTimeout => Some (So_timeout_cqe res flags)
    | _ =>
        if flags =? 0 then
          match k with
          | FkCancel => Some (So_cancel_cqe res)
          | FkClose => Some (So_close_cqe res)
          | FkShutdown => Some (So_shutdown_cqe res)
          | FkSend => Some (So_send_cqe res)
          | FkTimeoutCancel => Some (So_timeout_cancel_cqe res)
          | FkSocket => Some (So_socket_cqe res)
          | FkConnect => Some (So_connect_cqe res)
          | _ => None
          end
        else None
    end)
  (λ a y s w, stream_op_ok a y w s).

#[export] Instance stream_completes_laws : CompletesLaws R stream_impl (λ p, stream_awaitable_base p).
Proof.
  apply completes_by_dispatch. intros p a y o k res flags w Hk Ha. cbn in Hk, Ha |- *.
  unfold stream_step. setoid_rewrite get_bind. cbn [object world]. rewrite Ha.
  destruct k; try done; try (destruct (Z.eqb_spec flags 0) as [->|]; [|done]; simplify_eq; by eexists).
  - unfold recv_completion in Hk. destruct (res <? 0).
    { destruct (Z.eqb_spec flags 0) as [->|]; [|done]. simplify_eq. by eexists. }
    destruct (Z.eqb_spec res 0) as [->|].
    { destruct (Z.eqb_spec flags 0) as [->|]; [|done]. simplify_eq. by eexists. }
    destruct (Z.eqb_spec flags (data_flags (Z.to_nat (Z.shiftr flags IORING_CQE_BUFFER_SHIFT)) (flag_set flags IORING_CQE_F_MORE)))
      as [E|]; [|done]. simplify_eq. cbn [run_stream_op]. rewrite <- E. by eexists.
  - simplify_eq. by eexists.
Qed.
End Completes.

(** ** A batch for the whole program *)

Section Batches.
Context {R : Type} {HU : IoUring R} {HUL : IoUringLaws R} {HQ : IoUringCq R} {HQL : IoUringCqLaws R} {HQS : IoUringCqSq R}.
Context {HB : IoUringBufs R} {HBL : IoUringBufsLaws R}.
Context {HSep : IoUringSeparate R} {HS : UnorderedBegin} {HSL : UnorderedBeginLaws} {HA : CoroAlloc} {HE : LoopEnv R io_object}.
#[local] Existing Instance io_component.
#[local] Existing Instance io_objects.

#[local] Existing Instance sum_virtuals.

Lemma io_virtuals p : Virtuals R io_object (io_objects p).
Proof. typeclasses eauto. Qed.

Definition io_completes : Completes R io_object := sum_completes.
#[local] Existing Instance io_completes.

Lemma io_completes_laws : CompletesLaws R io_object io_objects.
Proof.
  apply (sum_completes_laws (HA := timer_component) (OA := λ _, timer_awaitable_base)); [typeclasses eauto|].
  apply (sum_completes_laws (HA := stream_component) (OA := λ p, stream_awaitable_base p)); [typeclasses eauto|].
  apply (sum_completes_laws (HA := acceptor_component) (OA := λ _, acceptor_awaitable_base)); typeclasses eauto.
Qed.

Abbreviation table := (gmap ptr io_owners).

(** The table after a batch of completions, each possible when its turn comes. *)
Definition possible_batch (es : list cqe) (T : table) (s : loop R io_object) : option table :=
  batch_table (O := io_object) es T s.

Lemma possible_batch_inv es (T T' : table) X s : program_inv X T s → exception_ptr_ (frame (lctx s)) = None →
  possible_batch es T s = Some T' → ∃ hs s', process_cqes 0 es [] s = (Ret hs, s') ∧ program_inv X T' s'.
Proof.
  intros Hi Hx Hb.
  destruct (batch_handled (HV := io_virtuals) (HFL := io_completes_laws) es X T T' s Hi Hx Hb) as (hs & s' & H & Hi' & _).
  exists hs, (advanced (Z.of_nat (length es)) s'). split; [by rewrite (process_cqes_handled _ _ _ _ H)|by apply advanced_inv].
Qed.

(** A round: what the coroutines do, and the completions that wait when the loop is
    next at its batch.  A batch that the kernel could not have posted is not. *)
Definition run_round (r : list program_act * list cqe) (T : table) : M (loop R io_object) table :=
  T ← run_program r.1 T;
  s ← get;
  match possible_batch r.2 T s, exception_ptr_ (frame (lctx s)) with
  | Some T', None => process_cqes 0 r.2 [] ;; mret T'
  | _, _ => mret T
  end.

Definition run_rounds (l : list (list program_act * list cqe)) (T : table) : M (loop R io_object) table :=
  foldl (λ m r, m ≫= run_round r) (mret T) l.

Lemma run_round_inv r (T : table) X s : program_inv X T s → wp (run_round r T) s (program_inv X).
Proof.
  intros Hi. apply wp_bind. eapply wp_mono; [by apply run_program_inv|]. intros T1 s1 Hi1. apply wp_bind, wp_get.
  destruct (possible_batch r.2 T1 s1) as [T2|] eqn:Hb; [|by apply wp_ret].
  destruct (exception_ptr_ (frame (lctx s1))) eqn:Hx; [by apply wp_ret|].
  destruct (possible_batch_inv _ _ _ _ _ Hi1 Hx Hb) as (hs & s2 & E & Hi2).
  apply wp_bind. unfold wp. rewrite E. by apply wp_ret.
Qed.


End Batches.
