(* ===== verification/Typing.v ===== *)
(** A typing discipline for the user data of submission queue entries.

    [typed I m Q] says that [m] keeps the invariant [I] of its state on every way
    out, returns only values with [Q], and never runs into [WrongClass], a virtual
    call or a cast on an object of another class.  The rules below follow the
    combinators of the monad; the hint database [typed] collects what the
    components prove about their operations. *)

From S2P Require Import Prelude Uring Buffer Frame BufRing Executor Awaitable Slots.

(** ** The judgement *)

Definition typed {S A} (I : S → Prop) (m : M S A) (Q : A → Prop) : Prop := ∀ s, I s →
  match m s with
  | (Ret a, s') => Q a ∧ I s'
  | (Throw _, s') => I s'
  | (Fault f, _) => f ≠ WrongClass
  end.

Create HintDb typed.

(** No claim about the values. *)
Notation "I ⊢ m" := (typed I m (λ _, True)) (at level 70, m at level 69) : fiona_scope.

Section Rules.
Context {S A B : Type}.
Implicit Types I : S → Prop.

Lemma typed_weaken I (m : M S A) (Q Q' : A → Prop) : typed I m Q → (∀ a, Q a → Q' a) → typed I m Q'.
Proof. intros H HQ s Hs. specialize (H s Hs). destruct (m s) as [[]]; naive_solver. Qed.

Lemma typed_ret I a (Q : A → Prop) : Q a → typed I (mret a) Q.
Proof. by intros HQ s Hs. Qed.

Lemma typed_bind I (m : M S A) (k : A → M S B) (Q : A → Prop) Q' :
  typed I m Q → (∀ a, Q a → typed I (k a) Q') → typed I (m ≫= k) Q'.
Proof.
  intros Hm Hk s Hs. specialize (Hm s Hs). unfold mbind, M_bind. destruct (m s) as [[a|e|f] s']; [|done..].
  destruct Hm as [Ha Hs']. by apply (Hk a Ha).
Qed.

Lemma typed_bind_any I (m : M S A) (k : A → M S B) Q' : I ⊢ m → (∀ a, typed I (k a) Q') → typed I (m ≫= k) Q'.
Proof. intros Hm Hk. eapply typed_bind; [exact Hm|]. intros a _. apply Hk. Qed.

Lemma typed_throw I e (Q : A → Prop) : typed I (throw e) Q.
Proof. by intros s Hs. Qed.

Lemma typed_fail I f (Q : A → Prop) : f ≠ WrongClass → typed I (fail f) Q.
Proof. by intros Hf s Hs. Qed.

Lemma typed_gets I (f : S → A) (Q : A → Prop) : (∀ s, I s → Q (f s)) → typed I (gets f) Q.
Proof. intros H s Hs. split; [by apply H|done]. Qed.

Lemma typed_get I : I ⊢ get.
Proof. by intros s Hs. Qed.

Lemma typed_modify I f Q : (∀ s, I s → I (f s)) → Q tt → typed I (modify f) Q.
Proof. intros Hf HQ s Hs. split; [done|by apply Hf]. Qed.

Lemma typed_assert I b : I ⊢ assert b.
Proof. intros s Hs. by destruct b. Qed.

Lemma typed_when I b (m : M S unit) : (b = true → I ⊢ m) → I ⊢ when b m.
Proof. destruct b; intros H; [by apply H|by intros s Hs]. Qed.

Lemma typed_finally I (m : M S A) d Q : typed I m Q → I ⊢ d → typed I (finally m d) Q.
Proof.
  intros Hm Hd s Hs. specialize (Hm s Hs). unfold finally. destruct (m s) as [[a|e|f] s']; [destruct Hm as [? Hs']|rename Hm into Hs'|done];
    specialize (Hd s' Hs'); destruct (d s') as [[]]; naive_solver.
Qed.

Lemma typed_on_throw I (m : M S A) d Q : typed I m Q → I ⊢ d → typed I (on_throw m d) Q.
Proof.
  intros Hm Hd s Hs. specialize (Hm s Hs). unfold on_throw. destruct (m s) as [[a|e|f] s']; [done| |done].
  specialize (Hd s' Hm). destruct (d s') as [[]]; naive_solver.
Qed.

Lemma typed_attempt I (m : M S A) : I ⊢ m → I ⊢ attempt m.
Proof. intros Hm s Hs. specialize (Hm s Hs). unfold attempt. by destruct (m s) as [[]]. Qed.

Lemma typed_throw_errno I e (Q : A → Prop) : typed I (throw_errno_as_error_code e) Q.
Proof. intros s Hs. unfold throw_errno_as_error_code, from_errno. munfold. by destruct (e =? 0). Qed.

Lemma typed_from_errno I e : I ⊢ from_errno e.
Proof. intros s Hs. unfold from_errno. munfold. by destruct (e =? 0). Qed.
End Rules.

Lemma typed_zoom {S T A} (p : T → S) {U : Updatable p} (I : T → Prop) (J : S → Prop) (m : M S A) Q :
  (∀ t, I t → J (p t)) → (∀ t s, I t → J s → I (t <| p := s |>)) → typed J m Q → typed I (zoom p m) Q.
Proof.
  intros H1 H2 Hm t Ht. specialize (Hm (p t) (H1 t Ht)). unfold zoom. destruct (m (p t)) as [[a|e|f] s]; naive_solver.
Qed.

#[export] Hint Resolve typed_throw typed_get typed_assert typed_throw_errno typed_from_errno : typed.

(** What a component needs no invariant for. *)
Abbreviation harmless m := ((λ _, True) ⊢ m).

(** Rules for particular calls whose result matters; extended below. *)
Ltac typed_call := fail.

(** One step through the code; what has a hint is done. *)
Ltac typed_step :=
  first [typed_call | lazymatch goal with
  | |- typed _ (mret _) _ => apply typed_ret
  | |- typed _ (_ ≫= _) _ => apply typed_bind_any; [|intros ?]
  | |- typed _ (let _ := _ in _) _ => cbv zeta
  | |- typed _ (when _ _) _ => apply typed_when; intros ?
  | |- typed _ (fail _) _ => by apply typed_fail
  | |- typed _ (gets _) _ => by apply typed_gets
  | |- typed _ (finally _ _) _ => apply typed_finally
  | |- typed _ (on_throw _ _) _ => apply typed_on_throw
  | |- typed _ (attempt _) _ => apply typed_attempt
  | |- typed _ (match ?x with _ => _ end) _ => destruct x eqn:?
  | |- True => done
  end].
Ltac typed_auto := repeat first [solve [eauto with typed nocore] | typed_step].

(** ** Receive buffers *)
Section BufferTyping.
Local Abbreviation MH := (λ _ : mem, True).

Lemma typed_load_header p : MH ⊢ load_header p.
Proof. intros m _. unfold load_header, bad_deref. destruct (headers m !! p); [done|]. by case_decide. Qed.
Lemma typed_upd_header p f : MH ⊢ upd_header p f.
Proof. intros m _. unfold upd_header, bad_deref. destruct (headers m !! p); [done|]. by case_decide. Qed.
Lemma typed_aligned_alloc cap : MH ⊢ aligned_alloc cap.
Proof. by intros m _. Qed.
Lemma typed_aligned_delete p : MH ⊢ aligned_delete p.
Proof. intros m _. unfold aligned_delete, bad_deref. destruct (headers m !! p); [done|]. by case_decide. Qed.
Lemma typed_sequence_new : MH ⊢ sequence_new.
Proof. by intros m _. Qed.
Hint Resolve typed_load_header typed_upd_header typed_aligned_alloc typed_aligned_delete typed_sequence_new : typed.

Lemma typed_view_size p : MH ⊢ view_size p.
Proof. unfold view_size. typed_auto. Qed.
Lemma typed_view_capacity p : MH ⊢ view_capacity p.
Proof. unfold view_capacity. typed_auto. Qed.
Hint Resolve typed_view_size typed_view_capacity : typed.
Lemma typed_view_empty p : MH ⊢ view_empty p.
Proof. unfold view_empty. typed_auto. Qed.
Lemma typed_iter_next p : MH ⊢ iter_next p.
Proof. unfold iter_next, get_next. typed_auto. Qed.
Lemma typed_set_len p n : MH ⊢ set_len p n.
Proof. unfold set_len. typed_auto. Qed.
Lemma typed_recv_buffer_new cap : MH ⊢ recv_buffer_new cap.
Proof. unfold recv_buffer_new. typed_auto. Qed.
Lemma typed_recv_buffer_assign self p q : MH ⊢ recv_buffer_assign self p q.
Proof. unfold recv_buffer_assign. typed_auto. Qed.
Lemma typed_push_back q p : MH ⊢ push_back q p.
Proof. unfold push_back, set_next, set_prev. typed_auto. Qed.
Lemma typed_sequence_move q : MH ⊢ sequence_move q.
Proof. unfold sequence_move, steal, set_next, set_prev. typed_auto. Qed.

Lemma typed_free_loop fuel p q : MH ⊢ free_loop fuel p q.
Proof. revert p. induction fuel as [|fuel IH]; intros p; cbn [free_loop]; unfold get_next; typed_auto. Qed.
Hint Resolve typed_free_loop : typed.
Lemma typed_sequence_dtor q : MH ⊢ sequence_dtor q.
Proof. unfold sequence_dtor, free_list, set_next, set_prev. typed_auto. Qed.
End BufferTyping.

#[export] Hint Resolve typed_view_capacity typed_view_empty typed_iter_next typed_set_len typed_recv_buffer_new
  typed_recv_buffer_assign typed_push_back typed_sequence_new typed_sequence_move typed_sequence_dtor : typed.

(** ** The context: every entry queued so far satisfies [P] *)
Section CtxTyping.
Context {R : Type} {HU : IoUring R} {HUL : IoUringLaws R} {HB : IoUringBufs R} {HSep : IoUringSeparate R} {HS : UnorderedBegin}.
Variable P : sqe → Prop.

Definition ring_typed (r : R) : Prop := Forall P (sq_trace r).
Definition ctx_typed (w : ctx R) : Prop := ring_typed (io_ring_ (frame w)).

Lemma trace_get_sqe q r r' : io_uring_get_sqe q r = Some r' → sq_trace r' = sq_trace r ++ [q].
Proof.
  intros E. pose proof (space_bound r) as Hb. destruct (decide (io_uring_sq_space_left r = 0)) as [E0|E0].
  - by rewrite (get_sqe_full q r E0) in E.
  - destruct (get_sqe_room q r) as (r1 & E1 & _ & _ & Hq & Hs); [lia|]. rewrite E1 in E. injection E as <-.
    unfold sq_trace. by rewrite Hq, Hs, app_assoc.
Qed.

Lemma ring_typed_push q r r' : P q → ring_typed r → io_uring_get_sqe q r = Some r' → ring_typed r'.
Proof. intros Hq Hr E. unfold ring_typed. rewrite (trace_get_sqe _ _ _ E). by apply Forall_app; split; [|constructor]. Qed.

Lemma ring_typed_submit r : ring_typed r → ring_typed (io_uring_submit r).
Proof. unfold ring_typed. by rewrite sq_trace_submit. Qed.

Lemma typed_push_sqe q : P q → ring_typed ⊢ push_sqe q.
Proof.
  intros Hq r Hr. unfold push_sqe. munfold. destruct (io_uring_get_sqe q r) eqn:E; [|done].
  split; [done|]. by eapply ring_typed_push.
Qed.

Lemma typed_submit_ring : ring_typed ⊢ submit_ring.
Proof. apply typed_modify; [apply ring_typed_submit|done]. Qed.

Lemma typed_reserve_sqes n : ring_typed ⊢ reserve_sqes n.
Proof. unfold reserve_sqes. pose proof typed_submit_ring. typed_auto. Qed.

Lemma typed_get_sqe q : P q → ring_typed ⊢ get_sqe q.
Proof.
  intros Hq r Hr. unfold get_sqe, submit_ring. munfold. destruct (io_uring_get_sqe q r) eqn:E.
  - split; [done|]. by eapply ring_typed_push.
  - pose proof (ring_typed_submit r Hr) as Hr1. destruct (io_uring_get_sqe q (io_uring_submit r)) eqn:E1; [|done].
    split; [done|]. by eapply ring_typed_push.
Qed.

(** ** The parts of the context *)

Lemma typed_on_ring {A} (m : M R A) Q : typed ring_typed m Q → typed ctx_typed (on_ring m) Q.
Proof.
  intros Hm. unfold on_ring. apply (typed_zoom _ _ (λ f, ring_typed (io_ring_ f))); [done..|].
  by apply (typed_zoom _ _ ring_typed).
Qed.

Lemma typed_on_heap {A} (m : M mem A) : harmless m → ctx_typed ⊢ on_heap m.
Proof. by apply typed_zoom. Qed.

Lemma typed_on_frame_modify f : (∀ fr, io_ring_ (f fr) = io_ring_ fr) → ctx_typed ⊢ on_frame (modify f).
Proof.
  intros Hf w Hw. split; [done|]. unfold ctx_typed in *. cbn. by rewrite Hf.
Qed.

Lemma typed_ctx_modify f : (∀ w, io_ring_ (frame (f w)) = io_ring_ (frame w)) → ctx_typed ⊢ modify f.
Proof. intros Hf. apply typed_modify; [|done]. intros w Hw. unfold ctx_typed. by rewrite Hf. Qed.

Lemma typed_on_frame_get : ctx_typed ⊢ on_frame get.
Proof. by intros [] Hw. Qed.

Lemma typed_now : ctx_typed ⊢ now.
Proof. by intros w Hw. Qed.
Hint Resolve typed_on_frame_get typed_now : typed.
Hint Extern 1 (ctx_typed ⊢ on_frame (modify _)) => by apply typed_on_frame_modify : typed.
Hint Extern 1 (ctx_typed ⊢ on_heap _) => apply typed_on_heap; by eauto with typed nocore : typed.

Lemma typed_ring_reserve n : ctx_typed ⊢ on_ring (reserve_sqes n).
Proof. apply typed_on_ring, typed_reserve_sqes. Qed.
Lemma typed_ring_push q : P q → ctx_typed ⊢ on_ring (push_sqe q).
Proof. intros Hq. by apply typed_on_ring, typed_push_sqe. Qed.
Lemma typed_queue_any q : P q → ctx_typed ⊢ queue_any q.
Proof. intros Hq. by apply typed_on_ring, typed_get_sqe. Qed.
Lemma typed_submit : ctx_typed ⊢ submit.
Proof. apply typed_on_ring, typed_submit_ring. Qed.
Lemma typed_queue_one q : P q → ctx_typed ⊢ queue_one q.
Proof. intros Hq. eapply typed_bind_any; [apply typed_ring_reserve|]. intros _. by apply typed_ring_push. Qed.

Lemma typed_ring_add bgid a len bid mask off : ctx_typed ⊢ on_ring (modify (io_uring_buf_ring_add bgid a len bid mask off)).
Proof.
  apply typed_on_ring, typed_modify; [|done]. intros r Hr. unfold ring_typed.
  by destruct (buf_ring_add_sq bgid a len bid mask off r) as [-> _].
Qed.
Lemma typed_ring_advance bgid n : ctx_typed ⊢ on_ring (modify (io_uring_buf_ring_advance bgid n)).
Proof.
  apply typed_on_ring, typed_modify; [|done]. intros r Hr. unfold ring_typed.
  by destruct (buf_ring_advance_sq bgid n r) as [-> _].
Qed.
Hint Resolve typed_ring_add typed_ring_advance : typed.

Lemma typed_get_available_fd : ctx_typed ⊢ get_available_fd.
Proof. unfold get_available_fd. typed_auto. Qed.
Lemma typed_release_fd fd : ctx_typed ⊢ release_fd fd.
Proof. unfold release_fd. typed_auto. Qed.
Lemma typed_get_buffer_group g : ctx_typed ⊢ get_buffer_group g.
Proof. unfold get_buffer_group. typed_auto. Qed.
Lemma typed_set_buffer_group g br : ctx_typed ⊢ set_buffer_group g br.
Proof. unfold set_buffer_group. typed_auto. Qed.
Lemma typed_take_buf br i len : ctx_typed ⊢ take_buf br i len.
Proof. unfold take_buf, get_buf. typed_auto. Qed.
Lemma typed_replenish_one br len : ctx_typed ⊢ replenish_one br len.
Proof. unfold replenish_one, pop_buf_id, get_buf. typed_auto. Qed.
End CtxTyping.

#[export] Hint Resolve typed_on_frame_get typed_now typed_ring_reserve typed_submit typed_ring_advance
  typed_get_available_fd typed_release_fd typed_get_buffer_group typed_set_buffer_group typed_take_buf typed_replenish_one : typed.
#[export] Hint Extern 1 (typed (ctx_typed _) (on_frame (modify _)) _) => by apply typed_on_frame_modify : typed.
#[export] Hint Extern 1 (typed (ctx_typed _) (modify _) _) => by apply typed_ctx_modify : typed.
#[export] Hint Extern 1 (typed (ctx_typed _) (on_heap _) _) => apply typed_on_heap; by eauto with typed nocore : typed.

(** ** Cells: the object satisfies [ok] while it is alive *)
Definition cell_typed {R O} `{!IoUring R} (P : sqe → Prop) (ok : O → Prop) (c : cell R O) : Prop :=
  ctx_typed P (world c) ∧ ∀ o, object c = Some o → ok o.

Lemma typed_cell_iff {R O A} `{!IoUring R} P (ok ok' : O → Prop) (m : M (cell R O) A) Q : (∀ o, ok o ↔ ok' o) →
  typed (cell_typed P ok) m Q → typed (cell_typed P ok') m Q.
Proof.
  intros Ho Hm c [Hw Hc]. assert (cell_typed P ok c) as H by (split; [done|]; intros o E; by apply Ho, Hc).
  specialize (Hm c H). destruct (m c) as [[a|e|f] c']; [destruct Hm as (? & ? & Hm)|destruct Hm as (? & Hm)|done];
    repeat split; try done; intros o E; by apply Ho, Hm.
Qed.

Section CellTyping.
Context {R O : Type} {HU : IoUring R} {HC : RefCount O}.
Variable P : sqe → Prop.
Variable ok : O → Prop.
Local Abbreviation CT := (cell_typed (R := R) P ok).

Lemma typed_on_world {A} (m : M (ctx R) A) Q : typed (ctx_typed P) m Q → typed CT (on_world m) Q.
Proof.
  intros Hm. apply (typed_zoom _ _ (ctx_typed P)); [by intros c [Hw _]| |done]. intros c w [_ Ho] Hw. by split.
Qed.

Lemma typed_this : typed CT this ok.
Proof. intros c Hc. unfold this. munfold. destruct (object c) as [o|] eqn:E; [|done]. split; [by apply Hc|done]. Qed.

Lemma typed_this_bind {A} (k : O → M (cell R O) A) Q : (∀ o, ok o → typed CT (k o) Q) → typed CT (this ≫= k) Q.
Proof. apply typed_bind, typed_this. Qed.

Lemma typed_upd_this f : (∀ o, ok o → ok (f o)) → CT ⊢ upd_this f.
Proof.
  intros Hf. apply typed_this_bind. intros o Ho. apply typed_modify; [|done]. intros c [Hw _]. split; [done|].
  intros o' [= <-]. by apply Hf.
Qed.

Context (ok_count : ∀ f o, ok o → ok (upd_count f o)).

Lemma typed_add_ref : CT ⊢ intrusive_ptr_add_ref.
Proof. apply typed_upd_this, ok_count. Qed.

Lemma typed_release {HA : AwaitableBase R O} : (∀ o, ok o → ctx_typed P ⊢ destructor o) → CT ⊢ intrusive_ptr_release.
Proof.
  intros Hd. unfold intrusive_ptr_release. eapply typed_bind_any; [apply typed_upd_this, ok_count|]. intros _.
  apply typed_this_bind. intros o Ho. apply typed_when. intros _.
  eapply typed_bind_any; [by apply typed_on_world, Hd|]. intros _. apply typed_modify; [|done]. intros c [Hw _]. split; [done|]. by intros ? [=].
Qed.

Lemma typed_dispatch {HA : AwaitableBase R O} k e : (∀ o, ok o → ctx_typed P ⊢ destructor o) →
  CT ⊢ await_process_cqe k e → CT ⊢ take_handle k → CT ⊢ dispatch k e.
Proof.
  intros Hd Hp Hh. unfold dispatch. apply typed_finally; [|by apply typed_release]. apply typed_this_bind. intros o Ho.
  eapply typed_bind_any; [apply typed_assert|]. intros _. eapply typed_bind_any; [done|]. by intros _.
Qed.
End CellTyping.

#[export] Hint Extern 1 (typed (cell_typed _ _) (on_world _) _) => apply typed_on_world; solve [eauto with typed nocore] : typed.

(** The object read is one the invariant speaks of. *)
Ltac typed_call ::= lazymatch goal with |- typed _ (this ≫= _) _ => apply typed_this_bind; intros ? ? end.
