(* ===== verification/ProgramTyping.v ===== *)
(** The user data of every entry name a frame that the object at the address has,
    and so a completion is always processed by a frame of the object it is for. *)

From S2P Require Import Prelude Uring Buffer Frame BufRing Executor Task Awaitable Slots Duration Typing.
From S2P Require Import Timer Stream StreamRecv StreamInv StreamSafe Acceptor AcceptorSafe File FileSafe IoContext EventLoop Program.

(** ** Classes and their frames *)
Inductive class := Cl_pipe | Cl_timer | Cl_stream | Cl_client | Cl_acceptor | Cl_file.
#[export] Instance class_eq_dec : EqDecision class.
Proof. solve_decision. Defined.

Definition class_frames (c : class) (k : frame_kind) : bool :=
  match c, k with
  | Cl_pipe, FkPipe
  | Cl_timer, (FkTimer | FkTimerCancel)
  | (Cl_stream | Cl_client), (FkCancel | FkClose | FkShutdown | FkSend | FkRecv | FkTimeout | FkTimeoutCancel)
  | Cl_client, (FkSocket | FkConnect)
  | Cl_acceptor, (FkAccept | FkAcceptorCancel | FkAcceptorClose)
  | Cl_file, (FkOpen | FkWrite | FkRead) => true
  | _, _ => false
  end.

(** The classes with a timespec an entry can point to. *)
Definition has_timespec (c : class) : bool :=
  match c with Cl_timer | Cl_stream | Cl_client => true | _ => false end.

(** Which class the object at an address is of. *)
Abbreviation typing := (ptr → option class).

Definition data_typed (Γ : typing) (d : user_data) : Prop :=
  match d with None => True | Some (p, k) => ∃ c, Γ p = Some c ∧ class_frames c k = true end.

(** The frames and timespecs an entry points to. *)
Definition op_typed (Γ : typing) (o : sqe_op) : Prop :=
  match o with
  | op_cancel d | op_timeout_remove d => data_typed Γ d
  | op_timeout p _ | op_link_timeout p => ∃ c, Γ p = Some c ∧ has_timespec c = true
  | _ => True
  end.

Definition sqe_typed (Γ : typing) (q : sqe) : Prop := data_typed Γ (sqe_data q) ∧ op_typed Γ (sqe_op_of q).

(** An entry of the object at [self] is typed: by the class of that object. *)
Ltac sqe_is_typed :=
  unfold sqe_typed, data_typed, op_typed; cbn; repeat split; (eexists; split; [eassumption|reflexivity]).

(** Queueing a typed entry is typed. *)
#[export] Hint Extern 1 (typed (ctx_typed (sqe_typed _)) (queue_one _) _) => apply typed_queue_one; sqe_is_typed : typed.
#[export] Hint Extern 1 (typed (ctx_typed (sqe_typed _)) (queue_any _) _) => apply typed_queue_any; sqe_is_typed : typed.
#[export] Hint Extern 1 (typed (ctx_typed (sqe_typed _)) (on_ring (push_sqe _)) _) => apply typed_ring_push; sqe_is_typed : typed.

(** ** Timers *)
Section TimerTyping.
Context {R : Type} {HU : IoUring R} {HUL : IoUringLaws R} {HB : IoUringBufs R} {HSep : IoUringSeparate R}.
Variable Γ : typing.
Variable self : ptr.
Hypothesis Hself : Γ self = Some Cl_timer.
Local Abbreviation CT := (cell_typed (R := R) (sqe_typed Γ) (λ _ : timer_impl, True)).

Hint Extern 1 (typed (cell_typed _ _) (upd_this _) _) => by apply typed_upd_this : typed.
Hint Extern 1 (typed (cell_typed _ _) intrusive_ptr_add_ref _) => by apply typed_add_ref : typed.

Lemma timer_release_typed : CT ⊢ intrusive_ptr_release.
Proof. apply typed_release; [done|]. intros o _. by apply typed_ret. Qed.
Hint Resolve timer_release_typed : typed.

Lemma timer_dtor_typed : CT ⊢ timer_awaitable_dtor self.
Proof. unfold timer_awaitable_dtor. typed_auto. Qed.
Hint Resolve timer_dtor_typed : typed.

Lemma timer_process_typed k e : class_frames Cl_timer k = true → CT ⊢ await_process_cqe k e.
Proof. destruct k; try done; intros _; cbn; unfold Timer.timeout_process_cqe, cancel_process_cqe; typed_auto. Qed.

Lemma timer_handle_typed k : class_frames Cl_timer k = true → CT ⊢ take_handle k.
Proof. destruct k; try done; intros _; cbn; unfold timeout_handle, cancel_handle; typed_auto. Qed.

Lemma timer_dispatch_typed k e : class_frames Cl_timer k = true → CT ⊢ dispatch k e.
Proof.
  intros Hk. apply typed_dispatch; [done| |by apply timer_process_typed|by apply timer_handle_typed].
  intros o _. by apply typed_ret.
Qed.

Hint Extern 1 (typed _ (dispatch _ _) _) => by apply timer_dispatch_typed : typed.

Lemma timer_op_typed op y : CT ⊢ run_timer_op self op y.
Proof.
  unfold run_timer_op, async_wait, timer_awaitable_new, timer_await_ready, timer_await_suspend, async_wait_finish,
    timer_await_resume, timer_async_cancel, timer_cancel_await_ready, timer_cancel_await_suspend, timer_cancel_finish,
    timer_cancel_await_resume, Timer.throw_busy.
  typed_auto.
Qed.
End TimerTyping.

(** ** Streams and clients *)
Definition stream_class (s : stream_impl) : class := match st_client s with Some _ => Cl_client | None => Cl_stream end.

Lemma stream_class_fmap f s : stream_class (s <| st_client ::= fmap f |>) = stream_class s.
Proof. unfold stream_class, upd. cbn. by destruct (st_client s). Qed.

Section StreamTyping.
Context {R : Type} {HU : IoUring R} {HUL : IoUringLaws R} {HB : IoUringBufs R} {HSep : IoUringSeparate R} {HS : UnorderedBegin}.
Variable Γ : typing.
Variable self : ptr.
Variable c : class.
Hypothesis Hself : Γ self = Some c.
Hypothesis Hc : c = Cl_stream ∨ c = Cl_client.
#[local] Hint Extern 0 (AwaitableBase _ stream_impl) => exact (stream_awaitable_base self) : typeclass_instances.
Local Abbreviation ok := (λ s, stream_class s = c).
Local Abbreviation CT := (cell_typed (R := R) (sqe_typed Γ) ok).

(** The frames of a stream are those of a client. *)
Lemma stream_data_typed k : class_frames Cl_stream k = true → data_typed Γ (Some (self, k)).
Proof. intros Hk. exists c. split; [done|]. by destruct Hc as [-> | ->]; destruct k. Qed.
Lemma client_data_typed k : c = Cl_client → class_frames Cl_client k = true → data_typed Γ (Some (self, k)).
Proof. intros E Hk. exists c. by rewrite E in *. Qed.
Lemma stream_timespec_typed : ∃ c, Γ self = Some c ∧ has_timespec c = true.
Proof. exists c. split; [done|]. by destruct Hc as [-> | ->]. Qed.

Ltac stream_sqe :=
  unfold sqe_typed, op_typed; cbn -[data_typed]; repeat split;
  first [done | by apply stream_timespec_typed | by apply stream_data_typed | by apply client_data_typed].
Hint Extern 0 (typed (ctx_typed (sqe_typed _)) (queue_one _) _) => apply typed_queue_one; stream_sqe : typed.
Hint Extern 0 (typed (ctx_typed (sqe_typed _)) (queue_any _) _) => apply typed_queue_any; stream_sqe : typed.
Hint Extern 0 (typed (ctx_typed (sqe_typed _)) (on_ring (push_sqe _)) _) => apply typed_ring_push; stream_sqe : typed.

Lemma ok_upd_count f s : ok s → ok (upd_count f s).
Proof. done. Qed.
Lemma ok_client f s : ok s → ok (s <| st_client ::= fmap f |>).
Proof. intros <-. apply stream_class_fmap. Qed.
Hint Extern 1 (typed (cell_typed _ _) (upd_this _) _) => apply typed_upd_this; intros ? ?; first [done | by apply ok_client | auto] : typed.
Hint Extern 1 (typed (cell_typed _ _) intrusive_ptr_add_ref _) => by apply typed_add_ref : typed.

Lemma typed_get_client : c = Cl_client → CT ⊢ get_client.
Proof.
  intros E. apply typed_this_bind. intros s Hs. destruct (st_client s) eqn:Ec; [by apply typed_ret|].
  unfold stream_class in Hs. rewrite Ec in Hs. congruence.
Qed.
Hint Extern 1 (typed _ get_client _) => apply typed_get_client; solve [auto] : typed.

Lemma stream_dtor_typed s : ctx_typed (sqe_typed Γ) ⊢ stream_impl_dtor s.
Proof. unfold stream_impl_dtor. typed_auto. Qed.

Lemma stream_release_typed : CT ⊢ intrusive_ptr_release.
Proof. apply typed_release; [done|]. intros s _. apply stream_dtor_typed. Qed.
Hint Resolve stream_release_typed : typed.

Lemma stream_push_back_typed p : CT ⊢ buffers_push_back p.
Proof. unfold buffers_push_back. typed_auto. Qed.
Lemma take_ring_buf_typed i len : CT ⊢ take_ring_buf i len.
Proof. unfold take_ring_buf. typed_auto. Qed.
Hint Resolve stream_push_back_typed take_ring_buf_typed : typed.

Lemma exchange_h_typed {F} (rd : stream_impl → F) wr hd : (∀ f s, ok s → ok (wr f s)) → CT ⊢ exchange_h rd wr hd.
Proof. intros Hw. unfold exchange_h. typed_auto. Qed.
Hint Extern 1 (typed _ (exchange_h _ _ _) _) => apply exchange_h_typed; intros ? ? ?; first [done | by apply ok_client] : typed.

Lemma stream_process_typed k e : class_frames c k = true → CT ⊢ stream_process_cqe self k e.
Proof.
  intros Hk. assert (k = FkSocket ∨ k = FkConnect → c = Cl_client) as Hcl
    by (destruct Hc as [-> | ->]; destruct k; naive_solver).
  destruct k; cbn [stream_process_cqe]; unfold close_process_cqe, send_process_cqe, recv_process_cqe, timeout_process_cqe,
    socket_process_cqe, connect_process_cqe; try (by destruct Hc as [-> | ->]); typed_auto.
Qed.

Lemma stream_handle_typed k : class_frames c k = true → CT ⊢ stream_handle k.
Proof.
  intros Hk. assert (k = FkSocket ∨ k = FkConnect → c = Cl_client) as Hcl
    by (destruct Hc as [-> | ->]; destruct k; naive_solver).
  destruct k; cbn [stream_handle]; try (by destruct Hc as [-> | ->]); typed_auto.
Qed.

Lemma stream_dispatch_typed k e : class_frames c k = true → CT ⊢ dispatch k e.
Proof.
  intros Hk. apply typed_dispatch; [done|intros s _; apply stream_dtor_typed|by apply stream_process_typed|by apply stream_handle_typed].
Qed.

Lemma stream_impl_new_typed d : (match d with Some _ => Cl_client | None => Cl_stream end) = c → CT ⊢ stream_impl_new self d.
Proof.
  intros Hd. unfold stream_impl_new. typed_auto. apply typed_modify; [|done]. intros cl [Hw _]. split; [done|].
  by intros s [= <-].
Qed.

Lemma typed_replenish_loop fuel p q br len : ctx_typed (sqe_typed Γ) ⊢ replenish_loop fuel p q br len.
Proof. revert p br len. induction fuel as [|fuel IH]; intros p br len; cbn [replenish_loop]; typed_auto. Qed.
Hint Resolve typed_replenish_loop : typed.

Lemma typed_replenish g q : ctx_typed (sqe_typed Γ) ⊢ replenish g q.
Proof. unfold replenish. typed_auto. Qed.
Hint Resolve typed_replenish : typed.

Lemma stream_cancel_timer_typed : CT ⊢ cancel_timer self.
Proof. unfold cancel_timer, queue_timer_cancel. typed_auto. Qed.
Lemma stream_cancel_recv_typed : CT ⊢ cancel_recv self.
Proof. unfold cancel_recv. typed_auto. Qed.
Hint Resolve stream_cancel_timer_typed stream_cancel_recv_typed : typed.

Lemma stream_handle_dtor_typed : CT ⊢ stream_dtor self.
Proof. unfold stream_dtor. typed_auto. Qed.
Hint Resolve stream_handle_dtor_typed : typed.

Lemma stream_close_typed h : CT ⊢ async_close self h.
Proof. unfold async_close, close_await_suspend, queue_timer_cancel. typed_auto. Qed.
Lemma stream_shutdown_typed how h : CT ⊢ async_shutdown_start self how h.
Proof. unfold async_shutdown_start, async_shutdown, shutdown_await_suspend. typed_auto. Qed.
Lemma stream_send_typed buf h : CT ⊢ async_send self buf h.
Proof. unfold async_send, send_await_suspend, send_awaitable_dtor, throw_busy. typed_auto. Qed.
Lemma stream_recv_typed h : CT ⊢ async_recv self h.
Proof. unfold async_recv, recv_await_ready, recv_await_suspend, Stream.schedule_recv, recv_await_resume. typed_auto. Qed.
Hint Resolve stream_close_typed stream_shutdown_typed stream_send_typed stream_recv_typed : typed.
Hint Extern 1 (typed _ (dispatch _ _) _) => apply stream_dispatch_typed; solve [destruct Hc as [-> | ->]; reflexivity] : typed.

Lemma err_of_typed {A} res : CT ⊢ err_of (A := A) res.
Proof. unfold err_of. typed_auto. Qed.
Hint Resolve err_of_typed : typed.

Lemma stream_finish_typed : (CT ⊢ async_close_finish self) ∧ (CT ⊢ async_cancel_finish self) ∧
  (CT ⊢ async_shutdown_finish self) ∧ (CT ⊢ async_send_finish self) ∧ (CT ⊢ async_recv_finish self).
Proof.
  unfold async_close_finish, close_await_resume, async_cancel_finish, cancel_await_resume, async_shutdown_finish,
    shutdown_await_resume, async_send_finish, send_await_resume, send_awaitable_dtor, async_recv_finish, recv_await_resume.
  split_and!; typed_auto.
Qed.

Lemma connect_reset_typed : CT ⊢ connect_reset.
Proof. unfold connect_reset. typed_auto. Qed.
Hint Resolve connect_reset_typed : typed.

Lemma client_connect_typed addr h : c = Cl_client →
  (CT ⊢ async_connect self addr h) ∧ (CT ⊢ async_connect_finish self) ∧ (CT ⊢ connect_awaitable_dtor self) ∧ (CT ⊢ client_dtor self).
Proof.
  intros E. assert (CT ⊢ connect_awaitable_dtor self) as H1 by (unfold connect_awaitable_dtor; typed_auto).
  assert (CT ⊢ connect_await_resume) as H2 by (unfold connect_await_resume; typed_auto).
  unfold async_connect, client_async_connect, connect_await_ready, connect_await_suspend, async_connect_finish, client_dtor.
  split_and!; typed_auto.
Qed.
Lemma stream_op_typed op y w s : (client_op op = true → c = Cl_client) → CT ⊢ run_stream_op self op y w s.
Proof.
  intros Hop. destruct stream_finish_typed as (? & ? & ? & ? & ?).
  destruct (client_op op) eqn:Eop.
  - pose proof (Hop eq_refl) as E. pose proof (λ a h, proj1 (client_connect_typed a h E)).
    destruct (client_connect_typed (Sockaddr 0 []) 0 E) as (_ & ? & ? & ?).
    destruct op; try done; cbn [run_stream_op]; unfold stream_cqe; typed_auto;
      apply stream_dispatch_typed; by rewrite E.
  - destruct op; try done; cbn [run_stream_op]; unfold stream_timeout, stream_set_buffer_group, async_cancel,
      cancel_await_suspend, send_awaitable_dtor, stream_cqe, throw_busy; typed_auto.
Qed.

Lemma stream_step_typed op y : CT ⊢ stream_step self op y.
Proof.
  unfold stream_step. eapply (typed_bind _ _ _ (cell_typed (sqe_typed Γ) ok)); [by intros cl Hcl|]. intros cl [_ Ho].
  destruct (object cl) as [s|] eqn:Es; [|by apply typed_ret].
  destruct (stream_op_ok op y (world cl) s) eqn:Eok; [|by apply typed_ret].
  apply stream_op_typed. intros Hop. apply (client_op_ok op y (world cl) s) in Hop; [|done].
  destruct (is_client_spec s Hop) as [p Ep]. rewrite <- (Ho s) by done. unfold stream_class. by rewrite Ep.
Qed.

Lemma stream_new_typed fd : c = Cl_stream → CT ⊢ stream_new self fd.
Proof. intros E. unfold stream_new. pose proof (stream_impl_new_typed None (eq_sym E)). typed_auto. Qed.

Lemma client_new_typed : c = Cl_client → CT ⊢ client_new self.
Proof. intros E. unfold client_new. pose proof (λ a, stream_impl_new_typed (Some a) (eq_sym E)). typed_auto. Qed.

End StreamTyping.

(** ** Acceptors *)
Section AcceptorTyping.
Context {R : Type} {HU : IoUring R} {HUL : IoUringLaws R} {HB : IoUringBufs R} {HSep : IoUringSeparate R} {HS : UnorderedBegin}.
Variable Γ : typing.
Variable self : ptr.
Hypothesis Hself : Γ self = Some Cl_acceptor.
#[local] Hint Extern 0 (AwaitableBase _ acceptor_impl) => exact acceptor_awaitable_base : typeclass_instances.
Local Abbreviation CT := (cell_typed (R := R) (sqe_typed Γ) (λ _ : acceptor_impl, True)).

Hint Extern 1 (typed (cell_typed _ _) (upd_this _) _) => by apply typed_upd_this : typed.
Hint Extern 1 (typed (cell_typed _ _) intrusive_ptr_add_ref _) => by apply typed_add_ref : typed.

Lemma acceptor_dtor_typed a : ctx_typed (sqe_typed Γ) ⊢ acceptor_impl_dtor a.
Proof. unfold acceptor_impl_dtor. typed_auto. Qed.

Lemma acceptor_release_typed : CT ⊢ intrusive_ptr_release.
Proof. apply typed_release; [done|]. intros a _. apply acceptor_dtor_typed. Qed.
Hint Resolve acceptor_release_typed : typed.

Lemma acceptor_process_typed k e : class_frames Cl_acceptor k = true → CT ⊢ await_process_cqe k e.
Proof. destruct k; try done; intros _; cbn; unfold accept_process_cqe, acceptor_close_process_cqe; typed_auto. Qed.

Lemma acceptor_handle_typed k : class_frames Cl_acceptor k = true → CT ⊢ take_handle k.
Proof. destruct k; try done; intros _; cbn; unfold acceptor_exchange_h; typed_auto. Qed.

Lemma acceptor_dispatch_typed k e : class_frames Cl_acceptor k = true → CT ⊢ dispatch k e.
Proof.
  intros Hk. apply typed_dispatch; [done|intros a _; apply acceptor_dtor_typed|by apply acceptor_process_typed|by apply acceptor_handle_typed].
Qed.
Hint Extern 1 (typed _ (dispatch _ _) _) => by apply acceptor_dispatch_typed : typed.

Lemma acceptor_err_typed {A} res : CT ⊢ acceptor_err (A := A) res.
Proof. unfold acceptor_err. typed_auto. Qed.
Lemma accept_dtor_typed : CT ⊢ accept_awaitable_dtor self.
Proof. unfold accept_awaitable_dtor. typed_auto. Qed.
Hint Resolve acceptor_err_typed accept_dtor_typed : typed.

Lemma acceptor_op_typed op y : CT ⊢ run_acceptor_op self op y.
Proof.
  unfold run_acceptor_op, give_back, async_accept, accept_await_suspend, async_accept_raw_finish, accept_raw_await_resume,
    acceptor_async_cancel, accept_cancel_await_suspend, acceptor_async_cancel_finish, accept_cancel_await_resume,
    acceptor_async_close, accept_close_await_suspend, acceptor_async_close_finish, accept_close_await_resume,
    acceptor_cqe, Stream.throw_busy.
  typed_auto.
Qed.

(** A constructor that runs on a cell of its own. *)
Lemma typed_build {O} (ok : O → Prop) (m : M (cell R O) unit) :
  cell_typed (sqe_typed Γ) ok ⊢ m → typed (ctx_typed (sqe_typed Γ)) (build m) ok.
Proof.
  intros Hm w Hw. assert (cell_typed (sqe_typed Γ) ok (Cell w None)) as H0 by (split; [done|by intros ? [=]]).
  specialize (Hm _ H0). unfold build. destruct (m (Cell w None)) as [[[]|e|f] [w' [o|]]]; cbn; try done.
  - destruct Hm as [_ [Hw' Ho]]. split; [by apply Ho|done].
  - by destruct Hm.
  - by destruct Hm.
Qed.

(** The stream of a connection is one. *)
Lemma accept_finish_typed peer : Γ peer = Some Cl_stream →
  typed CT (async_accept_finish self peer) (λ r, match r with Ok s => stream_class s = Cl_stream | Err _ => True end).
Proof.
  intros Hp. unfold async_accept_finish. apply typed_finally; [|typed_auto]. unfold accept_await_resume.
  apply typed_this_bind. intros a _. cbv zeta. eapply typed_bind_any; [typed_auto|]. intros _. destruct (_ <? 0).
  - unfold acceptor_err. eapply typed_bind_any; [typed_auto|]. intros e. by apply typed_ret.
  - eapply typed_bind.
    + apply typed_on_world, (typed_build (λ s, stream_class s = Cl_stream)).
      apply (stream_new_typed _ _ Cl_stream); [done|by left|done].
    + intros s Hs. by apply typed_ret.
Qed.
End AcceptorTyping.

(** ** Files *)
Section FileTyping.
Context {R : Type} {HU : IoUring R} {HUL : IoUringLaws R} {HB : IoUringBufs R} {HSep : IoUringSeparate R} {HS : UnorderedBegin}.
Variable Γ : typing.
Variable self : ptr.
Hypothesis Hself : Γ self = Some Cl_file.
#[local] Hint Extern 0 (AwaitableBase _ file_impl) => exact file_awaitable_base : typeclass_instances.
Local Abbreviation CT := (cell_typed (R := R) (sqe_typed Γ) (λ _ : file_impl, True)).

Hint Extern 1 (typed (cell_typed _ _) (upd_this _) _) => by apply typed_upd_this : typed.
Hint Extern 1 (typed (cell_typed _ _) intrusive_ptr_add_ref _) => by apply typed_add_ref : typed.

Lemma file_dtor_typed f : ctx_typed (sqe_typed Γ) ⊢ file_impl_dtor f.
Proof. unfold file_impl_dtor. typed_auto. Qed.

Lemma file_release_typed : CT ⊢ intrusive_ptr_release.
Proof. apply typed_release; [done|]. intros f _. apply file_dtor_typed. Qed.
Hint Resolve file_release_typed : typed.

Lemma file_process_typed k e : class_frames Cl_file k = true → CT ⊢ await_process_cqe k e.
Proof. destruct k; try done; intros _; cbn; unfold open_process_cqe; typed_auto. Qed.

Lemma file_handle_typed k : class_frames Cl_file k = true → CT ⊢ take_handle k.
Proof. destruct k; try done; intros _; cbn; unfold file_take_handle; typed_auto. Qed.

Lemma file_dispatch_typed k e : class_frames Cl_file k = true → CT ⊢ dispatch k e.
Proof.
  intros Hk. apply typed_dispatch; [done|intros f _; apply file_dtor_typed|by apply file_process_typed|by apply file_handle_typed].
Qed.

(** Both sides' frames are a file's. *)
Lemma side_sqe_typed d op : op_typed Γ op → sqe_typed Γ (Sqe op (Some (self, side_kind d)) IOSQE_FIXED_FILE).
Proof. intros Ho. split; [|done]. exists Cl_file. split; [done|by destruct d]. Qed.

Lemma file_queue_rw_typed d fd f : ctx_typed (R := R) (sqe_typed Γ) ⊢ queue_any (rw_sqe self d fd f).
Proof. apply typed_queue_any, side_sqe_typed. unfold side_op. by destruct d, (0 <=? buf_index_ f). Qed.
Lemma file_cancel_rw_typed d : ctx_typed (R := R) (sqe_typed Γ) ⊢ queue_one (cancel_sqe self (side_kind d)).
Proof. apply typed_queue_one. repeat split. exists Cl_file. split; [done|by destruct d]. Qed.
Lemma file_cqe_typed k res : class_frames Cl_file k = true → CT ⊢ file_cqe self k res.
Proof. apply file_dispatch_typed. Qed.
Hint Resolve file_queue_rw_typed file_cancel_rw_typed : typed.
Hint Extern 1 (typed _ (file_cqe _ _ _) _) => apply file_cqe_typed; solve [done | by match goal with d : rw_side |- _ => destruct d end] : typed.

Lemma file_err_typed {A} res : CT ⊢ file_err (A := A) res.
Proof. unfold file_err. typed_auto. Qed.
Lemma open_dtor_typed : CT ⊢ open_awaitable_dtor self.
Proof. unfold open_awaitable_dtor. typed_auto. Qed.
Lemma rw_dtor_typed d : CT ⊢ rw_awaitable_dtor self d.
Proof. unfold rw_awaitable_dtor. typed_auto. Qed.
Lemma make_rw_typed d buf : CT ⊢ make_rw d buf.
Proof. unfold make_rw, file_async_write, file_async_read. typed_auto. Qed.
Lemma make_rw_fixed_typed d data b : CT ⊢ make_rw_fixed d data b.
Proof. unfold make_rw_fixed, file_async_write_fixed, file_async_read_fixed. typed_auto. Qed.
Hint Resolve file_err_typed open_dtor_typed rw_dtor_typed make_rw_typed make_rw_fixed_typed : typed.

Lemma file_op_typed op y : CT ⊢ run_file_op self op y.
Proof.
  unfold run_file_op, start_rw, await_rw, rw_await_suspend, await_rw_finish, rw_await_resume, await_open, file_async_open,
    open_await_suspend, await_open_finish, open_await_resume.
  typed_auto.
Qed.
End FileTyping.
