(* ===== verification/LoopTyping.v ===== *)
(** The typing of [ProgramTyping] for the loop: the table of objects, what a program
    and the kernel may do, and the theorem that it stays typed. *)

From S2P Require Import Prelude Uring Buffer Frame BufRing Executor Task Awaitable Slots Duration Typing ProgramTyping.
From S2P Require Import Timer Stream StreamRecv StreamInv StreamSafe Acceptor AcceptorSafe File FileSafe IoContext EventLoop Program.

(** ** Coroutines: nothing here queues an entry *)
Section TaskTyping.
Context {R : Type} {HU : IoUring R} {HUL : IoUringLaws R} {HB : IoUringBufs R} {HSep : IoUringSeparate R} {HA : CoroAlloc}.
Variable P : sqe → Prop.
Local Abbreviation WT := (ctx_typed (R := R) P).

Lemma typed_get_coro h : WT ⊢ get_coro h.
Proof. unfold get_coro. typed_auto. Qed.
Hint Resolve typed_get_coro : typed.
Lemma typed_get_internal h : WT ⊢ get_internal h.
Proof. unfold get_internal. typed_auto. Qed.
Lemma typed_upd_internal h f : WT ⊢ upd_internal h f.
Proof. unfold upd_internal, set_coro. typed_auto. Qed.
Hint Resolve typed_get_internal typed_upd_internal : typed.

Lemma typed_destroy_owned fuel o : WT ⊢ destroy_owned fuel o.
Proof.
  revert o. induction fuel as [|fuel IH]; intros o; cbn [destroy_owned]; [typed_auto|].
  assert (∀ ls, WT ⊢ foldr (λ o k, destroy_owned fuel o ;; k) (mret tt) ls) as Hls.
  { intros ls. induction ls as [|x ls IHl]; cbn [foldr]; [by apply typed_ret|]. eapply typed_bind_any; [apply IH|]. by intros _. }
  assert (∀ h, WT ⊢ (x ← get_coro h; modify (λ c, c <| coros ::= delete h |>) ;;
    match x with
    | UserCoro _ _ ls => foldr (λ o k, destroy_owned fuel o ;; k) (mret tt) ls
    | SchedCoro _ (Some t) => destroy_owned fuel (Own_task t)
    | SchedCoro _ None => mret tt
    end)) as Hd by (intros h; typed_auto).
  unfold report_unawaited, unhandled_exception. typed_auto.
Qed.
Hint Resolve typed_destroy_owned : typed.

Lemma typed_accept_post data : WT ⊢ accept_post data.
Proof.
  unfold accept_post, scheduler, set_coro, internal_task_new, add_task, internal_task_release, coro_destroy, destroy. typed_auto.
Qed.
End TaskTyping.

(** ** The pipe *)
Section PipeTyping.
Context {R : Type} {HU : IoUring R} {HUL : IoUringLaws R} {HB : IoUringBufs R} {HSep : IoUringSeparate R} {HA : CoroAlloc}.
Variable Γ : typing.
Variable self : ptr.
Hypothesis Hself : Γ self = Some Cl_pipe.
Local Abbreviation CT := (cell_typed (R := R) (sqe_typed Γ) (λ _ : pipe_frame, True)).

Hint Extern 1 (typed (cell_typed _ _) (upd_this _) _) => by apply typed_upd_this : typed.
Hint Extern 1 (typed (cell_typed _ _) intrusive_ptr_add_ref _) => by apply typed_add_ref : typed.
Hint Resolve typed_accept_post : typed.

Lemma pipe_schedule_typed : CT ⊢ schedule_recv self.
Proof. unfold schedule_recv. typed_auto. Qed.
Hint Resolve pipe_schedule_typed : typed.

Lemma pipe_process_typed k e : class_frames Cl_pipe k = true → CT ⊢ @await_process_cqe _ _ (pipe_awaitable_base self) k e.
Proof. destruct k; try done; intros _; cbn; unfold pipe_process_cqe; typed_auto. Qed.
Lemma pipe_handle_typed k : class_frames Cl_pipe k = true → CT ⊢ @take_handle _ _ (pipe_awaitable_base self) k.
Proof. destruct k; try done; intros _; cbn; unfold pipe_handle; typed_auto. Qed.
Lemma pipe_cancel_typed : ctx_typed (R := R) (sqe_typed Γ) ⊢ pipe_cancel self.
Proof. unfold pipe_cancel. typed_auto. Qed.
End PipeTyping.

(** ** Objects of several classes *)
Section SumTyping.
Context {R A B : Type} {HU : IoUring R}.
Variable P : sqe → Prop.
Variable ok : A + B → Prop.
Local Abbreviation CT := (cell_typed (R := R) P ok).

(** [m] runs on a cell [c] that is typed for one summand. *)
Ltac lift_case Hm Ho c okA :=
  let Hc := fresh in
  assert (cell_typed P okA c) as Hc by (split; [done|]; first [by intros ? [= <-]; apply Ho | by intros ? [=]]);
  specialize (Hm c Hc); clear Hc; revert Hm;
  match goal with |- context [match ?r with _ => _ end → _] => destruct r as [[?|?|?] [? ?]] end; cbn; try done;
  [intros (? & ? & Hm)|intros (? & Hm)]; repeat split; try done; intros o' [a' [-> ->]]%fmap_Some; by apply Hm.

(** What [typed] says of one run. *)
Definition typed_out {S X} (I : S → Prop) (Q : X → Prop) (r : outcome X * S) : Prop :=
  match r with (Ret a, s') => Q a ∧ I s' | (Throw _, s') => I s' | (Fault f, _) => f ≠ WrongClass end.

Lemma lift_l_out {X} (m : M (cell R A) X) Q w (o : option A) : typed (cell_typed P (λ a, ok (inl a))) m Q →
  ctx_typed P w → (∀ a, o = Some a → ok (inl a)) → typed_out CT Q (lift_l m (Cell w (inl <$> o))).
Proof.
  intros Hm Hw Ho. unfold lift_l, typed_out. destruct o as [a|]; cbn.
  - lift_case Hm Ho (Cell w (Some a)) (λ a, ok (inl a)).
  - lift_case Hm Ho (Cell w (None : option A)) (λ a, ok (inl a)).
Qed.

Lemma lift_r_out {X} (m : M (cell R B) X) Q w (o : option B) : typed (cell_typed P (λ b, ok (inr b))) m Q →
  ctx_typed P w → (∀ b, o = Some b → ok (inr b)) → typed_out CT Q (lift_r m (Cell w (inr <$> o))).
Proof.
  intros Hm Hw Ho. unfold lift_r, typed_out. destruct o as [b|]; cbn.
  - lift_case Hm Ho (Cell w (Some b)) (λ b, ok (inr b)).
  - lift_case Hm Ho (Cell w (None : option B)) (λ b, ok (inr b)).
Qed.

Lemma typed_lift_l {X} (m : M (cell R A) X) Q : (∀ b, ¬ ok (inr b)) →
  typed (cell_typed P (λ a, ok (inl a))) m Q → typed CT (lift_l m) Q.
Proof.
  intros Hb Hm [w o] [Hw Ho]. destruct o as [[a|b]|]; [|by destruct (Hb b (Ho _ eq_refl))|].
  - apply (lift_l_out m Q w (Some a)); [done|done|]. intros ? [= <-]. by apply Ho.
  - by apply (lift_l_out m Q w None).
Qed.

Lemma typed_lift_r {X} (m : M (cell R B) X) Q : (∀ a, ¬ ok (inl a)) →
  typed (cell_typed P (λ b, ok (inr b))) m Q → typed CT (lift_r m) Q.
Proof.
  intros Ha Hm [w o] [Hw Ho]. destruct o as [[a|b]|]; [by destruct (Ha a (Ho _ eq_refl))| |].
  - apply (lift_r_out m Q w (Some b)); [done|done|]. intros ? [= <-]. by apply Ho.
  - by apply (lift_r_out m Q w None).
Qed.

(** A virtual call is typed if it is for each class the object can be of. *)
Lemma typed_virtual {X} (ma : M (cell R A) X) (mb : M (cell R B) X) :
  ((∃ a, ok (inl a)) → cell_typed P (λ a, ok (inl a)) ⊢ ma) → ((∃ b, ok (inr b)) → cell_typed P (λ b, ok (inr b)) ⊢ mb) →
  CT ⊢ (λ c, match object c with
             | Some (inl _) => lift_l ma c | Some (inr _) => lift_r mb c | None => (Fault UseAfterFree, c) end).
Proof.
  intros Ha Hb [w o] [Hw Ho]. destruct o as [[a|b]|]; cbn; [| |done].
  - apply (lift_l_out ma _ w (Some a)); [|done|intros ? [= <-]; by apply Ho]. apply Ha. exists a. by apply Ho.
  - apply (lift_r_out mb _ w (Some b)); [|done|intros ? [= <-]; by apply Ho]. apply Hb. exists b. by apply Ho.
Qed.
End SumTyping.

(** ** The table of objects *)
Definition class_of (o : pipe_frame + io_object) : class :=
  match o with
  | inl _ => Cl_pipe
  | inr (inl _) => Cl_timer
  | inr (inr (inl s)) => stream_class s
  | inr (inr (inr (inl _))) => Cl_acceptor
  | inr (inr (inr (inr _))) => Cl_file
  end.

Section LoopTyping.
Context {R : Type} {HU : IoUring R} {HUL : IoUringLaws R} {HB : IoUringBufs R} {HSep : IoUringSeparate R}.
Context {HS : UnorderedBegin} {HA : CoroAlloc}.
Variable Γ : typing.
#[local] Existing Instance io_objects.
Implicit Types s : loop R io_object.

(** Every entry queued so far is typed, and so is every object. *)
Definition loop_typed s : Prop :=
  ctx_typed (sqe_typed Γ) (lctx s) ∧ ∀ p o, objs s !! p = Some o → Γ p = Some (class_of o).

Local Abbreviation obj_typed p := (λ o : pipe_frame + io_object, Γ p = Some (class_of o)).
Local Abbreviation OT p := (cell_typed (R := R) (sqe_typed Γ) (obj_typed p)).

Lemma typed_at_object {X} p (m : M (cell R (pipe_frame + io_object)) X) Q : typed (OT p) m Q → typed loop_typed (at_object p m) Q.
Proof.
  intros Hm s [Hw Ho]. assert (OT p (Cell (lctx s) (objs s !! p))) as Hc by (split; [done|]; apply Ho).
  specialize (Hm _ Hc). unfold at_object. destruct (m _) as [[x|e|f] [w o]]; [destruct Hm as (? & ? & Hm)|destruct Hm as (? & Hm)|done].
  all: repeat split; try done; cbn; intros q o' E; destruct (decide (q = p)) as [->|Hq];
    [rewrite lookup_partial_alter_eq in E; by apply Hm|rewrite lookup_partial_alter_ne in E by done; by apply Ho].
Qed.

Ltac by_class := intros; unfold class_of, stream_class in *; repeat case_match; first [congruence | naive_solver congruence].

(** Code of a class on an object of that class. *)
Lemma at_pipe_typed {X} p (m : M (cell R pipe_frame) X) : Γ p = Some Cl_pipe →
  cell_typed (sqe_typed Γ) (λ _, True) ⊢ m → loop_typed ⊢ at_object p (lift_l m).
Proof.
  intros Hp Hm. apply typed_at_object, typed_lift_l; [by_class|]. by eapply typed_cell_iff; [|exact Hm].
Qed.

Lemma at_timer_typed {X} p (m : M (cell R timer_impl) X) : Γ p = Some Cl_timer →
  cell_typed (sqe_typed Γ) (λ _, True) ⊢ m → loop_typed ⊢ at_object p (lift_r (lift_l m)).
Proof.
  intros Hp Hm. apply typed_at_object, typed_lift_r; [by_class|]. apply typed_lift_l; [by_class|].
  by eapply typed_cell_iff; [|exact Hm].
Qed.

Lemma at_stream_typed {X} p c (m : M (cell R stream_impl) X) : Γ p = Some c → c = Cl_stream ∨ c = Cl_client →
  cell_typed (sqe_typed Γ) (λ st, stream_class st = c) ⊢ m → loop_typed ⊢ at_stream p m.
Proof.
  intros Hp Hc Hm. apply typed_at_object, typed_lift_r; [by_class|]. apply typed_lift_r; [by_class|].
  apply typed_lift_l; [by_class|]. eapply typed_cell_iff; [|exact Hm]. intros st. cbn. rewrite Hp. naive_solver.
Qed.

Lemma at_acceptor_typed {X} p (m : M (cell R acceptor_impl) X) Q : Γ p = Some Cl_acceptor →
  typed (cell_typed (sqe_typed Γ) (λ _, True)) m Q → typed loop_typed (at_object p (lift_r (lift_r (lift_r (lift_l m))))) Q.
Proof.
  intros Hp Hm. apply typed_at_object, typed_lift_r; [by_class|]. do 2 (apply typed_lift_r; [by_class|]).
  apply typed_lift_l; [by_class|]. by eapply typed_cell_iff; [|exact Hm].
Qed.

Lemma at_file_typed {X} p (m : M (cell R file_impl) X) : Γ p = Some Cl_file →
  cell_typed (sqe_typed Γ) (λ _, True) ⊢ m → loop_typed ⊢ at_object p (lift_r (lift_r (lift_r (lift_r m)))).
Proof.
  intros Hp Hm. apply typed_at_object. do 4 (apply typed_lift_r; [by_class|]). by eapply typed_cell_iff; [|exact Hm].
Qed.

(** Virtual calls. *)
Lemma object_dtor_typed p o : obj_typed p o → ctx_typed (sqe_typed Γ) ⊢ @destructor _ _ (object_base p) o.
Proof.
  intros _. destruct o as [|[|[s|[a|f]]]]; cbn; [by apply typed_ret..| | |].
  - apply stream_dtor_typed.
  - apply acceptor_dtor_typed.
  - apply file_dtor_typed.
Qed.

(** A virtual function whose version in each class is typed for that class. *)
Lemma object_virtual_typed {X} (call : ∀ O, AwaitableBase R O → M (cell R O) X) p c : Γ p = Some c →
  (∀ A B (H1 : AwaitableBase R A) (H2 : AwaitableBase R B), call _ (sum_awaitable H1 H2) = λ c, match object c with
     | Some (inl _) => lift_l (call _ H1) c | Some (inr _) => lift_r (call _ H2) c | None => (Fault UseAfterFree, c) end) →
  (c = Cl_pipe → cell_typed (sqe_typed Γ) (λ _, True) ⊢ call _ (pipe_awaitable_base p)) →
  (c = Cl_timer → cell_typed (sqe_typed Γ) (λ _, True) ⊢ call _ timer_awaitable_base) →
  (c = Cl_stream ∨ c = Cl_client → cell_typed (sqe_typed Γ) (λ st, stream_class st = c) ⊢ call _ (stream_awaitable_base p)) →
  (c = Cl_acceptor → cell_typed (sqe_typed Γ) (λ _, True) ⊢ call _ acceptor_awaitable_base) →
  (c = Cl_file → cell_typed (sqe_typed Γ) (λ _, True) ⊢ call _ file_awaitable_base) →
  OT p ⊢ call _ (object_base p).
Proof.
  intros Hp Hcall H1 H2 H3 H4 H5. unfold object_base, io_objects.
  rewrite Hcall. apply typed_virtual; [intros [a Ha]; eapply typed_cell_iff; [|apply H1]; by_class|intros _].
  rewrite Hcall. apply typed_virtual; [intros [a Ha]; eapply typed_cell_iff; [|apply H2]; by_class|intros _].
  rewrite Hcall. apply typed_virtual; [intros [a Ha]; eapply typed_cell_iff; [|apply H3]; by_class|intros _].
  rewrite Hcall. apply typed_virtual; intros [a Ha]; (eapply typed_cell_iff; [|first [apply H4; by_class|apply H5; by_class]]); by_class.
Qed.

Lemma object_process_typed p k e c : Γ p = Some c → class_frames c k = true → OT p ⊢ @await_process_cqe _ _ (object_base p) k e.
Proof.
  intros Hp Hk. apply (object_virtual_typed (λ O H, @await_process_cqe R O H k e) p c Hp); [done|intros Hc; try subst c..].
  - by apply pipe_process_typed.
  - by apply timer_process_typed.
  - by apply stream_process_typed.
  - by apply acceptor_process_typed.
  - by apply file_process_typed.
Qed.

Lemma object_handle_typed p k c : Γ p = Some c → class_frames c k = true → OT p ⊢ @take_handle _ _ (object_base p) k.
Proof.
  intros Hp Hk. apply (object_virtual_typed (λ O H, @take_handle R O H k) p c Hp); [done|intros Hc; try subst c..].
  - by eapply pipe_handle_typed.
  - by eapply timer_handle_typed.
  - by eapply stream_handle_typed.
  - by eapply acceptor_handle_typed.
  - by eapply file_handle_typed.
Qed.

Lemma obj_typed_count p f o : obj_typed p o → obj_typed p (upd_count f o).
Proof. by destruct o as [|[|[|[]]]]. Qed.

Lemma typed_check_exception : ctx_typed (R := R) (sqe_typed Γ) ⊢ check_exception.
Proof. unfold check_exception. typed_auto. Qed.

(** A completion whose user data are typed is processed by a frame of its object. *)
Lemma process_cqe_typed p k e : data_typed Γ (Some (p, k)) → loop_typed ⊢ process_cqe p k e.
Proof.
  intros (c & Hp & Hk). apply typed_at_object. apply typed_finally.
  - apply typed_this_bind. intros o _. eapply typed_bind_any; [apply typed_assert|]. intros _.
    eapply typed_bind_any; [by eapply object_process_typed|]. intros _.
    eapply typed_bind_any; [by eapply object_handle_typed|]. intros h.
    eapply typed_bind_any; [by apply typed_on_world, typed_check_exception|]. intros _. by apply typed_ret.
  - apply typed_release; [apply obj_typed_count|apply object_dtor_typed].
Qed.

Lemma typed_on_ctx {X} (m : M (ctx R) X) Q : typed (ctx_typed (sqe_typed Γ)) m Q → typed loop_typed (on_ctx m) Q.
Proof. apply typed_zoom; [by intros s []|]. intros s w [_ Ho] Hw. by split. Qed.

(** ** What a program and the kernel do

    The operations of the classes, constructions, and the completion of an entry that was
    submitted.  A program calls an operation on an object of its class, and an address
    is used for objects of one class. *)
Inductive action :=
| Act_new_timer (p : ptr) | Act_new_file (p : ptr) | Act_new_stream (p : ptr) (fd : Z) | Act_new_client (p : ptr)
| Act_new_acceptor (p : ptr) (a : acceptor_impl) | Act_new_pipe (p : ptr) (fd : Z)
| Act_timer (p : ptr) (op : timer_op) (y : timer_sys)
| Act_stream (p : ptr) (op : stream_op) (y : stream_sys)
| Act_connect (p : ptr) (addr : sockaddr) (h : handle) | Act_connect_finish (p : ptr) | Act_connect_drop (p : ptr)
| Act_client_drop (p : ptr)
| Act_acceptor (p : ptr) (op : acceptor_op) (y : acceptor_sys)
| Act_accept_finish (p peer : ptr)
| Act_file (p : ptr) (op : file_op) (y : file_sys)
| Act_pipe_cancel (p : ptr)
| Act_complete (e : cqe).

(** A new object at a free address. *)
Definition place (p : ptr) (o : pipe_frame + io_object) : M (loop R io_object) unit :=
  modify (λ s, s <| objs ::= λ os, match os !! p with None => <[p := o]> os | Some _ => os end |>).

Definition is_class (p : ptr) (cs : list class) : bool :=
  match Γ p with Some c => bool_decide (c ∈ cs) | None => false end.

(** The user data of the entries the kernel has been given. *)
Definition submitted_data (r : R) : list user_data := sqe_data <$> concat (sq_submitted r).

Definition run_action (a : action) : M (loop R io_object) unit :=
  match a with
  | Act_new_timer p => when (is_class p [Cl_timer]) (place p (inr (inl timer_new)))
  | Act_new_file p => when (is_class p [Cl_file]) (place p (inr (inr (inr (inr file_new)))))
  | Act_new_acceptor p a => when (is_class p [Cl_acceptor]) (place p (inr (inr (inr (inl a)))))
  | Act_new_stream p fd =>
      s ← get;
      when (is_class p [Cl_stream] && bool_decide (objs s !! p = None)) (at_stream p (stream_new p fd))
  | Act_new_client p =>
      s ← get;
      when (is_class p [Cl_client] && bool_decide (objs s !! p = None)) (at_stream p (client_new p))
  | Act_new_pipe p fd =>
      when (is_class p [Cl_pipe])
        (place p (inl (pipe_frame_new fd)) ;; at_object p (lift_l (intrusive_ptr_add_ref ;; schedule_recv p)))
  | Act_timer p op y => when (is_class p [Cl_timer]) (at_object p (lift_r (lift_l (run_timer_op p op y))) ;; mret tt)
  | Act_stream p op y => when (is_class p [Cl_stream; Cl_client]) (at_stream p (stream_step p op y) ;; mret tt)
  | Act_connect p addr h => when (is_class p [Cl_client]) (at_stream p (async_connect p addr h) ;; mret tt)
  | Act_connect_finish p => when (is_class p [Cl_client]) (at_stream p (async_connect_finish p) ;; mret tt)
  | Act_connect_drop p => when (is_class p [Cl_client]) (at_stream p (connect_awaitable_dtor p))
  | Act_client_drop p => when (is_class p [Cl_client]) (at_stream p (client_dtor p))
  | Act_acceptor p op y =>
      when (is_class p [Cl_acceptor]) (at_object p (lift_r (lift_r (lift_r (lift_l (run_acceptor_op p op y))))) ;; mret tt)
  | Act_accept_finish p peer =>
      when (is_class p [Cl_acceptor] && is_class peer [Cl_stream])
        (r ← at_object p (lift_r (lift_r (lift_r (lift_l (async_accept_finish p peer)))));
         match r with Ok st => place peer (inr (stream_object st)) | Err _ => mret tt end)
  | Act_file p op y =>
      when (is_class p [Cl_file]) (at_object p (lift_r (lift_r (lift_r (lift_r (run_file_op p op y))))) ;; mret tt)
  | Act_pipe_cancel p => when (is_class p [Cl_pipe]) (on_ctx (pipe_cancel p))
  | Act_complete e =>
      s ← get;
      when (bool_decide (cqe_data e ∈ submitted_data (io_ring_ (frame (lctx s)))))
        match cqe_data e with Some (p, k) => process_cqe p k e ;; mret tt | None => mret tt end
  end.

(** The program goes on after an exception. *)
Definition run_actions (l : list action) : M (loop R io_object) unit :=
  foldr (λ a k, attempt (run_action a) ;; k) (mret tt) l.

Lemma is_class_spec p cs : is_class p cs = true → ∃ c, Γ p = Some c ∧ c ∈ cs.
Proof. unfold is_class. destruct (Γ p) as [c|]; [|done]. intros H%bool_decide_eq_true. eauto. Qed.

Lemma is_class_one p c : is_class p [c] = true → Γ p = Some c.
Proof. intros (c' & Hp & ->%list_elem_of_singleton)%is_class_spec. done. Qed.

Lemma place_typed p o : Γ p = Some (class_of o) → loop_typed ⊢ place p o.
Proof.
  intros Hp. apply typed_modify; [|done]. intros s [Hw Ho]. split; [done|]. cbn. intros q o'.
  unfold upd. cbn. destruct (objs s !! p) eqn:E; [apply Ho|].
  intros [[<- <-]|[_ H]]%lookup_insert_Some; [done|by apply Ho].
Qed.

Lemma submitted_typed r d : ring_typed (sqe_typed Γ) r → d ∈ submitted_data r → data_typed Γ d.
Proof.
  intros Hr (q & -> & Hq)%list_elem_of_fmap. unfold ring_typed, sq_trace in Hr. rewrite Forall_forall in Hr.
  apply (Hr q). apply elem_of_app. by left.
Qed.

(** The rules for one action. *)
Lemma guarded_typed p c (m : M (loop R io_object) unit) : (Γ p = Some c → loop_typed ⊢ m) → loop_typed ⊢ when (is_class p [c]) m.
Proof. intros Hm. apply typed_when. intros Hp%is_class_one. by apply Hm. Qed.

Lemma guarded_call_typed {X} p c (m : M (loop R io_object) X) : (Γ p = Some c → loop_typed ⊢ m) →
  loop_typed ⊢ when (is_class p [c]) (m ;; mret tt).
Proof. intros Hm. apply guarded_typed. intros Hp. eapply typed_bind_any; [by apply Hm|]. intros _. by apply typed_ret. Qed.

Lemma new_stream_typed p fd : loop_typed ⊢ run_action (Act_new_stream p fd).
Proof.
  eapply typed_bind_any; [apply typed_get|]. intros s. apply typed_when. intros [Hp%is_class_one _]%andb_true_iff.
  eapply at_stream_typed; [done|by left|]. apply stream_new_typed; [done|by left|done].
Qed.

Lemma new_client_typed p : loop_typed ⊢ run_action (Act_new_client p).
Proof.
  eapply typed_bind_any; [apply typed_get|]. intros s. apply typed_when. intros [Hp%is_class_one _]%andb_true_iff.
  eapply at_stream_typed; [done|by right|]. apply client_new_typed; [done|by right|done].
Qed.

Lemma new_pipe_typed p fd : loop_typed ⊢ run_action (Act_new_pipe p fd).
Proof.
  apply guarded_typed. intros Hp. eapply typed_bind_any; [by apply place_typed|]. intros _.
  apply at_pipe_typed; [done|]. eapply typed_bind_any; [by apply typed_add_ref|]. intros _. by apply pipe_schedule_typed.
Qed.

Lemma stream_action_typed p op y : loop_typed ⊢ run_action (Act_stream p op y).
Proof.
  apply typed_when. intros (c & Hp & Hin)%is_class_spec.
  assert (c = Cl_stream ∨ c = Cl_client) as Hc by set_solver.
  eapply typed_bind_any; [eapply at_stream_typed; [exact Hp|done|by apply stream_step_typed]|]. intros _. by apply typed_ret.
Qed.

Lemma client_action_typed {X} p (m : M (cell R stream_impl) X) : Γ p = Some Cl_client →
  cell_typed (sqe_typed Γ) (λ st, stream_class st = Cl_client) ⊢ m → loop_typed ⊢ at_stream p m.
Proof. intros Hp Hm. eapply at_stream_typed; [exact Hp|by right|exact Hm]. Qed.

Lemma accept_finish_action_typed p peer : loop_typed ⊢ run_action (Act_accept_finish p peer).
Proof.
  apply typed_when. intros [Hp%is_class_one Hq%is_class_one]%andb_true_iff.
  eapply typed_bind; [by apply at_acceptor_typed; [|apply accept_finish_typed]|].
  intros [st|e] Hst; [apply place_typed; cbn in *; by rewrite Hst|by apply typed_ret].
Qed.

Lemma complete_typed e : loop_typed ⊢ run_action (Act_complete e).
Proof.
  intros s Hs. unfold run_action. munfold. case_bool_decide as Hd; [|done].
  pose proof (submitted_typed _ _ (proj1 Hs) Hd) as Ht. destruct (cqe_data e) as [[p k]|]; [|done].
  pose proof (process_cqe_typed p k e Ht s Hs) as H. by destruct (process_cqe p k e s) as [[]].
Qed.

Hint Resolve new_stream_typed new_client_typed new_pipe_typed stream_action_typed accept_finish_action_typed complete_typed : typed.

Lemma run_action_typed a : loop_typed ⊢ run_action a.
Proof.
  destruct a; eauto with typed nocore; first [apply guarded_call_typed | apply guarded_typed]; intros Hp;
    try (by apply place_typed; cbn);
    try (apply client_action_typed; [done|]; pose proof (client_connect_typed Γ p Cl_client Hp (or_intror eq_refl)) as Hc).
  - apply at_timer_typed; [done|by apply timer_op_typed].
  - by apply Hc.
  - by apply (Hc (Sockaddr 0 []) 0).
  - by apply (Hc (Sockaddr 0 []) 0).
  - by apply (Hc (Sockaddr 0 []) 0).
  - apply at_acceptor_typed; [done|by apply acceptor_op_typed].
  - apply at_file_typed; [done|by apply file_op_typed].
  - by apply typed_on_ctx, pipe_cancel_typed.
Qed.

(** C10. Completions find the frame they are for: whatever a program calls on its timers,
    streams, clients, acceptors and files, and whichever entries that were submitted the
    kernel completes, in any order and any number of times, no completion is ever
    processed, and no client's operation run, on an object of another class, and every
    entry queued keeps naming a frame, or a timespec, that the object at its address has. *)
Theorem completions_well_typed l s : loop_typed s →
  match run_actions l s with (Fault f, _) => f ≠ WrongClass | (_, s') => loop_typed s' end.
Proof.
  intros Hs. assert (loop_typed ⊢ run_actions l) as H.
  { unfold run_actions. induction l as [|a l IH]; cbn [foldr]; [by apply typed_ret|]. eapply typed_bind_any; [apply typed_attempt, run_action_typed|]. by intros _. }
  specialize (H s Hs). by destruct (run_actions l s) as [[]]; [apply H|..].
Qed.
End LoopTyping.
