(* ===== verification/ProgramSamples.v ===== *)
(** Programs on the recording ring: the theorems of [Program] and [LoopTyping] where
    their hypotheses hold, for a stream that waits for data, and for a program that
    uses a timer, a client and an acceptor. *)

From S2P Require Import Prelude Uring Buffer BufferSpec BufferFlat Frame BufRing Executor LogRing Task Awaitable Duration.
From S2P Require Import Timer Stream StreamRecv StreamInv StreamSafe StreamSamples IoSamples Acceptor AcceptorSafe File FileSafe IoContext EventLoop LoopSamples Program Typing ProgramTyping LoopTyping.

#[local] Existing Instance io_objects.

(** While the loop waits, the kernel writes [bytes] into the buffer at [pb]. *)
Definition filling_env (pb : ptr) (bytes : list Z) : LoopEnv log_ring io_object := {|
  new_object os := fresh (dom os : gset Z);
  user_resume _ := mret tt;
  kernel_writes := λ s, s <| lctx ::= λ w, w <| heap ::= λ m, (write_block pb 0 bytes m).2 |> |> |}.

(** The stream of [StreamSamples], at 512, waits for data; three bytes come into the
    second buffer of its group. *)
Definition stream_at : ptr := 512.
Definition data_cqe : cqe := Cqe (Some (stream_at, FkRecv)) 3 (data_flags 1 true).

Definition receiving : loop log_ring io_object := Eval vm_compute in
  Loop (world1 <| frame ::= λ f, f <| io_ring_ ::= λ r, r <| lr_script := [[data_cqe]] |> |> |>)
    {[stream_at := inr (stream_object stream1)]}.
Definition filled_buffer : loop log_ring io_object := Eval vm_compute in
  (wait_batch (HE := filling_env 104 [1; 2; 3]) receiving).2.

#[local] Existing Instance alone.

Lemma filled_recv : recv_world (buffers_ (st_recv stream1)) [] (lctx filled_buffer).
Proof.
  assert (wp (kernel_fill 7 1 [1; 2; 3]) world1 (λ _ w, recv_world (buffers_ (st_recv stream1)) [] w)) as H.
  { eapply (wp_kernel_fill _ _ _ 7 ring_br 1 104); [exact world1_recv|reflexivity|reflexivity|discriminate|vm_compute; lia|done]. }
  apply wp_run in H as ([] & w & E & H). eapply recv_world_ext; [| |exact H]; by (vm_compute in E; injection E as <-).
Qed.

Lemma data_resumes_receiver_witness :
  ∃ s1 q s2, poll_io (HE := filling_env 104 [1; 2; 3]) receiving = coro_resume (HE := filling_env 104 [1; 2; 3]) 4096 s1 ∧
    receive stream_at s1 = (Ret (Ok q), s2) ∧ to_bytes q (heap (lctx s2)) = (Ret [1; 2; 3], heap (lctx s2)).
Proof.
  refine (data_resumes_receiver (HE := filling_env 104 [1; 2; 3]) stream_at 1 true 3 receiving filled_buffer stream1 4096 7
    ring_br 104 _ _ _ _ filled_recv _ _ _ _ _ _ _ _); first [by vm_compute | by (vm_compute; lia)].
Defined.

(** A timer at 256, a client at 512, an acceptor at 1024 and its connection at 2048. *)
Definition sample_classes : typing := λ p,
  if p =? 256 then Some Cl_timer else if p =? 512 then Some Cl_client else
  if p =? 1024 then Some Cl_acceptor else if p =? 2048 then Some Cl_stream else None.

Definition no_timer : timer_sys := TimerSys 1 false false 0 0.
Definition no_acceptor : acceptor_sys := AcceptorSys 1 false 0 0 0 0 [].
Definition sample_actions : list action :=
  [Act_new_timer 256; Act_new_client 512; Act_new_acceptor 1024 (AcceptorImpl 1 accept_frame_new op_frame_new op_frame_new (Sockaddr AF_INET [0; 80]) 3 true);
   Act_timer 256 (Op_wait (Ts 1 0) 4096) no_timer;
   Act_connect 512 (Sockaddr AF_INET [0; 80]) 8192;
   Act_acceptor 1024 (Aop_accept 12288) no_acceptor;
   Act_client_drop 512;
   Act_complete (Cqe (Some (256, FkTimer)) (- ETIME) 0);
   Act_complete (Cqe (Some (512, FkSocket)) 0 0);
   Act_complete (Cqe (Some (512, FkConnect)) 0 0);
   Act_complete (Cqe (Some (1024, FkAccept)) 0 0);
   Act_complete (Cqe (Some (256, FkClose)) 0 0);
   Act_accept_finish 1024 2048].

Definition empty_loop : loop log_ring io_object := Loop (log_ctx 4 8 []) ∅.

Lemma completions_well_typed_witness :
  ∃ s', run_actions sample_classes sample_actions empty_loop = (Ret tt, s') ∧ loop_typed sample_classes s' ∧
    submitted_data (io_ring_ (frame (lctx s'))) = [Some (512, FkTimeout); Some (256, FkTimer); Some (512, FkSocket);
      Some (512, FkConnect); None; Some (1024, FkAccept)].
Proof.
  assert (loop_typed sample_classes empty_loop) as H0 by (split; [by vm_compute|done]).
  pose proof (completions_well_typed sample_classes sample_actions empty_loop H0) as H.
  assert (run_actions sample_classes sample_actions empty_loop = (Ret tt, (run_actions sample_classes sample_actions empty_loop).2)) as E
    by (vm_compute; reflexivity).
  rewrite E in H. eexists. split; [exact E|]. split; [exact H|]. vm_compute. reflexivity.
Defined.
