(* ===== verification/ProgramSafeSamples.v ===== *)
(** A whole program on the recording ring: the theorems of [ProgramLoop] for an
    acceptor, a timer, a client, a file and the stream of a connection. *)

From S2P Require Import Prelude Uring Buffer BufferSpec Frame BufRing Executor LogRing Awaitable Duration Slots.
From S2P Require Import Timer Stream StreamRecv StreamInv StreamSamples IoContext Acceptor AcceptorSafe AcceptorSamples File FileSafe EventLoop.
From S2P Require Import Component ComponentLoop ComponentIo ComponentStream LoopSamples Program ProgramSafe ProgramLoop.

#[local] Existing Instance io_objects.

Definition plain_env : LoopEnv log_ring io_object := {|
  new_object os := fresh (dom os : gset Z);
  user_resume _ := mret tt;
  kernel_writes := λ s, s |}.
#[local] Existing Instance plain_env.

(** An acceptor at 1024 on the slot 0. *)
Definition listening : loop log_ring io_object := Loop (table_of [1; 2; 3]) {[1024 := inr (inr (inr (inl listener)))]}.
Definition listening_owners : gmap ptr io_owners := {[1024 := inr (inr (inl one_acceptor))]}.

Lemma listening_base : base (Footprint [] [0] []) (lctx listening).
Proof.
  assert (∀ g p, ¬ in_ring (lctx listening) g p) as Hr by (by intros g p (br & Hg & _)).
  split; [by vm_compute| |by intros g ?%not_elem_of_nil|exact mem_init_wf|done|by intros g p ?%Hr|by intros g g' p ?%Hr|constructor|..].
  - change (slots_ok [0] (table_of [1; 2; 3])). table_tac.
  - by intros a ?%not_elem_of_nil.
  - by intros a ?%not_elem_of_nil.
Qed.

Lemma listening_inv : program_inv ∅ listening_owners listening.
Proof.
  exists {[1024 := Footprint [] [0] []]}. split; [exact listening_base|].
  intros p. destruct (decide (p = 1024)) as [->|Hne].
  - exists (Some (inr (inr (inl listener)))). split; [done|]. do 3 (eexists (Some _); split; [done|]).
    split; [done|]. split; [done|]. split; [done|]. by split_and!.
  - unfold listening_owners. by rewrite !lookup_singleton_ne.
Qed.

Definition on_timer (a : timer_op) : program_act := Do 256 (inl a).
Definition on_client (a : stream_op) : program_act := Do 512 (inr (inl a)).
Definition on_file (a : file_op) : program_act := Do 768 (inr (inr (inr a))).
Definition on_acceptor (a : acceptor_op) : program_act := Do 1024 (inr (inr (inl a))).
Definition on_stream (a : stream_op) : program_act := Do 2048 (inr (inl a)).

(** A timer, a client and a file are made; something is started at each, and at the
    acceptor; all of it completes. *)
Definition starting : list program_act :=
  [Register_ring 2 8 7; Make_timer 256; Make_client 512; Make_file 768;
   on_timer (Op_wait (Ts 1 0) 4096); on_acceptor (Aop_accept 8192); on_client (So_connect loopback 12288);
   on_file (Fop_open "log" 0 16384)].
Definition all_complete : list cqe :=
  [Cqe (Some (256, FkTimer)) (- ETIME) 0; Cqe None (- 1) 0; Cqe (Some (1024, FkAccept)) 1 0;
   Cqe (Some (512, FkSocket)) 0 0; Cqe (Some (512, FkConnect)) 0 0; Cqe (Some (768, FkOpen)) 0 0].

(** The connection gets a stream, which waits for data; data come. *)
Definition accepting : list program_act :=
  [on_timer Op_wait_finish; Accept_stream 1024 2048; on_client So_connect_finish; on_file Fop_open_finish;
   on_stream (So_set_buffer_group 7); on_stream (So_recv 20480)].
Definition data_comes : list cqe := [Cqe (Some (2048, FkRecv)) 3 (data_flags 1 true)].

Definition sample_rounds : list (list program_act * list cqe) :=
  [(starting, all_complete); (accepting, data_comes); ([on_stream So_recv_finish], [])].

(** The program when everything is in flight. *)
Definition started : loop log_ring io_object := (run_program starting listening_owners listening).2.
Definition started_owners : gmap ptr io_owners :=
  match (run_program starting listening_owners listening).1 with Ret T => T | _ => ∅ end.

Lemma started_inv : program_inv ∅ started_owners started.
Proof.
  destruct (proj1 (wp_run _ _ _) (run_program_inv starting _ _ _ listening_inv)) as (T & s & E & H).
  unfold started, started_owners. by rewrite E.
Qed.

Definition completed_owners : gmap ptr io_owners := default ∅ (possible_batch all_complete started_owners started).


(** The slots of the connection, of the client and of the file, and what was asked of
    the kernel. *)
Definition slot_at (s : loop log_ring io_object) (p : ptr) : option Z :=
  match objs s !! p with
  | Some (inr (inr (inl st))) => Some (fd_ st)
  | Some (inr (inr (inr (inl a)))) => Some (ac_fd_ a)
  | Some (inr (inr (inr (inr f)))) => Some (file_fd_ f)
  | _ => None
  end.

