(* ===== verification/Ip.v ===== *)
(** IP addresses ([src/ip.cpp]): the socket addresses made from text, and back.

    [inet_pton] and [inet_ntop] belong to the C library: a class yields what they
    return and write, and its laws are what their documentation says. *)

From S2P Require Import Prelude Stream Acceptor.

(** A byte, and a character as its code. *)
Abbreviation byte := Z (only parsing).
Definition NUL : byte := 0.
Definition INET_ADDRSTRLEN : nat := 16.

Class Inet := {
  (** family and text: the result, what is written, and errno *)
  inet_pton : Z → list byte → Z * list byte * Z;
  (** family, address and the size of the destination: what is written there,
      unless the result is null, and errno *)
  inet_ntop : Z → list byte → nat → option (list byte) * Z }.

(** How many bytes an address of the family has. *)
Definition inet_len (af : Z) : nat := if af =? AF_INET then 4 else 16.

Class InetLaws `{!Inet} : Prop := {
  inet_pton_ret af s : (inet_pton af s).1.1 = 0 ∨ (inet_pton af s).1.1 = 1 ∨ (inet_pton af s).1.1 < 0;
  inet_pton_errno af s : (inet_pton af s).1.1 < 0 → (inet_pton af s).2 ≠ 0;
  inet_pton_len af s : (inet_pton af s).1.1 = 1 → length (inet_pton af s).1.2 = inet_len af;
  (** the text form of an IPv4 address is ended by a NUL, fits and denotes the address *)
  inet_ntop_text a : length a = 4%nat → Forall (λ x, 0 ≤ x < 256) a →
    ∃ s, (inet_ntop AF_INET a INET_ADDRSTRLEN).1 = Some (s ++ [NUL]) ∧ NUL ∉ s ∧
      (length s < INET_ADDRSTRLEN)%nat ∧ (inet_pton AF_INET s).1 = (1, a) }.

(** ** The structures of [<netinet/in.h>] *)
Record sockaddr_in := SockaddrIn { sin_family : Z; sin_port : Z; sin_addr : list byte }.
#[export] Instance eta_sockaddr_in : Eta sockaddr_in := λ a, SockaddrIn (sin_family a) (sin_port a) (sin_addr a).
Record sockaddr_in6 := SockaddrIn6 {
  sin6_family : Z; sin6_port : Z; sin6_flowinfo : Z; sin6_addr : list byte; sin6_scope_id : Z }.
#[export] Instance eta_sockaddr_in6 : Eta sockaddr_in6 := λ a,
  SockaddrIn6 (sin6_family a) (sin6_port a) (sin6_flowinfo a) (sin6_addr a) (sin6_scope_id a).

Definition sockaddr_in_zero : sockaddr_in := SockaddrIn 0 0 (replicate 4 0).
Definition sockaddr_in6_zero : sockaddr_in6 := SockaddrIn6 0 0 0 (replicate 16 0) 0.

(** [htons] and [ntohs] on a little-endian host: the bytes are swapped. *)
Definition htons (p : Z) : Z := Z.lor (Z.shiftl (Z.land p 255) 8) (Z.land (Z.shiftr p 8) 255).
Abbreviation ntohs := htons (only parsing).

(** The bytes after the family, as the structures lie in memory. *)
Definition bytes16 (v : Z) : list byte := [Z.land v 255; Z.land (Z.shiftr v 8) 255].
Definition bytes32 (v : Z) : list byte := bytes16 (Z.land v 65535) ++ bytes16 (Z.shiftr v 16).
Definition sockaddr_of_in (a : sockaddr_in) : sockaddr :=
  Sockaddr (sin_family a) (bytes16 (sin_port a) ++ sin_addr a ++ replicate 8 0).
Definition sockaddr_of_in6 (a : sockaddr_in6) : sockaddr :=
  Sockaddr (sin6_family a)
    (bytes16 (sin6_port a) ++ bytes32 (sin6_flowinfo a) ++ sin6_addr a ++ bytes32 (sin6_scope_id a)).

Section Ip.
Context {HI : Inet} {S : Type}.

Definition make_sockaddr_ipv4 (ipv4_addr : list byte) (port : Z) : M S sockaddr_in :=
  let addr := sockaddr_in_zero <| sin_family := AF_INET |> <| sin_port := htons port |> in
  let '(ret, dst, errno) := inet_pton AF_INET ipv4_addr in
  let addr := if ret =? 1 then addr <| sin_addr := dst |> else addr in
  when (ret =? 0) (throw (literal "invalid network address was used")) ;;
  when (negb (ret =? 1)) (throw_errno_as_error_code errno) ;;
  mret addr.

Definition make_sockaddr_ipv6 (ipv6_addr : list byte) (port : Z) : M S sockaddr_in6 :=
  let addr := sockaddr_in6_zero <| sin6_family := AF_INET6 |> <| sin6_port := htons port |> in
  let '(ret, dst, errno) := inet_pton AF_INET6 ipv6_addr in
  let addr := if ret =? 1 then addr <| sin6_addr := dst |> else addr in
  when (ret =? 0) (throw (literal "invalid network address was used")) ;;
  when (negb (ret =? 1)) (throw_errno_as_error_code errno) ;;
  mret addr.

(** [s.find_first_of( c )] and [s.erase( idx )], which throws when [idx] is [npos]. *)
Definition find_first_of (c : byte) (s : list byte) : option nat := fst <$> list_find (c =.) s.
Definition erase (idx : option nat) (s : list byte) : M S (list byte) :=
  match idx with Some i => mret (take i s) | None => throw out_of_range end.

Definition to_string (a : sockaddr_in) : M S (list byte) :=
  let s := replicate INET_ADDRSTRLEN NUL in
  match inet_ntop AF_INET (sin_addr a) (length s) with
  | (None, errno) => throw_errno_as_error_code errno
  | (Some dst, _) =>
      let s := dst ++ drop (length dst) s in
      erase (find_first_of NUL s) s
  end.
End Ip.

(** ** Lemmas *)

Lemma land_255 x : Z.land x 255 = x mod 2 ^ 8.
Proof. apply (Z.land_ones x 8). done. Qed.

(** In memory the port is in network order. *)
Lemma htons_bytes p : 0 ≤ p < 2 ^ 16 → bytes16 (htons p) = [p / 256; p mod 256].
Proof.
  intros Hp. unfold bytes16, htons. rewrite Z.shiftr_lor, !Z.land_lor_distr_l, Z.shiftr_shiftl_l, Z.shiftl_0_r by done.
  rewrite !land_255, !Z.shiftr_div_pow2, Z.shiftl_mul_pow2, Z.mod_mul, ?Z.mod_mod by done. cbn [Z.lor].
  rewrite (Z.div_small (_ mod _)) by (apply Z.mod_pos_bound; done). rewrite Z.lor_0_r, Z.lor_0_l.
  rewrite (Z.mod_small (p / 2 ^ 8)); [done|]. split; [by apply Z.div_pos; lia|apply Z.div_lt_upper_bound; lia].
Qed.

Section IpLemmas.
Context {HI : Inet} {HL : InetLaws} {S : Type}.

(** What a constructor does with [inet_pton]'s answer [r], [k] putting the bytes in. *)
Definition pton_outcome {A} (r : Z * list byte * Z) (k : list byte → A) : outcome A :=
  let '(ret, dst, errno) := r in
  if ret =? 1 then Ret (k dst)
  else if ret =? 0 then Throw (literal "invalid network address was used")
  else Throw (system_error errno).

Lemma make_sockaddr_run {A} (x : A) af s (k : list byte → A) (st : S) :
  (let '(ret, dst, errno) := inet_pton af s in
   let addr := if ret =? 1 then k dst else x in
   when (ret =? 0) (throw (literal "invalid network address was used")) ;;
   when (negb (ret =? 1)) (throw_errno_as_error_code errno) ;;
   (mret addr : M S A)) st = (pton_outcome (inet_pton af s) k, st).
Proof.
  pose proof (inet_pton_ret af s) as Hr. pose proof (inet_pton_errno af s) as He.
  destruct (inet_pton af s) as [[ret dst] errno]. cbn in Hr, He. unfold pton_outcome.
  destruct (Z.eqb_spec ret 0) as [->|H0]; [done|]. destruct (Z.eqb_spec ret 1) as [->|H1]; [done|].
  unfold throw_errno_as_error_code, from_errno. munfold. cbn. rewrite (proj2 (Z.eqb_neq errno 0)) by (apply He; lia). done.
Qed.

(** Why text is refused: it denotes no address, or the call failed. *)
Definition refused (af : Z) (s : list byte) (e : exn) : Prop :=
  let '(ret, _, errno) := inet_pton af s in
  ret = 0 ∧ e = literal "invalid network address was used" ∨ ret < 0 ∧ e = system_error errno.

Lemma pton_outcome_cases {A} af s (k : list byte → A) :
  (∃ b, pton_outcome (inet_pton af s) k = Ret (k b) ∧ length b = inet_len af ∧ (inet_pton af s).1 = (1, b)) ∨
  (∃ e, pton_outcome (inet_pton af s) k = Throw e ∧ refused af s e).
Proof.
  pose proof (inet_pton_ret af s) as Hr. pose proof (inet_pton_len af s) as Hl. unfold pton_outcome, refused.
  destruct (inet_pton af s) as [[ret b] errno]. cbn in *.
  destruct (Z.eqb_spec ret 1) as [->|H1]; [left; exists b; by split_and!; [|apply Hl|]|right].
  destruct (Z.eqb_spec ret 0) as [->|H0]; eexists; (split; [done|]); [by left|right; split; [lia|done]].
Qed.

Lemma make_ipv4_run s port (st : S) : make_sockaddr_ipv4 s port st =
  (pton_outcome (inet_pton AF_INET s) (SockaddrIn AF_INET (htons port)), st).
Proof. apply (make_sockaddr_run (SockaddrIn AF_INET (htons port) (replicate 4 0)) AF_INET s). Qed.

Lemma make_ipv6_run s port (st : S) : make_sockaddr_ipv6 s port st =
  (pton_outcome (inet_pton AF_INET6 s) (λ b, SockaddrIn6 AF_INET6 (htons port) 0 b 0), st).
Proof. apply (make_sockaddr_run (SockaddrIn6 AF_INET6 (htons port) 0 (replicate 16 0) 0) AF_INET6 s). Qed.

(** Making an address from text: for text the C library accepts, the structure
    has the family, the port in network byte order and the address in their places
    in memory; for other text the literal is thrown, and for a failed call its errno. *)
Lemma make_sockaddr_result s port (st : S) : 0 ≤ port < 2 ^ 16 →
  match (make_sockaddr_ipv4 s port st).1 with
  | Ret a => ∃ b, length b = 4%nat ∧ (inet_pton AF_INET s).1 = (1, b) ∧
      sockaddr_of_in a = Sockaddr AF_INET ([port / 256; port mod 256] ++ b ++ replicate 8 0)
  | Throw e => refused AF_INET s e
  | Fault _ => False
  end ∧
  match (make_sockaddr_ipv6 s port st).1 with
  | Ret a => ∃ b, length b = 16%nat ∧ (inet_pton AF_INET6 s).1 = (1, b) ∧
      sockaddr_of_in6 a = Sockaddr AF_INET6 ([port / 256; port mod 256] ++ replicate 4 0 ++ b ++ replicate 4 0)
  | Throw e => refused AF_INET6 s e
  | Fault _ => False
  end.
Proof.
  intros Hp. rewrite make_ipv4_run, make_ipv6_run. cbn [fst]. split.
  - destruct (pton_outcome_cases AF_INET s (SockaddrIn AF_INET (htons port))) as [(b & -> & Hl & E)|(e & -> & He)]; [|done].
    exists b. split_and!; [done..|]. unfold sockaddr_of_in. cbn -[bytes16 htons]. by rewrite htons_bytes.
  - destruct (pton_outcome_cases AF_INET6 s (λ b, SockaddrIn6 AF_INET6 (htons port) 0 b 0)) as [(b & -> & Hl & E)|(e & -> & He)]; [|done].
    exists b. split_and!; [done..|]. unfold sockaddr_of_in6. cbn -[bytes16 htons]. by rewrite htons_bytes.
Qed.

Lemma list_find_app_here (s t : list byte) : NUL ∉ s → find_first_of NUL (s ++ NUL :: t) = Some (length s).
Proof.
  intros Hn. unfold find_first_of. rewrite list_find_app_r; [cbn; f_equal; lia|].
  apply list_find_None, Forall_forall. intros x Hx Ex. by subst x.
Qed.

Lemma to_string_run a txt (st : S) : (inet_ntop AF_INET (sin_addr a) INET_ADDRSTRLEN).1 = Some (txt ++ [NUL]) → NUL ∉ txt →
  to_string a st = (Ret txt, st).
Proof.
  intros E Hn. unfold to_string. rewrite length_replicate. destruct (inet_ntop _ _ _) as [o errno]. cbn in E. subst o.
  rewrite <- app_assoc. cbn [app]. rewrite list_find_app_here by done. cbn. by rewrite take_app_length.
Qed.

End IpLemmas.
