(* ===== verification/IpSamples.v ===== *)
(** Dotted decimal notation as an instance of the C library's calls, and the theorems
    of [Ip] on it. *)

From S2P Require Import Prelude Stream Acceptor Ip.

(** ** Octets *)
Definition print_octet (n : Z) : list Z :=
  if n <? 10 then [48 + n]
  else if n <? 100 then [48 + n / 10; 48 + n mod 10]
  else [48 + n / 100; 48 + n / 10 mod 10; 48 + n mod 10].

(** Only the shortest form is accepted. *)
Definition parse_octet (s : list Z) : option Z :=
  let n := foldl (λ a c, 10 * a + (c - 48)) 0 s in
  if bool_decide (0 ≤ n < 256 ∧ print_octet n = s) then Some n else None.

Definition octet_ok (n : Z) : bool :=
  bool_decide (parse_octet (print_octet n) = Some n ∧ (length (print_octet n) ≤ 3)%nat ∧
    Forall (λ c, 48 ≤ c < 58) (print_octet n)).

Lemma octets_ok n : 0 ≤ n < 256 → octet_ok n = true.
Proof.
  intros Hn. assert (Forall (λ n, octet_ok n = true) (seqZ 0 256)) as Hall.
  { apply (bool_decide_unpack _). by vm_compute. }
  rewrite Forall_forall in Hall. apply Hall, elem_of_seqZ. lia.
Qed.

(** ** Fields between dots *)
Fixpoint split_dots (s : list Z) : list (list Z) :=
  match s with
  | [] => [[]]
  | c :: s =>
      if c =? 46 then [] :: split_dots s
      else match split_dots s with f :: fs => (c :: f) :: fs | [] => [[c]] end
  end.

Lemma split_dots_field f s : Forall (λ c, 48 ≤ c < 58) f → split_dots (f ++ 46 :: s) = f :: split_dots s.
Proof.
  induction 1 as [|c f Hc Hf IH]; [done|]. cbn [app split_dots]. rewrite IH.
  by rewrite (proj2 (Z.eqb_neq c 46)) by lia.
Qed.

Lemma split_dots_last f : Forall (λ c, 48 ≤ c < 58) f → split_dots f = [f].
Proof. induction 1 as [|c f Hc Hf IH]; [done|]. cbn. rewrite IH. by rewrite (proj2 (Z.eqb_neq c 46)) by lia. Qed.

Definition dotted (a : list Z) : list Z :=
  match a with
  | [w; x; y; z] => print_octet w ++ 46 :: print_octet x ++ 46 :: print_octet y ++ 46 :: print_octet z
  | _ => []
  end.

Definition undotted (s : list Z) : option (list Z) :=
  match split_dots s with [w; x; y; z] => mapM parse_octet [w; x; y; z] | _ => None end.

(** The unspecified IPv6 address and the loopback are enough here. *)
#[export] Instance dotted_inet : Inet := {|
  inet_pton af s :=
    if af =? AF_INET then match undotted s with Some b => (1, b, 0) | None => (0, [], 0) end
    else if af =? AF_INET6 then
      if decide (s = [58; 58]) then (1, replicate 16 0, 0)
      else if decide (s = [58; 58; 49]) then (1, replicate 15 0 ++ [1], 0) else (0, [], 0)
    else (-1, [], 97);
  inet_ntop af a size :=
    if af =? AF_INET then
      if decide (length (dotted a) < size)%nat then (Some (dotted a ++ [NUL]), 0) else (None, 28)
    else (None, 97) |}.

Lemma undotted_len s b : undotted s = Some b → length b = 4%nat.
Proof.
  unfold undotted. destruct (split_dots s) as [|w [|x [|y [|z [|]]]]]; try done. intros H%mapM_Some%Forall2_length. by rewrite <- H.
Qed.

#[export] Instance dotted_laws : InetLaws.
Proof.
  split.
  - intros af s. cbn. repeat case_match; cbn; lia.
  - intros af s. cbn. repeat case_match; cbn; lia.
  - intros af s. cbn. unfold inet_len. destruct (af =? AF_INET).
    + destruct (undotted s) eqn:E; cbn; [by intros _; eapply undotted_len|done].
    + repeat case_match; cbn; try done; lia.
  - intros a Hl Hb. destruct a as [|w [|x [|y [|z [|]]]]]; try done. clear Hl.
    repeat match goal with H : Forall _ (_ :: _) |- _ => apply Forall_cons in H as [? H] end.
    pose proof (octets_ok w ltac:(done)) as Hw%bool_decide_eq_true. pose proof (octets_ok x ltac:(done)) as Hx%bool_decide_eq_true.
    pose proof (octets_ok y ltac:(done)) as Hy%bool_decide_eq_true. pose proof (octets_ok z ltac:(done)) as Hz%bool_decide_eq_true.
    destruct Hw as (Pw & Lw & Dw), Hx as (Px & Lx & Dx), Hy as (Py & Ly & Dy), Hz as (Pz & Lz & Dz).
    exists (dotted [w; x; y; z]).
    assert (length (dotted [w; x; y; z]) < 16)%nat as Hlen.
    { cbn [dotted]. repeat (rewrite length_app; cbn [length]). lia. }
    split_and!; [cbn [inet_ntop dotted_inet]; by rewrite decide_True| |done|].
    + assert (Forall (λ c, 46 ≤ c) (dotted [w; x; y; z])) as Hf.
      { cbn [dotted]. repeat (apply Forall_app; split); repeat (apply Forall_cons; split); try lia;
          repeat (apply Forall_app; split; [eapply Forall_impl; [done|cbn; lia]|apply Forall_cons; split; [lia|]]);
          eapply Forall_impl; try done; cbn; lia. }
      intros Hin. rewrite Forall_forall in Hf. specialize (Hf _ Hin). by unfold NUL in Hf.
    + cbn [inet_pton dotted_inet]. assert (undotted (dotted [w; x; y; z]) = Some [w; x; y; z]) as ->; [|done].
      unfold undotted. cbn [dotted]. rewrite !split_dots_field, split_dots_last by done. cbn [mapM].
      by rewrite Pw, Px, Py, Pz.
Qed.

(** "127.0.0.1" *)
Definition localhost : list Z := [49; 50; 55; 46; 48; 46; 48; 46; 49].

Example make_localhost :
  (make_sockaddr_ipv4 localhost 8080 tt).1 = Ret (SockaddrIn AF_INET 36895 [127; 0; 0; 1]) ∧
  ∃ b, (inet_pton AF_INET localhost).1 = (1, b) ∧
    sockaddr_of_in (SockaddrIn AF_INET 36895 [127; 0; 0; 1]) = Sockaddr AF_INET ([31; 144] ++ b ++ replicate 8 0).
Proof.
  split; [by vm_compute|]. destruct (make_sockaddr_result localhost 8080 tt) as [H _]; [done|].
  vm_compute (make_sockaddr_ipv4 localhost 8080 tt) in H. destruct H as (b & _ & E & Ea). exists b. split; [exact E|exact Ea].
Defined.

