(* ===== verification/Dns.v ===== *)
(** Name resolution ([include/fiona/dns.hpp], [src/dns.cpp]): a resolver's frame is
    shared with the thread that calls [getaddrinfo] and wakes the coroutine.

    The thread's function is cut at the points where another thread can run: its
    call of [getaddrinfo], its critical section, the wake-up and its end, where the
    closure drops its share of the frame.  The critical sections are single steps,
    as both sides lock the frame's mutex. *)

From S2P Require Import Prelude Uring Buffer Frame BufRing Executor.

(** [getaddrinfo( node, service, hints, &addrlist )] when the lists in the set are
    allocated: the result and the list, which the caller then owns. *)
Class GetAddrInfo := { getaddrinfo : ptr → ptr → ptr → gset ptr → Z * ptr }.

(** A list comes with the result 0 only, and is a new one. *)
Class GetAddrInfoLaws `{!GetAddrInfo} : Prop := {
  getaddrinfo_fresh node service hints lists l :
    getaddrinfo node service hints lists = (0, l) → l ≠ 0 ∧ l ∉ lists }.

(** [t_] is whether the thread object is joinable. *)
Record dns_frame := DnsFrame {
  t_ : bool; node_ : ptr; service_ : ptr; hints_ : ptr; addrlist_ : ptr; res_ : Z }.
#[export] Instance eta_dns_frame : Eta dns_frame :=
  λ f, DnsFrame (t_ f) (node_ f) (service_ f) (hints_ f) (addrlist_ f) (res_ f).

Definition dns_frame_new : dns_frame := DnsFrame false 0 0 0 0 (-1).

(** Where the thread is. *)
Inductive dns_worker :=
| Wk_resolve (w : waker)
| Wk_store (w : waker) (res : Z) (addrlist : ptr)
| Wk_wake (w : waker)
| Wk_exit.

(** The executor, what the shared pointers point to and how many there are, the
    thread, and the lists [freeaddrinfo] has not been given yet. *)
Record dns_state {R : Type} := DnsState {
  dns_ctx : ctx R; pframe_ : option dns_frame; dns_owners : Z; dns_thread : option dns_worker; dns_lists : gset ptr }.
Arguments dns_state : clear implicits.
#[export] Instance eta_dns_state R : Eta (dns_state R) :=
  λ s, DnsState R (dns_ctx s) (pframe_ s) (dns_owners s) (dns_thread s) (dns_lists s).

Section Dns.
Context {R : Type} {HU : IoUring R} {HP : OsPipe R} {HG : GetAddrInfo}.
(** Whether the executor's frame still exists, which a waker asks. *)
Variable alive : bool.

Local Abbreviation DM := (M (dns_state R)).

Definition on_dns_ctx {A} (m : M (ctx R) A) : DM A := zoom dns_ctx m.

Definition dns_this : DM dns_frame :=
  s ← get; match pframe_ s with Some f => mret f | None => fail UseAfterFree end.
Definition upd_dns (g : dns_frame → dns_frame) : DM unit :=
  f ← dns_this; modify (λ s, s <| pframe_ := Some (g f) |>).
Definition set_worker (k : option dns_worker) : DM unit := modify (λ s, s <| dns_thread := k |>).

(** ** The shared pointer; destroying a joinable thread object ends the program *)

Definition dns_frame_dtor : DM unit :=
  f ← dns_this;
  when (t_ f) (fail Terminated) ;;
  modify (λ s, s <| pframe_ := None |>).

Definition dns_share : DM unit := modify (λ s, s <| dns_owners ::= Z.succ |>).
Definition dns_unshare : DM unit :=
  modify (λ s, s <| dns_owners ::= Z.pred |>) ;;
  s ← get;
  when (dns_owners s =? 0) dns_frame_dtor.

(** [dns_resolver( ex )] *)
Definition dns_resolver_new (w : ctx R) : dns_state R := DnsState R w (Some dns_frame_new) 1 None ∅.

(** ** The thread's function; an exception that leaves it ends the program *)

Definition uncaught (m : DM unit) : DM unit :=
  r ← attempt m; match r with inl _ => mret tt | inr _ => fail Terminated end.

Definition worker_step : DM unit :=
  s ← get;
  match dns_thread s with
  | None => mret tt
  | Some (Wk_resolve w) =>
      f ← dns_this;
      let '(res, addrlist) := getaddrinfo (node_ f) (service_ f) (hints_ f) (dns_lists s) in
      when (res =? 0) (modify (λ s, s <| dns_lists ::= λ l, {[addrlist]} ∪ l |>)) ;;
      set_worker (Some (Wk_store w res addrlist))
  | Some (Wk_store w res addrlist) =>
      upd_dns (λ f, f <| res_ := res |> <| addrlist_ := addrlist |>) ;;
      set_worker (Some (Wk_wake w))
  | Some (Wk_wake w) =>
      uncaught (on_dns_ctx (wake alive w)) ;;
      set_worker (Some Wk_exit)
  | Some Wk_exit => set_worker None ;; dns_unshare
  end.

Fixpoint worker_steps (n : nat) : DM unit :=
  match n with O => mret tt | S n => worker_step ;; worker_steps n end.

(** [t_.join()]: the caller blocks until the thread has ended. *)
Definition thread_join : DM unit :=
  f ← dns_this;
  when (negb (t_ f)) (throw_errno_as_error_code EINVAL) ;;
  worker_steps 4 ;;
  upd_dns (λ f, f <| t_ := false |>).

(** ** dns_resolver and dns_awaitable *)

Definition async_resolve (node service : ptr) : DM unit :=
  upd_dns (λ f, f <| node_ := node |>) ;;
  upd_dns (λ f, f <| service_ := service |>) ;;
  dns_share.

(** Assigning to a joinable thread object ends the program; the closure has its
    own share of the frame. *)
Definition dns_await_suspend (h : handle) : DM unit :=
  w ← on_dns_ctx (make_waker h);
  dns_share ;;
  f ← dns_this;
  when (t_ f) (fail Terminated) ;;
  set_worker (Some (Wk_resolve w)) ;;
  upd_dns (λ f, f <| t_ := true |>).

Definition dns_await_resume : DM (result ptr) :=
  thread_join ;;
  f ← dns_this;
  if negb (res_ f =? 0) then e ← from_errno (res_ f); mret (Err e) else mret (Ok (addrlist_ f)).

(** ** dns_entry_list: its value is [head_] *)

Definition freeaddrinfo (head : ptr) : DM unit :=
  s ← get;
  if decide (head ∈ dns_lists s) then modify (λ s, s <| dns_lists ::= λ l, l ∖ {[head]} |>)
  else fail UseAfterFree.

Definition dns_entry_list_move (rhs : ptr) : ptr * ptr := (rhs, 0).
Definition dns_entry_list_assign (same : bool) (lhs rhs : ptr) : ptr * ptr :=
  if same then (lhs, rhs) else (rhs, 0).
Definition dns_entry_list_dtor (head : ptr) : DM unit := when (negb (head =? 0)) (freeaddrinfo head).

(** The coroutine goes on: the result, and the awaitable is destroyed. *)
Definition dns_resolved : DM (result ptr) := finally dns_await_resume dns_unshare.

(** A whole resolution; [n] steps of the thread happen before the coroutine is resumed. *)
Definition resolve_round (node service : ptr) (h : handle) (n : nat) : DM (result ptr) :=
  async_resolve node service ;;
  dns_await_suspend h ;;
  worker_steps n ;;
  dns_resolved.
End Dns.
