(* ===== verification/DnsSafe.v ===== *)
(** Name resolution under any interleaving of the resolving thread with the program:
    what a resolution yields, that no list is lost or freed twice, and what ends the
    program. *)

From S2P Require Import Prelude Uring Buffer Frame BufRing Executor Awaitable Dns.

Section DnsRuns.
Context {R : Type} {HU : IoUring R} {HP : OsPipe R} {HG : GetAddrInfo}.
(** The pipe takes every word, and the executor outlives the thread. *)
Hypothesis pipe_ok : ∀ fd data r, (pipe_write fd data r).1 = 0.
Implicit Types (s : dns_state R) (f : dns_frame).

Local Abbreviation DM := (M (dns_state R)).

(** The context once a waker has been used. *)
Definition woken (wk : waker) (w : ctx R) : ctx R :=
  w <| frame := frame w <| io_ring_ := (pipe_write (w_fd wk) (Z.lor (w_h wk) wake_mask) (io_ring_ (frame w))).2 |> |>.

Lemma wake_run wk w : wake true wk w = (Ret tt, woken wk w).
Proof.
  unfold wake, write_word, on_ring, woken. munfold. cbn.
  pose proof (pipe_ok (w_fd wk) (Z.lor (w_h wk) wake_mask) (io_ring_ (frame w))) as E.
  destruct (pipe_write _ _ _) as [e r]. cbn in *. by subst e.
Qed.

Lemma bind_assoc {S A B C} (m : M S A) (k : A → M S B) (k' : B → M S C) (st : S) :
  ((m ≫= k) ≫= k') st = (m ≫= λ x, k x ≫= k') st.
Proof. unfold mbind, M_bind. by destruct (m st) as [[a|e|x] st']. Qed.

Lemma wp_dns_this s f (Q : dns_frame → dns_state R → Prop) : pframe_ s = Some f → Q f s → wp dns_this s Q.
Proof. intros E HQ. unfold dns_this. wp_steps. by rewrite E. Qed.

Lemma wp_upd_dns g s f (Q : unit → dns_state R → Prop) :
  pframe_ s = Some f → Q tt (s <| pframe_ := Some (g f) |>) → wp (upd_dns g) s Q.
Proof. intros E HQ. apply wp_bind. by eapply wp_dns_this. Qed.

Lemma wp_dns_unshare s (Q : unit → dns_state R → Prop) :
  (dns_owners s ≠ 1 → Q tt (s <| dns_owners ::= Z.pred |>)) →
  (dns_owners s = 1 → wp dns_frame_dtor (s <| dns_owners ::= Z.pred |>) Q) → wp dns_unshare s Q.
Proof.
  intros H1 H2. unfold dns_unshare. wp_steps. cbn. apply wp_when; intros E.
  - apply Z.eqb_eq in E. apply H2. lia.
  - apply Z.eqb_neq in E. apply H1. lia.
Qed.

(** ** A resolution from an idle frame: the thread's states *)
Section Round.
Variables (s : dns_state R) (f : dns_frame) (node service : ptr) (h : handle).

Definition round_waker : waker := Waker (pipefd_ (frame (dns_ctx s))).2 h.
Definition round_answer : Z * ptr := getaddrinfo node service (hints_ f) (dns_lists s).
Definition round_lists : gset ptr :=
  if round_answer.1 =? 0 then {[round_answer.2]} ∪ dns_lists s else dns_lists s.
Definition asked : dns_frame := DnsFrame true node service (hints_ f) (addrlist_ f) (res_ f).
Definition answered (joinable : bool) : dns_frame :=
  DnsFrame joinable node service (hints_ f) round_answer.2 round_answer.1.

Definition round_state (i : nat) : dns_state R :=
  match i with
  | 0 => DnsState R (dns_ctx s) (Some asked) (dns_owners s + 2) (Some (Wk_resolve round_waker)) (dns_lists s)
  | 1 => DnsState R (dns_ctx s) (Some asked) (dns_owners s + 2)
           (Some (Wk_store round_waker round_answer.1 round_answer.2)) round_lists
  | 2 => DnsState R (dns_ctx s) (Some (answered true)) (dns_owners s + 2) (Some (Wk_wake round_waker)) round_lists
  | 3 => DnsState R (woken round_waker (dns_ctx s)) (Some (answered true)) (dns_owners s + 2) (Some Wk_exit) round_lists
  | _ => DnsState R (woken round_waker (dns_ctx s)) (Some (answered true)) (dns_owners s + 1) None round_lists
  end%nat.

Lemma round_start : pframe_ s = Some f → t_ f = false → dns_thread s = None →
  (async_resolve node service ;; dns_await_suspend h) s = (Ret tt, round_state 0).
Proof.
  unfold round_state, asked, round_waker. destruct s as [w fo n k ls], f as [t nd sv hi al rs]. cbn. intros -> -> ->.
  unfold async_resolve, dns_await_suspend, upd_dns, dns_this, dns_share, set_worker, on_dns_ctx, make_waker, get_waker, on_frame.
  munfold. destruct w. cbn. unfold upd. cbn.
  by replace (Z.succ (Z.succ n)) with (n + 2) by lia.
Qed.

Lemma round_step i : (i = 3%nat → 0 < dns_owners s) → worker_step true (round_state i) = (Ret tt, round_state (S i)).
Proof.
  intros Hn. destruct i as [|[|[|[|i]]]]; [| | | |done]; unfold worker_step, dns_this, upd_dns, set_worker; munfold; cbn -[wake].
  - unfold round_answer at 2. destruct (getaddrinfo _ _ _ _) as [res l] eqn:E.
    assert (round_answer = (res, l)) as Ea by done. unfold round_lists. rewrite Ea. cbn. by destruct (res =? 0).
  - done.
  - unfold uncaught, attempt, on_dns_ctx. munfold. cbn -[wake]. by rewrite wake_run.
  - unfold dns_unshare, dns_frame_dtor. munfold. cbn.
    specialize (Hn eq_refl). assert (Z.pred (dns_owners s + 2) = dns_owners s + 1) as E by lia. unfold upd; cbn. rewrite E.
    by rewrite (proj2 (Z.eqb_neq _ 0)) by lia.
Qed.

Lemma round_steps n i : 0 < dns_owners s → (i ≤ 4)%nat →
  worker_steps true n (round_state i) = (Ret tt, round_state (4 `min` (i + n))).
Proof.
  intros Hn. revert i. induction n as [|n IH]; intros i Hi; cbn [worker_steps].
  - rewrite Nat.add_0_r, Nat.min_r by lia. done.
  - rewrite (bind_ret _ _ _ _ _ (round_step i (λ _, Hn))). destruct (decide (i = 4)%nat) as [->|].
    + change (round_state 5) with (round_state 4). rewrite IH, !Nat.min_l by lia. done.
    + rewrite IH by lia. by replace (S i + n)%nat with (i + S n)%nat by lia.
Qed.

(** What the resumption finds and leaves, whenever it happens. *)
Lemma round_resume i : 0 < dns_owners s → (i ≤ 4)%nat →
  dns_resolved true (round_state i) =
    (Ret (if round_answer.1 =? 0 then Ok round_answer.2 else Err round_answer.1),
     DnsState R (woken round_waker (dns_ctx s)) (Some (answered false)) (dns_owners s) None round_lists).
Proof.
  intros Hn Hi. pose proof (round_steps 4 i Hn Hi) as Es. replace (4 `min` (i + 4))%nat with 4%nat in Es by lia.
  assert (wp (dns_resolved true) (round_state i) (λ r s', r = (if round_answer.1 =? 0 then Ok round_answer.2 else Err round_answer.1) ∧
    s' = DnsState R (woken round_waker (dns_ctx s)) (Some (answered false)) (dns_owners s) None round_lists)) as Hw.
  2:{ apply wp_run in Hw as (r & s' & E & -> & ->). exact E. }
  assert (∃ f', pframe_ (round_state i) = Some f' ∧ t_ f' = true) as (f' & Ef & Et).
  { destruct i as [|[|[|[|[|]]]]]; by eexists. }
  unfold dns_resolved. apply wp_finally_ret. unfold dns_await_resume, thread_join.
  apply wp_bind, wp_bind. unfold dns_this at 1. wp_steps. rewrite Ef. wp_steps. rewrite Et. cbn [negb when]. wp_steps.
  unfold wp at 1. rewrite Es.
  eapply wp_upd_dns; [done|]. wp_steps. eapply wp_dns_this; [done|]. cbn [res_ answered addrlist_ upd].
  assert (∀ r : result ptr, r = (if round_answer.1 =? 0 then Ok round_answer.2 else Err round_answer.1) →
    wp dns_unshare (round_state 4 <| pframe_ := Some (answered true <| t_ := false |>) |>) (λ _ s'',
      r = (if round_answer.1 =? 0 then Ok round_answer.2 else Err round_answer.1) ∧
      s'' = DnsState R (woken round_waker (dns_ctx s)) (Some (answered false)) (dns_owners s) None round_lists)) as Hu.
  { intros r Hr. apply wp_dns_unshare; intros Ho; [|cbn in Ho; lia]. split; [done|]. cbn. unfold upd; cbn.
    by replace (Z.pred (dns_owners s + 1)) with (dns_owners s) by lia. }
  destruct (Z.eqb_spec round_answer.1 0) as [E|E]; cbn [negb].
  - apply wp_ret. by apply Hu.
  - unfold from_errno. rewrite (proj2 (Z.eqb_neq _ 0) E). wp_steps. apply wp_assert; [done|]. wp_steps. by apply Hu.
Qed.
End Round.

(** C36. A name is resolved: however far the thread is when the coroutine is resumed,
    the resumption waits for its end; the result is what [getaddrinfo] answered for
    the name, the coroutine is woken exactly once, its share and the thread's of the
    frame are gone, and a list is allocated exactly if the result hands it over. *)
Theorem resolve_round_result node service h n s f : pframe_ s = Some f → t_ f = false → dns_thread s = None →
  0 < dns_owners s →
  let '(res, l) := getaddrinfo node service (hints_ f) (dns_lists s) in
  resolve_round true node service h n s =
    (Ret (if res =? 0 then Ok l else Err res),
     DnsState R (woken (Waker (pipefd_ (frame (dns_ctx s))).2 h) (dns_ctx s))
       (Some (DnsFrame false node service (hints_ f) l res)) (dns_owners s) None
       (if res =? 0 then {[l]} ∪ dns_lists s else dns_lists s)).
Proof.
  intros Hf Ht Hk Hn. destruct (getaddrinfo node service (hints_ f) (dns_lists s)) as [res l] eqn:E.
  pose proof (round_start s f node service h Hf Ht Hk) as E0. unfold resolve_round.
  rewrite <- bind_assoc, (bind_ret _ _ _ _ _ E0), (bind_ret _ _ _ _ _ (round_steps s f node service h n 0 Hn ltac:(lia))), round_resume by (done || lia).
  unfold answered, round_lists, round_answer. rewrite E. done.
Qed.

(** ** A program that resolves names, and the thread *)

(** [d_handles] counts the resolvers; [d_entries] are the lists handed over. *)
Inductive dns_phase := Ph_idle | Ph_made | Ph_waiting.
#[export] Instance dns_phase_eq_dec : EqDecision dns_phase.
Proof. solve_decision. Defined.

Record dns_sys := DnsSys { d_state : dns_state R; d_handles : nat; d_phase : dns_phase; d_entries : list ptr }.
#[export] Instance eta_dns_sys : Eta dns_sys := λ y, DnsSys (d_state y) (d_handles y) (d_phase y) (d_entries y).

Inductive dns_act :=
| Act_copy | Act_drop
| Act_resolve (node service : ptr) | Act_unawait | Act_await (h : handle) | Act_resume
| Act_free (l : ptr) | Act_thread.

(** What the program may do: one resolution at a time, and the coroutine is resumed
    when the thread has woken it. *)
Definition enabled (a : dns_act) (y : dns_sys) : Prop :=
  match a with
  | Act_copy | Act_drop => d_handles y ≠ 0%nat
  | Act_resolve _ _ => d_handles y ≠ 0%nat ∧ d_phase y = Ph_idle
  | Act_unawait | Act_await _ => d_phase y = Ph_made
  | Act_resume => d_phase y = Ph_waiting ∧ (dns_thread (d_state y) = Some Wk_exit ∨ dns_thread (d_state y) = None)
  | Act_free l => l ∈ d_entries y
  | Act_thread => dns_thread (d_state y) ≠ None
  end.

Definition on_dns {A} (m : DM A) : M dns_sys A := zoom d_state m.

Definition dns_exec (a : dns_act) : M dns_sys unit :=
  match a with
  | Act_copy => on_dns dns_share ;; modify (λ y, y <| d_handles ::= S |>)
  | Act_drop => on_dns dns_unshare ;; modify (λ y, y <| d_handles ::= pred |>)
  | Act_resolve node service => on_dns (async_resolve node service) ;; modify (λ y, y <| d_phase := Ph_made |>)
  | Act_unawait => on_dns dns_unshare ;; modify (λ y, y <| d_phase := Ph_idle |>)
  | Act_await h => on_dns (dns_await_suspend h) ;; modify (λ y, y <| d_phase := Ph_waiting |>)
  | Act_resume =>
      r ← on_dns (dns_resolved true);
      modify (λ y, y <| d_phase := Ph_idle |> <| d_entries ::= λ l, match r with Ok e => e :: l | Err _ => l end |>)
  | Act_free l => on_dns (dns_entry_list_dtor l) ;; modify (λ y, y <| d_entries ::= λ ls, list_difference ls [l] |>)
  | Act_thread => on_dns (worker_step true)
  end.

Inductive dns_step : dns_sys → dns_sys → Prop :=
| dns_step_intro a y y' : enabled a y → dns_exec a y = (Ret tt, y') → dns_step y y'.

(** The lists of the resolution in flight, when [b] tells that it is awaited. *)
Definition pending_list (b : bool) (f : dns_frame) (k : option dns_worker) : list ptr :=
  match k with
  | Some (Wk_resolve _) => []
  | Some (Wk_store _ res l) => if res =? 0 then [l] else []
  | _ => if b && (res_ f =? 0) then [addrlist_ f] else []
  end.

(** Every list is owned once. *)
Definition lists_owned (l : list ptr) s : Prop := NoDup l ∧ dns_lists s = list_to_set l ∧ Forall (λ x, x ≠ 0) l.

Definition thread_share (k : option dns_worker) : Z := match k with Some _ => 1 | None => 0 end.

(** [n] shares besides the thread's; the thread object is joinable, and the thread
    runs, only while the resolution is awaited. *)
Definition dns_live (n : Z) (b : bool) (own : list ptr) s f : Prop :=
  pframe_ s = Some f ∧ dns_owners s = n + thread_share (dns_thread s) ∧ t_ f = b ∧
  (dns_thread s ≠ None → b = true) ∧ lists_owned (own ++ pending_list b f (dns_thread s)) s.
Definition dns_dead (own : list ptr) s : Prop :=
  pframe_ s = None ∧ dns_owners s = 0 ∧ dns_thread s = None ∧ lists_owned own s.

Definition dns_shares (y : dns_sys) : Z :=
  Z.of_nat (d_handles y) + match d_phase y with Ph_idle => 0 | _ => 1 end.
Definition dns_some (n : Z) (b : bool) (own : list ptr) s : Prop :=
  if n =? 0 then dns_dead own s else ∃ f, dns_live n b own s f.
Definition dns_inv (y : dns_sys) : Prop :=
  dns_some (dns_shares y) (bool_decide (d_phase y = Ph_waiting)) (d_entries y) (d_state y).

Context {HL : GetAddrInfoLaws}.

Lemma wp_share n b own s f (Q : unit → dns_state R → Prop) : dns_live n b own s f →
  (∀ s', dns_live (n + 1) b own s' f → Q tt s') → wp dns_share s Q.
Proof.
  intros (Hf & Ho & Ht & Hk & Hl) HQ. apply wp_modify, HQ. split_and!; try done. cbn in *. lia.
Qed.

Lemma wp_unshare n b own s f (Q : unit → dns_state R → Prop) : dns_live n b own s f → 0 < n → (b = true → 1 < n) →
  (∀ s', dns_some (n - 1) b own s' → Q tt s') → wp dns_unshare s Q.
Proof.
  intros (Hf & Ho & Ht & Hk & Hl) Hn Hb HQ. unfold dns_some in HQ. apply wp_dns_unshare; intros Hu.
  - apply HQ. rewrite (proj2 (Z.eqb_neq _ 0)).
    + exists f. split_and!; try done. cbn in *. lia.
    + destruct (dns_thread s); cbn in *; [specialize (Hb (Hk ltac:(done))); lia|lia].
  - destruct (dns_thread s) eqn:Ek; cbn in *; [specialize (Hb (Hk ltac:(done))); lia|].
    destruct b; [specialize (Hb eq_refl); lia|]. cbn in Hl. rewrite app_nil_r in Hl.
    unfold dns_frame_dtor. apply wp_bind. eapply wp_dns_this; [done|]. rewrite Ht. wp_steps. apply HQ.
    rewrite (proj2 (Z.eqb_eq _ 0)) by lia. split_and!; try done; cbn in *; lia.
Qed.

Lemma wp_async_resolve n own node service s f (Q : unit → dns_state R → Prop) : dns_live n false own s f →
  (∀ s' f', dns_live (n + 1) false own s' f' → Q tt s') → wp (async_resolve node service) s Q.
Proof.
  intros (Hf & Ho & Ht & Hk & Hl) HQ. unfold async_resolve. apply wp_bind. eapply wp_upd_dns; [done|].
  apply wp_bind. eapply wp_upd_dns; [done|]. eapply wp_share; [|intros s' Hs'; by eapply HQ].
  split_and!; try done.
Qed.

Lemma wp_dns_await n own h s f (Q : unit → dns_state R → Prop) : dns_live n false own s f →
  (∀ s' f', dns_live n true own s' f' → Q tt s') → wp (dns_await_suspend h) s Q.
Proof.
  intros (Hf & Ho & Ht & Hk & Hl) HQ. assert (dns_thread s = None) as Ek.
  { destruct (dns_thread s); [by specialize (Hk ltac:(done))|done]. }
  unfold dns_await_suspend. apply wp_bind. unfold on_dns_ctx. apply wp_zoom. unfold wp at 1. cbn.
  wp_steps. apply wp_bind, wp_modify, wp_bind. eapply wp_dns_this; [done|]. rewrite Ht. wp_steps.
  eapply wp_upd_dns; [done|]. eapply HQ. rewrite Ek in *. split_and!; try done. cbn in *. lia.
Qed.

Lemma lists_owned_new own l s s' : lists_owned own s → l ≠ 0 → l ∉ dns_lists s →
  dns_lists s' = {[l]} ∪ dns_lists s → lists_owned (own ++ [l]) s'.
Proof.
  intros (Hn & Hs & Hz) H0 Hl E. rewrite Hs in Hl, E. split_and!.
  - apply NoDup_app. split_and!; [done| |apply NoDup_singleton].
    intros x Hx ->%list_elem_of_singleton. by apply Hl, elem_of_list_to_set.
  - rewrite E, list_to_set_app_L. cbn. set_solver.
  - apply Forall_app. by repeat constructor.
Qed.

Lemma wp_worker n own s f (Q : unit → dns_state R → Prop) : dns_live n true own s f → 0 < n →
  (∀ s' f', dns_live n true own s' f' → Q tt s') → wp (worker_step true) s Q.
Proof.
  intros (Hf & Ho & Ht & Hk & Hl) Hn HQ. unfold worker_step. wp_steps.
  destruct (dns_thread s) as [[wk|wk res l|wk|]|] eqn:Ek; cbn in Hl, Ho.
  - rewrite app_nil_r in Hl. apply wp_bind. eapply wp_dns_this; [done|].
    destruct (getaddrinfo _ _ _ _) as [res l] eqn:E. apply wp_bind, wp_when; intros Er; unfold set_worker; wp_steps; eapply HQ.
    + apply Z.eqb_eq in Er as ->. destruct (getaddrinfo_fresh _ _ _ _ _ E) as [H0 Hfr].
      split_and!; try done. cbn. by eapply lists_owned_new.
    + split_and!; try done. cbn. by rewrite Er, app_nil_r.
  - apply wp_bind. eapply wp_upd_dns; [done|]. unfold set_worker. wp_steps. eapply HQ. by split_and!.
  - apply wp_bind. unfold uncaught. apply wp_bind, wp_attempt. unfold wpx, on_dns_ctx, zoom. rewrite wake_run.
    unfold set_worker. wp_steps. eapply HQ. by split_and!.
  - unfold set_worker. wp_steps. apply wp_dns_unshare; cbn; intros Hu; [|lia]. eapply HQ.
    split_and!; try done. cbn. lia.
  - wp_steps. eapply HQ. by split_and!; rewrite ?Ek.
Qed.

Lemma worker_ended k s : dns_thread s = None → worker_steps true k s = (Ret tt, s).
Proof.
  intros E. induction k as [|k IH]; [done|]. cbn [worker_steps]. rewrite (bind_ret _ _ s tt s); [done|].
  unfold worker_step. munfold. by rewrite E.
Qed.

(** The thread's last step, if it has not made it yet. *)
Lemma wp_ending k n own s f (Q : unit → dns_state R → Prop) : dns_live n true own s f → 0 < n →
  dns_thread s = Some Wk_exit ∨ dns_thread s = None →
  (∀ s', dns_live n true own s' f → dns_thread s' = None → Q tt s') → wp (worker_steps true (S k)) s Q.
Proof.
  intros Hs Hn He HQ. destruct He as [Ek|Ek].
  - cbn [worker_steps]. apply wp_bind. unfold worker_step. wp_steps. rewrite Ek. unfold set_worker. wp_steps.
    destruct Hs as (Hf & Ho & Ht & Hk & Hl). rewrite Ek in *. cbn in Ho.
    apply wp_dns_unshare; cbn; intros Hu; [|lia]. unfold wp. rewrite worker_ended by done. apply HQ; [|done].
    split_and!; try done. cbn. lia.
  - unfold wp. rewrite worker_ended by done. by apply HQ.
Qed.

Lemma wp_resume n own s f (Q : result ptr → dns_state R → Prop) : dns_live n true own s f → 0 < n →
  dns_thread s = Some Wk_exit ∨ dns_thread s = None →
  (∀ r s', dns_some (n - 1) false (match r with Ok e => e :: own | Err _ => own end) s' → Q r s') →
  wp (dns_resolved true) s Q.
Proof.
  intros Hs Hn He HQ. unfold dns_resolved. apply wp_finally_ret. unfold dns_await_resume, thread_join.
  pose proof (proj1 Hs) as Hf. pose proof (proj1 (proj2 (proj2 Hs))) as Ht.
  apply wp_bind, wp_bind. eapply wp_dns_this; [done|]. rewrite Ht. wp_steps. cbn [negb when]. wp_steps. eapply wp_ending; [done..|].
  intros s1 (Hf1 & Ho1 & Ht1 & _ & Hl1) Ek1. eapply wp_upd_dns; [done|]. wp_steps. eapply wp_dns_this; [done|].
  rewrite Ek1 in *. cbn in Ho1, Hl1. cbn [res_ addrlist_ upd]. 
  assert (∀ own', lists_owned own' s1 → ∀ s2, s2 = s1 <| pframe_ := Some (f <| t_ := false |>) |> →
    dns_live n false own' s2 (f <| t_ := false |>)) as Hlive.
  { intros own' Hl' s2 ->. split_and!; try done; cbn; rewrite ?Ek1; cbn; try done; try lia.
    by rewrite app_nil_r. }
  revert Hl1. destruct (Z.eqb_spec (res_ f) 0) as [E|E]; intros Hl1; cbn [negb].
  - wp_steps. eapply wp_unshare; [eapply (Hlive (addrlist_ f :: own)); [|done]|done|done|intros s' Hs'; by apply HQ].
    destruct Hl1 as (Hnd & Hls & Hz). rewrite (comm (++)) in Hnd.
    split_and!; [done|rewrite Hls, list_to_set_app_L; cbn; set_solver|].
    by apply Forall_app in Hz as [? [? _]%Forall_cons]; constructor.
  - apply wp_bind. unfold from_errno. rewrite (proj2 (Z.eqb_neq _ 0) E). wp_steps. apply wp_assert; [done|]. wp_steps.
    cbn in Hl1. rewrite app_nil_r in Hl1. eapply wp_unshare; [by eapply (Hlive own)|done|done|intros s' Hs'; by apply HQ].
Qed.

Lemma lists_owned_free own p l s s' : lists_owned (own ++ p) s → l ∈ own → dns_lists s' = dns_lists s ∖ {[l]} →
  lists_owned (list_difference own [l] ++ p) s'.
Proof.
  intros (Hn & Hs & Hz) Hl E. apply NoDup_app in Hn as (Hn & Hd & Hp). apply Forall_app in Hz as [Hz Hzp]. split_and!.
  - apply NoDup_app. split_and!; [by apply NoDup_list_difference| |done]. intros x [Hx _]%list_elem_of_difference. by apply Hd.
  - rewrite E, Hs, !list_to_set_app_L. specialize (Hd l Hl). apply set_eq. intros x.
    rewrite elem_of_difference, !elem_of_union, !elem_of_list_to_set, list_elem_of_difference, elem_of_singleton, list_elem_of_singleton.
    destruct (decide (x = l)) as [->|]; naive_solver.
  - apply Forall_app. split; [|done]. apply Forall_forall. intros x [Hx _]%list_elem_of_difference.
    rewrite Forall_forall in Hz. by apply Hz.
Qed.

Lemma wp_free n b own l s (Q : unit → dns_state R → Prop) : dns_some n b own s → l ∈ own →
  (∀ s', dns_some n b (list_difference own [l]) s' → Q tt s') → wp (dns_entry_list_dtor l) s Q.
Proof.
  intros Hs Hl HQ. assert (l ≠ 0 ∧ l ∈ dns_lists s) as [H0 Hin].
  { unfold dns_some in Hs. destruct (n =? 0).
    - destruct Hs as (_ & _ & _ & _ & -> & Hz). rewrite Forall_forall in Hz. split; [by apply Hz|by apply elem_of_list_to_set].
    - destruct Hs as (f & _ & _ & _ & _ & _ & -> & Hz). rewrite Forall_forall in Hz. rewrite elem_of_list_to_set.
      split; [apply Hz|]; set_solver. }
  unfold dns_entry_list_dtor. rewrite (proj2 (Z.eqb_neq _ 0) H0). cbn [negb when]. unfold freeaddrinfo. wp_steps.
  rewrite decide_True by done. wp_steps. apply HQ. unfold dns_some in *. destruct (n =? 0).
  - destruct Hs as (? & ? & ? & Hl'). split_and!; try done. rewrite <- (app_nil_r (list_difference _ _)).
    eapply (lists_owned_free own []); [by rewrite app_nil_r|done|done].
  - destruct Hs as (f & ? & ? & ? & ? & Hl'). exists f. split_and!; try done. by eapply lists_owned_free.
Qed.

Lemma dns_some_live n b own s : n ≠ 0 → dns_some n b own s → ∃ f, dns_live n b own s f.
Proof. intros Hn. unfold dns_some. by rewrite (proj2 (Z.eqb_neq _ 0) Hn). Qed.
Lemma live_some n b own s f : 0 < n → dns_live n b own s f → dns_some n b own s.
Proof. intros Hn Hs. unfold dns_some. rewrite (proj2 (Z.eqb_neq _ 0)) by lia. by exists f. Qed.

Lemma wp_on_dns {A} (m : DM A) y (Q : A → dns_sys → Prop) :
  wp m (d_state y) (λ a s', Q a (y <| d_state := s' |>)) → wp (on_dns m) y Q.
Proof. apply wp_zoom. Qed.

Lemma dns_exec_inv a y : dns_inv y → enabled a y → wp (dns_exec a) y (λ _ y', dns_inv y').
Proof.
  destruct y as [s hs ph es]. unfold dns_inv. cbn. intros Hi He.
  assert (a = Act_thread → 0 < dns_shares (DnsSys s hs ph es)) as Hth.
  { intros ->. unfold dns_some, dns_shares in *. cbn in *. destruct (Z.eqb_spec (Z.of_nat hs + match ph with Ph_idle => 0 | _ => 1 end) 0);
      [by destruct Hi as (_ & _ & ? & _)|destruct ph; lia]. }
  unfold dns_shares in *. cbn in Hi, Hth. destruct a as [| |node service| |h| |l|]; cbn in He |- *.
  - apply dns_some_live in Hi as [f Hi]; [|destruct ph; lia]. apply wp_bind, wp_on_dns. eapply wp_share; [exact Hi|].
    intros s' Hs'. wp_steps. cbn -[Z.of_nat]. eapply live_some; [destruct ph; lia|].
    replace (Z.of_nat (S hs) + _) with (Z.of_nat hs + match ph with Ph_idle => 0 | _ => 1 end + 1) by (destruct ph; lia). done.
  - apply dns_some_live in Hi as [f Hi]; [|destruct ph; lia]. apply wp_bind, wp_on_dns.
    eapply wp_unshare; [exact Hi|destruct ph; lia|intros ->%bool_decide_eq_true; lia|]. intros s' Hs'. wp_steps. cbn -[Z.of_nat].
    replace (Z.of_nat (pred hs) + _) with (Z.of_nat hs + match ph with Ph_idle => 0 | _ => 1 end - 1) by (destruct ph; lia). done.
  - destruct He as [Hh ->]. apply dns_some_live in Hi as [f Hi]; [|lia]. apply wp_bind, wp_on_dns.
    eapply wp_async_resolve; [exact Hi|]. intros s' f' Hs'. wp_steps. cbn. rewrite Z.add_0_r in Hs'. eapply live_some; [lia|done].
  - subst ph. apply dns_some_live in Hi as [f Hi]; [|lia]. apply wp_bind, wp_on_dns.
    eapply wp_unshare; [exact Hi|lia|done|]. intros s' Hs'. wp_steps. cbn.
    by replace (Z.of_nat hs + 0) with (Z.of_nat hs + 1 - 1) by lia.
  - subst ph. apply dns_some_live in Hi as [f Hi]; [|lia]. apply wp_bind, wp_on_dns.
    eapply wp_dns_await; [exact Hi|]. intros s' f' Hs'. wp_steps. cbn. eapply live_some; [lia|done].
  - destruct He as [-> He]. apply dns_some_live in Hi as [f Hi]; [|lia]. apply wp_bind, wp_on_dns.
    eapply wp_resume; [exact Hi|lia|done|]. intros r s' Hs'. wp_steps. cbn.
    by replace (Z.of_nat hs + 0) with (Z.of_nat hs + 1 - 1) by lia.
  - apply wp_bind, wp_on_dns. eapply wp_free; [exact Hi|done|]. intros s' Hs'. by wp_steps.
  - specialize (Hth eq_refl). apply dns_some_live in Hi as [f Hi]; [|lia]. 
    assert (ph = Ph_waiting) as -> by (destruct Hi as (_ & _ & _ & Hk & _); specialize (Hk He); by apply bool_decide_eq_true in Hk).
    apply wp_on_dns. eapply wp_worker; [exact Hi|lia|]. intros s' f' Hs'. cbn. by eapply live_some.
Qed.

Lemma dns_inv_reachable y y' : dns_inv y → rtc dns_step y y' → dns_inv y'.
Proof.
  intros Hi Hr. revert Hi. induction Hr as [|? ? ? [a z z1 He Hx] Hr IH]; [done|].
  intros Hi. apply IH. pose proof (dns_exec_inv a z Hi He) as Hw. unfold wp in Hw. by rewrite Hx in Hw.
Qed.

(** A new resolver, and nothing else. *)
Definition dns_start (w : ctx R) : dns_sys := DnsSys (dns_resolver_new w) 1 Ph_idle [].


(** ** What ends the program *)

(** When a coroutine is destroyed while it waits for a name, and its resolver with
    it, the thread's share of the frame is the last one: at the thread's end it
    destroys the frame, whose thread object is still joinable, and the program is
    ended. *)
Lemma abandoned_resolution_terminates node service h s f : pframe_ s = Some f → t_ f = false → dns_thread s = None →
  dns_owners s = 1 →
  (((async_resolve node service ;; dns_await_suspend h) ;; dns_unshare ;; dns_unshare ;; worker_steps true 4) s).1 =
  Fault Terminated.
Proof.
  intros Hf Ht Hk Ho. rewrite (bind_ret _ _ _ _ _ (round_start s f node service h Hf Ht Hk)).
  set (s1 := s <| dns_owners := -1 |>).
  assert (∀ i k, i ≠ 3%nat → worker_steps true (S k) (round_state s1 f node service h i) =
    worker_steps true k (round_state s1 f node service h (S i))) as Hst.
  { intros i k Hi. cbn [worker_steps]. by rewrite (bind_ret _ _ _ _ _ (round_step s1 f node service h i ltac:(done))). }
  transitivity (worker_steps true 4 (round_state s1 f node service h 0)).1; [|rewrite (Hst 0%nat 3%nat), (Hst 1%nat 2%nat), (Hst 2%nat 1%nat) by done; reflexivity].
  cbn [round_state]. rewrite Ho. done.
Qed.

(** A second resolution while one is awaited ends the program at once. *)
Lemma second_resolution_terminates h s f : pframe_ s = Some f → t_ f = true → (dns_await_suspend h s).1 = Fault Terminated.
Proof.
  intros Hf Ht. unfold dns_await_suspend, dns_share, dns_this, on_dns_ctx, make_waker, get_waker, on_frame. munfold. cbn.
  rewrite Hf. cbn. by rewrite Ht.
Qed.

(** Move-assigning to a list that holds one forgets it. *)
Lemma entry_list_assign_leaks lhs rhs : dns_entry_list_assign false lhs rhs = (rhs, 0).
Proof. done. Qed.
End DnsRuns.
