(* ===== verification/DnsSamples.v ===== *)
(** Name resolution on the recording ring: the theorems of [DnsSafe] at inputs where
    their hypotheses hold. *)

From S2P Require Import Prelude Uring Buffer Frame BufRing Executor LogRing Dns DnsSafe.

(** A resolver that knows every name but the null one and allocates above all lists. *)
Definition above (lists : gset ptr) : ptr := 64 + foldr Z.max 0 (elements lists).

#[export] Instance sample_getaddrinfo : GetAddrInfo := {|
  getaddrinfo node service hints lists := if node =? 0 then (-2, 0) else (0, above lists) |}.

Lemma foldr_max_le (l : list Z) x : x ∈ l → x ≤ foldr Z.max 0 l.
Proof. induction l as [|y l IH]; [by intros ?%not_elem_of_nil|]. intros [->|Hx]%elem_of_cons; cbn; [lia|]. specialize (IH Hx). lia. Qed.
Lemma foldr_max_pos (l : list Z) : 0 ≤ foldr Z.max 0 l.
Proof. induction l; cbn; lia. Qed.

#[export] Instance sample_getaddrinfo_laws : GetAddrInfoLaws.
Proof.
  split. intros node service hints lists l. cbn. destruct (node =? 0); [done|]. intros [= <-]. unfold above.
  pose proof (foldr_max_pos (elements lists)). split; [lia|].
  intros Hin%elem_of_elements%foldr_max_le. lia.
Qed.

Definition pipe_ok (fd data : Z) (r : log_ring) : (pipe_write fd data r).1 = 0 := eq_refl.

Definition dns_world : ctx log_ring := log_ctx 4 4 [].

Lemma resolve_round_result_witness :
  (resolve_round true 512 0 1024 2 (dns_resolver_new dns_world)).1 = Ret (Ok 64) ∧
  (resolve_round true 0 0 1024 7 (dns_resolver_new dns_world)).1 = Ret (Err (-2)).
Proof.
  pose proof (resolve_round_result pipe_ok 512 0 1024 2 (dns_resolver_new dns_world) dns_frame_new
    eq_refl eq_refl eq_refl ltac:(done)) as E1.
  pose proof (resolve_round_result pipe_ok 0 0 1024 7 (dns_resolver_new dns_world) dns_frame_new
    eq_refl eq_refl eq_refl ltac:(done)) as E2.
  cbn [getaddrinfo sample_getaddrinfo] in E1, E2. split; [exact (f_equal fst E1)|exact (f_equal fst E2)].
Defined.

(** The name is resolved, the resolver destroyed while the coroutine waits, and the
    list freed. *)
Ltac sample_step a tac := eapply rtc_l; [eapply (dns_step_intro a); [tac|vm_compute; reflexivity]|].

