(* ===== verification/Tls.v ===== *)
(** TLS ([include/fiona/tls.hpp], [src/tls/tls.cpp]): the callbacks that turn records
    into receive buffers, and the coroutines of clients and servers.

    Botan's channel is a class: what it answers and which callbacks it makes, in
    order.  The TCP stream below is a script: what its receives yield, the chunks in
    the order in which [StreamRecv] shows them delivered, and the results of its
    sends.  A coroutine that waits for more than the script holds is never resumed. *)

From S2P Require Import Prelude Buffer.

(** The callbacks of [Botan::TLS::Callbacks] that are overridden. *)
Inductive tls_event :=
| Emit (data : list Z)
| Record_received (plaintext : list Z)
| Alert (close_notify : bool)
(** whether [x509_path_validate] validates the chain *)
| Verify_cert_chain (valid : bool).

(** [Botan::TLS::Channel].  A call yields the callbacks it makes, then the error type
    if it throws a [Botan::Exception], and the channel it leaves. *)
Class BotanChannel (C : Type) := {
  is_active : C → bool;
  is_closed : C → bool;
  is_handshake_complete : C → bool;
  received_data : C → list Z → list tls_event * option Z * C;
  send_data : C → list Z → list tls_event * option Z * C;
  close_channel : C → list tls_event * C }.

(** [Botan::TLS::Client] starts its handshake when it is made. *)
Class BotanNew (C : Type) := {
  tls_client_new : string → list tls_event * C;
  tls_server_new : C }.

Record tls_callbacks := TlsCallbacks {
  send_buf_ : list Z; input_sequence_ : recv_buffer_sequence; output_sequence_ : recv_buffer_sequence;
  received_record_ : bool; close_notify_received_ : bool; failed_cert_verification_ : bool }.
#[export] Instance eta_tls_callbacks : Eta tls_callbacks := λ b,
  TlsCallbacks (send_buf_ b) (input_sequence_ b) (output_sequence_ b) (received_record_ b)
    (close_notify_received_ b) (failed_cert_verification_ b).

(** A buffer a receive yields: its capacity, 0 at the end of the stream, and its bytes. *)
Record chunk := Chunk { ch_capacity : Z; ch_bytes : list Z }.

(** The stream: receives to come, what was sent, the results of sends to come. *)
Record tcp_script := TcpScript {
  incoming : list (result (list chunk)); sent : list (list Z); replies : list (result Z) }.
#[export] Instance eta_tcp_script : Eta tcp_script := λ n, TcpScript (incoming n) (sent n) (replies n).

Record tls_state {C : Type} := TlsState {
  tls_heap : mem; tls_cb : tls_callbacks; tls_chan : C; tls_net : tcp_script }.
Arguments tls_state : clear implicits.
#[export] Instance eta_tls_state C : Eta (tls_state C) := λ s,
  TlsState C (tls_heap s) (tls_cb s) (tls_chan s) (tls_net s).

(** ** tls_record_received: the plaintext is appended to the input sequence, whose
    members are passed along *)

(** The bytes that fit in the last buffer, if any do. *)
Definition fill_back (input : recv_buffer_sequence) (plaintext : list Z) : M mem (option nat) :=
  if 0 <? num_bufs_ input then
    back ← seq_back input;
    dst ← spare_capacity_mut back;
    if 0 <? dst.2 then
      let n := Z.to_nat (dst.2 `min` Z.of_nat (length plaintext)) in
      write_block back dst.1 (take n plaintext) ;;
      len ← view_size back;
      set_len back (len + Z.of_nat n) ;;
      mret (Some n)
    else mret None
  else mret None.

(** A buffer that held ciphertext is taken, or a new one made. *)
Definition next_buf (input output : recv_buffer_sequence) : M mem (ptr * recv_buffer_sequence) :=
  if seq_empty output then
    front ← seq_front input; cap ← view_capacity front; buf ← recv_buffer_new cap; mret (buf, output)
  else pop_front output.

Definition add_buf (input output : recv_buffer_sequence) (plaintext : list Z) :
    M mem (nat * (recv_buffer_sequence * recv_buffer_sequence)) :=
  '(buf, output) ← next_buf input output;
  cap ← view_capacity buf;
  assert (0 <? cap) ;;
  set_len buf 0 ;;
  dst ← spare_capacity_mut buf;
  assert (0 <? dst.2) ;;
  let n := Z.to_nat (dst.2 `min` Z.of_nat (length plaintext)) in
  write_block buf dst.1 (take n plaintext) ;;
  set_len buf (Z.of_nat n) ;;
  input ← push_back input buf;
  mret (n, (input, output)).

Fixpoint record_loop (fuel : nat) (input output : recv_buffer_sequence) (plaintext : list Z) :
    M mem (recv_buffer_sequence * recv_buffer_sequence) :=
  match plaintext with
  | [] => mret (input, output)
  | _ =>
      match fuel with
      | 0%nat => fail OutOfFuel
      | S fuel =>
          r ← fill_back input plaintext;
          match r with
          | Some n => record_loop fuel input output (drop n plaintext)
          | None =>
              '(n, (input, output)) ← add_buf input output plaintext;
              record_loop fuel input output (drop n plaintext)
          end
      end
  end.

Section Tls.
Context {C : Type} {HC : BotanChannel C}.

Local Abbreviation TM := (M (tls_state C)).

Definition on_tls_heap {A} (m : M mem A) : TM A := zoom tls_heap m.
Definition upd_cb (g : tls_callbacks → tls_callbacks) : TM unit := modify (λ s, s <| tls_cb ::= g |>).
Definition get_cb : TM tls_callbacks := gets tls_cb.

(** ** tls_callbacks *)

Definition tls_callbacks_new : M mem tls_callbacks :=
  input ← sequence_new; output ← sequence_new; mret (TlsCallbacks [] input output false false false).

Definition tls_emit_data (data : list Z) : TM unit := upd_cb (λ b, b <| send_buf_ ::= λ l, l ++ data |>).

(** Every turn of the loop takes at least one byte. *)
Definition tls_record_received (plaintext : list Z) : TM unit :=
  upd_cb (λ b, b <| received_record_ := true |>) ;;
  b ← get_cb;
  '(input, output) ← on_tls_heap (record_loop (length plaintext) (input_sequence_ b) (output_sequence_ b) plaintext);
  upd_cb (λ b, b <| input_sequence_ := input |> <| output_sequence_ := output |>).

Definition tls_alert (close_notify : bool) : TM unit :=
  when close_notify (upd_cb (λ b, b <| close_notify_received_ := true |>)).

Definition tls_verify_cert_chain (valid : bool) : TM unit := when (negb valid) (throw (literal "invalid certificate")).

(** What Botan calls back. *)
Definition callback (e : tls_event) : TM unit :=
  match e with
  | Emit data => tls_emit_data data
  | Record_received plaintext => tls_record_received plaintext
  | Alert close_notify => tls_alert close_notify
  | Verify_cert_chain valid => tls_verify_cert_chain valid
  end.

Fixpoint callbacks (es : list tls_event) : TM unit :=
  match es with [] => mret tt | e :: es => callback e ;; callbacks es end.

(** A call of the channel; an exception of a callback leaves it at once. *)
Definition channel_call (f : C → list tls_event * option Z * C) : TM unit :=
  c ← gets tls_chan;
  let '(es, err, c) := f c in
  modify (λ s, s <| tls_chan := c |>) ;;
  callbacks es ;;
  match err with Some t => throw (botan_exception t) | None => mret tt end.

Definition chan_received (data : list Z) : TM unit := channel_call (λ c, received_data c data).
Definition chan_send (data : list Z) : TM unit := channel_call (λ c, send_data c data).
Definition chan_close : TM unit := channel_call (λ c, let '(es, c) := close_channel c in (es, None, c)).

(** ** The stream *)

Fixpoint push_chunks (q : recv_buffer_sequence) (cs : list chunk) : M mem recv_buffer_sequence :=
  match cs with
  | [] => mret q
  | c :: cs =>
      p ← recv_buffer_new (ch_capacity c);
      write_block p 0 (ch_bytes c) ;;
      set_len p (Z.of_nat (length (ch_bytes c))) ;;
      q ← push_back q p;
      push_chunks q cs
  end.

Definition tcp_recv : TM (result recv_buffer_sequence) :=
  s ← get;
  match incoming (tls_net s) with
  | [] => fail OutOfFuel
  | r :: rs =>
      modify (λ s, s <| tls_net ::= λ n, n <| incoming := rs |> |>) ;;
      match r with
      | Err e => mret (Err e)
      | Ok cs => q ← on_tls_heap (q ← sequence_new; push_chunks q cs); mret (Ok q)
      end
  end.

Definition tcp_send (data : list Z) : TM (result Z) :=
  s ← get;
  match replies (tls_net s) with
  | [] => fail OutOfFuel
  | r :: rs =>
      modify (λ s, s <| tls_net ::= λ n, n <| sent ::= λ l, l ++ [data] |> <| replies := rs |> |>) ;;
      mret r
  end.

(** [co_await stream.async_send( send_buf ); send_buf.clear();] *)
Definition flush : TM (result Z) :=
  b ← get_cb; r ← tcp_send (send_buf_ b); upd_cb (λ b, b <| send_buf_ := [] |>) ;; mret r.

(** ** async_recv_impl *)

Definition push_input (p : ptr) : TM unit :=
  b ← get_cb; q ← on_tls_heap (push_back (input_sequence_ b) p); upd_cb (λ b, b <| input_sequence_ := q |>).
Definition push_output (p : ptr) : TM unit :=
  b ← get_cb; q ← on_tls_heap (push_back (output_sequence_ b) p); upd_cb (λ b, b <| output_sequence_ := q |>).

(** The buffers of one receive: what is left of them, and the error to return, if any. *)
Fixpoint recv_bufs (fuel : nat) (bufs : recv_buffer_sequence) : TM (recv_buffer_sequence * option Z) :=
  if seq_empty bufs then mret (bufs, None) else
  match fuel with
  | 0%nat => fail OutOfFuel
  | S fuel =>
      '(buf, bufs) ← on_tls_heap (pop_front bufs);
      cap ← on_tls_heap (view_capacity buf);
      if cap =? 0 then
        push_input buf ;; upd_cb (λ b, b <| received_record_ := true |>) ;; mret (bufs, None)
      else
        data ← on_tls_heap (readable_bytes buf);
        assert (0 <? cap) ;;
        push_output buf ;;
        r ← attempt (chan_received data);
        match r with
        | inl _ => recv_bufs fuel bufs
        | inr (botan_exception t) => mret (bufs, Some t)
        | inr e => on_tls_heap (sequence_dtor bufs) ;; throw e
        end
  end.

(** What is received is moved out of the result; both are destroyed on every way out. *)
Definition recv_turn (q : recv_buffer_sequence) : TM (option Z) :=
  '(bufs, q) ← on_tls_heap (sequence_move q);
  finally ('(bufs, err) ← recv_bufs (Z.to_nat (num_bufs_ bufs)) bufs; on_tls_heap (sequence_dtor bufs) ;; mret err)
    (on_tls_heap (sequence_dtor q)).

(** One turn per receive. *)
Fixpoint recv_loop (fuel : nat) : TM (option Z) :=
  b ← get_cb;
  if received_record_ b then mret None else
  match fuel with
  | 0%nat => fail OutOfFuel
  | S fuel =>
      m_buffers ← tcp_recv;
      match m_buffers with
      | Err e => mret (Some e)
      | Ok q => err ← recv_turn q; match err with Some t => mret (Some t) | None => recv_loop fuel end
      end
  end.

Definition async_recv_impl : TM (result recv_buffer_sequence) :=
  s ← get;
  err ← recv_loop (S (length (incoming (tls_net s))));
  match err with
  | Some e => mret (Err e)
  | None =>
      upd_cb (λ b, b <| received_record_ := false |>) ;;
      b ← get_cb;
      '(q, input) ← on_tls_heap (sequence_move (input_sequence_ b));
      upd_cb (λ b, b <| input_sequence_ := input |>) ;;
      mret (Ok q)
  end.

(** ** async_send_impl *)
Definition async_send_impl (data : list Z) : TM (result Z) :=
  chan_send data ;;
  mn ← flush;
  match mn with Err e => mret (Err e) | Ok _ => mret (Ok (Z.of_nat (length data))) end.

(** ** Handshakes *)

Definition tls_err {A} (e : Z) : TM (result A) := ec ← from_errno e; mret (Err ec).

(** The loop over the received buffers; the error to return, if any. *)
Fixpoint feed_views (fuel : nat) (check_eof : bool) (pos stop : ptr) : TM (option Z) :=
  if decide (pos = stop) then mret None else
  match fuel with
  | 0%nat => fail OutOfFuel
  | S fuel =>
      cap ← on_tls_heap (view_capacity pos);
      if check_eof && (cap =? 0) then (ec ← from_errno EINVAL; mret (Some ec)) else
      data ← on_tls_heap (readable_bytes pos);
      chan_received data ;;
      pos ← on_tls_heap (iter_next pos);
      feed_views fuel check_eof pos stop
  end.

Definition feed_all (check_eof : bool) (q : recv_buffer_sequence) : TM (option Z) :=
  feed_views (Z.to_nat (num_bufs_ q)) check_eof (seq_begin q) (seq_end q).

Definition flush_some : TM unit :=
  b ← get_cb;
  match send_buf_ b with [] => mret tt | _ => r ← flush; mret tt end.

(** [turn] is what is done with the received buffers; they are destroyed on every way out. *)
Fixpoint handshake_loop (fuel : nat) (turn : recv_buffer_sequence → TM (option Z)) : TM (result unit) :=
  c ← gets tls_chan;
  if is_handshake_complete c then mret (Ok tt) else
  match fuel with
  | 0%nat => fail OutOfFuel
  | S fuel =>
      m_buffers ← tcp_recv;
      match m_buffers with
      | Err e => mret (Err e)
      | Ok q =>
          r ← finally (e ← turn q; match e with Some e => mret (Some e) | None => flush_some ;; mret None end)
                (on_tls_heap (sequence_dtor q));
          match r with Some e => mret (Err e) | None => handshake_loop fuel turn end
      end
  end.

Definition client_async_handshake : TM (result unit) :=
  s ← get;
  if is_active (tls_chan s) || is_closed (tls_chan s) then tls_err EINVAL else
  match send_buf_ (tls_cb s) with
  | [] => tls_err EINVAL
  | _ =>
      r ← flush;
      handshake_loop (S (length (incoming (tls_net s)))) (feed_all true)
  end.

Definition server_turn (q : recv_buffer_sequence) : TM (option Z) :=
  data ← on_tls_heap (to_bytes q); chan_received data ;; mret None.

Definition server_async_handshake : TM (result unit) :=
  s ← get;
  if is_active (tls_chan s) || is_closed (tls_chan s) then tls_err EINVAL else
  handshake_loop (S (length (incoming (tls_net s)))) server_turn.

(** ** Shutdown *)

(** [result::value()] *)
Definition value {A} (r : result A) : TM A := match r with Ok a => mret a | Err e => throw (bad_result_access e) end.

(** [send_buf] is cleared only when it was sent. *)
Definition flush_ok : TM (option Z) :=
  b ← get_cb;
  r ← tcp_send (send_buf_ b);
  match r with Err e => mret (Some e) | Ok _ => upd_cb (λ b, b <| send_buf_ := [] |>) ;; mret None end.

Definition client_async_shutdown : TM (result unit) :=
  chan_close ;;
  e ← flush_ok;
  match e with
  | Some e => mret (Err e)
  | None =>
      mbufs ← tcp_recv;
      match mbufs with
      | Err e => mret (Err e)
      | Ok q => finally (r ← feed_all false q; mret (Ok tt)) (on_tls_heap (sequence_dtor q))
      end
  end.

Definition server_async_shutdown : TM (result unit) :=
  m_bufs ← tcp_recv;
  q ← value m_bufs;
  finally
    (data ← on_tls_heap (to_bytes q);
     chan_received data ;;
     b ← get_cb;
     if negb (close_notify_received_ b) then tls_err EINVAL else
     e ← flush_ok;
     match e with Some _ => tls_err EINVAL | None => mret (Ok tt) end)
    (on_tls_heap (sequence_dtor q)).
(** ** Construction *)

(** The channel of a client calls back while it is made. *)
Definition client_impl_new `{HN : !BotanNew C} (hostname : string) (net : tcp_script) : M mem (tls_state C) := λ m,
  match tls_callbacks_new m with
  | (Ret cb, m) =>
      let '(es, c) := tls_client_new hostname in
      match callbacks es (TlsState C m cb c net) with
      | (Ret _, s) => (Ret s, tls_heap s)
      | (Throw e, s) => (Throw e, tls_heap s)
      | (Fault f, s) => (Fault f, tls_heap s)
      end
  | (Throw e, m) => (Throw e, m)
  | (Fault f, m) => (Fault f, m)
  end.

Definition server_impl_new `{HN : !BotanNew C} (net : tcp_script) : M mem (tls_state C) :=
  cb ← tls_callbacks_new; m ← get; mret (TlsState C m cb tls_server_new net).
End Tls.
