(* ===== verification/TlsRecords.v ===== *)
(** The record callback: whatever the capacities of the buffers at hand, the plaintext
    is appended to the input sequence byte by byte and nothing else changes. *)

From S2P Require Import Prelude Buffer BufferSpec BufferFlat Frame StreamRecv Tls.

(** ** Memories that differ in the contents of one block *)

Definition links (h : buf_header_impl) : Z * Z := (prev_ h, next_ h).

(** Only the contents and the size of [p]'s block differ, the size being [n] after. *)
Record contents_only (p : ptr) (n : Z) (d : list Z) (m m' : mem) : Prop := {
  co_payload : payload m' = <[p := d]> (payload m);
  co_brk : brk m' = brk m;
  co_headers : headers m' = alter (λ h, h <| size_ := n |>) p (headers m) }.

Lemma dlseg_links H H' pre l stop : (∀ a, links <$> H' !! a = links <$> H !! a) → dlseg H pre l stop → dlseg H' pre l stop.
Proof.
  intros Heq. revert pre. induction l as [|p l IH]; intros pre; cbn; [done|]. specialize (Heq p).
  destruct (H !! p) as [h|], (H' !! p) as [h'|]; try done. unfold links in Heq. cbn in Heq. simplify_eq.
  intros (? & ? & ?). split_and!; [congruence..|by apply IH].
Qed.

Lemma seq_rep_links m m' q l : (∀ a, links <$> headers m' !! a = links <$> headers m !! a) → seq_rep m q l → seq_rep m' q l.
Proof.
  intros Heq []. split; try done.
  - by eapply dlseg_links.
  - pose proof (Heq (p_sentry_ q)) as E. destruct (headers m !! p_sentry_ q), (headers m' !! p_sentry_ q); try done.
    unfold links in E. cbn in *. simplify_eq. by rewrite <- rep_sentry, H.
Qed.

Section Contents.
Variables (p : ptr) (n : Z) (d : list Z) (m m' : mem).
Hypothesis Hco : contents_only p n d m m'.

Lemma co_links a : links <$> headers m' !! a = links <$> headers m !! a.
Proof.
  rewrite (co_headers _ _ _ _ _ Hco). destruct (decide (a = p)) as [->|Ha]; [|by rewrite lookup_alter_ne].
  rewrite lookup_alter_eq. by destruct (headers m !! p).
Qed.

Lemma co_capacity a : capacity_ <$> headers m' !! a = capacity_ <$> headers m !! a.
Proof.
  rewrite (co_headers _ _ _ _ _ Hco). destruct (decide (a = p)) as [->|Ha]; [|by rewrite lookup_alter_ne].
  rewrite lookup_alter_eq. by destruct (headers m !! p).
Qed.

Lemma co_other a : a ≠ p → headers m' !! a = headers m !! a ∧ payload m' !! a = payload m !! a.
Proof.
  intros Ha. rewrite (co_headers _ _ _ _ _ Hco), (co_payload _ _ _ _ _ Hco). by rewrite lookup_alter_ne, lookup_insert_ne.
Qed.

Lemma co_detached a : detached m a → detached m' a.
Proof.
  intros (H1 & H2 & H3). split_and!; [done..|]. pose proof (co_links a) as E. unfold links in E.
  destruct (headers m !! a), (headers m' !! a); try done. cbn in *. congruence.
Qed.

Lemma co_wf : p ≠ default_buf_header → heap_wf m → heap_wf m'.
Proof.
  intros Hp. apply heap_wf_same; [apply Hco| |].
  - intros a. pose proof (co_links a) as E. destruct (headers m !! a), (headers m' !! a); try done.
  - by apply co_other.
Qed.

Lemma co_bytes a : bytes_of m' a = if decide (a = p) then match headers m !! p with Some _ => take (Z.to_nat n) d | None => [] end
  else bytes_of m a.
Proof.
  unfold bytes_of, block. destruct (decide (a = p)) as [->|Ha].
  - rewrite (co_headers _ _ _ _ _ Hco), (co_payload _ _ _ _ _ Hco), lookup_alter_eq, lookup_insert_eq.
    by destruct (headers m !! p).
  - by destruct (co_other a Ha) as [-> ->].
Qed.

Lemma co_block_ok a : block_ok m a → length d = length (block m p) → 0 ≤ n ≤ Z.of_nat (length d) → block_ok m' a.
Proof.
  intros (h & E & Hs & Hc) Hl Hn. destruct (decide (a = p)) as [->|Ha]; [|destruct (co_other a Ha) as [E1 E2]].
  - exists (h <| size_ := n |>). unfold block in *. rewrite (co_headers _ _ _ _ _ Hco), (co_payload _ _ _ _ _ Hco),
      lookup_alter_eq, lookup_insert_eq, E. cbn. split_and!; [done|lia|lia|lia].
  - eapply block_ok_same; [done|done|]. by exists h.
Qed.
End Contents.

(** [write_block] where the bytes fit. *)
Definition written (p : ptr) (k : Z) (bytes : list Z) (m : mem) : mem :=
  m <| payload ::= <[p := take (Z.to_nat k) (block m p) ++ bytes ++ drop (Z.to_nat k + length bytes) (block m p)]> |>.

Lemma wp_write_block p k bytes m (Q : unit → mem → Prop) : 0 ≤ k → k + Z.of_nat (length bytes) ≤ Z.of_nat (length (block m p)) →
  Q tt (written p k bytes m) → wp (write_block p k bytes) m Q.
Proof. intros Hk Hl HQ. unfold wp, write_block. by rewrite (proj2 (Z.leb_le _ _) Hk), (proj2 (Z.leb_le _ _) Hl). Qed.

(** ** The two sequences *)

(** A block with room for at least a byte. *)
Definition roomy (m : mem) (p : ptr) : Prop := ∃ h, headers m !! p = Some h ∧ 0 < capacity_ h < 2 ^ 64.

Record tls_bufs (qi : recv_buffer_sequence) (li : list ptr) (qo : recv_buffer_sequence) (lo : list ptr) (m : mem) : Prop := {
  tb_wf : heap_wf m;
  tb_in : seq_rep m qi li;
  tb_out : seq_rep m qo lo;
  tb_blocks : Forall (block_ok m) (li ++ lo);
  tb_caps : Forall (roomy m) (li ++ lo);
  tb_sep : NoDup (p_sentry_ qi :: li ++ p_sentry_ qo :: lo);
  tb_sentries : p_sentry_ qi ≠ default_buf_header ∧ p_sentry_ qo ≠ default_buf_header }.

(** What was allocated outside [X] is as it was. *)
Definition keeps (X : list ptr) (m m' : mem) : Prop :=
  ∀ a, is_Some (headers m !! a) → a ∉ X → headers m' !! a = headers m !! a ∧ payload m' !! a = payload m !! a.

Lemma keeps_refl X m : keeps X m m.
Proof. by intros a. Qed.

(** [X'] holds addresses of [X] and new ones. *)
Lemma keeps_trans X X' m m1 m2 : keeps X m m1 → keeps X' m1 m2 →
  (∀ a, a ∈ X' → a ∈ X ∨ headers m !! a = None) → keeps X m m2.
Proof.
  intros H1 H2 HX a Ha HaX. destruct (H1 a Ha HaX) as [E1 E2]. rewrite <- E1, <- E2. apply H2; [by rewrite E1|].
  intros [Hin|Hin]%HX; [done|]. rewrite Hin in Ha. by destruct Ha.
Qed.

Lemma keeps_weaken X Y m m' : X ⊆ Y → keeps X m m' → keeps Y m m'.
Proof. intros HXY H a Ha HaY. apply H; [done|]. intros Hin. by apply HaY, HXY. Qed.

Lemma links_only_keeps X m m' : links_only X m m' → keeps X m m'.
Proof. intros [Hp _ Ho _] a _ Ha. by rewrite Hp, Ho. Qed.

Lemma contents_only_keeps p n d m m' : contents_only p n d m m' → keeps [p] m m'.
Proof. intros Hco a _ Ha. eapply co_other; [done|set_solver]. Qed.

Lemma links_only_roomy X m m' p : links_only X m m' → roomy m p → roomy m' p.
Proof.
  intros [_ _ _ Hi] (h & E & Hc). specialize (Hi p). rewrite E in Hi. destruct (headers m' !! p) as [h'|] eqn:E'; [|done].
  exists h'. cbn in Hi. split; [done|]. by assert (capacity_ h' = capacity_ h) as -> by congruence.
Qed.

Lemma contents_only_roomy p n d m m' a : contents_only p n d m m' → roomy m a → roomy m' a.
Proof.
  intros Hco (h & E & Hc). pose proof (co_capacity _ _ _ _ _ Hco a) as Ea. rewrite E in Ea.
  destruct (headers m' !! a) as [h'|] eqn:E'; [|done]. exists h'. cbn in Ea. split; [done|]. by assert (capacity_ h' = capacity_ h) as -> by congruence.
Qed.

Lemma tb_contents p n d qi li qo lo m m' : tls_bufs qi li qo lo m → contents_only p n d m m' → p ≠ default_buf_header →
  length d = length (block m p) → 0 ≤ n ≤ Z.of_nat (length d) → tls_bufs qi li qo lo m'.
Proof.
  intros [] Hco Hp Hl Hn. split; try done.
  - by eapply co_wf.
  - eapply seq_rep_links; [|done]. intros a. by eapply co_links.
  - eapply seq_rep_links; [|done]. intros a. by eapply co_links.
  - eapply Forall_impl; [exact tb_blocks0|]. intros a Ha. by eapply co_block_ok.
  - eapply Forall_impl; [exact tb_caps0|]. intros a Ha. by eapply contents_only_roomy.
Qed.

(** Filling a block's spare room with as much of [pt] as fits: the memory and the bytes. *)
Lemma block_room m p h : headers m !! p = Some h → block_ok m p → roomy m p →
  0 ≤ size_ h ≤ capacity_ h ∧ capacity_ h = Z.of_nat (length (block m p)) ∧ capacity_ h < 2 ^ 64 ∧
  (capacity_ h - size_ h) `mod` 2 ^ 64 = capacity_ h - size_ h.
Proof.
  intros E (h' & E' & Hs & Hc) (h'' & E'' & Hr). rewrite E in E', E''. injection E' as <-. injection E'' as <-.
  split_and!; [lia|lia|done|lia|]. apply Z.mod_small. lia.
Qed.

Lemma wp_spare p m h (Q : Z * Z → mem → Prop) : headers m !! p = Some h →
  Q (size_ h, (capacity_ h - size_ h) `mod` 2 ^ 64) m → wp (spare_capacity_mut p) m Q.
Proof.
  intros E HQ. unfold spare_capacity_mut, view_size, view_capacity. wp_steps. eapply wp_load_header; [done|]. wp_steps.
  eapply wp_load_header; [done|]. by wp_steps.
Qed.

Lemma wp_view_size p m h (Q : Z → mem → Prop) : headers m !! p = Some h → Q (size_ h) m → wp (view_size p) m Q.
Proof. intros E HQ. unfold wp. by erewrite view_size_run. Qed.

Lemma wp_view_capacity p m h (Q : Z → mem → Prop) : headers m !! p = Some h → Q (capacity_ h) m → wp (view_capacity p) m Q.
Proof. intros E HQ. unfold view_capacity. wp_steps. by eapply wp_load_header. Qed.

Lemma wp_set_len p n m h (Q : unit → mem → Prop) : headers m !! p = Some h → p ≠ default_buf_header →
  Q tt (m <| headers ::= alter (λ h, h <| size_ := n |>) p |>) → wp (set_len p n) m Q.
Proof.
  intros E Hp HQ. unfold set_len, is_defaulted. wp_steps. apply wp_assert; [by rewrite bool_decide_eq_false_2|].
  wp_steps. apply wp_upd_header; [by rewrite E|done].
Qed.

(** A block whose size is the length of the bytes before [bytes] in it. *)
Definition appended (p : ptr) (bytes : list Z) (m m' : mem) : Prop :=
  ∃ h, headers m !! p = Some h ∧ contents_only p (size_ h + Z.of_nat (length bytes))
    (take (Z.to_nat (size_ h)) (block m p) ++ bytes ++ drop (Z.to_nat (size_ h) + length bytes) (block m p)) m m'.

Lemma appended_length p bytes m h : headers m !! p = Some h → block_ok m p →
  size_ h + Z.of_nat (length bytes) ≤ capacity_ h →
  length (take (Z.to_nat (size_ h)) (block m p) ++ bytes ++ drop (Z.to_nat (size_ h) + length bytes) (block m p)) =
  length (block m p).
Proof.
  intros E (h' & E' & Hs & Hc) Hl. rewrite E in E'. injection E' as <-. rewrite !length_app, length_take, length_drop. lia.
Qed.

Lemma appended_bytes p bytes m m' h a : headers m !! p = Some h → block_ok m p → appended p bytes m m' →
  bytes_of m' a = if decide (a = p) then bytes_of m p ++ bytes else bytes_of m a.
Proof.
  intros E (h' & E' & Hs & Hc) (h'' & E'' & Hco). rewrite E in E', E''. injection E' as <-. injection E'' as <-.
  rewrite (co_bytes _ _ _ _ _ Hco). destruct (decide (a = p)) as [->|]; [|done]. unfold bytes_of. rewrite E.
  rewrite Z2Nat.inj_add, Nat2Z.id, app_assoc by lia. rewrite take_app_le; [|rewrite length_app, length_take; lia].
  rewrite take_ge; [done|]. rewrite length_app, length_take. lia.
Qed.

Lemma appended_intro p h n bytes m : headers m !! p = Some h → n = size_ h + Z.of_nat (length bytes) →
  appended p bytes m (written p (size_ h) bytes m <| headers ::= alter (λ x, x <| size_ := n |>) p |>).
Proof. intros E ->. by exists h. Qed.

Definition all_sentries (qi : recv_buffer_sequence) (li : list ptr) (qo : recv_buffer_sequence) (lo : list ptr) : list ptr :=
  p_sentry_ qi :: li ++ p_sentry_ qo :: lo.

Lemma in_block qi li qo lo m p : tls_bufs qi li qo lo m → p ∈ li ++ lo →
  ∃ h, headers m !! p = Some h ∧ block_ok m p ∧ roomy m p ∧ p ≠ default_buf_header.
Proof.
  intros Hb Hp. pose proof (tb_blocks _ _ _ _ _ Hb) as H1. pose proof (tb_caps _ _ _ _ _ Hb) as H2.
  rewrite Forall_forall in H1, H2. destruct (H1 p Hp) as (h & E & Hs). exists h. split_and!; [done|by exists h|by apply H2|].
  apply elem_of_app in Hp as [Hp|Hp]; intros ->;
    [by apply (rep_default _ _ _ (tb_in _ _ _ _ _ Hb))|by apply (rep_default _ _ _ (tb_out _ _ _ _ _ Hb))].
Qed.

Lemma tb_appended p bytes qi li qo lo m m' h : tls_bufs qi li qo lo m → appended p bytes m m' → headers m !! p = Some h →
  block_ok m p → p ≠ default_buf_header → size_ h + Z.of_nat (length bytes) ≤ capacity_ h → tls_bufs qi li qo lo m'.
Proof.
  intros Hb (h' & E' & Hco) E Hok Hp Hl. rewrite E in E'. injection E' as <-.
  pose proof (appended_length p bytes m h E Hok Hl) as Hlen. destruct Hok as (h' & E' & Hs & Hc). rewrite E in E'. injection E' as <-.
  eapply tb_contents; [done|exact Hco|done|done|]. rewrite Hlen. lia.
Qed.

Lemma wp_fill_back qi li qo lo pt m (Q : option nat → mem → Prop) : tls_bufs qi li qo lo m → pt ≠ [] →
  (∀ n m', (0 < n)%nat → tls_bufs qi li qo lo m' → li ≠ [] → all_bytes m' li = all_bytes m li ++ take n pt →
     keeps (all_sentries qi li qo lo) m m' → Q (Some n) m') →
  Q None m → wp (fill_back qi pt) m Q.
Proof.
  intros Hb Hpt HS HN. unfold fill_back. pose proof (tb_in _ _ _ _ _ Hb) as Hi. rewrite (rep_num _ _ _ Hi).
  destruct (decide (li = [])) as [->|Hli]; [by apply wp_ret|].
  rewrite (proj2 (Z.ltb_lt _ _)) by (destruct li; [done|cbn; lia]).
  destruct (exists_last Hli) as (l0 & p & ->). clear Hli.
  destruct (in_block qi _ qo lo m p Hb) as (h & E & Hok & Hr & Hd); [set_solver|].
  destruct (block_room m p h E Hok Hr) as (Hsz & Hcap & Hlt & Hmod).
  unfold seq_back. wp_steps. apply wp_assert; [rewrite (rep_empty _ _ _ Hi); by rewrite bool_decide_eq_false_2 by by destruct l0|].
  wp_steps. rewrite (rep_tail _ _ _ Hi), last_or_snoc. eapply wp_spare; [exact E|]. rewrite Hmod. cbn [fst snd].
  destruct (Z.ltb_spec 0 (capacity_ h - size_ h)) as [Hroom|_]; [|by apply wp_ret].
  set (n := Z.to_nat _). assert (0 < n ≤ length pt)%nat as [Hn Hn'] by (destruct pt; [done|cbn in *; lia]).
  assert (length (take n pt) = n) as Hln by (rewrite length_take; lia).
  apply wp_bind, wp_write_block; [lia|lia|]. apply wp_bind. eapply wp_view_size; [exact E|]. wp_steps.
  eapply wp_set_len; [exact E|done|]. wp_steps. 
  pose proof (appended_intro p h (size_ h + Z.of_nat n) (take n pt) m E ltac:(by rewrite Hln)) as Ha.
  eapply HS; [done|eapply tb_appended; [done|exact Ha|done..|lia]|by destruct l0| |].
  - rewrite !all_bytes_snoc, (appended_bytes _ _ _ _ h p E Hok Ha), decide_True by done.
    rewrite <- app_assoc. f_equal. apply all_bytes_ext. intros a Hin. rewrite (appended_bytes _ _ _ _ h a E Hok Ha).
    rewrite decide_False; [done|]. intros ->. pose proof (rep_nodup_list _ _ _ Hi) as Hnd. apply NoDup_app in Hnd as (_ & Hnd & _).
    by apply (Hnd p Hin), list_elem_of_singleton.
  - destruct Ha as (h' & E' & Hco). eapply keeps_weaken; [|by eapply contents_only_keeps]. unfold all_sentries. set_solver.
Qed.

(** ** A buffer for the next bytes *)

Lemma links_only_wf X m m' : links_only X m m' → default_buf_header ∉ X → heap_wf m → heap_wf m'.
Proof.
  intros Hl HX. apply heap_wf_same; [apply Hl| |by apply Hl]. intros a. by rewrite (links_only_is_Some _ _ _ _ Hl).
Qed.

(** Relinking the two sequences. *)
Lemma tb_links X qi li qo lo qi' li' qo' lo' m m' : tls_bufs qi li qo lo m → links_only X m m' → default_buf_header ∉ X →
  (∀ a, a ∈ li' ++ lo' → block_ok m a ∧ roomy m a) → seq_rep m' qi' li' → seq_rep m' qo' lo' →
  p_sentry_ qi' = p_sentry_ qi → p_sentry_ qo' = p_sentry_ qo → NoDup (all_sentries qi' li' qo' lo') →
  tls_bufs qi' li' qo' lo' m'.
Proof.
  intros [] Hl HX Hin Hi Ho E1 E2 Hnd. split; try done.
  - by eapply links_only_wf.
  - apply Forall_forall. intros a Ha. eapply links_only_block_ok; [done|by apply Hin].
  - apply Forall_forall. intros a Ha. eapply links_only_roomy; [done|by apply Hin].
  - by rewrite E1, E2.
Qed.

Lemma tb_alloc qi li qo lo m a : tls_bufs qi li qo lo m → a ∈ all_sentries qi li qo lo → is_Some (headers m !! a).
Proof.
  intros Hb. unfold all_sentries. rewrite !elem_of_cons, elem_of_app, elem_of_cons. intros [->|[Ha|[->|Ha]]].
  - eapply rep_sentry_alloc, (tb_in _ _ _ _ _ Hb).
  - eapply rep_alloc; [apply (tb_in _ _ _ _ _ Hb)|done].
  - eapply rep_sentry_alloc, (tb_out _ _ _ _ _ Hb).
  - eapply rep_alloc; [apply (tb_out _ _ _ _ _ Hb)|done].
Qed.

Lemma tb_same qi li qo lo m m' : tls_bufs qi li qo lo m → heap_wf m' →
  (∀ a, a ∈ all_sentries qi li qo lo → headers m' !! a = headers m !! a ∧ payload m' !! a = payload m !! a) →
  tls_bufs qi li qo lo m'.
Proof.
  intros [] Hw Hs. unfold all_sentries in Hs. split; try done.
  - eapply seq_rep_same; [|exact tb_in0]. intros a Ha. apply Hs. set_solver.
  - eapply seq_rep_same; [|exact tb_out0]. intros a Ha. apply Hs. set_solver.
  - rewrite Forall_forall in tb_blocks0 |- *. intros a Ha. destruct (Hs a) as [E1 E2]; [set_solver|].
    eapply block_ok_same; [done..|by apply tb_blocks0].
  - rewrite Forall_forall in tb_caps0 |- *. intros a Ha. destruct (Hs a) as [E1 E2]; [set_solver|].
    destruct (tb_caps0 a Ha) as (h & E & Hc). exists h. by rewrite E1.
Qed.

Lemma bytes_same m m' a : headers m' !! a = headers m !! a → payload m' !! a = payload m !! a → bytes_of m' a = bytes_of m a.
Proof. unfold bytes_of, block. by intros -> ->. Qed.

(** What a new block is. *)
Lemma new_block m cap : heap_wf m → 0 < cap < 2 ^ 64 →
  let m' := (recv_buffer_new cap m).2 in
  heap_wf m' ∧ headers m !! brk m = None ∧ detached m' (brk m) ∧ block_ok m' (brk m) ∧ roomy m' (brk m) ∧
  ∀ a, a ≠ brk m → headers m' !! a = headers m !! a ∧ payload m' !! a = payload m !! a.
Proof.
  intros Hw Hc m'. pose proof (heap_wf_new m cap Hw ltac:(lia)) as Hw'. pose proof (hw_brk _ Hw) as Hb.
  unfold m' in *. clear m'. rewrite recv_buffer_new_run in *. cbn [snd] in *. split_and!; [done|by apply heap_wf_fresh| | | |].
  - unfold detached, nullptr, default_buf_header in *. cbn. rewrite lookup_insert_eq. split_and!; [lia|lia|done].
  - exists (Hdr 0 cap nullptr nullptr). unfold block. cbn. rewrite !lookup_insert_eq. cbn. rewrite length_replicate.
    split_and!; [done|lia|lia|lia].
  - eexists. cbn. rewrite lookup_insert_eq. by split.
  - intros a Ha. cbn. by rewrite !lookup_insert_ne.
Qed.

Lemma wp_next_buf qi li qo lo m (Q : ptr * recv_buffer_sequence → mem → Prop) : tls_bufs qi li qo lo m → li ≠ [] ∨ lo ≠ [] →
  (∀ p qo' lo' m', tls_bufs qi li qo' lo' m' → detached m' p → block_ok m' p → roomy m' p →
     p ∉ all_sentries qi li qo' lo' → p ∈ lo ∨ headers m !! p = None → lo' ⊆ lo → p_sentry_ qo' = p_sentry_ qo →
     (∀ a, a ∈ li → bytes_of m' a = bytes_of m a) → keeps (all_sentries qi li qo lo) m m' → Q (p, qo') m') →
  wp (next_buf qi qo) m Q.
Proof.
  intros Hb Hne HQ. unfold next_buf. pose proof (tb_in _ _ _ _ _ Hb) as Hi. pose proof (tb_out _ _ _ _ _ Hb) as Ho.
  rewrite (rep_empty _ _ _ Ho). destruct lo as [|p lo].
  - rewrite bool_decide_eq_true_2 by done. destruct li as [|f li]; [by destruct Hne|].
    destruct (in_block qi _ qo [] m f Hb) as (h & E & Hok & Hr & Hd); [set_solver|].
    destruct (block_room m f h E Hok Hr) as (Hsz & Hcap & Hlt & _).
    unfold seq_front. wp_steps. apply wp_assert; [by rewrite (rep_empty _ _ _ Hi)|]. wp_steps. rewrite (rep_head _ _ _ Hi). cbn [hd].
    eapply wp_view_capacity; [exact E|]. apply wp_bind. 
    destruct (new_block m (capacity_ h) (tb_wf _ _ _ _ _ Hb)) as (Hw & Hf & Hde & Hbo & Hro & Hsame); [destruct Hr as (h' & E' & Hr); congruence|].
    pose proof (recv_buffer_new_run m (capacity_ h)) as En. unfold wp at 1. rewrite (surjective_pairing (recv_buffer_new _ _)), En. cbn [fst].
    rewrite <- En. wp_steps.
    assert (∀ a, a ∈ all_sentries qi (f :: li) qo [] → a ≠ brk m) as Hnew.
    { intros a Ha ->. apply (tb_alloc _ _ _ _ _ _ Hb) in Ha. rewrite Hf in Ha. by destruct Ha. }
    apply HQ with (lo' := []); try done.
    + eapply tb_same; [done..|]. intros a Ha. by apply Hsame, Hnew.
    + intros Ha. by apply (Hnew _ Ha).
    + by right.
    + intros a Ha. apply bytes_same; apply Hsame, Hnew; unfold all_sentries; set_solver.
    + intros a Ha _. apply Hsame. intros ->. rewrite Hf in Ha. by destruct Ha.
  - rewrite bool_decide_eq_false_2 by done.
    eapply wp_mono; [by apply pop_front_wp|]. intros [p' qo'] m' (Ep & Ho' & Hde & Hl & Hs). cbn [fst snd] in *. subst p'.
    pose proof (tb_sep _ _ _ _ _ Hb) as Hnd. destruct (tb_sentries _ _ _ _ _ Hb) as [Hd1 Hd2].
    destruct (in_block qi li qo (p :: lo) m p Hb) as (h & E & Hok & Hr & Hd); [set_solver|].
    assert (NoDup (p :: all_sentries qi li qo lo)) as Hndp.
    { eapply NoDup_Permutation_proper; [|exact Hnd]. unfold all_sentries. solve_Permutation. }
    assert (∀ a, a ∈ li ++ lo → block_ok m a ∧ roomy m a) as Hin.
    { intros a Ha. destruct (in_block qi li qo (p :: lo) m a Hb) as (? & _ & ? & ? & _); [set_solver|done]. }
    apply HQ with (lo' := lo); try done.
    + eapply tb_links; [exact Hb|exact Hl| |exact Hin| |done|done|exact Hs|].
      * pose proof (rep_default _ _ _ Ho). set_solver.
      * eapply seq_rep_frame; [exact Hi|exact Hl|]. intros a Ha. unfold all_sentries in Hndp.
        apply NoDup_cons in Hnd as [Hn1 Hnd]. apply NoDup_app in Hnd as (_ & Hn2 & _). set_solver.
      * unfold all_sentries in *. rewrite Hs. by apply NoDup_cons in Hndp as [_ ?].
    + by eapply links_only_block_ok.
    + by eapply links_only_roomy.
    + apply NoDup_cons in Hndp as [Hp _]. unfold all_sentries in *. by rewrite Hs.
    + left. by left.
    + set_solver.
    + intros a _. by eapply links_only_bytes.
    + eapply keeps_weaken; [|by apply links_only_keeps]. unfold all_sentries. set_solver.
Qed.

(** Emptying a block. *)
Lemma wp_set_empty p h m (Q : unit → mem → Prop) : headers m !! p = Some h → block_ok m p → roomy m p → p ≠ default_buf_header →
  (∀ m', contents_only p 0 (block m p) m m' → headers m' !! p = Some (h <| size_ := 0 |>) → block m' p = block m p →
     bytes_of m' p = [] → Q tt m') → wp (set_len p 0) m Q.
Proof.
  intros E Hok Hr Hd HQ. destruct (block_room m p h E Hok Hr) as (_ & Hcap & _ & _).
  assert (0 < capacity_ h) as Hpos by (destruct Hr as (h' & E' & Hr); rewrite E in E'; injection E' as <-; lia).
  assert (payload m !! p = Some (block m p)) as Hpay.
  { unfold block in *. destruct (payload m !! p); [done|]. cbn in Hcap. lia. }
  eapply wp_set_len; [exact E|done|]. apply HQ.
  - split; cbn; [by rewrite insert_id|done|done].
  - cbn. by rewrite lookup_alter_eq, E.
  - done.
  - unfold bytes_of. cbn. by rewrite lookup_alter_eq, E.
Qed.

(** Queueing a filled buffer. *)
Lemma wp_push_input qi li qo lo p m (Q : recv_buffer_sequence → mem → Prop) : tls_bufs qi li qo lo m → detached m p →
  block_ok m p → roomy m p → p ∉ all_sentries qi li qo lo →
  (∀ qi' m', tls_bufs qi' (li ++ [p]) qo lo m' → p_sentry_ qi' = p_sentry_ qi → links_only (p :: p_sentry_ qi :: li) m m' →
     Q qi' m') → wp (push_back qi p) m Q.
Proof.
  intros Hb Hde Hok Hr Hp HQ. destruct (tb_sentries _ _ _ _ _ Hb) as [Hd1 Hd2]. pose proof (tb_sep _ _ _ _ _ Hb) as Hnd.
  eapply wp_mono; [apply push_back_wp; [apply (tb_in _ _ _ _ _ Hb)|done|unfold all_sentries in Hp; set_solver]|].
  intros qi' m' (Hi & Hl & Hs). apply HQ; [|done|done]. eapply tb_links; [exact Hb|exact Hl| | |exact Hi| |done|done|].
  - pose proof (rep_default _ _ _ (tb_in _ _ _ _ _ Hb)). destruct Hde as (_ & ? & _). set_solver.
  - intros a Ha. destruct (decide (a = p)) as [->|Hap]; [done|].
    destruct (in_block qi li qo lo m a Hb) as (? & _ & ? & ? & _); [set_solver|done].
  - eapply seq_rep_frame; [apply (tb_out _ _ _ _ _ Hb)|exact Hl|]. intros a Ha. unfold all_sentries in Hp.
    apply NoDup_cons in Hnd as [Hn1 Hnd]. apply NoDup_app in Hnd as (_ & Hn2 & _). set_solver.
  - eapply NoDup_Permutation_proper; [|apply NoDup_cons; split; [exact Hp|exact Hnd]]. unfold all_sentries. rewrite Hs. solve_Permutation.
Qed.

(** From [X] in [m] to [X'] in [m']: [X'] holds addresses of [X] and new ones, and what
    was allocated outside [X] is as it was. *)
Definition evolves (X X' : list ptr) (m m' : mem) : Prop :=
  (∀ a, a ∈ X' → a ∈ X ∨ headers m !! a = None) ∧ keeps X m m'.

Lemma evolves_refl X m : evolves X X m m.
Proof. split; [by left|apply keeps_refl]. Qed.

Lemma evolves_trans X X1 X2 m m1 m2 : evolves X X1 m m1 → evolves X1 X2 m1 m2 → evolves X X2 m m2.
Proof.
  intros [F1 K1] [F2 K2]. split; [|by eapply keeps_trans].
  intros a [Ha|Ha]%F2; [by apply F1|]. destruct (decide (a ∈ X)) as [|Hn]; [by left|right].
  destruct (headers m !! a) as [h|] eqn:E; [|done]. destruct (K1 a) as [E1 _]; [by rewrite E|done|]. congruence.
Qed.

Lemma wp_add_buf qi li qo lo pt m (Q : nat * (recv_buffer_sequence * recv_buffer_sequence) → mem → Prop) :
  tls_bufs qi li qo lo m → li ≠ [] ∨ lo ≠ [] → pt ≠ [] →
  (∀ n qi' li' qo' lo' m', (0 < n)%nat → tls_bufs qi' li' qo' lo' m' → li' ≠ [] →
     all_bytes m' li' = all_bytes m li ++ take n pt →
     evolves (all_sentries qi li qo lo) (all_sentries qi' li' qo' lo') m m' → Q (n, (qi', qo')) m') →
  wp (add_buf qi qo pt) m Q.
Proof.
  intros Hb Hne Hpt HQ. unfold add_buf. apply wp_bind. eapply wp_next_buf; [done..|].
  intros p qo1 lo1 m1 Hb1 Hde1 Hok1 Hr1 Hp1 Hnew Hlo Hs1 Hby1 Hk1. cbn [fst snd].
  assert (∃ h, headers m1 !! p = Some h ∧ 0 < capacity_ h) as (h & E & Hpos) by (destruct Hr1 as (h & E & ? & ?); by exists h).
  destruct (block_room m1 p h E Hok1 Hr1) as (Hsz & Hcap & Hlt & _). pose proof Hde1 as (Hp0 & Hpd & _).
  apply wp_bind. eapply wp_view_capacity; [exact E|]. apply wp_bind, wp_assert; [by apply Z.ltb_lt|]. apply wp_bind.
  eapply wp_set_empty; [done..|]. intros m2 Hco2 E2 Hbl2 Hby2.
  assert (block_ok m2 p) as Hok2 by (eapply co_block_ok; [done|done|done|lia]).
  assert (roomy m2 p) as Hr2 by by eapply contents_only_roomy.
  assert (tls_bufs qi li qo1 lo1 m2) as Hb2 by (eapply tb_contents; [done|done|done|done|lia]).
  apply wp_bind. eapply wp_spare; [exact E2|]. cbn [size_ capacity_ upd fst snd]. unfold upd; cbn [size_ capacity_].
  rewrite Z.sub_0_r, Z.mod_small by lia. apply wp_bind, wp_assert; [by apply Z.ltb_lt|].
  set (n := Z.to_nat _). assert (0 < n ≤ length pt)%nat as [Hn Hn'] by (destruct pt; [done|cbn in *; lia]).
  assert (length (take n pt) = n) as Hln by (rewrite length_take; lia).
  apply wp_bind, wp_write_block; [done|rewrite Hbl2; lia|]. apply wp_bind. eapply wp_set_len; [exact E2|done|].
  pose proof (appended_intro p _ (Z.of_nat n) (take n pt) m2 E2 ltac:(by rewrite Hln)) as Ha.
  match goal with |- wp _ ?m' _ => set (m3 := m') in *; change (appended p (take n pt) m2 m3) in Ha end. clearbody m3.
  assert (tls_bufs qi li qo1 lo1 m3) as Hb3 by (eapply tb_appended; [exact Hb2|exact Ha|exact E2|done|done|rewrite Hln; cbn; lia]).
  pose proof Ha as (h' & E' & Hco3). rewrite E2 in E'. injection E' as <-.
  assert (p ∉ li) as Hpli by (unfold all_sentries in Hp1; set_solver).
  assert (∀ a, a ∈ all_sentries qi (li ++ [p]) qo1 lo1 → a ∈ all_sentries qi li qo lo ∨ headers m !! a = None) as Hfrom.
  { unfold all_sentries in *. intros a Ha'. rewrite Hs1 in Ha'. destruct (decide (a = p)) as [->|]; [destruct Hnew; [left; set_solver|by right]|].
    left. set_solver. }
  apply wp_bind. eapply (wp_push_input qi li qo1 lo1); [exact Hb3|by eapply co_detached, co_detached| |by eapply contents_only_roomy|done|].
  { eapply co_block_ok; [exact Hco3|exact Hok2| |].
    - eapply appended_length; [exact E2|exact Hok2|rewrite Hln; cbn; lia].
    - rewrite (appended_length p (take n pt) m2 _ E2 Hok2), Hln; rewrite ?Hln; cbn; [rewrite Hbl2; lia|lia]. }
  intros qi' m4 Hb4 Hs4 Hl4. apply wp_ret. eapply HQ; [done|exact Hb4|by destruct li| |split].
  - rewrite all_bytes_snoc, (links_only_bytes _ _ _ p Hl4), (appended_bytes _ _ _ _ _ p E2 Hok2 Ha), decide_True, Hby2 by done.
    f_equal. apply all_bytes_ext. intros a Hin. assert (a ≠ p) by (by intros ->).
    rewrite (links_only_bytes _ _ _ a Hl4), (appended_bytes _ _ _ _ _ a E2 Hok2 Ha), decide_False by done.
    by rewrite (co_bytes _ _ _ _ _ Hco2), decide_False, Hby1.
  - intros a Ha'. apply Hfrom. unfold all_sentries in *. by rewrite Hs4 in Ha'.
  - eapply keeps_trans; [|by apply links_only_keeps|].
    + eapply keeps_trans; [|eapply contents_only_keeps; exact Hco3|].
      * eapply keeps_trans; [exact Hk1|by eapply contents_only_keeps|]. intros a ->%list_elem_of_singleton. apply Hfrom. unfold all_sentries. set_solver.
      * intros a ->%list_elem_of_singleton. apply Hfrom. unfold all_sentries. set_solver.
    + intros a Ha'. apply Hfrom. unfold all_sentries. set_solver.
Qed.

(** ** The whole record *)
Lemma wp_record_loop fuel qi li qo lo pt m (Q : recv_buffer_sequence * recv_buffer_sequence → mem → Prop) :
  tls_bufs qi li qo lo m → li ≠ [] ∨ lo ≠ [] ∨ pt = [] → (length pt ≤ fuel)%nat →
  (∀ qi' li' qo' lo' m', tls_bufs qi' li' qo' lo' m' → all_bytes m' li' = all_bytes m li ++ pt →
     (li ≠ [] ∨ lo ≠ [] → li' ≠ [] ∨ lo' ≠ []) →
     evolves (all_sentries qi li qo lo) (all_sentries qi' li' qo' lo') m m' → Q (qi', qo') m') →
  wp (record_loop fuel qi qo pt) m Q.
Proof.
  revert qi li qo lo pt m. induction fuel as [|fuel IH]; intros qi li qo lo pt m Hb Hne Hf HQ.
  - destruct pt; [|cbn in Hf; lia]. apply wp_ret. eapply HQ; [done|by rewrite app_nil_r|done|apply evolves_refl].
  - destruct pt as [|b pt]; [apply wp_ret; eapply HQ; [done|by rewrite app_nil_r|done|apply evolves_refl]|].
    cbn [record_loop]. set (rest := b :: pt) in *. assert (rest ≠ []) as Hr by done.
    assert (li ≠ [] ∨ lo ≠ []) as Hne1 by (destruct Hne as [|[|]]; [by left|by right|done]).
    apply wp_bind. eapply wp_fill_back; [exact Hb|exact Hr| |].
    + intros n m1 Hn Hb1 Hli Hby Hk. eapply IH; [exact Hb1|by left|rewrite length_drop; lia|].
      intros qi' li' qo' lo' m' Hb' Hby' Hne' Hev. eapply HQ; [exact Hb'| |auto|].
      * by rewrite Hby', Hby, <- app_assoc, take_drop.
      * eapply evolves_trans; [|exact Hev]. split; [by left|done].
    + apply wp_bind. eapply wp_add_buf; [exact Hb|done|done|].
      intros n qi1 li1 qo1 lo1 m1 Hn Hb1 Hli Hby Hev1. eapply IH; [exact Hb1|by left|rewrite length_drop; lia|].
      intros qi' li' qo' lo' m' Hb' Hby' Hne' Hev. eapply HQ; [exact Hb'| |auto|].
      * by rewrite Hby', Hby, <- app_assoc, take_drop.
      * by eapply evolves_trans.
Qed.

(** A record that is received is appended to the input sequence byte by byte,
    whatever the capacities of the buffers at hand: the room of the last one is used
    first, then buffers that held ciphertext, then new ones; the callback returns, no
    access leaves a buffer, and memory outside the two sequences is untouched. *)
Lemma record_received_appends qi li qo lo pt m : tls_bufs qi li qo lo m → li ≠ [] ∨ lo ≠ [] →
  ∃ qi' li' qo' lo' m', record_loop (length pt) qi qo pt m = (Ret (qi', qo'), m') ∧ tls_bufs qi' li' qo' lo' m' ∧
    all_bytes m' li' = all_bytes m li ++ pt ∧ keeps (all_sentries qi li qo lo) m m'.
Proof.
  intros Hb Hne.
  assert (wp (record_loop (length pt) qi qo pt) m (λ r m', ∃ li' lo', tls_bufs r.1 li' r.2 lo' m' ∧
    all_bytes m' li' = all_bytes m li ++ pt ∧ keeps (all_sentries qi li qo lo) m m')) as Hw.
  { eapply wp_record_loop; [exact Hb|destruct Hne; auto|done|]. intros qi' li' qo' lo' m' Hb' Hby _ [_ Hk]. by exists li', lo'. }
  apply wp_run in Hw as ([qi' qo'] & m' & E & li' & lo' & H). by exists qi', li', qo', lo', m'.
Qed.
