(* ===== verification/TlsCreds.v ===== *)
(** TLS credentials and errors ([src/tls/tls.cpp]): which certificate and key Botan is
    given, the context that holds them, and the text of Botan's errors.

    Certificates, keys and names are Botan's; a class gives the operations used. *)

From S2P Require Import Prelude.

(** ** botan_error_category *)

(** [Botan::ErrorType] *)
Inductive ErrorType :=
| Unknown | SystemError | NotImplemented | OutOfMemory | InternalError | IoError
| InvalidObjectState | KeyNotSet | InvalidArgument | InvalidKeyLength | InvalidNonceLength | LookupError
| EncodingFailure | DecodingFailure | TLSError | HttpError | InvalidTag | RoughtimeError
| CommonCryptoError | Pkcs11Error | TPMError | DatabaseError | ZlibError | Bzip2Error | LzmaError.
#[export] Instance ErrorType_eq_dec : EqDecision ErrorType.
Proof. solve_decision. Defined.

Definition botan_category_name : string := "botan".

(** [condition] is [None] when it is none of the enumerators. *)
Definition message (condition : option ErrorType) : string :=
  match condition with
  | Some Unknown => "Some unknown error"
  | Some SystemError => "An error while calling a system interface"
  | Some NotImplemented => "An operation seems valid, but not supported by the current version"
  | Some OutOfMemory => "Memory allocation failure"
  | Some InternalError => "An internal error occurred"
  | Some IoError => "An I/O error occurred"
  | Some InvalidObjectState => "Invalid object state"
  | Some KeyNotSet => "A key was not set on an object when this is required"
  | Some InvalidArgument => "The application provided an argument which is invalid"
  | Some InvalidKeyLength => "A key with invalid length was provided"
  | Some InvalidNonceLength => "A nonce with invalid length was provided"
  | Some LookupError => "An object type was requested but cannot be found"
  | Some EncodingFailure => "Encoding a message or datum failed"
  | Some DecodingFailure => "Decoding a message or datum failed"
  | Some TLSError => "A TLS error (error_code will be the alert type)"
  | Some HttpError => "An error during an HTTP operation"
  | Some InvalidTag => "A message with an invalid authentication tag was detected"
  | Some RoughtimeError => "An error during Roughtime validation"
  | Some CommonCryptoError => "An error when interacting with CommonCrypto API"
  | Some Pkcs11Error => "An error when interacting with a PKCS11 device"
  | Some TPMError => "An error when interacting with a TPM device"
  | Some DatabaseError => "An error when interacting with a database"
  | Some ZlibError => "An error when interacting with zlib"
  | Some Bzip2Error => "An error when interacting with bzip2"
  | Some LzmaError => "An error when interacting with lzma"
  | None => "unhandled Botan error, this is a bug in Fiona"
  end.

(** ** tls_credentials_manager *)

(** The parts of Botan's certificates and keys that are used. *)
Class BotanCerts (X509_Certificate Private_Key X509_DN : Type) := {
  cert_eq :: EqDecision X509_Certificate;
  dn_eq :: EqDecision X509_DN;
  algo_name : Private_Key → string;
  matches_dns_name : X509_Certificate → string → bool;
  issuer_dn : X509_Certificate → X509_DN }.

Section Credentials.
Context {X509_Certificate Private_Key X509_DN : Type} {HB : BotanCerts X509_Certificate Private_Key X509_DN}.

Record cert_key_pair := CertKeyPair { cert : X509_Certificate; key : Private_Key }.

(** The certificates trusted beside the system's. *)
Record tls_credentials_manager := TlsCredentials {
  cert_key_pairs_ : list cert_key_pair; cert_store_ : list X509_Certificate }.
#[export] Instance eta_tls_credentials : Eta tls_credentials_manager := λ c,
  TlsCredentials (cert_key_pairs_ c) (cert_store_ c).

Definition tls_credentials_new : tls_credentials_manager := TlsCredentials [] [].

Fixpoint private_key_in (c : X509_Certificate) (l : list cert_key_pair) : option Private_Key :=
  match l with
  | [] => None
  | p :: l => if decide (c = cert p) then Some (key p) else private_key_in c l
  end.
Definition private_key_for (m : tls_credentials_manager) (c : X509_Certificate) : option Private_Key :=
  private_key_in c (cert_key_pairs_ m).

(** The loop for servers; a pair whose key's algorithm is not wanted is skipped. *)
Fixpoint server_cert (algos : list string) (hostname : string) (l : list cert_key_pair) : option X509_Certificate :=
  match l with
  | [] => None
  | p :: l =>
      if decide (algo_name (key p) ∉ algos) then server_cert algos hostname l else
      if negb (bool_decide (hostname = EmptyString)) && matches_dns_name (cert p) hostname then Some (cert p)
      else server_cert algos hostname l
  end.

Fixpoint issued_by (dn : X509_DN) (l : list cert_key_pair) : option X509_Certificate :=
  match l with
  | [] => None
  | p :: l => if decide (dn = issuer_dn (cert p)) then Some (cert p) else issued_by dn l
  end.
Fixpoint client_cert (acceptable_cas : list X509_DN) (l : list cert_key_pair) : option X509_Certificate :=
  match acceptable_cas with
  | [] => None
  | dn :: dns => match issued_by dn l with Some c => Some c | None => client_cert dns l end
  end.

(** The certificate found is the whole chain. *)
Definition find_cert_chain (m : tls_credentials_manager) (algos : list string) (acceptable_cas : list X509_DN)
    (type hostname : string) : list X509_Certificate :=
  match (if bool_decide (type = "tls-server"%string) then server_cert algos hostname (cert_key_pairs_ m) else None) with
  | Some c => [c]
  | None =>
      match (if bool_decide (type = "tls-client"%string) then client_cert acceptable_cas (cert_key_pairs_ m) else None) with
      | Some c => [c]
      | None => []
      end
  end.

(** ** tls_context: its copies share the manager; a file that cannot be loaded throws *)
Definition add_certificate_authority (load_cert : string → option X509_Certificate) (filepath : string) :
    M tls_credentials_manager unit :=
  match load_cert filepath with
  | None => throw (foreign 0)
  | Some c => modify (λ m, m <| cert_store_ ::= λ l, l ++ [c] |>)
  end.

Definition add_certificate_key_pair (load_cert : string → option X509_Certificate) (load_key : string → option Private_Key)
    (cert_path key_path : string) : M tls_credentials_manager unit :=
  match load_key key_path with
  | None => throw (foreign 0)
  | Some k =>
      match load_cert cert_path with
      | None => throw (foreign 0)
      | Some c => modify (λ m, m <| cert_key_pairs_ ::= λ l, l ++ [CertKeyPair c k] |>)
      end
  end.

(** ** What is found *)

Definition serves (algos : list string) (hostname : string) (p : cert_key_pair) : Prop :=
  algo_name (key p) ∈ algos ∧ hostname ≠ EmptyString ∧ matches_dns_name (cert p) hostname = true.

Lemma server_cert_spec algos hostname l :
  match server_cert algos hostname l with
  | Some c => ∃ l1 p l2, l = l1 ++ p :: l2 ∧ c = cert p ∧ serves algos hostname p ∧ Forall (λ p, ¬ serves algos hostname p) l1
  | None => Forall (λ p, ¬ serves algos hostname p) l
  end.
Proof.
  induction l as [|p l IH]; [by constructor|]. cbn.
  assert (∀ r, ¬ serves algos hostname p →
    match r with
    | Some c => ∃ l1 p l2, l = l1 ++ p :: l2 ∧ c = cert p ∧ serves algos hostname p ∧ Forall (λ p, ¬ serves algos hostname p) l1
    | None => Forall (λ p, ¬ serves algos hostname p) l
    end → match r with
    | Some c => ∃ l1 p' l2, p :: l = l1 ++ p' :: l2 ∧ c = cert p' ∧ serves algos hostname p' ∧ Forall (λ p, ¬ serves algos hostname p) l1
    | None => Forall (λ p, ¬ serves algos hostname p) (p :: l)
    end) as Hskip.
  { intros [c|] Hn; [|by constructor]. intros (l1 & p' & l2 & -> & -> & Hs & Hf).
    exists (p :: l1), p', l2. by split_and!; [..|constructor]. }
  case_decide as Ha; [apply Hskip; [by intros []|done]|].
  destruct (negb _ && _) eqn:E; [|apply Hskip; [intros (? & ? & ?)|done]].
  - apply andb_true_iff in E as [E1 E2]. apply negb_true_iff, bool_decide_eq_false in E1.
    by exists [], p, l.
  - rewrite bool_decide_eq_false_2 in E by done. cbn in E. congruence.
Qed.

Lemma private_key_in_spec c l : private_key_in c l = key <$> (snd <$> list_find (λ p, c = cert p) l).
Proof.
  induction l as [|p l IH]; [done|]. cbn. case_decide; [done|]. rewrite IH. by destruct (list_find _ l) as [[]|].
Qed.

(** For a server Botan is given the first certificate whose key uses a wanted
    algorithm and that matches the host name, which must not be empty, and none
    exactly if no pair is such; the key it is then given for that certificate is one
    that was added with it. *)
Lemma find_server_chain m algos cas hostname :
  match find_cert_chain m algos cas "tls-server" hostname with
  | [] => Forall (λ p, ¬ serves algos hostname p) (cert_key_pairs_ m)
  | c :: rest => rest = [] ∧ (∃ l1 p l2, cert_key_pairs_ m = l1 ++ p :: l2 ∧ c = cert p ∧ serves algos hostname p ∧
        Forall (λ p, ¬ serves algos hostname p) l1) ∧
      ∃ k, private_key_for m c = Some k ∧ CertKeyPair c k ∈ cert_key_pairs_ m
  end.
Proof.
  unfold find_cert_chain. rewrite bool_decide_eq_true_2 by done. pose proof (server_cert_spec algos hostname (cert_key_pairs_ m)) as Hs.
  destruct (server_cert _ _ _) as [c|]; [|by rewrite bool_decide_eq_false_2]. split_and!; [done|done|].
  destruct Hs as (l1 & p & l2 & El & Ec & _ & _). unfold private_key_for. rewrite private_key_in_spec.
  destruct (list_find (λ p, c = cert p) (cert_key_pairs_ m)) as [[i [c' k]]|] eqn:E.
  - apply list_find_Some in E as (Hi & -> & _). exists k. split; [done|]. by apply list_elem_of_lookup_2 in Hi.
  - apply list_find_None in E. rewrite El, Forall_app, Forall_cons in E. by destruct E as (_ & ? & _).
Qed.

(** For a client, the first pair whose issuer is acceptable, in the order of the peer's list. *)
Lemma client_cert_in cas l c : client_cert cas l = Some c → ∃ p, p ∈ l ∧ c = cert p ∧ issuer_dn c ∈ cas.
Proof.
  induction cas as [|dn cas IH]; [done|]. cbn. assert (∀ c, issued_by dn l = Some c → ∃ p, p ∈ l ∧ c = cert p ∧ issuer_dn c = dn) as Hi.
  { clear. induction l as [|p l IH]; [done|]. cbn. intros c. case_decide as E; [intros [= <-]; exists p; split_and!; [by left|done|done]|].
    intros (p' & Hin & H)%IH. exists p'. split; [by right|done]. }
  destruct (issued_by dn l) as [c'|]; [intros [= <-]|intros (p & ? & ? & ?)%IH].
  - destruct (Hi c' eq_refl) as (p & ? & ? & <-). exists p. split_and!; [done..|by left].
  - exists p. split_and!; [done..|by right].
Qed.

Lemma messages_differ (c d : option ErrorType) : message c = message d → c = d.
Proof. destruct c as [[]|], d as [[]|]; (reflexivity || discriminate). Qed.
End Credentials.
