(* ===== verification/TlsHeap.v ===== *)
(** Received buffers beside the sequences of the TLS callbacks: what allocating,
    moving and destroying them leaves untouched. *)

From S2P Require Import Prelude Buffer BufferSpec BufferFlat Frame StreamRecv Tls TlsRecords.

(** The contents of a block are as they were. *)
Definition same_block (m m' : mem) (a : ptr) : Prop :=
  bytes_of m' a = bytes_of m a ∧ (block_ok m a → block_ok m' a) ∧ capacity_ <$> headers m' !! a = capacity_ <$> headers m !! a.

Lemma links_same_block X m m' a : links_only X m m' → same_block m m' a.
Proof.
  intros Hl. split_and!; [by eapply links_only_bytes|by eapply links_only_block_ok|].
  pose proof (lo_in _ _ _ Hl a) as E. destruct (headers m' !! a), (headers m !! a); cbn in *; congruence.
Qed.

Lemma same_block_eq m m' a : headers m' !! a = headers m !! a → payload m' !! a = payload m !! a → same_block m m' a.
Proof. intros E1 E2. split_and!; [by apply bytes_same|by eapply block_ok_same|by rewrite E1]. Qed.

Lemma same_block_trans m m1 m2 a : same_block m m1 a → same_block m1 m2 a → same_block m m2 a.
Proof. intros (A1 & B1 & C1) (A2 & B2 & C2). split_and!; [congruence|auto|congruence]. Qed.

(** A moved sequence: the new object owns the buffers, the old one is empty. *)
Lemma wp_seq_move q l m (Q : recv_buffer_sequence * recv_buffer_sequence → mem → Prop) : heap_wf m → seq_rep m q l →
  p_sentry_ q ≠ default_buf_header →
  (∀ q1 q2 m', seq_rep m' q1 l → seq_rep m' q2 [] → heap_wf m' → headers m !! p_sentry_ q1 = None →
     p_sentry_ q1 ≠ default_buf_header → p_sentry_ q2 = p_sentry_ q → keeps (p_sentry_ q :: l) m m' →
     (∀ a, a ∈ l → same_block m m' a) → Q (q1, q2) m') →
  wp (sequence_move q) m Q.
Proof.
  intros Hw Hr Hd HQ. unfold sequence_move. apply wp_bind. eapply wp_new_seq; [done|].
  intros q0 m0 Hr0 Hw0 Hf Hd0 Hpay Hm0.
  assert (∀ a, is_Some (headers m !! a) → a ≠ p_sentry_ q0) as Hne by (intros a Ha ->; rewrite Hf in Ha; by destruct Ha).
  assert (∀ a, a ∈ p_sentry_ q :: l → a ≠ p_sentry_ q0) as Hne'.
  { intros a [->|Ha]%elem_of_cons; apply Hne; [by eapply rep_sentry_alloc|by eapply rep_alloc]. }
  assert (seq_rep m0 q l) as Hr1 by (eapply seq_rep_same; [|exact Hr]; intros a Ha; by apply Hm0, Hne').
  eapply wp_mono; [apply (steal_wp m0 q0 q l); [done|done|intros Hx; by apply (Hne' _ Hx)]|].
  intros [q1 q2] m' (H1 & H2 & Hl & E1 & E2). cbn [fst snd] in *. apply HQ; try done.
  - eapply links_only_wf; [exact Hl| |done]. pose proof (rep_default _ _ _ Hr). set_solver.
  - by rewrite E1.
  - by rewrite E1.
  - intros a Ha Hx. destruct (links_only_keeps _ _ _ Hl a) as [-> ->].
    + rewrite Hm0 by by apply Hne. done.
    + apply not_elem_of_cons. split; [by apply Hne|done].
    + rewrite Hm0 by by apply Hne. by rewrite Hpay.
  - intros a Ha. eapply same_block_trans; [|by eapply links_same_block].
    apply same_block_eq; [apply Hm0, Hne'; by right|by rewrite Hpay].
Qed.

Lemma wp_seq_dtor q l m (Q : unit → mem → Prop) : heap_wf m → seq_rep m q l → p_sentry_ q ≠ default_buf_header →
  (∀ m', heap_wf m' → keeps (p_sentry_ q :: l) m m' → Q tt m') → wp (sequence_dtor q) m Q.
Proof.
  intros Hw Hr Hd HQ. unfold sequence_dtor. apply wp_bind. eapply wp_mono; [by apply free_list_wp|].
  intros q' m' (_ & _ & Hb & Hdead & Hother). apply wp_ret, HQ.
  - eapply heap_wf_same; [done| | |exact Hw].
    + intros a Ha. destruct (decide (a ∈ l)) as [Hin|Hn]; [destruct (Hdead a Hin) as [E _]; rewrite E in Ha; by destruct Ha|].
      destruct (decide (a = p_sentry_ q)) as [->|Hne]; [by eapply rep_sentry_alloc|].
      destruct (Hother a Hn) as [_ E]. by rewrite E in Ha.
    + apply Hother; [apply (rep_default _ _ _ Hr)|done].
  - intros a _ Ha. apply not_elem_of_cons in Ha as [Ha1 Ha2]. destruct (Hother a Ha2) as [E1 E2]. split; [by apply E2|done].
Qed.

(** ** Received buffers *)

Definition chunk_valid (c : chunk) : Prop := Z.of_nat (length (ch_bytes c)) ≤ ch_capacity c < 2 ^ 64.

Definition chunk_at (m : mem) (p : ptr) (c : chunk) : Prop :=
  block_ok m p ∧ capacity_ <$> headers m !! p = Some (ch_capacity c) ∧ bytes_of m p = ch_bytes c.

(** [q] holds the chunks [cs] in the blocks [l], apart from [X]. *)
Record chunks_at (X : list ptr) (q : recv_buffer_sequence) (l : list ptr) (cs : list chunk) (m : mem) : Prop := {
  ca_seq : seq_rep m q l;
  ca_chunks : Forall2 (chunk_at m) l cs;
  ca_sep : NoDup (p_sentry_ q :: l ++ X);
  ca_sentry : p_sentry_ q ≠ default_buf_header }.

Lemma chunk_same m m' p c : same_block m m' p → chunk_at m p c → chunk_at m' p c.
Proof. intros (E1 & E2 & E3) (H1 & H2 & H3). split_and!; [auto|congruence|congruence]. Qed.

Lemma ca_alloc X q l cs m a : chunks_at X q l cs m → a ∈ p_sentry_ q :: l → is_Some (headers m !! a).
Proof.
  intros Hc [->|Ha]%elem_of_cons; [eapply rep_sentry_alloc, (ca_seq _ _ _ _ _ Hc)|].
  eapply rep_alloc; [apply (ca_seq _ _ _ _ _ Hc)|done].
Qed.

Lemma ca_apart X q l cs m a : chunks_at X q l cs m → a ∈ p_sentry_ q :: l → a ∉ X.
Proof.
  intros Hc Ha HX. pose proof (ca_sep _ _ _ _ _ Hc) as Hnd. apply NoDup_cons in Hnd as [Hn1 Hnd].
  apply NoDup_app in Hnd as (_ & Hn2 & _). apply elem_of_cons in Ha as [->|Ha]; [set_solver|by apply (Hn2 a)].
Qed.

Lemma Forall2_impl_mem {A B} (P Q : A → B → Prop) l k : Forall2 P l k → (∀ x y, x ∈ l → P x y → Q x y) → Forall2 Q l k.
Proof.
  induction 1 as [|x y l k Hxy Hl IH]; intros H; constructor; [apply H; [by left|done]|].
  apply IH. intros x' y' Hx. apply H. by right.
Qed.

Lemma chunks_keep X X' q l cs m m' : chunks_at X q l cs m → NoDup X' →
  (∀ a, a ∈ p_sentry_ q :: l → headers m' !! a = headers m !! a ∧ payload m' !! a = payload m !! a ∧ a ∉ X') →
  chunks_at X' q l cs m'.
Proof.
  intros [Hr Hch Hnd Hd] Hnd' Hs. split; [| | |done].
  - eapply seq_rep_same; [|exact Hr]. intros a Ha. by apply Hs.
  - eapply Forall2_impl_mem; [exact Hch|]. intros a c Ha. apply chunk_same. destruct (Hs a) as (? & ? & _); [by right|].
    by apply same_block_eq.
  - apply NoDup_cons in Hnd as [Hn1 Hnd]. apply NoDup_app in Hnd as (Hnl & _ & _). apply NoDup_cons. split.
    + destruct (Hs (p_sentry_ q)) as (_ & _ & ?); [by left|]. set_solver.
    + apply NoDup_app. split_and!; [done| |done]. intros a Ha. apply Hs. by right.
Qed.

Lemma chunks_evolve X X' q l cs m m' : chunks_at X q l cs m → evolves X X' m m' → NoDup X' → chunks_at X' q l cs m'.
Proof.
  intros Hc [Hf Hk] Hnd'. eapply chunks_keep; [exact Hc|done|]. intros a Ha.
  pose proof (ca_alloc _ _ _ _ _ _ Hc Ha) as Hs. pose proof (ca_apart _ _ _ _ _ _ Hc Ha) as Hx.
  destruct (Hk a Hs Hx) as [E1 E2]. split_and!; [done..|]. intros [?|Hn]%Hf; [done|]. rewrite Hn in Hs. by destruct Hs.
Qed.

(** Allocating, filling and queueing one buffer. *)
Lemma wp_new_chunk c m (Q : ptr → mem → Prop) : heap_wf m → chunk_valid c →
  (∀ p m', heap_wf m' → headers m !! p = None → detached m' p → chunk_at m' p c → keeps [] m m' → Q p m') →
  wp (p ← recv_buffer_new (ch_capacity c); write_block p 0 (ch_bytes c) ;;
      set_len p (Z.of_nat (length (ch_bytes c))) ;; mret p) m Q.
Proof.
  intros Hw Hv HQ. unfold chunk_valid in Hv. pose proof (heap_wf_new m (ch_capacity c) Hw ltac:(lia)) as Hw'.
  pose proof (hw_brk _ Hw) as Hb. pose proof (heap_wf_fresh _ Hw) as Hf. set (p := brk m) in *.
  apply wp_bind. unfold wp at 1. rewrite recv_buffer_new_run. rewrite recv_buffer_new_run in Hw'. cbn [snd] in Hw'. fold p; fold p in Hw'.
  set (m1 := Mem _ _ _); fold m1 in Hw'. set (h := Hdr 0 (ch_capacity c) nullptr nullptr).
  assert (headers m1 !! p = Some h) as E by (cbn; by rewrite lookup_insert_eq).
  assert (block m1 p = replicate (Z.to_nat (ch_capacity c)) 0) as Eb by (unfold block; cbn; by rewrite lookup_insert_eq).
  assert (block_ok m1 p) as Hok by (exists h; rewrite Eb, length_replicate; cbn; split_and!; [done|lia|lia|lia]).
  assert (p ≠ default_buf_header ∧ p ≠ nullptr) as [Hpd Hp0] by (unfold default_buf_header, nullptr in *; lia).
  apply wp_bind, wp_write_block; [done|rewrite Eb, length_replicate; lia|]. apply wp_bind. eapply wp_set_len; [exact E|done|].
  pose proof (appended_intro p h (Z.of_nat (length (ch_bytes c))) (ch_bytes c) m1 E eq_refl) as Ha. cbn [size_ h] in Ha.
  match goal with |- wp _ ?m' _ => set (m2 := m') in *; change (appended p (ch_bytes c) m1 m2) in Ha end. clearbody m2.
  pose proof Ha as (h' & E' & Hco). rewrite E in E'. injection E' as <-.
  assert (detached m1 p) as Hde by (split_and!; [done..|]; by rewrite E).
  apply wp_ret, HQ.
  - by eapply co_wf.
  - done.
  - by eapply co_detached.
  - split_and!.
    + eapply co_block_ok; [exact Hco|exact Hok| |].
      * apply (appended_length p (ch_bytes c) m1 h E Hok). cbn. lia.
      * rewrite (appended_length p (ch_bytes c) m1 h E Hok), Eb, length_replicate by (cbn; lia). cbn; lia.
    + rewrite (co_capacity _ _ _ _ _ Hco), E. done.
    + rewrite (appended_bytes _ _ _ _ _ p E Hok Ha), decide_True by done. unfold bytes_of. by rewrite E.
  - intros a Ha' _. assert (a ≠ p) as Hne by (intros ->; rewrite Hf in Ha'; by destruct Ha').
    destruct (co_other _ _ _ _ _ Hco a Hne) as [-> ->]. cbn. by rewrite !lookup_insert_ne.
Qed.

Lemma wp_push_chunks cs : ∀ X q l cs0 m (Q : recv_buffer_sequence → mem → Prop), heap_wf m → chunks_at X q l cs0 m →
  Forall chunk_valid cs → (∀ a, a ∈ X → is_Some (headers m !! a)) →
  (∀ q' l' m', heap_wf m' → chunks_at X q' l' (cs0 ++ cs) m' → keeps (p_sentry_ q :: l) m m' → p_sentry_ q' = p_sentry_ q →
     (∀ a, a ∈ l' → a ∈ l ∨ headers m !! a = None) → Q q' m') →
  wp (push_chunks q cs) m Q.
Proof.
  induction cs as [|c cs IH]; intros X q l cs0 m Q Hw Hc Hv HX HQ.
  { apply wp_ret. eapply HQ; [done|by rewrite app_nil_r|apply keeps_refl|done|by left]. }
  apply Forall_cons in Hv as [Hv Hvs]. cbn [push_chunks].
  assert (wp (p ← recv_buffer_new (ch_capacity c); write_block p 0 (ch_bytes c) ;; set_len p (Z.of_nat (length (ch_bytes c))) ;; mret p)
    m (λ p m', wp (q ← push_back q p; push_chunks q cs) m' Q)) as Hx.
  2:{ revert Hx. unfold wp, mbind, M_bind, mret, M_ret. destruct (recv_buffer_new _ m) as [[p| |] m1]; [|done..].
      destruct (write_block _ _ _ m1) as [[[]| |] m2]; [|done..]. by destruct (set_len _ _ m2) as [[[]| |] m3]. }
  eapply wp_new_chunk; [done..|]. intros p m1 Hw1 Hf Hde Hat Hk1.
  assert (∀ a, a ∈ p_sentry_ q :: l ++ X → a ≠ p) as Hne.
  { intros a Ha ->. assert (is_Some (headers m !! p)) as Hs; [|rewrite Hf in Hs; by destruct Hs].
    rewrite app_comm_cons in Ha. apply elem_of_app in Ha as [Ha|Ha]; [by eapply ca_alloc|by apply HX]. }
  assert (chunks_at X q l cs0 m1) as Hc1.
  { eapply chunks_keep; [exact Hc| |].
    - pose proof (ca_sep _ _ _ _ _ Hc) as Hnd. by apply NoDup_cons in Hnd as [_ (_ & _ & ?)%NoDup_app].
    - intros a Ha. destruct (Hk1 a) as [? ?]; [by eapply ca_alloc|apply not_elem_of_nil|]. split_and!; [done..|by eapply ca_apart]. }
  apply wp_bind. eapply wp_mono; [apply push_back_wp; [apply (ca_seq _ _ _ _ _ Hc1)|done|]|].
  { intros Hx. apply (Hne p); [|done]. set_solver. }
  intros q2 m2 (Hr2 & Hl2 & Es2). destruct Hc1 as [Hr1 Hch1 Hnd1 Hd1].
  assert (∀ a, a ∈ X → a ∉ p :: p_sentry_ q :: l) as HXs.
  { intros a Ha Hx. apply NoDup_cons in Hnd1 as [Hn1 (_ & Hn2 & _)%NoDup_app]. 
    apply elem_of_cons in Hx as [->|[->|Hx]%elem_of_cons]; [by apply (Hne p); [set_solver|]|set_solver|by apply (Hn2 a)]. }
  apply (IH X q2 (l ++ [p]) (cs0 ++ [c])); [| |exact Hvs| |].
  - eapply links_only_wf; [exact Hl2| |done]. pose proof (rep_default _ _ _ Hr1). destruct Hde as (_ & ? & _). set_solver.
  - split; [done| | |by rewrite Es2].
    + apply Forall2_app; [eapply Forall2_impl; [exact Hch1|intros a c']|constructor; [|constructor]].
      * apply chunk_same. by eapply links_same_block.
      * eapply chunk_same; [by eapply links_same_block|done].
    + rewrite Es2. eapply NoDup_Permutation_proper; [|apply NoDup_cons; split; [|exact Hnd1]].
      { rewrite <- app_assoc. cbn [app]. etrans; [apply perm_skip, Permutation_sym, Permutation_middle|apply perm_swap]. }
      intros Hx. by apply (Hne p).
  - intros a Ha. destruct (HX a Ha) as [h Eh]. destruct (Hk1 a) as [E1 _]; [by rewrite Eh|apply not_elem_of_nil|].
    rewrite (lo_out _ _ _ Hl2) by by apply HXs. by rewrite E1, Eh.
  - intros q' l' m' Hw' Hc' Hk' Es' Hl'. eapply HQ; [done|by rewrite <- app_assoc in Hc'| |congruence|].
    + intros a Ha Hx. destruct (Hk1 a Ha) as [E1 E2]; [apply not_elem_of_nil|].
      assert (a ≠ p) as Hap by (intros ->; rewrite Hf in Ha; by destruct Ha).
      destruct (links_only_keeps _ _ _ Hl2 a) as [E3 E4]; [by rewrite E1|set_solver|].
      destruct (Hk' a) as [E5 E6]; [by rewrite E3, E1|rewrite Es2; set_solver|]. split; congruence.
    + intros a Ha. destruct (decide (is_Some (headers m !! a))) as [Hs|Hs]; [|right; by apply eq_None_not_Some].
      left. destruct (Hl' a Ha) as [[Hin|Hin]%elem_of_app|Hn]; [done|..].
      * apply list_elem_of_singleton in Hin as ->. rewrite Hf in Hs. by destruct Hs.
      * destruct (Hk1 a Hs) as [E1 _]; [apply not_elem_of_nil|]. apply (links_only_is_Some _ _ _ a) in Hl2. 
        exfalso. rewrite <- E1 in Hs. apply Hl2 in Hs. rewrite Hn in Hs. by destruct Hs.
Qed.
