(* ===== verification/TlsRecv.v ===== *)
(** What a TLS receive yields: the plaintext of the records in the order in which the
    channel gives them, as a function of the channel and of what the stream delivers,
    without heap, buffers or sequences; and that the code does that. *)

From S2P Require Import Prelude Buffer BufferSpec BufferFlat Frame Awaitable StreamRecv Tls TlsRecords TlsHeap.

(** ** The abstract receiver *)

(** What the callbacks have gathered. *)
Record tls_view := TlsView { v_plain : list Z; v_out : list Z; v_got : bool; v_close : bool }.
#[export] Instance eta_tls_view : Eta tls_view := λ v, TlsView (v_plain v) (v_out v) (v_got v) (v_close v).

Fixpoint view_events (es : list tls_event) (v : tls_view) : option exn * tls_view :=
  match es with
  | [] => (None, v)
  | Emit d :: es => view_events es (v <| v_out ::= λ l, l ++ d |>)
  | Record_received p :: es => view_events es (v <| v_plain ::= λ l, l ++ p |> <| v_got := true |>)
  | Alert b :: es => view_events es (if b then v <| v_close := true |> else v)
  | Verify_cert_chain b :: es => if b then view_events es v else (Some (literal "invalid certificate"), v)
  end.

Section Spec.
Context {C : Type} {HC : BotanChannel C}.

Definition call_spec (f : C → list tls_event * option Z * C) (c : C) (v : tls_view) : option exn * C * tls_view :=
  let '(es, err, c') := f c in
  match view_events es v with
  | (Some e, v') => (Some e, c', v')
  | (None, v') => (botan_exception <$> err, c', v')
  end.

(** The chunks of one receive: whether the stream has ended, or the exception. *)
Fixpoint feed_chunks (cs : list chunk) (c : C) (v : tls_view) : (bool + exn) * C * tls_view :=
  match cs with
  | [] => (inl false, c, v)
  | ch :: cs =>
      if ch_capacity ch =? 0 then (inl true, c, v <| v_got := true |>) else
      match call_spec (λ c, received_data c (ch_bytes ch)) c v with
      | (None, c, v) => feed_chunks cs c v
      | (Some e, c, v) => (inr e, c, v)
      end
  end.

(** Receives until there is a record: the error to return or the exception, if any; the
    channel, what has been gathered, and the receives left.  [None] while it waits. *)
Fixpoint recv_gather (inc : list (result (list chunk))) (c : C) (v : tls_view) :
    option (option (Z + exn) * C * tls_view * list (result (list chunk))) :=
  if v_got v then Some (None, c, v, inc) else
  match inc with
  | [] => None
  | Err e :: inc => Some (Some (inl e), c, v, inc)
  | Ok cs :: inc =>
      match feed_chunks cs c v with
      | (inl _, c, v) => recv_gather inc c v
      | (inr (botan_exception t), c, v) => Some (Some (inl t), c, v, inc)
      | (inr e, c, v) => Some (Some (inr e), c, v, inc)
      end
  end.

Inductive recv_outcome := Recv_ok (plain : list Z) | Recv_err (e : Z) | Recv_throw (e : exn).

(** What a receive comes to; the plaintext gathered is handed out once. *)
Definition recv_spec (inc : list (result (list chunk))) (c : C) (v : tls_view) :
    option (recv_outcome * C * tls_view * list (result (list chunk))) :=
  match recv_gather inc c v with
  | None => None
  | Some (None, c, v, inc) => Some (Recv_ok (v_plain v), c, v <| v_plain := [] |> <| v_got := false |>, inc)
  | Some (Some (inl e), c, v, inc) => Some (Recv_err e, c, v, inc)
  | Some (Some (inr e), c, v, inc) => Some (Recv_throw e, c, v, inc)
  end.
End Spec.

(** ** The sequences when the input sequence may hold the mark of the end *)
Record tls_seqs (qi : recv_buffer_sequence) (li : list ptr) (qo : recv_buffer_sequence) (lo : list ptr) (m : mem) : Prop := {
  ts_wf : heap_wf m;
  ts_in : seq_rep m qi li;
  ts_out : seq_rep m qo lo;
  ts_blocks : Forall (block_ok m) (li ++ lo);
  ts_caps : Forall (roomy m) lo;
  ts_sep : NoDup (all_sentries qi li qo lo);
  ts_sentries : p_sentry_ qi ≠ default_buf_header ∧ p_sentry_ qo ≠ default_buf_header }.

Lemma tb_seqs qi li qo lo m : tls_bufs qi li qo lo m → tls_seqs qi li qo lo m.
Proof. intros []. split; try done. by apply Forall_app in tb_caps as [_ ?]. Qed.

Lemma seqs_tb qi li qo lo m : tls_seqs qi li qo lo m → Forall (roomy m) li → tls_bufs qi li qo lo m.
Proof. intros [] Hr. split; try done. by apply Forall_app. Qed.

Lemma ts_alloc qi li qo lo m a : tls_seqs qi li qo lo m → a ∈ all_sentries qi li qo lo → is_Some (headers m !! a).
Proof.
  intros Hb. unfold all_sentries. rewrite !elem_of_cons, elem_of_app, elem_of_cons. intros [->|[Ha|[->|Ha]]].
  - eapply rep_sentry_alloc, (ts_in _ _ _ _ _ Hb).
  - eapply rep_alloc; [apply (ts_in _ _ _ _ _ Hb)|done].
  - eapply rep_sentry_alloc, (ts_out _ _ _ _ _ Hb).
  - eapply rep_alloc; [apply (ts_out _ _ _ _ _ Hb)|done].
Qed.

Lemma ts_same qi li qo lo m m' : tls_seqs qi li qo lo m → heap_wf m' →
  (∀ a, a ∈ all_sentries qi li qo lo → headers m' !! a = headers m !! a ∧ payload m' !! a = payload m !! a) →
  tls_seqs qi li qo lo m'.
Proof.
  intros [] Hw Hs. unfold all_sentries in Hs. split; try done.
  - eapply seq_rep_same; [|exact ts_in0]. intros a Ha. apply Hs. set_solver.
  - eapply seq_rep_same; [|exact ts_out0]. intros a Ha. apply Hs. set_solver.
  - rewrite Forall_forall in ts_blocks0 |- *. intros a Ha. destruct (Hs a) as [E1 E2]; [set_solver|].
    eapply block_ok_same; [done..|by apply ts_blocks0].
  - rewrite Forall_forall in ts_caps0 |- *. intros a Ha. destruct (Hs a) as [E1 E2]; [set_solver|].
    destruct (ts_caps0 a Ha) as (h & E & Hc). exists h. by rewrite E1.
Qed.

Lemma ts_bytes_same qi li qo lo m m' : tls_seqs qi li qo lo m →
  (∀ a, a ∈ all_sentries qi li qo lo → headers m' !! a = headers m !! a ∧ payload m' !! a = payload m !! a) →
  all_bytes m' li = all_bytes m li.
Proof. intros _ Hs. apply all_bytes_ext. intros a Ha. apply bytes_same; apply Hs; unfold all_sentries; set_solver. Qed.

(** Queueing a buffer of ciphertext, and the mark of the end. *)
Lemma wp_push_used qi li qo lo p m (Q : recv_buffer_sequence → mem → Prop) : tls_bufs qi li qo lo m → detached m p →
  block_ok m p → roomy m p → p ∉ all_sentries qi li qo lo →
  (∀ qo' m', tls_bufs qi li qo' (lo ++ [p]) m' → p_sentry_ qo' = p_sentry_ qo → links_only (p :: p_sentry_ qo :: lo) m m' →
     Q qo' m') → wp (push_back qo p) m Q.
Proof.
  intros Hb Hde Hok Hr Hp HQ. destruct (tb_sentries _ _ _ _ _ Hb) as [Hd1 Hd2]. pose proof (tb_sep _ _ _ _ _ Hb) as Hnd.
  eapply wp_mono; [apply push_back_wp; [apply (tb_out _ _ _ _ _ Hb)|done|unfold all_sentries in Hp; set_solver]|].
  intros qo' m' (Ho & Hl & Hs). apply HQ; [|done|done]. eapply tb_links; [exact Hb|exact Hl| | | |exact Ho|done|done|].
  - pose proof (rep_default _ _ _ (tb_out _ _ _ _ _ Hb)). destruct Hde as (_ & ? & _). set_solver.
  - intros a Ha. destruct (decide (a = p)) as [->|Hap]; [done|].
    destruct (in_block qi li qo lo m a Hb) as (? & _ & ? & ? & _); [set_solver|done].
  - eapply seq_rep_frame; [apply (tb_in _ _ _ _ _ Hb)|exact Hl|]. intros a Ha. unfold all_sentries in Hp.
    apply NoDup_cons in Hnd as [Hn1 Hnd]. apply NoDup_app in Hnd as (_ & Hn2 & _). set_solver.
  - unfold all_sentries in *. rewrite Hs. eapply NoDup_Permutation_proper; [|apply NoDup_cons; split; [exact Hp|exact Hnd]].
    solve_Permutation.
Qed.

Lemma wp_push_end qi li qo lo p m (Q : recv_buffer_sequence → mem → Prop) : tls_bufs qi li qo lo m → detached m p →
  block_ok m p → p ∉ all_sentries qi li qo lo →
  (∀ qi' m', tls_seqs qi' (li ++ [p]) qo lo m' → p_sentry_ qi' = p_sentry_ qi → links_only (p :: p_sentry_ qi :: li) m m' →
     Q qi' m') → wp (push_back qi p) m Q.
Proof.
  intros Hb Hde Hok Hp HQ. destruct (tb_sentries _ _ _ _ _ Hb) as [Hd1 Hd2]. pose proof (tb_sep _ _ _ _ _ Hb) as Hnd.
  eapply wp_mono; [apply push_back_wp; [apply (tb_in _ _ _ _ _ Hb)|done|unfold all_sentries in Hp; set_solver]|].
  intros qi' m' (Hi & Hl & Hs). apply HQ; [|done|done]. destruct (tb_seqs _ _ _ _ _ Hb) as [Hw _ Ho Hbl Hc _ _]. split; try done.
  - eapply links_only_wf; [exact Hl| |done]. pose proof (rep_default _ _ _ (tb_in _ _ _ _ _ Hb)). destruct Hde as (_ & ? & _). set_solver.
  - eapply seq_rep_frame; [exact Ho|exact Hl|]. intros a Ha. unfold all_sentries in Hp.
    apply NoDup_cons in Hnd as [Hn1 Hnd]. apply NoDup_app in Hnd as (_ & Hn2 & _). set_solver.
  - apply Forall_forall. intros a Ha. eapply links_only_block_ok; [exact Hl|]. destruct (decide (a = p)) as [->|]; [done|].
    rewrite Forall_forall in Hbl. apply Hbl. set_solver.
  - eapply Forall_impl; [exact Hc|]. intros a Ha. by eapply links_only_roomy.
  - unfold all_sentries in *. rewrite Hs. eapply NoDup_Permutation_proper; [|apply NoDup_cons; split; [exact Hp|exact Hnd]].
    solve_Permutation.
  - by rewrite Hs.
Qed.

(** ** The state and what has been gathered *)
Section Recv.
Context {C : Type} {HC : BotanChannel C}.
Implicit Types (s : tls_state C) (v : tls_view).

Definition view_of (li : list ptr) s v : Prop :=
  all_bytes (tls_heap s) li = v_plain v ∧ send_buf_ (tls_cb s) = v_out v ∧ received_record_ (tls_cb s) = v_got v ∧
  close_notify_received_ (tls_cb s) = v_close v.

Definition tls_rel (li lo : list ptr) s v : Prop :=
  tls_bufs (input_sequence_ (tls_cb s)) li (output_sequence_ (tls_cb s)) lo (tls_heap s) ∧ view_of li s v.

Definition owned_by (li lo : list ptr) s : list ptr :=
  all_sentries (input_sequence_ (tls_cb s)) li (output_sequence_ (tls_cb s)) lo.

(** What the channel's callbacks leave. *)
Record called (li lo : list ptr) s v (li' lo' : list ptr) s' : Prop := {
  cd_rel : tls_rel li' lo' s' v;
  cd_some : li ≠ [] ∨ lo ≠ [] → li' ≠ [] ∨ lo' ≠ [];
  cd_net : tls_net s' = tls_net s;
  cd_heap : evolves (owned_by li lo s) (owned_by li' lo' s') (tls_heap s) (tls_heap s') }.

Lemma wp_on_tls_heap {A} (m : M mem A) s (Q : A → tls_state C → Prop) :
  wp m (tls_heap s) (λ a h, Q a (s <| tls_heap := h |>)) → wp (on_tls_heap m) s Q.
Proof. apply wp_zoom. Qed.

(** Plaintext needs a buffer whose capacity a new one can have: there is one, or no
    callback of [es] has plaintext. *)
Definition silent (e : tls_event) : Prop := match e with Record_received (_ :: _) => False | _ => True end.
Definition can_take (li lo : list ptr) (es : list tls_event) : Prop := li ≠ [] ∨ lo ≠ [] ∨ Forall silent es.

Lemma called_here li lo s v : tls_rel li lo s v → called li lo s v li lo s.
Proof. intros Hr. split; [done..|apply evolves_refl]. Qed.

Lemma called_trans li lo s v1 li1 lo1 s1 v2 li2 lo2 s2 : called li lo s v1 li1 lo1 s1 → called li1 lo1 s1 v2 li2 lo2 s2 →
  called li lo s v2 li2 lo2 s2.
Proof. intros [_ N1 E1 H1] [R2 N2 E2 H2]. split; [done|auto|congruence|by eapply evolves_trans]. Qed.

(** One callback that returns. *)
Lemma wp_record_received li lo s v pt (Q : unit → tls_state C → Prop) : tls_rel li lo s v → li ≠ [] ∨ lo ≠ [] ∨ pt = [] →
  (∀ li' lo' s', called li lo s (v <| v_plain ::= λ l, l ++ pt |> <| v_got := true |>) li' lo' s' → tls_chan s' = tls_chan s →
     Q tt s') → wp (tls_record_received pt) s Q.
Proof.
  intros [Hb (E1 & E2 & E3 & E4)] Hne HQ. unfold tls_record_received, upd_cb, get_cb. wp_steps. apply wp_on_tls_heap.
  eapply wp_record_loop; [exact Hb|done|done|]. intros qi' li' qo' lo' m' Hb' Hby Hne' Hev. wp_steps.
  apply (HQ li' lo'); [|done]. split; [|exact Hne'|done|exact Hev]. split; [exact Hb'|]. split_and!; [|done..].
  unfold upd; cbn. etrans; [exact Hby|]. f_equal. exact E1.
Qed.

(** What the callbacks of one call leave, and what they throw. *)
Lemma wpx_callbacks es : ∀ li lo s v (Q : unit → tls_state C → Prop) (E : exn → tls_state C → Prop),
  tls_rel li lo s v → can_take li lo es →
  (∀ li' lo' s', called li lo s (view_events es v).2 li' lo' s' → tls_chan s' = tls_chan s →
     match (view_events es v).1 with None => Q tt s' | Some e => E e s' end) →
  wpx (callbacks es) s Q E.
Proof.
  induction es as [|e es IH]; intros li lo s v Q E Hr Hne HQ; [by apply (HQ li lo); [apply called_here|]|].
  assert (can_take li lo es) as Hne' by (destruct Hne as [?|[?|[_ ?]%Forall_cons]]; [by left|by right; left|by right; right]).
  cbn [callbacks]. apply wpx_bind. destruct e as [d|p|b|b]; cbn [callback view_events] in *.
  - apply wpx_wp. unfold tls_emit_data, upd_cb. wp_steps. destruct Hr as [Hb (E1 & E2 & E3 & E4)].
    eapply (IH li lo _ (v <| v_out ::= λ l, l ++ d |>)); [split; [exact Hb|split_and!; [exact E1| |exact E3|exact E4]]|done|].
    { exact (f_equal (λ l, l ++ d) E2). }
    intros li' lo' s' [R N En Hh] Ec. apply (HQ li' lo'); [|done]. by split.
  - apply wpx_wp. eapply wp_record_received; [exact Hr| |].
    { destruct Hne as [?|[?|[Hs _]%Forall_cons]]; [by left|by right; left|right; right; by destruct p]. }
    intros li1 lo1 s1 Hc1 Ec1. eapply IH; [apply Hc1| |].
    { destruct Hne' as [?|[?|?]]; [..|by right; right]; (destruct (cd_some _ _ _ _ _ _ _ Hc1) as [?|?]; [auto|by left|by right; left]). } intros li2 lo2 s2 Hc2 Ec2. eapply HQ; [by eapply called_trans|congruence].
  - apply wpx_wp. unfold tls_alert, upd_cb, when. destruct b; wp_steps; [|by eapply IH].
    destruct Hr as [Hb (E1 & E2 & E3 & E4)].
    eapply (IH li lo _ (v <| v_close := true |>)); [split; [exact Hb|by split_and!]|done|].
    intros li' lo' s' [R N En Hh] Ec. apply (HQ li' lo'); [|done]. by split.
  - unfold tls_verify_cert_chain, when. destruct b; cbn [negb]; [by eapply IH|]. by apply (HQ li lo); [apply called_here|].
Qed.

Lemma wpx_channel_call f li lo s v (Q : unit → tls_state C → Prop) (E : exn → tls_state C → Prop) :
  tls_rel li lo s v → can_take li lo (f (tls_chan s)).1.1 →
  (∀ li' lo' s', let '(r, c, v') := call_spec f (tls_chan s) v in
     called li lo s v' li' lo' s' → tls_chan s' = c → match r with None => Q tt s' | Some e => E e s' end) →
  wpx (channel_call f) s Q E.
Proof.
  intros Hr Hne HQ. unfold channel_call, call_spec in *. apply wpx_bind, wpx_wp. wp_steps.
  destruct (f (tls_chan s)) as [[es err] c]. apply wpx_bind, wpx_wp. wp_steps. apply wpx_bind.
  eapply (wpx_callbacks es li lo); [exact Hr|done|]. intros li' lo' s' [R N En Hh] Ec. specialize (HQ li' lo' s').
  destruct (view_events es v) as [[e|] v']; cbn [fst snd] in *; [by apply HQ|].
  destruct err as [t|]; cbn [fmap option_fmap option_map] in HQ; by apply HQ.
Qed.

(** ** The buffers of one receive *)

(** The sequences and what has been gathered, where the input may end with the mark. *)
Definition seqs_rel (li lo : list ptr) s v : Prop :=
  tls_seqs (input_sequence_ (tls_cb s)) li (output_sequence_ (tls_cb s)) lo (tls_heap s) ∧ view_of li s v.

Lemma evolves_frame X X' Y Z' m m' : evolves X X' m m' → X ⊆ Y → (∀ a, a ∈ Z' → a ∈ X' ∨ a ∈ Y) → evolves Y Z' m m'.
Proof.
  intros [F K] HX HZ. split; [|by eapply keeps_weaken]. intros a [Ha|Ha]%HZ; [|by left]. destruct (F a Ha) as [?|?]; [|by right].
  left. by apply HX.
Qed.

Lemma links_evolve X Y Z' m m' : links_only X m m' → X ⊆ Y → Z' ⊆ Y → evolves Y Z' m m'.
Proof.
  intros Hl HX HZ. eapply evolves_frame; [split; [by left|by apply links_only_keeps]|done|]. intros a Ha. right. by apply HZ.
Qed.

Lemma chunks_pop X q p l c cs m (Q : ptr * recv_buffer_sequence → mem → Prop) : chunks_at X q (p :: l) (c :: cs) m →
  heap_wf m → NoDup X →
  (∀ q' m', heap_wf m' → chunks_at (p :: X) q' l cs m' → p_sentry_ q' = p_sentry_ q → detached m' p → chunk_at m' p c →
     links_only (p :: p_sentry_ q :: l) m m' → Q (p, q') m') → wp (pop_front q) m Q.
Proof.
  intros [Hr Hch Hnd Hd] Hw HX HQ. apply Forall2_cons in Hch as [Hp Hch].
  eapply wp_mono; [by apply pop_front_wp|]. intros [p' q'] m' (Ep & Hr' & Hde & Hl & Hs). cbn [fst snd] in *. subst p'.
  apply HQ; [| |done|done| |done].
  - eapply links_only_wf; [exact Hl| |done]. pose proof (rep_default _ _ _ Hr). set_solver.
  - split; [done| | |by rewrite Hs].
    + eapply Forall2_impl; [exact Hch|]. intros a c'. apply chunk_same. by eapply links_same_block.
    + rewrite Hs. eapply NoDup_Permutation_proper; [|exact Hnd]. solve_Permutation.
  - eapply chunk_same; [by eapply links_same_block|done].
Qed.

(** What reading the buffers of one receive leaves: [r] is what [feed_chunks] yields. *)
Record fed (li lo : list ptr) (q : recv_buffer_sequence) (l : list ptr) s (r : bool + exn) (c : C) (v : tls_view)
    (li' lo' : list ptr) (q' : recv_buffer_sequence) (l' : list ptr) s' : Prop := {
  fd_rel : seqs_rel li' lo' s' v;
  fd_roomy : r ≠ inl true → Forall (roomy (tls_heap s')) li';
  fd_rest : ∃ cs', chunks_at (owned_by li' lo' s') q' l' cs' (tls_heap s');
  fd_sentry : p_sentry_ q' = p_sentry_ q;
  fd_chan : tls_chan s' = c;
  fd_net : tls_net s' = tls_net s;
  fd_heap : evolves (owned_by li lo s ++ p_sentry_ q :: l) (owned_by li' lo' s' ++ p_sentry_ q' :: l') (tls_heap s) (tls_heap s') }.

(** A buffer whose bytes are handed over goes to the output sequence. *)
Lemma wp_push_output li lo s v p q l cs (Q : unit → tls_state C → Prop) : tls_rel li lo s v → detached (tls_heap s) p →
  block_ok (tls_heap s) p → roomy (tls_heap s) p → chunks_at (p :: owned_by li lo s) q l cs (tls_heap s) → p ∉ owned_by li lo s →
  (∀ s', tls_rel li (lo ++ [p]) s' v → tls_chan s' = tls_chan s → tls_net s' = tls_net s →
     chunks_at (owned_by li (lo ++ [p]) s') q l cs (tls_heap s') → owned_by li (lo ++ [p]) s' ≡ₚ p :: owned_by li lo s →
     links_only (p :: owned_by li lo s) (tls_heap s) (tls_heap s') → Q tt s') →
  wp (push_output p) s Q.
Proof.
  intros [Hb Hv] Hde Hok Hr Hch Hp HQ. unfold push_output, get_cb, upd_cb. wp_steps. apply wp_on_tls_heap.
  eapply wp_push_used; [exact Hb|done..|]. intros qo' m' Hb' Hs Hl. wp_steps. destruct Hv as (E1 & E2 & E3 & E4).
  assert (∀ a, a ∈ p :: p_sentry_ (output_sequence_ (tls_cb s)) :: lo → a ∈ p :: owned_by li lo s) as Hsub.
  { unfold owned_by, all_sentries. set_solver. }
  assert (all_sentries (input_sequence_ (tls_cb s)) li qo' (lo ++ [p]) ≡ₚ p :: owned_by li lo s) as Hperm.
  { unfold owned_by, all_sentries. rewrite Hs. solve_Permutation. }
  apply HQ; [|done|done| |exact Hperm|].
  - split; [exact Hb'|]. split_and!; [|exact E2|exact E3|exact E4]. etrans; [|exact E1].
    apply all_bytes_ext. intros a _. by eapply links_only_bytes.
  - eapply chunks_keep; [exact Hch| |].
    + change (NoDup (all_sentries (input_sequence_ (tls_cb s)) li qo' (lo ++ [p]))). apply (tb_sep _ _ _ _ _ Hb').
    + intros a Ha. pose proof (ca_apart _ _ _ _ _ _ Hch Ha) as Hx.
      destruct (links_only_keeps _ _ _ Hl a) as [F1 F2]; [by eapply ca_alloc|naive_solver|]. split_and!; [exact F1|exact F2|].
      change (a ∉ all_sentries (input_sequence_ (tls_cb s)) li qo' (lo ++ [p])). by rewrite Hperm.
  - eapply links_only_weaken; [exact Hsub|exact Hl].
Qed.

(** The mark of the end goes to the input sequence. *)
Lemma wp_push_eof li lo s v p q l cs (Q : unit → tls_state C → Prop) : tls_rel li lo s v → detached (tls_heap s) p →
  block_ok (tls_heap s) p → bytes_of (tls_heap s) p = [] → chunks_at (p :: owned_by li lo s) q l cs (tls_heap s) →
  p ∉ owned_by li lo s →
  (∀ s', seqs_rel (li ++ [p]) lo s' v → tls_chan s' = tls_chan s → tls_net s' = tls_net s →
     chunks_at (owned_by (li ++ [p]) lo s') q l cs (tls_heap s') → owned_by (li ++ [p]) lo s' ≡ₚ p :: owned_by li lo s →
     links_only (p :: owned_by li lo s) (tls_heap s) (tls_heap s') → Q tt s') →
  wp (push_input p) s Q.
Proof.
  intros [Hb Hv] Hde Hok Hby Hch Hp HQ. unfold push_input, get_cb, upd_cb. wp_steps. apply wp_on_tls_heap.
  eapply wp_push_end; [exact Hb|done..|]. intros qi' m' Hb' Hs Hl. wp_steps. destruct Hv as (E1 & E2 & E3 & E4).
  assert (∀ a, a ∈ p :: p_sentry_ (input_sequence_ (tls_cb s)) :: li → a ∈ p :: owned_by li lo s) as Hsub.
  { unfold owned_by, all_sentries. set_solver. }
  assert (all_sentries qi' (li ++ [p]) (output_sequence_ (tls_cb s)) lo ≡ₚ p :: owned_by li lo s) as Hperm.
  { unfold owned_by, all_sentries. rewrite Hs. solve_Permutation. }
  apply HQ; [|done|done| |exact Hperm|].
  - split; [exact Hb'|]. split_and!; [|exact E2|exact E3|exact E4]. etrans; [|exact E1].
    change (all_bytes m' (li ++ [p]) = all_bytes (tls_heap s) li). 
    rewrite all_bytes_snoc, (links_only_bytes _ _ _ p Hl), Hby, app_nil_r. apply all_bytes_ext. intros a _. by eapply links_only_bytes.
  - eapply chunks_keep; [exact Hch| |].
    + change (NoDup (all_sentries qi' (li ++ [p]) (output_sequence_ (tls_cb s)) lo)). apply (ts_sep _ _ _ _ _ Hb').
    + intros a Ha. pose proof (ca_apart _ _ _ _ _ _ Hch Ha) as Hx.
      destruct (links_only_keeps _ _ _ Hl a) as [F1 F2]; [by eapply ca_alloc|naive_solver|]. split_and!; [exact F1|exact F2|].
      change (a ∉ all_sentries qi' (li ++ [p]) (output_sequence_ (tls_cb s)) lo). by rewrite Hperm.
  - eapply links_only_weaken; [exact Hsub|exact Hl].
Qed.

(** The buffers left are destroyed. *)
Record turned (li lo : list ptr) (q : recv_buffer_sequence) (l : list ptr) s (r : bool + exn) (c : C) (v : tls_view)
    (li' lo' : list ptr) s' : Prop := {
  tn_rel : seqs_rel li' lo' s' v;
  tn_roomy : r ≠ inl true → Forall (roomy (tls_heap s')) li';
  tn_chan : tls_chan s' = c;
  tn_net : tls_net s' = tls_net s;
  tn_heap : evolves (owned_by li lo s ++ p_sentry_ q :: l) (owned_by li' lo' s') (tls_heap s) (tls_heap s') }.

Lemma seqs_rel_keep X li lo s v m' : seqs_rel li lo s v → heap_wf m' → keeps X (tls_heap s) m' →
  (∀ a, a ∈ owned_by li lo s → a ∉ X) → seqs_rel li lo (s <| tls_heap := m' |>) v.
Proof.
  intros [Hb (E1 & E2)] Hw Hk HX.
  assert (∀ a, a ∈ owned_by li lo s → headers m' !! a = headers (tls_heap s) !! a ∧ payload m' !! a = payload (tls_heap s) !! a) as Hs.
  { intros a Ha. apply Hk; [by eapply ts_alloc|by apply HX]. }
  split; [by eapply ts_same|]. split; [|exact E2]. etrans; [|exact E1]. by eapply ts_bytes_same.
Qed.

Lemma roomy_keep X li lo s v m' : seqs_rel li lo s v → keeps X (tls_heap s) m' → (∀ a, a ∈ owned_by li lo s → a ∉ X) →
  Forall (roomy (tls_heap s)) li → Forall (roomy m') li.
Proof.
  intros [Hb _] Hk HX Hr. rewrite Forall_forall in Hr |- *. intros a Ha. destruct (Hr a Ha) as (h & E & Hc).
  exists h. destruct (Hk a) as [-> _]; [by rewrite E| |done]. apply HX. unfold owned_by, all_sentries. set_solver.
Qed.

Lemma wp_drop_rest li lo q l s r c v li' lo' q' l' s' (Q : unit → tls_state C → Prop) :
  fed li lo q l s r c v li' lo' q' l' s' → (∀ s'', turned li lo q l s r c v li' lo' s'' → Q tt s'') →
  wp (on_tls_heap (sequence_dtor q')) s' Q.
Proof.
  intros [Hr Hro (cs' & Hch) Hs Hc Hn Hh] HQ. apply wp_on_tls_heap.
  eapply wp_seq_dtor; [apply (ts_wf _ _ _ _ _ (proj1 Hr))|apply Hch|apply Hch|]. intros m' Hw Hk.
  assert (∀ a, a ∈ owned_by li' lo' s' → a ∉ p_sentry_ q' :: l') as HX by (intros a Ha Hx; by apply (ca_apart _ _ _ _ _ a Hch)).
  apply HQ. split; [by eapply seqs_rel_keep| |done|done|].
  - intros Hne. by eapply roomy_keep; [..|by apply Hro].
  - eapply evolves_trans; [exact Hh|]. eapply evolves_frame; [split; [by left|exact Hk]|set_solver|]. intros a Ha. right. by apply elem_of_app; left.
Qed.

Lemma wp_cap p c m (Q : Z → mem → Prop) : chunk_at m p c → Q (ch_capacity c) m → wp (view_capacity p) m Q.
Proof.
  intros (_ & E & _) HQ. destruct (headers m !! p) as [h|] eqn:Eh; [|done]. injection E as E.
  eapply wp_view_capacity; [exact Eh|]. by rewrite E.
Qed.

Lemma wp_bytes p c m (Q : list Z → mem → Prop) : chunk_at m p c → Q (ch_bytes c) m → wp (readable_bytes p) m Q.
Proof. intros (Hok & _ & E) HQ. unfold wp. by rewrite readable_bytes_run, E. Qed.

Lemma chunk_roomy m p c : chunk_at m p c → chunk_valid c → ch_capacity c ≠ 0 → roomy m p.
Proof.
  intros (_ & E & _) Hv Hc. unfold chunk_valid in Hv. destruct (headers m !! p) as [h|] eqn:Eh; [|done]. injection E as E.
  exists h. split; [done|lia].
Qed.

(** One buffer taken, then the rest. *)
Lemma fed_before li lo q p l s li1 lo1 q1 s1 r c v li' lo' q' l' s' :
  evolves (owned_by li lo s ++ p_sentry_ q :: p :: l) (owned_by li1 lo1 s1 ++ p_sentry_ q1 :: l) (tls_heap s) (tls_heap s1) →
  p_sentry_ q1 = p_sentry_ q → tls_net s1 = tls_net s →
  fed li1 lo1 q1 l s1 r c v li' lo' q' l' s' → fed li lo q (p :: l) s r c v li' lo' q' l' s'.
Proof. intros Hev Es En [H1 H2 H3 H4 H5 H6 H7]. split; [done..|congruence|done|congruence|by eapply evolves_trans]. Qed.

Lemma rel_seqs li lo s v : tls_rel li lo s v → seqs_rel li lo s v ∧ Forall (roomy (tls_heap s)) li.
Proof. intros [Hb Hv]. split; [split; [by apply tb_seqs|done]|]. by apply tb_caps, Forall_app in Hb as [? _]. Qed.

Lemma seqs_rel_tls li lo s v : seqs_rel li lo s v → Forall (roomy (tls_heap s)) li → tls_rel li lo s v.
Proof. intros [Hb Hv] Hr. split; [by apply seqs_tb|done]. Qed.

Lemma tls_rel_keep X li lo s v m' : tls_rel li lo s v → heap_wf m' → keeps X (tls_heap s) m' →
  (∀ a, a ∈ owned_by li lo s → a ∉ X) → tls_rel li lo (s <| tls_heap := m' |>) v.
Proof.
  intros [Hr Hro]%rel_seqs Hw Hk HX. apply seqs_rel_tls; [by eapply seqs_rel_keep|by eapply roomy_keep].
Qed.

Lemma fed_none li lo q s v : tls_rel li lo s v → chunks_at (owned_by li lo s) q [] [] (tls_heap s) →
  fed li lo q [] s (inl false) (tls_chan s) v li lo q [] s.
Proof.
  intros Hr Hch. apply rel_seqs in Hr as [? ?]. split; [done|done|by exists []|done..|apply evolves_refl].
Qed.

Lemma turned_before li lo q p l s li1 lo1 q1 s1 r c v li' lo' s' :
  evolves (owned_by li lo s ++ p_sentry_ q :: p :: l) (owned_by li1 lo1 s1 ++ p_sentry_ q1 :: l) (tls_heap s) (tls_heap s1) →
  tls_net s1 = tls_net s → turned li1 lo1 q1 l s1 r c v li' lo' s' → turned li lo q (p :: l) s r c v li' lo' s'.
Proof. intros Hev En [H1 H2 H3 H4 H5]. split; [done..|congruence|by eapply evolves_trans]. Qed.

(** What is shown of the result of [feed_chunks]. *)
Definition recv_buf_post (Q : recv_buffer_sequence * option Z → tls_state C → Prop) (E : exn → tls_state C → Prop)
    li lo q l s cs v : Prop :=
  ∀ li' lo' q' l' s', let '(r, c, v') := feed_chunks cs (tls_chan s) v in
     fed li lo q l s r c v' li' lo' q' l' s' →
     match r with
     | inl _ => Q (q', None) s'
     | inr (botan_exception t) => Q (q', Some t) s'
     | inr e => ∀ s'', turned li lo q l s r c v' li' lo' s'' → E e s''
     end.

(** The first buffer is taken: [s1] after [s]. *)
Record popped (li lo : list ptr) (q : recv_buffer_sequence) (p : ptr) (l : list ptr) (ch : chunk) (cs : list chunk) s v
    (q1 : recv_buffer_sequence) s1 : Prop := {
  pp_rel : tls_rel li lo s1 v;
  pp_new : p ∉ owned_by li lo s1;
  pp_chunks : chunks_at (p :: owned_by li lo s1) q1 l cs (tls_heap s1);
  pp_sentry : p_sentry_ q1 = p_sentry_ q;
  pp_detached : detached (tls_heap s1) p;
  pp_chunk : chunk_at (tls_heap s1) p ch;
  pp_chan : tls_chan s1 = tls_chan s;
  pp_net : tls_net s1 = tls_net s;
  pp_heap : evolves (owned_by li lo s ++ p_sentry_ q :: p :: l) (owned_by li lo s1 ++ p_sentry_ q1 :: p :: l) (tls_heap s) (tls_heap s1) }.

Lemma wp_pop_chunk li lo q p l ch cs s v (Q : ptr * recv_buffer_sequence → tls_state C → Prop) : tls_rel li lo s v →
  chunks_at (owned_by li lo s) q (p :: l) (ch :: cs) (tls_heap s) →
  (∀ q1 s1, popped li lo q p l ch cs s v q1 s1 → Q (p, q1) s1) → wp (on_tls_heap (pop_front q)) s Q.
Proof.
  intros Hr Hch HQ. pose proof Hr as [Hb _]. pose proof (tb_sep _ _ _ _ _ Hb) as Hnd.
  apply wp_on_tls_heap. eapply chunks_pop; [exact Hch|apply (tb_wf _ _ _ _ _ Hb)|exact Hnd|].
  intros q1 m1 Hw1 Hch1 Es1 Hde1 Hat1 Hl1.
  assert (∀ a, a ∈ owned_by li lo s → a ∉ p :: p_sentry_ q :: l) as Hap.
  { intros a Ha Hx. apply (ca_apart _ _ _ _ _ a Hch); [set_solver|done]. }
  apply HQ. split; try done.
  - eapply tls_rel_keep; [exact Hr|done|by apply links_only_keeps|done].
  - intros Ha. apply (Hap p Ha). by left.
  - rewrite Es1. eapply links_evolve; [exact Hl1|set_solver|done].
Qed.

Lemma wp_take_eof li lo q p l ch cs s v q1 s1 (Q : recv_buffer_sequence * option Z → tls_state C → Prop) E :
  popped li lo q p l ch cs s v q1 s1 → chunk_valid ch → ch_capacity ch = 0 →
  recv_buf_post Q E li lo q (p :: l) s (ch :: cs) v →
  wp (push_input p ;; upd_cb (λ b, b <| received_record_ := true |>) ;; mret (q1, None)) s1 Q.
Proof.
  intros [Hr Hp Hch Es Hde Hat Ec En Hev] Hv Hc HQ. apply wp_bind.
  eapply wp_push_eof; [exact Hr|done|apply Hat| |exact Hch|exact Hp|].
  { destruct Hat as (_ & _ & ->). unfold chunk_valid in Hv. destruct (ch_bytes ch); [done|cbn in Hv; lia]. }
  intros s2 Hr2 Ec2 En2 Hch2 Hp2 Hl2. unfold upd_cb. wp_steps. unfold recv_buf_post in HQ. cbn [feed_chunks] in HQ.
  rewrite (proj2 (Z.eqb_eq _ _) Hc) in HQ. apply (HQ (li ++ [p]) lo q1 l). destruct Hr2 as [Hb2 (E1 & E2 & E3 & E4)].
  split; [split; [exact Hb2|by split_and!]|done|by exists cs|done|exact (eq_trans Ec2 Ec)|exact (eq_trans En2 En)|].
  eapply evolves_trans; [exact Hev|]. eapply links_evolve; [exact Hl2| |].
  - intros a. rewrite elem_of_cons, elem_of_app, !elem_of_cons. naive_solver.
  - intros a. rewrite elem_of_app. intros [Ha|Ha].
    + assert (a ∈ p :: owned_by li lo s1) as Hx by (by rewrite <- Hp2). rewrite elem_of_app. set_solver.
    + rewrite elem_of_app. set_solver.
Qed.

(** What only reads the memory. *)
Lemma wp_tls_reads {A} (m : M mem A) s (Q : A → tls_state C → Prop) :
  wp m (tls_heap s) (λ a h, h = tls_heap s ∧ Q a s) → wp (on_tls_heap m) s Q.
Proof.
  intros H. apply wp_on_tls_heap. eapply wp_mono; [exact H|]. intros a h [-> HQ].
  assert (s <| tls_heap := tls_heap s |> = s) as -> by by destruct s. done.
Qed.

(** The bytes of the buffer are fed to the channel. *)
Lemma wp_take_data li lo q p l ch cs s v q1 s1 (Q : unit + exn → tls_state C → Prop) :
  popped li lo q p l ch cs s v q1 s1 → chunk_valid ch → ch_capacity ch ≠ 0 →
  (∀ li2 lo2 s2, let '(r, c, v2) := call_spec (λ c, received_data c (ch_bytes ch)) (tls_chan s) v in
     tls_rel li2 lo2 s2 v2 → tls_chan s2 = c → tls_net s2 = tls_net s → chunks_at (owned_by li2 lo2 s2) q1 l cs (tls_heap s2) →
     evolves (owned_by li lo s ++ p_sentry_ q :: p :: l) (owned_by li2 lo2 s2 ++ p_sentry_ q1 :: l) (tls_heap s) (tls_heap s2) →
     Q (match r with None => inl tt | Some e => inr e end) s2) →
  wp (push_output p) s1 (λ _ s, wp (attempt (chan_received (ch_bytes ch))) s Q).
Proof.
  intros [Hr Hp Hch Es Hde Hat Ec En Hev] Hv Hc HQ.
  eapply wp_push_output; [exact Hr|done|apply Hat|by eapply chunk_roomy|exact Hch|exact Hp|].
  intros s2 Hr2 Ec2 En2 Hch2 Hp2 Hl2. apply wp_attempt. unfold chan_received. eapply wpx_channel_call; [exact Hr2|right; left; by destruct lo|].
  intros li3 lo3 s3. rewrite Ec2, Ec. specialize (HQ li3 lo3 s3). destruct (call_spec _ _ _) as [[r c] v3].
  intros [Hr3 _ En3 Hev3] Ec3.  assert (Q (match r with None => inl tt | Some e => inr e end) s3) as HQ3; [|by destruct r]. apply HQ; [exact Hr3|exact Ec3|congruence| |].
  - eapply chunks_evolve; [exact Hch2|exact Hev3|]. destruct Hr3 as [Hb3 _]. apply (tb_sep _ _ _ _ _ Hb3).
  - eapply evolves_trans; [exact Hev|]. eapply evolves_trans with (X1 := owned_by li (lo ++ [p]) s2 ++ p_sentry_ q1 :: l).
    + eapply links_evolve; [exact Hl2| |]; intros a; rewrite ?elem_of_app, ?Hp2, ?elem_of_cons; naive_solver.
    + eapply evolves_frame; [exact Hev3|set_solver|]. intros a. rewrite !elem_of_app. naive_solver.
Qed.

(** Reading all of them. *)
Lemma wpx_recv_bufs fuel : ∀ cs li lo q l s v Q E, tls_rel li lo s v → chunks_at (owned_by li lo s) q l cs (tls_heap s) →
  Forall chunk_valid cs → (length cs ≤ fuel)%nat → recv_buf_post Q E li lo q l s cs v → wpx (recv_bufs fuel q) s Q E.
Proof.
  induction fuel as [|fuel IH]; intros cs li lo q l s v Q E Hr Hch Hv Hf HQ;
    pose proof (ca_chunks _ _ _ _ _ Hch) as H0; pose proof (rep_empty _ _ _ (ca_seq _ _ _ _ _ Hch)) as He;
    (destruct cs as [|ch cs]; [apply Forall2_nil_inv_r in H0 as ->|]);
    cbn [recv_bufs]; rewrite He; clear He.
  1,3: by rewrite bool_decide_eq_true_2 by done; apply wpx_wp, wp_ret, (HQ li lo q []), fed_none.
  { cbn in Hf; lia. }
  apply Forall2_cons_inv_r in H0 as (p & l0 & _ & _ & ->). rename l0 into l. rewrite bool_decide_eq_false_2 by done.
  apply Forall_cons in Hv as [Hv Hvs].
  apply wpx_bind, wpx_wp. eapply wp_pop_chunk; [exact Hr|exact Hch|]. intros q1 s1 Hpp.
  apply wpx_bind, wpx_wp, wp_tls_reads. eapply wp_cap; [apply Hpp|]. split; [done|].
  destruct (Z.eqb_spec (ch_capacity ch) 0) as [Hc|Hc]; [by apply wpx_wp; eapply wp_take_eof|].
  apply wpx_bind, wpx_wp, wp_tls_reads. eapply wp_bytes; [apply Hpp|]. split; [done|].
  apply wpx_bind, wpx_wp, wp_assert; [apply Z.ltb_lt; unfold chunk_valid in Hv; lia|].
  unfold recv_buf_post in HQ. cbn [feed_chunks] in HQ. rewrite (proj2 (Z.eqb_neq _ _) Hc) in HQ.
  apply wpx_bind, wpx_wp. eapply wp_mono; [eapply wp_take_data; [exact Hpp|done|done|]|].
  2:{ intros [] s2 H. apply wpx_bind, wpx_wp. exact H. }
  intros li2 lo2 s2. destruct (call_spec _ _ _) as [[r c] v2]. intros Hr2 Ec2 En2 Hch2 Hev2.
  pose proof (pp_sentry _ _ _ _ _ _ _ _ _ _ _ Hpp) as Es. destruct r as [e|].
  - assert (fed li lo q (p :: l) s (inr e) c v2 li2 lo2 q1 l s2) as Hfed.
    { apply rel_seqs in Hr2 as [? ?]. split; try done. by exists cs. }
    specialize (HQ _ _ _ _ _ Hfed). destruct e; try by apply wpx_wp, wp_ret.
    all: apply wpx_bind, wpx_wp; eapply wp_drop_rest; [exact Hfed|]; exact HQ.
  - eapply IH; [exact Hr2|exact Hch2|done|cbn in Hf; lia|]. intros li' lo' q' l' s'. rewrite Ec2. specialize (HQ li' lo' q' l' s').
    destruct (feed_chunks cs c v2) as [[r c'] v']. intros Hfed.
    pose proof (fed_before _ _ _ _ _ _ _ _ _ _ _ _ _ _ _ _ _ _ Hev2 Es En2 Hfed) as Hfed'. specialize (HQ Hfed').
    destruct r as [b|[]]; try exact HQ. all: intros s'' Ht; apply HQ; by eapply turned_before.
Qed.

(** ** One receive of the stream *)

Definition net_valid (n : tcp_script) : Prop :=
  Forall (λ r, match r with Ok cs => Forall chunk_valid cs | Err _ => True end) (incoming n).

Lemma wp_tcp_recv_ok li lo s v cs rs (Q : result recv_buffer_sequence → tls_state C → Prop) : tls_rel li lo s v →
  incoming (tls_net s) = Ok cs :: rs → Forall chunk_valid cs →
  (∀ q l s', tls_rel li lo s' v → chunks_at (owned_by li lo s') q l cs (tls_heap s') → tls_chan s' = tls_chan s →
     tls_net s' = tls_net s <| incoming := rs |> → Q (Ok q) s') → wp tcp_recv s Q.
Proof.
  intros Hr En Hv HQ. unfold tcp_recv. wp_steps. rewrite En. wp_steps. apply wp_on_tls_heap. apply wp_bind.
  pose proof Hr as [Hb _]. pose proof (tb_sep _ _ _ _ _ Hb) as Hnd.
  assert (∀ a, a ∈ owned_by li lo s → is_Some (headers (tls_heap s) !! a)) as Hal by (intros a; by eapply tb_alloc).
  eapply (wp_new_seq (tls_heap s)); [apply (tb_wf _ _ _ _ _ Hb)|]. intros q m1 Hq Hw1 Hf Hd Hp1 Hk1.
  assert (p_sentry_ q ∉ owned_by li lo s) as Hq0 by (intros Ha; apply Hal in Ha as [h E]; by rewrite Hf in E).
  assert (∀ a, a ∈ owned_by li lo s → headers m1 !! a = headers (tls_heap s) !! a) as Hk.
  { intros a Ha. apply Hk1. by intros ->. }
  eapply (wp_push_chunks cs (owned_by li lo s) q [] []); [done| |done| |].
  - split; [done|constructor|by apply NoDup_cons|done].
  - intros a Ha. rewrite Hk by done. by apply Hal.
  - intros q' l' m' Hw' Hc' Hk' Es Hl'. wp_steps.
    pose proof (tls_rel_keep [p_sentry_ q] li lo s v m' Hr Hw') as Hr'.
    assert (tls_rel li lo (s <| tls_heap := m' |>) v) as Hr2.
    { apply Hr'; [|intros a Ha ->%list_elem_of_singleton; done]. intros a Ha Hx.
      assert (headers m1 !! a = headers (tls_heap s) !! a) as E1 by (apply Hk1; set_solver).
      destruct (Hk' a) as [-> ->]; [by rewrite E1|done|]. by rewrite E1, Hp1. }
    destruct Hr2 as [Hb2 Hv2]. apply (HQ q' l'); [by split|exact Hc'|done|done].
Qed.

Lemma wpx_finally {A} (m : M (tls_state C) A) d s (Q : A → tls_state C → Prop) E :
  wpx m s (λ a s', wp d s' (λ _ s'', Q a s'')) (λ e s', wp d s' (λ _ s'', E e s'')) → wpx (finally m d) s Q E.
Proof.
  unfold wpx, wp, finally. destruct (m s) as [[a|e|f] s']; [..|done]; by destruct (d s') as [[[]|e'|f] s''].
Qed.

Definition recv_turn_post (Q : option Z → tls_state C → Prop) (E : exn → tls_state C → Prop) s cs v : Prop :=
  ∀ li' lo' s', let '(r, c, v') := feed_chunks cs (tls_chan s) v in
     seqs_rel li' lo' s' v' → (r ≠ inl true → Forall (roomy (tls_heap s')) li') → tls_chan s' = c → tls_net s' = tls_net s →
     match r with
     | inl _ => Q None s'
     | inr (botan_exception t) => Q (Some t) s'
     | inr e => E e s'
     end.

(** The moved-from sequence is still empty after the turn, and apart from the others. *)
Lemma wp_drop_moved li lo q1 l s r c v li' lo' s' q2 (Q : unit → tls_state C → Prop) : turned li lo q1 l s r c v li' lo' s' →
  seq_rep (tls_heap s) q2 [] → p_sentry_ q2 ≠ default_buf_header → p_sentry_ q2 ∉ owned_by li lo s ++ p_sentry_ q1 :: l →
  (∀ s'', seqs_rel li' lo' s'' v → (r ≠ inl true → Forall (roomy (tls_heap s'')) li') → tls_chan s'' = c →
     tls_net s'' = tls_net s → Q tt s'') → wp (on_tls_heap (sequence_dtor q2)) s' Q.
Proof.
  intros [Hr Hro Ec En Hev] Hq Hd Hn HQ. pose proof (rep_sentry_alloc _ _ _ Hq) as Ha. destruct Hev as [F K].
  destruct (K _ Ha Hn) as [E1 E2]. apply wp_on_tls_heap. eapply (wp_seq_dtor q2 []).
  - apply (ts_wf _ _ _ _ _ (proj1 Hr)).
  - eapply seq_rep_same; [|exact Hq]. intros a ->%list_elem_of_singleton. exact E1.
  - done.
  - intros m' Hw Hk. assert (∀ a, a ∈ owned_by li' lo' s' → a ∉ [p_sentry_ q2]) as HX.
    { intros a Hin ->%list_elem_of_singleton. destruct (F _ Hin) as [?|Hnone]; [done|]. rewrite Hnone in Ha. by destruct Ha. }
    apply HQ; [by eapply seqs_rel_keep| |done|done]. intros Hne. by eapply roomy_keep; [..|by apply Hro].
Qed.

Lemma wp_move_received li lo q l cs s v (Q : recv_buffer_sequence * recv_buffer_sequence → tls_state C → Prop) :
  tls_rel li lo s v → chunks_at (owned_by li lo s) q l cs (tls_heap s) →
  (∀ q1 q2 s1, tls_rel li lo s1 v → chunks_at (owned_by li lo s1) q1 l cs (tls_heap s1) → seq_rep (tls_heap s1) q2 [] →
     p_sentry_ q2 ≠ default_buf_header → p_sentry_ q2 ∉ owned_by li lo s1 ++ p_sentry_ q1 :: l → tls_chan s1 = tls_chan s →
     tls_net s1 = tls_net s → Q (q1, q2) s1) →
  wp (on_tls_heap (sequence_move q)) s Q.
Proof.
  intros Hr Hch HQ. pose proof Hr as [Hb _]. apply wp_on_tls_heap.
  eapply wp_seq_move; [apply (tb_wf _ _ _ _ _ Hb)|apply Hch|apply Hch|].
  intros q1 q2 m1 Hq1 Hq2 Hw1 Hf Hd1 Es2 Hk1 Hsb.
  assert (∀ a, a ∈ owned_by li lo s → a ∉ p_sentry_ q :: l) as HX by (intros a Ha Hx; by apply (ca_apart _ _ _ _ _ a Hch)).
  pose proof (tls_rel_keep _ _ _ _ _ _ Hr Hw1 Hk1 HX) as Hr1. set (s1 := s <| tls_heap := m1 |>) in *.
  assert (∀ a, is_Some (headers (tls_heap s) !! a) → a ≠ p_sentry_ q1) as Hne by (intros a Ha ->; rewrite Hf in Ha; by destruct Ha).
  pose proof Hch as [_ Hc Hn Hdq]. pose proof Hn as Hn'. apply NoDup_cons in Hn' as [Hn1 Hn'].
  apply HQ; [exact Hr1| |exact Hq2|by rewrite Es2| |done|done].
  - split; [done| | |done].
    + eapply Forall2_impl_mem; [exact Hc|]. intros a c Ha. apply chunk_same, Hsb, Ha.
    + apply NoDup_cons. split; [|exact Hn']. intros Ha.
      apply (Hne (p_sentry_ q1)); [|done]. apply elem_of_app in Ha as [Ha|Ha]; [|by eapply tb_alloc].
      eapply ca_alloc; [exact Hch|]. by right.
  - rewrite Es2. rewrite elem_of_app, elem_of_cons in *.
    intros [Ha|[Ha|Ha]]; [apply Hn1; by right| |apply Hn1; by left].
    apply (Hne (p_sentry_ q)); [|done]. eapply ca_alloc; [exact Hch|by left].
Qed.

Lemma wpx_recv_turn li lo q l cs s v Q E : tls_rel li lo s v → chunks_at (owned_by li lo s) q l cs (tls_heap s) →
  Forall chunk_valid cs → recv_turn_post Q E s cs v → wpx (recv_turn q) s Q E.
Proof.
  intros Hr Hch Hv HQ. unfold recv_turn. apply wpx_bind, wpx_wp. eapply wp_move_received; [exact Hr|exact Hch|].
  intros q1 q2 s1 Hr1 Hch1 Hq2 Hd2 Hn2 Ec1 En1.
  apply wpx_finally, wpx_bind. rewrite (rep_num _ _ _ (ca_seq _ _ _ _ _ Hch1)).
  eapply (wpx_recv_bufs _ cs li lo q1 l s1 v); [exact Hr1|exact Hch1|done| |].
  { rewrite Nat2Z.id. pose proof (Forall2_length _ _ _ (ca_chunks _ _ _ _ _ Hch)). lia. }
  intros li' lo' q' l' s'. unfold recv_turn_post in HQ. rewrite Ec1.
  specialize (HQ li' lo'). destruct (feed_chunks cs (tls_chan s) v) as [[r c'] v'] eqn:Ef. intros Hfed.
  assert (∀ s2, turned li lo q1 l s1 r c' v' li' lo' s2 → wp (on_tls_heap (sequence_dtor q2)) s2 (λ _ s3,
    match r with inl _ => Q None s3 | inr (botan_exception t) => Q (Some t) s3 | inr e => E e s3 end)) as Hdrop.
  { intros s2 Ht. eapply wp_drop_moved; [exact Ht|exact Hq2|exact Hd2|exact Hn2|]. intros s3 A1 A2 A3 A4.
    apply HQ; [exact A1|exact A2|exact A3|congruence]. }
  destruct r as [b|e]; [|destruct e].
  1,7: apply wpx_bind, wpx_wp; eapply wp_drop_rest; [exact Hfed|]; intros s2 Ht; apply wp_ret, Hdrop, Ht.
  all: intros s2 Ht; exact (Hdrop s2 Ht).
Qed.

(** ** The loop *)

Lemma feed_chunks_eof cs : ∀ (c c' : C) v v', feed_chunks cs c v = (inl true, c', v') → v_got v' = true.
Proof.
  induction cs as [|ch cs IH]; intros c c' v v'; cbn; [done|]. destruct (_ =? 0); [by intros [= <- <-]|].
  destruct (call_spec _ _ _) as [[[e|] c1] v1]; [done|]. by apply IH.
Qed.

(** The state that is left when the loop ends as [recv_gather] says. *)
Definition gathered (o : option (Z + exn)) (c : C) v (inc : list (result (list chunk))) s s' : Prop :=
  ∃ li' lo', seqs_rel li' lo' s' v ∧ (o ≠ None → Forall (roomy (tls_heap s')) li') ∧ tls_chan s' = c ∧
    tls_net s' = tls_net s <| incoming := inc |>.

Definition loop_post (Q : option Z → tls_state C → Prop) (E : exn → tls_state C → Prop) o s' : Prop :=
  match o with None => Q None s' | Some (inl e) => Q (Some e) s' | Some (inr e) => E e s' end.

Lemma wpx_recv_loop inc : ∀ fuel li lo s v o c v' inc' Q E, seqs_rel li lo s v → (v_got v = false → Forall (roomy (tls_heap s)) li) →
  incoming (tls_net s) = inc → net_valid (tls_net s) → (length inc < fuel)%nat →
  recv_gather inc (tls_chan s) v = Some (o, c, v', inc') →
  (∀ s', gathered o c v' inc' s s' → loop_post Q E o s') → wpx (recv_loop fuel) s Q E.
Proof.
  induction inc as [|r inc IH]; intros fuel li lo s v o c v' inc' Q E Hr Hro Ei Hv Hf Hg HQ;
    (destruct fuel as [|fuel]; [cbn in Hf; lia|]); cbn [recv_loop recv_gather] in *;
    pose proof Hr as [Hb (E1 & E2 & E3 & E4)]; apply wpx_bind, wpx_wp; unfold get_cb; wp_steps; rewrite E3;
    destruct (v_got v) eqn:Eg; simplify_eq.
  - apply wpx_wp, wp_ret, (HQ s). exists li, lo. split_and!; [done|done|done|]. destruct (tls_net s); cbn in *. by subst.
  - apply wpx_wp, wp_ret, (HQ s). exists li, lo. split_and!; [done|done|done|]. destruct (tls_net s); cbn in *. by subst.
  - assert (tls_rel li lo s v) as Hrel by (apply seqs_rel_tls; [done|by apply Hro]).
    unfold net_valid in Hv. rewrite Ei in Hv. apply Forall_cons in Hv as [Hvc Hv].
    destruct r as [cs|e].
    + apply wpx_bind, wpx_wp. eapply wp_tcp_recv_ok; [exact Hrel|exact Ei|exact Hvc|]. intros q l s1 Hr1 Hch1 Ec1 En1.
      apply wpx_bind. eapply wpx_recv_turn; [exact Hr1|exact Hch1|exact Hvc|]. intros li2 lo2 s2. rewrite Ec1.
      destruct (feed_chunks cs (tls_chan s) v) as [[r c2] v2] eqn:Ef. intros Hr2 Hro2 Ec2 En2.
      assert (tls_net s2 = tls_net s <| incoming := inc |>) as En by congruence.
      destruct r as [b|e].
      * eapply (IH fuel li2 lo2 s2 v2); [exact Hr2| | | |cbn in Hf; lia|rewrite Ec2; exact Hg|].
        -- intros Hn. apply Hro2. intros [= ->]. apply feed_chunks_eof in Ef. congruence.
        -- by rewrite En.
        -- unfold net_valid. rewrite En. exact Hv.
        -- intros s' (li' & lo' & H1 & H2 & H3 & H4). apply HQ. exists li', lo'. split_and!; [done..|]. rewrite H4, En. by destruct (tls_net s).
      * assert (∀ o, gathered o c2 v2 inc s s2) as Hga.
        { intros o'. exists li2, lo2. split_and!; [done| |done|done]. intros _. by apply Hro2. }
        destruct e; simplify_eq; first [apply wpx_wp, wp_ret, HQ, Hga|exact (HQ s2 (Hga _))].
    + simplify_eq. apply wpx_bind, wpx_wp. unfold tcp_recv. wp_steps. rewrite Ei. wp_steps. apply HQ.
      exists li, lo. split_and!; [done|by intros; apply Hro|done|done].
Qed.
(** ** async_recv_impl *)

(** The sequence that is handed out is apart from what the callbacks still own. *)
Definition handed_out (q : recv_buffer_sequence) (l : list ptr) (plain : list Z) (li lo : list ptr) s : Prop :=
  seq_rep (tls_heap s) q l ∧ Forall (block_ok (tls_heap s)) l ∧ all_bytes (tls_heap s) l = plain ∧
  NoDup (p_sentry_ q :: l ++ owned_by li lo s).

Lemma wp_hand_out li lo s v (Q : result recv_buffer_sequence → tls_state C → Prop) : seqs_rel li lo s v →
  (∀ q s', tls_rel [] lo s' (v <| v_plain := [] |> <| v_got := false |>) → handed_out q li (v_plain v) [] lo s' →
     tls_chan s' = tls_chan s → tls_net s' = tls_net s → Q (Ok q) s') →
  wp (upd_cb (λ b, b <| received_record_ := false |>) ;;
      b ← get_cb;
      '(q, input) ← on_tls_heap (sequence_move (input_sequence_ b));
      upd_cb (λ b, b <| input_sequence_ := input |>) ;; mret (Ok q)) s Q.
Proof.
  intros [Hb (E1 & E2 & E3 & E4)] HQ. unfold upd_cb, get_cb. wp_steps. apply wp_on_tls_heap.
  pose proof Hb as [Hw Hi Ho Hbl Hca Hnd [Hd1 Hd2]].
  eapply (wp_seq_move _ li (tls_heap s)); [exact Hw|exact Hi|exact Hd1|].
  intros q1 q2 m' Hq1 Hq2 Hw' Hf Hdq Es Hk Hsb. wp_steps.
  change (p_sentry_ q2 = p_sentry_ (input_sequence_ (tls_cb s))) in Es.
  assert (∀ a, is_Some (headers (tls_heap s) !! a) → a ≠ p_sentry_ q1) as Hne by (intros a Ha ->; rewrite Hf in Ha; by destruct Ha).
  assert (∀ a, a ∈ p_sentry_ (output_sequence_ (tls_cb s)) :: lo →
    headers m' !! a = headers (tls_heap s) !! a ∧ payload m' !! a = payload (tls_heap s) !! a) as Hout.
  { intros a Ha. apply Hk; [eapply ts_alloc; [exact Hb|]; unfold all_sentries; set_solver|].
    apply NoDup_cons in Hnd as [Hn1 Hnd]. apply NoDup_app in Hnd as (_ & Hn2 & _). set_solver. }
  apply HQ; [split| |done|done].
  - split; cbn; [exact Hw'|exact Hq2| | | | |].
    + eapply seq_rep_same; [|exact Ho]. intros a Ha. by apply Hout.
    + apply Forall_app in Hbl as [_ Hbl]. rewrite Forall_forall in Hbl |- *. intros a Ha. destruct (Hout a) as [F1 F2]; [by right|].
      eapply block_ok_same; [exact F1|exact F2|by apply Hbl].
    + rewrite Forall_forall in Hca |- *. intros a Ha. destruct (Hout a) as [F1 F2]; [by right|].
      destruct (Hca a Ha) as (h & E & Hc). exists h. by rewrite F1.
    + rewrite Es. eapply sublist_NoDup; [exact Hnd|]. apply sublist_skip, sublist_inserts_l. done.
    + by rewrite Es.
  - by split_and!.
  - split_and!; cbn; [exact Hq1| | |].
    + apply Forall_app in Hbl as [Hbl _]. rewrite Forall_forall in Hbl |- *. intros a Ha. by apply Hsb, Hbl.
    + rewrite <- E1. apply all_bytes_ext. intros a Ha. by apply Hsb.
    + assert (NoDup (li ++ p_sentry_ q2 :: p_sentry_ (output_sequence_ (tls_cb s)) :: lo)) as Hnd2.
      { rewrite Es. eapply NoDup_Permutation_proper; [|exact Hnd]. unfold all_sentries. solve_Permutation. }
      apply NoDup_cons. split; [|exact Hnd2]. intros Ha. change (p_sentry_ q1 ∈ li ++ p_sentry_ q2 :: p_sentry_ (output_sequence_ (tls_cb s)) :: lo) in Ha. apply (Hne (p_sentry_ q1)); [|done]. 
      eapply ts_alloc; [exact Hb|]. rewrite Es in Ha. unfold all_sentries. set_solver.
Qed.

(** C8. A receive is what [recv_spec] says, on every path: the plaintext of the records,
    in the order in which the channel gives them, comes out as the bytes of a sequence
    of its own and is handed out once; an error of the stream or of Botan is returned, what
    else a callback throws is thrown, and either way what was gathered so far is kept for
    the next receive. *)
Theorem tls_recv_refines li lo s v o c v' inc : tls_rel li lo s v → net_valid (tls_net s) →
  recv_spec (incoming (tls_net s)) (tls_chan s) v = Some (o, c, v', inc) →
  ∃ li' lo' s', tls_rel li' lo' s' v' ∧ tls_chan s' = c ∧ tls_net s' = tls_net s <| incoming := inc |> ∧
    match o with
    | Recv_ok plain => ∃ q l, async_recv_impl s = (Ret (Ok q), s') ∧ li' = [] ∧ handed_out q l plain li' lo' s'
    | Recv_err e => async_recv_impl s = (Ret (Err e), s')
    | Recv_throw e => async_recv_impl s = (Throw e, s')
    end.
Proof.
  intros Hr Hv Hg. unfold recv_spec in Hg. destruct (recv_gather _ _ _) as [[[[o1 c1] v1] inc1]|] eqn:Eg; [|done].
  assert (wpx async_recv_impl s
    (λ r s', ∃ li' lo', tls_rel li' lo' s' v' ∧ tls_chan s' = c ∧ tls_net s' = tls_net s <| incoming := inc |> ∧
       match o, r with
       | Recv_ok plain, Ok q => ∃ l, li' = [] ∧ handed_out q l plain li' lo' s'
       | Recv_err e, Err e' => e = e'
       | _, _ => False
       end)
    (λ e s', ∃ li' lo', tls_rel li' lo' s' v' ∧ tls_chan s' = c ∧ tls_net s' = tls_net s <| incoming := inc |> ∧ o = Recv_throw e))
    as Hw.
  { unfold async_recv_impl. apply wpx_bind, wpx_wp, wp_get, wpx_bind. destruct (rel_seqs _ _ _ _ Hr) as [Hs Hro].
    eapply wpx_recv_loop; [exact Hs|done|done|exact Hv|lia|exact Eg|]. intros s1 (li1 & lo1 & H1 & H2 & H3 & H4).
    destruct o1 as [[e|e]|]; simplify_eq; cbn [loop_post].
    - apply wpx_wp, wp_ret. exists li1, lo1. split_and!; [by apply seqs_rel_tls; [|apply H2]|done..].
    - exists li1, lo1. split_and!; [by apply seqs_rel_tls; [|apply H2]|done..].
    - apply wpx_wp. eapply wp_hand_out; [exact H1|]. intros q s' A1 A2 A3 A4. exists [], lo1.
      split_and!; [exact A1|exact A3|congruence|by exists li1]. }
  unfold wpx in Hw. destruct (async_recv_impl s) as [[r|e|f] s'] eqn:E; [| |done].
  - destruct Hw as (li' & lo' & A1 & A2 & A3 & A4). exists li', lo', s'. split_and!; [done..|].
    destruct o, r; try done; [|by subst]. destruct A4 as (l & ? & ?). by exists v0, l.
  - destruct Hw as (li' & lo' & A1 & A2 & A3 & ->). by exists li', lo', s'.
Qed.
End Recv.
