(* ===== verification/TlsShake.v ===== *)
(** TLS handshakes and sends as functions of the channel and of what the stream delivers,
    without heap, buffers or sequences; and that the coroutines do that. *)

From S2P Require Import Prelude Buffer BufferSpec BufferFlat Frame StreamRecv Tls TlsRecords TlsHeap TlsRecv.

#[export] Instance silent_dec e : Decision (silent e).
Proof. destruct e as [|[]| |]; apply _. Defined.

(** ** The abstract coroutines *)
Section Spec.
Context {C : Type} {HC : BotanChannel C}.

(** A call without plaintext; nothing is claimed of one with plaintext, for which a new
    connection has no buffer. *)
Definition call_quiet (f : C → list tls_event * option Z * C) (c : C) (v : tls_view) : option (option exn * C * tls_view) :=
  if decide (Forall silent (f c).1.1) then Some (call_spec f c v) else None.

(** What is made of one receive: the error to return, if any, or the exception. *)
Definition turn_spec : Type := list chunk → C → tls_view → option ((option Z + exn) * C * tls_view).

Fixpoint shake_chunks (check_eof : bool) (cs : list chunk) (c : C) (v : tls_view) :
    option ((option Z + exn) * C * tls_view) :=
  match cs with
  | [] => Some (inl None, c, v)
  | ch :: cs =>
      if check_eof && (ch_capacity ch =? 0) then Some (inl (Some EINVAL), c, v) else
      match call_quiet (λ c, received_data c (ch_bytes ch)) c v with
      | None => None
      | Some (None, c, v) => shake_chunks check_eof cs c v
      | Some (Some e, c, v) => Some (inr e, c, v)
      end
  end.

Definition shake_bytes : turn_spec := λ cs c v,
  match call_quiet (λ c, received_data c (concat (ch_bytes <$> cs))) c v with
  | None => None
  | Some (None, c, v) => Some (inl None, c, v)
  | Some (Some e, c, v) => Some (inr e, c, v)
  end.

Definition flush_spec (v : tls_view) (n : tcp_script) : option (result Z * tls_view * tcp_script) :=
  match replies n with
  | [] => None
  | r :: rs => Some (r, v <| v_out := [] |>, n <| sent ::= λ l, l ++ [v_out v] |> <| replies := rs |>)
  end.

(** Receives are answered until the handshake is complete. *)
Fixpoint shake_loop (turn : turn_spec) (inc : list (result (list chunk))) (c : C) (v : tls_view) (out : list (list Z))
    (reps : list (result Z)) : option ((result unit + exn) * C * tls_view * tcp_script) :=
  if is_handshake_complete c then Some (inl (Ok tt), c, v, TcpScript inc out reps) else
  match inc with
  | [] => None
  | Err e :: inc => Some (inl (Err e), c, v, TcpScript inc out reps)
  | Ok cs :: inc =>
      match turn cs c v with
      | None => None
      | Some (inr e, c, v) => Some (inr e, c, v, TcpScript inc out reps)
      | Some (inl (Some e), c, v) => Some (inl (Err e), c, v, TcpScript inc out reps)
      | Some (inl None, c, v) =>
          match v_out v, reps with
          | [], _ => shake_loop turn inc c v out reps
          | d, _ :: reps => shake_loop turn inc c (v <| v_out := [] |>) (out ++ [d]) reps
          | _, [] => None
          end
      end
  end.

Definition client_shake (c : C) (v : tls_view) (n : tcp_script) :
    option ((result unit + exn) * C * tls_view * tcp_script) :=
  if is_active c || is_closed c then Some (inl (Err EINVAL), c, v, n) else
  match v_out v with
  | [] => Some (inl (Err EINVAL), c, v, n)
  | _ =>
      match flush_spec v n with
      | None => None
      | Some (_, v, n) => shake_loop (shake_chunks true) (incoming n) c v (sent n) (replies n)
      end
  end.

Definition server_shake (c : C) (v : tls_view) (n : tcp_script) :
    option ((result unit + exn) * C * tls_view * tcp_script) :=
  if is_active c || is_closed c then Some (inl (Err EINVAL), c, v, n) else
  shake_loop shake_bytes (incoming n) c v (sent n) (replies n).

(** A send: all of [data] is reported, whatever part of the records the stream took. *)
Definition send_spec (data : list Z) (c : C) (v : tls_view) (n : tcp_script) :
    option ((result Z + exn) * C * tls_view * tcp_script) :=
  match call_quiet (λ c, send_data c data) c v with
  | None => None
  | Some (Some e, c, v) => Some (inr e, c, v, n)
  | Some (None, c, v) =>
      match flush_spec v n with
      | None => None
      | Some (Err e, v, n) => Some (inl (Err e), c, v, n)
      | Some (Ok _, v, n) => Some (inl (Ok (Z.of_nat (length data))), c, v, n)
      end
  end.
End Spec.

(** ** The steps of the code *)
Section Shake.
Context {C : Type} {HC : BotanChannel C}.
Implicit Types (s : tls_state C) (v : tls_view).

Lemma wpx_quiet_call f li lo s v (Q : unit → tls_state C → Prop) E r c v' : tls_rel li lo s v →
  call_quiet f (tls_chan s) v = Some (r, c, v') →
  (∀ li' lo' s', called li lo s v' li' lo' s' → tls_chan s' = c → match r with None => Q tt s' | Some e => E e s' end) →
  wpx (channel_call f) s Q E.
Proof.
  intros Hr Hc HQ. unfold call_quiet in Hc. case_decide as Hs; [|done]. injection Hc as Hc.
  eapply wpx_channel_call; [exact Hr|right; by right|]. intros li' lo' s'. rewrite Hc. apply HQ.
Qed.

Lemma tls_rel_net li lo s v n : tls_rel li lo s v → tls_rel li lo (s <| tls_net := n |>) v.
Proof. by intros [? ?]. Qed.

Lemma wp_flush li lo s v r v' n (Q : result Z → tls_state C → Prop) : tls_rel li lo s v →
  flush_spec v (tls_net s) = Some (r, v', n) →
  (∀ s', tls_rel li lo s' v' → tls_chan s' = tls_chan s → tls_net s' = n → tls_heap s' = tls_heap s →
     owned_by li lo s' = owned_by li lo s → Q r s') → wp flush s Q.
Proof.
  intros [Hb (E1 & E2 & E3 & E4)] Hf HQ. unfold flush_spec in Hf. destruct (replies (tls_net s)) as [|r0 rs] eqn:Er; [done|].
  simplify_eq. unfold flush, tcp_send, get_cb, upd_cb. wp_steps. rewrite Er. wp_steps. rewrite E2.
  apply HQ; [split; [exact Hb|by split_and!]|done..].
Qed.

Lemma seq_next m q pre p rest : seq_rep m q (pre ++ p :: rest) →
  p ≠ p_sentry_ q ∧ iter_next p m = (Ret (hd (p_sentry_ q) rest), m).
Proof.
  intros Hr. pose proof (rep_seg _ _ _ Hr) as Hs. apply dlseg_app in Hs as [_ Hs]. cbn in Hs.
  pose proof (rep_sentry_notin _ _ _ Hr). pose proof (rep_null _ _ _ Hr) as Hn.
  destruct (headers m !! p) as [h|] eqn:E; [|done]. destruct Hs as (_ & Hx & _). split; [set_solver|].
  rewrite (iter_next_wp m p h E); [by rewrite Hx|]. set_solver.
Qed.

(** What a turn leaves: the received sequence as it was, to be destroyed. *)
Definition turn_post (Q : option Z → tls_state C → Prop) (E : exn → tls_state C → Prop) q l cs s (r : option Z + exn) c v : Prop :=
  ∀ li lo s', tls_rel li lo s' v → tls_chan s' = c → tls_net s' = tls_net s →
    chunks_at (owned_by li lo s') q l cs (tls_heap s') → match r with inl a => Q a s' | inr e => E e s' end.

Lemma turn_post_trans Q E q l cs s s1 r c v : tls_net s1 = tls_net s → turn_post Q E q l cs s r c v → turn_post Q E q l cs s1 r c v.
Proof. intros En H li lo s' A1 A2 A3. apply H; [exact A1|exact A2|congruence]. Qed.

(** A call while a received sequence is held. *)
Lemma wpx_call_beside f li lo s v q l cs (Q : unit → tls_state C → Prop) E r c v' : tls_rel li lo s v →
  chunks_at (owned_by li lo s) q l cs (tls_heap s) → call_quiet f (tls_chan s) v = Some (r, c, v') →
  (∀ li' lo' s', tls_rel li' lo' s' v' → tls_chan s' = c → tls_net s' = tls_net s →
     chunks_at (owned_by li' lo' s') q l cs (tls_heap s') → match r with None => Q tt s' | Some e => E e s' end) →
  wpx (channel_call f) s Q E.
Proof.
  intros Hr Hch Hc HQ. eapply wpx_quiet_call; [exact Hr|exact Hc|]. intros li' lo' s' [Hr' _ En Hev] Ec.
  eapply HQ; [exact Hr'|exact Ec|exact En|]. eapply chunks_evolve; [exact Hch|exact Hev|].
  destruct Hr' as [Hb _]. apply (tb_sep _ _ _ _ _ Hb).
Qed.

Lemma wpx_feed_views check_eof cs : ∀ fuel pre rest cs0 li lo q s v r c v' Q E, tls_rel li lo s v →
  chunks_at (owned_by li lo s) q (pre ++ rest) (cs0 ++ cs) (tls_heap s) → length pre = length cs0 → (length cs ≤ fuel)%nat →
  shake_chunks check_eof cs (tls_chan s) v = Some (r, c, v') → turn_post Q E q (pre ++ rest) (cs0 ++ cs) s r c v' →
  wpx (feed_views fuel check_eof (hd (p_sentry_ q) rest) (p_sentry_ q)) s Q E.
Proof.
  induction cs as [|ch cs IH]; intros fuel pre rest cs0 li lo q s v r c v' Q E Hr Hch Hl Hf Hs HQ;
    pose proof (ca_chunks _ _ _ _ _ Hch) as H2; apply Forall2_app_inv in H2 as [_ H2]; try done.
  - apply Forall2_nil_inv_r in H2 as ->. cbn in Hs. simplify_eq.
    destruct fuel; cbn [feed_views hd]; rewrite decide_True by done; apply wpx_wp, wp_ret; by eapply (HQ li lo s).
  - apply Forall2_cons_inv_r in H2 as (p & rest' & Hat & _ & ->). destruct fuel as [|fuel]; [cbn in Hf; lia|].
    destruct (seq_next _ _ _ _ _ (ca_seq _ _ _ _ _ Hch)) as [Hne _]. cbn [feed_views hd]. rewrite decide_False by done.
    apply wpx_bind, wpx_wp, wp_tls_reads. eapply wp_cap; [exact Hat|]. split; [done|]. cbn [shake_chunks] in Hs.
    destruct (check_eof && _).
    { simplify_eq. apply wpx_bind, wpx_wp. unfold from_errno. wp_steps. apply wp_assert; [done|]. wp_steps. by eapply (HQ li lo s). }
    apply wpx_bind, wpx_wp, wp_tls_reads. eapply wp_bytes; [exact Hat|]. split; [done|].
    destruct (call_quiet _ _ _) as [[[r1 c1] v1]|] eqn:Ec; [|done]. apply wpx_bind. unfold chan_received.
    eapply wpx_call_beside; [exact Hr|exact Hch|exact Ec|]. intros li1 lo1 s1 Hr1 Ec1 En1 Hch1. destruct r1 as [e|].
    + simplify_eq. by apply (HQ li1 lo1 s1).
    + apply wpx_bind, wpx_wp, wp_tls_reads. unfold wp. destruct (seq_next _ _ _ _ _ (ca_seq _ _ _ _ _ Hch1)) as [_ ->].
      split; [done|].
      eapply (IH fuel (pre ++ [p]) rest' (cs0 ++ [ch])); [exact Hr1|by rewrite <- !app_assoc|rewrite !length_app; cbn; lia|cbn in Hf; lia| |].
      * rewrite Ec1. exact Hs.
      * rewrite <- !app_assoc. by eapply turn_post_trans.
Qed.

(** How the code of a turn and what it is meant to do are related. *)
Definition turn_refines (code : recv_buffer_sequence → M (tls_state C) (option Z)) (spec : turn_spec) (ok : list chunk → Prop) : Prop :=
  ∀ li lo q l cs s v r c v' Q E, tls_rel li lo s v → chunks_at (owned_by li lo s) q l cs (tls_heap s) → ok cs →
    spec cs (tls_chan s) v = Some (r, c, v') → turn_post Q E q l cs s r c v' → wpx (code q) s Q E.

Lemma feed_all_refines check_eof : turn_refines (feed_all check_eof) (shake_chunks check_eof) (λ _, True).
Proof.
  intros li lo q l cs s v r c v' Q E Hr Hch _ Hs HQ. pose proof (ca_seq _ _ _ _ _ Hch) as Hq.
  unfold feed_all, seq_end. rewrite (rep_begin _ _ _ Hq), (rep_num _ _ _ Hq), Nat2Z.id.
  eapply (wpx_feed_views check_eof cs _ [] l []); [exact Hr|exact Hch|done| |exact Hs|exact HQ].
  pose proof (Forall2_length _ _ _ (ca_chunks _ _ _ _ _ Hch)). lia.
Qed.

(** The bytes of one receive can be counted. *)
Definition countable (cs : list chunk) : Prop := Z.of_nat (length (concat (ch_bytes <$> cs))) < 2 ^ 64.

Lemma chunks_bytes m l cs : Forall2 (chunk_at m) l cs → all_bytes m l = concat (ch_bytes <$> cs) ∧ Forall (block_ok m) l.
Proof.
  induction 1 as [|p ch l cs (Hok & _ & Hby) _ [IH1 IH2]]; [done|]. unfold all_bytes in *. cbn. rewrite Hby, IH1. split; [done|by constructor].
Qed.

Lemma server_turn_refines : turn_refines server_turn shake_bytes countable.
Proof.
  intros li lo q l cs s v r c v' Q E Hr Hch Hok Hs HQ. unfold server_turn.
  destruct (chunks_bytes _ _ _ (ca_chunks _ _ _ _ _ Hch)) as [Hby Hbl].
  apply wpx_bind, wpx_wp, wp_tls_reads. unfold wp. rewrite (to_bytes_run _ _ l (ca_seq _ _ _ _ _ Hch) Hbl) by by rewrite Hby.
  split; [done|]. rewrite Hby. unfold shake_bytes in Hs. destruct (call_quiet _ _ _) as [[[r1 c1] v1]|] eqn:Ec; [|done].
  apply wpx_bind. unfold chan_received. eapply wpx_call_beside; [exact Hr|exact Hch|exact Ec|]. intros li1 lo1 s1 Hr1 Ec1 En1 Hch1.
  destruct r1; simplify_eq; [by apply (HQ li1 lo1 s1)|apply wpx_wp, wp_ret; by apply (HQ li1 lo1 s1)].
Qed.

(** Destroying what was received. *)
Lemma wp_drop_received li lo s v q l cs (Q : unit → tls_state C → Prop) : tls_rel li lo s v →
  chunks_at (owned_by li lo s) q l cs (tls_heap s) →
  (∀ s', tls_rel li lo s' v → tls_chan s' = tls_chan s → tls_net s' = tls_net s → Q tt s') →
  wp (on_tls_heap (sequence_dtor q)) s Q.
Proof.
  intros Hr Hch HQ. apply wp_on_tls_heap. pose proof Hr as [Hb _].
  eapply wp_seq_dtor; [apply (tb_wf _ _ _ _ _ Hb)|apply Hch|apply Hch|]. intros m' Hw Hk.
  apply HQ; [|done|done]. eapply tls_rel_keep; [exact Hr|exact Hw|exact Hk|].
  intros a Ha Hx. by apply (ca_apart _ _ _ _ _ a Hch).
Qed.

(** What follows a turn. *)
Lemma wp_flush_some li lo s v v' out' reps' (Q : unit → tls_state C → Prop) : tls_rel li lo s v →
  match v_out v, replies (tls_net s) with
  | [], reps => v' = v ∧ out' = sent (tls_net s) ∧ reps' = reps
  | d, _ :: reps => v' = v <| v_out := [] |> ∧ out' = sent (tls_net s) ++ [d] ∧ reps' = reps
  | _, [] => False
  end →
  (∀ s', tls_rel li lo s' v' → tls_chan s' = tls_chan s → tls_net s' = TcpScript (incoming (tls_net s)) out' reps' →
     tls_heap s' = tls_heap s → owned_by li lo s' = owned_by li lo s → Q tt s') →
  wp flush_some s Q.
Proof.
  intros Hr Hv HQ. unfold flush_some, get_cb. wp_steps. pose proof Hr as [_ (_ & E2 & _ & _)]. rewrite E2.
  destruct (v_out v) as [|b d] eqn:Ed.
  - destruct Hv as (-> & -> & ->). apply wp_ret, HQ; [exact Hr|done|by destruct (tls_net s)|done|done].
  - destruct (replies (tls_net s)) as [|r0 rs] eqn:Er; [done|]. destruct Hv as (-> & -> & ->). apply wp_bind.
    eapply wp_flush; [exact Hr|unfold flush_spec; by rewrite Er|]. intros s' Hr' Ec En Eh Eo. apply wp_ret, HQ; [exact Hr'|done| |done|done].
    rewrite En, Ed. by destruct (tls_net s).
Qed.

(** What each receive brings can be handled. *)
Definition net_ok (ok : list chunk → Prop) (inc : list (result (list chunk))) : Prop :=
  Forall (λ r, match r with Ok cs => Forall chunk_valid cs ∧ ok cs | Err _ => True end) inc.

Lemma wpx_shake_turn code spec ok li lo q l cs s v r c v' Q E : turn_refines code spec ok → tls_rel li lo s v →
  chunks_at (owned_by li lo s) q l cs (tls_heap s) → ok cs → spec cs (tls_chan s) v = Some (r, c, v') →
  match r with
  | inl None =>
      ∃ v2 out2 reps2, match v_out v', replies (tls_net s) with
        | [], reps => v2 = v' ∧ out2 = sent (tls_net s) ∧ reps2 = reps
        | d, _ :: reps => v2 = v' <| v_out := [] |> ∧ out2 = sent (tls_net s) ++ [d] ∧ reps2 = reps
        | _, [] => False
        end ∧
        ∀ li' lo' s', tls_rel li' lo' s' v2 → tls_chan s' = c → tls_net s' = TcpScript (incoming (tls_net s)) out2 reps2 → Q None s'
  | inl (Some e) => ∀ li' lo' s', tls_rel li' lo' s' v' → tls_chan s' = c → tls_net s' = tls_net s → Q (Some e) s'
  | inr e => ∀ li' lo' s', tls_rel li' lo' s' v' → tls_chan s' = c → tls_net s' = tls_net s → E e s'
  end →
  wpx (finally (e ← code q; match e with Some e => mret (Some e) | None => flush_some ;; mret None end)
         (on_tls_heap (sequence_dtor q))) s Q E.
Proof.
  intros Hcode Hr Hch Hok Hs HQ. apply wpx_finally, wpx_bind. eapply Hcode; [exact Hr|exact Hch|exact Hok|exact Hs|].
  intros li1 lo1 s1 Hr1 Ec1 En1 Hch1. destruct r as [[e|]|e].
  - apply wpx_wp, wp_ret. eapply wp_drop_received; [exact Hr1|exact Hch1|]. intros s2 Hr2 Ec2 En2.
    apply (HQ li1 lo1); [exact Hr2|congruence|congruence].
  - destruct HQ as (v2 & out2 & reps2 & Hv & HQ). apply wpx_bind, wpx_wp. rewrite <- En1 in Hv.
    eapply wp_flush_some; [exact Hr1|exact Hv|]. intros s2 Hr2 Ec2 En2 Eh2 Eo2. apply wpx_wp, wp_ret.
    eapply wp_drop_received; [exact Hr2|rewrite Eh2, Eo2; exact Hch1|]. intros s3 Hr3 Ec3 En3.
    apply (HQ li1 lo1); [exact Hr3|congruence|congruence].
  - eapply wp_drop_received; [exact Hr1|exact Hch1|]. intros s2 Hr2 Ec2 En2. apply (HQ li1 lo1); [exact Hr2|congruence|congruence].
Qed.

Lemma wpx_handshake_loop code spec ok inc : turn_refines code spec ok → ∀ fuel li lo s v o c v' n (Q : result unit → tls_state C → Prop) E,
  tls_rel li lo s v → incoming (tls_net s) = inc → net_ok ok inc → (length inc < fuel)%nat →
  shake_loop spec inc (tls_chan s) v (sent (tls_net s)) (replies (tls_net s)) = Some (o, c, v', n) →
  (∀ li' lo' s', tls_rel li' lo' s' v' → tls_chan s' = c → tls_net s' = n → match o with inl r => Q r s' | inr e => E e s' end) →
  wpx (handshake_loop fuel code) s Q E.
Proof.
  intros Hcode. induction inc as [|r inc IH]; intros fuel li lo s v o c v' n Q E Hr Ei Hv Hf Hs HQ;
    (destruct fuel as [|fuel]; [cbn in Hf; lia|]); cbn [handshake_loop shake_loop] in *;
    apply wpx_bind, wpx_wp; wp_steps; destruct (is_handshake_complete (tls_chan s)); simplify_eq.
  1,2: apply wpx_wp, wp_ret; apply (HQ li lo s); [exact Hr|done|destruct (tls_net s); cbn in *; by subst].
  apply Forall_cons in Hv as [Hvc Hv]. destruct r as [cs|e].
  - destruct Hvc as [Hvc Hok]. apply wpx_bind, wpx_wp. eapply wp_tcp_recv_ok; [exact Hr|exact Ei|exact Hvc|].
    intros q l s1 Hr1 Hch1 Ec1 En1. apply wpx_bind. destruct (spec cs (tls_chan s) v) as [[[r1 c1] v1]|] eqn:Es; [|done].
    rewrite <- Ec1 in Es. eapply wpx_shake_turn; [exact Hcode|exact Hr1|exact Hch1|exact Hok|exact Es|].
    assert (sent (tls_net s1) = sent (tls_net s) ∧ replies (tls_net s1) = replies (tls_net s) ∧ incoming (tls_net s1) = inc) as (Ea & Eb & Eg).
    { rewrite En1. by destruct (tls_net s). }
    assert (TcpScript inc (sent (tls_net s)) (replies (tls_net s)) = tls_net s1) as Hn1.
    { rewrite <- Ea, <- Eb, <- Eg. by destruct (tls_net s1). }
    destruct r1 as [[e|]|e].
    + simplify_eq. intros li2 lo2 s2 Hr2 Ec2 En2. apply wpx_wp, wp_ret. apply (HQ li2 lo2); [exact Hr2|exact Ec2|by rewrite En2, Hn1].
    + rewrite Ea, Eb, Eg. destruct (v_out v1) as [|b d] eqn:Ev.
      * exists v1, (sent (tls_net s)), (replies (tls_net s)). split; [done|]. intros li2 lo2 s2 Hr2 Ec2 En2.
        eapply (IH fuel li2 lo2 s2); [exact Hr2|by rewrite En2|exact Hv|cbn in Hf; lia| |exact HQ]. rewrite Ec2, En2. exact Hs.
      * destruct (replies (tls_net s)) as [|r0 rs]; [done|]. eexists _, _, _. split; [done|]. intros li2 lo2 s2 Hr2 Ec2 En2.
        eapply (IH fuel li2 lo2 s2); [exact Hr2|by rewrite En2|exact Hv|cbn in Hf; lia| |exact HQ]. rewrite Ec2, En2. exact Hs.
    + simplify_eq. intros li2 lo2 s2 Hr2 Ec2 En2. apply (HQ li2 lo2); [done..|by rewrite En2, Hn1].
  - simplify_eq. apply wpx_bind, wpx_wp. unfold tcp_recv. wp_steps. rewrite Ei. wp_steps.
    apply (HQ li lo); [by apply tls_rel_net|done|done].
Qed.

(** ** The coroutines *)

Lemma wpx_outcome {A} (m : M (tls_state C) A) s (o : A + exn) (R : tls_state C → Prop) :
  wpx m s (λ a s', o = inl a ∧ R s') (λ e s', o = inr e ∧ R s') →
  ∃ s', m s = (match o with inl a => Ret a | inr e => Throw e end, s') ∧ R s'.
Proof. unfold wpx. destruct (m s) as [[a|e|f] s']; [..|done]; intros [-> HR]; by exists s'. Qed.

(** The state the spec says is left. *)
Definition left_as (c : C) v n s : Prop := ∃ li lo, tls_rel li lo s v ∧ tls_chan s = c ∧ tls_net s = n.

Lemma wpx_einval {A} s (Q : result A → tls_state C → Prop) E : Q (Err EINVAL) s → wpx (tls_err EINVAL) s Q E.
Proof. intros HQ. apply wpx_wp. unfold tls_err, from_errno. wp_steps. apply wp_assert; [done|]. by wp_steps. Qed.



(** A send is what [send_spec] says: the records of the data are handed to the stream in
    one piece, after what was still to be sent; when the stream reports success the
    whole length is reported, also where it took only a part, and the rest is
    dropped. *)
Lemma tls_send_refines li lo s v data o c v' n : tls_rel li lo s v →
  send_spec data (tls_chan s) v (tls_net s) = Some (o, c, v', n) →
  ∃ s', async_send_impl data s = (match o with inl r => Ret r | inr e => Throw e end, s') ∧ left_as c v' n s'.
Proof.
  intros Hr Hs. apply wpx_outcome. unfold async_send_impl, send_spec, chan_send in *.
  destruct (call_quiet _ _ _) as [[[r1 c1] v1]|] eqn:Ec; [|done]. apply wpx_bind.
  eapply wpx_quiet_call; [exact Hr|exact Ec|]. intros li1 lo1 s1 [Hr1 _ En1 _] Ec1.
  destruct r1 as [e|]; [simplify_eq; split; [done|exists li1, lo1; by split_and!]|].
  rewrite <- En1 in Hs. destruct (flush_spec v1 (tls_net s1)) as [[[r2 v2] n2]|] eqn:Ef; [|done].
  apply wpx_bind, wpx_wp. eapply wp_flush; [exact Hr1|exact Ef|]. intros s2 Hr2 Ec2 En2 _ _.
  destruct r2; simplify_eq; apply wpx_wp, wp_ret; (split; [done|exists li1, lo1; split_and!; [done|congruence|done]]).
Qed.

(** Plaintext for a new connection: both sequences are empty, and the capacity of a first
    buffer is asked of a front that is not there.  This is what a peer's first data do
    when they arrive together with the end of its handshake. *)
Lemma early_data_faults s v pt : tls_rel [] [] s v → pt ≠ [] → (tls_record_received pt s).1 = Fault AssertFailed.
Proof.
  intros [Hb _] Hpt. pose proof (rep_num _ _ _ (tb_in _ _ _ _ _ Hb)) as Hn. pose proof (rep_empty _ _ _ (tb_out _ _ _ _ _ Hb)) as Ho.
  pose proof (rep_empty _ _ _ (tb_in _ _ _ _ _ Hb)) as Hi. cbn in Hn. destruct pt as [|b pt]; [done|].
  unfold tls_record_received, upd_cb, get_cb. cbn [length record_loop]. unfold fill_back, add_buf, next_buf, seq_front, on_tls_heap, zoom.
  unfold mbind, M_bind, mret, M_ret, modify, gets, assert. 
  change (num_bufs_ (input_sequence_ (tls_cb (s <| tls_cb ::= λ b, b <| received_record_ := true |> |>)))) with (num_bufs_ (input_sequence_ (tls_cb s))).
  change (seq_empty (input_sequence_ (tls_cb (s <| tls_cb ::= λ b, b <| received_record_ := true |> |>)))) with (seq_empty (input_sequence_ (tls_cb s))).
  change (seq_empty (output_sequence_ (tls_cb (s <| tls_cb ::= λ b, b <| received_record_ := true |> |>)))) with (seq_empty (output_sequence_ (tls_cb s))).
  by rewrite Hn, Hi, Ho.
Qed.

(** ** Construction *)

Lemma wp_callbacks_new m (Q : tls_callbacks → mem → Prop) : heap_wf m →
  (∀ qi qo m', tls_bufs qi [] qo [] m' → Q (TlsCallbacks [] qi qo false false false) m') → wp tls_callbacks_new m Q.
Proof.
  intros Hw HQ. unfold tls_callbacks_new. apply wp_bind. eapply wp_new_seq; [exact Hw|]. intros qi m1 Hi Hw1 Hf1 Hd1 Hp1 Hk1.
  apply wp_bind. eapply wp_new_seq; [exact Hw1|]. intros qo m2 Ho Hw2 Hf2 Hd2 Hp2 Hk2. apply wp_ret, HQ.
  assert (p_sentry_ qi ≠ p_sentry_ qo) as Hne.
  { intros E. pose proof (rep_sentry_alloc _ _ _ Hi) as Ha. rewrite E, Hf2 in Ha. by destruct Ha. }
  split; [exact Hw2| |exact Ho|done|done| |done].
  - eapply seq_rep_same; [|exact Hi]. intros a ->%list_elem_of_singleton. by apply Hk2.
  - cbn. apply NoDup_cons. split; [|apply NoDup_singleton]. intros Hin%list_elem_of_singleton. by apply Hne.
Qed.

(** A new client has what the channel emitted ready to be sent. *)
Lemma client_impl_ready `{HN : !BotanNew C} hostname net m v : heap_wf m → Forall silent (tls_client_new hostname).1 →
  view_events (tls_client_new hostname).1 (TlsView [] [] false false) = (None, v) →
  ∃ s m', client_impl_new hostname net m = (Ret s, m') ∧ left_as (tls_client_new hostname).2 v net s.
Proof.
  intros Hw Hsi Hv. unfold client_impl_new.
  assert (wp tls_callbacks_new m (λ cb m', ∀ c, tls_rel [] [] (TlsState C m' cb c net) (TlsView [] [] false false))) as Hn.
  { eapply wp_callbacks_new; [exact Hw|]. intros qi qo m' Hb c. split; [exact Hb|by split_and!]. }
  apply wp_run in Hn as (cb & m1 & -> & Hr). destruct (tls_client_new hostname) as [es c]. cbn [fst snd] in *.
  assert (wpx (callbacks es) (TlsState C m1 cb c net) (λ _ s, left_as c v net s) (λ _ _, False)) as Hc.
  { eapply wpx_callbacks; [apply Hr|right; by right|]. rewrite Hv. intros li' lo' s' [Hr' _ En _] Ec. by exists li', lo'. }
  unfold wpx in Hc. destruct (callbacks es _) as [[[]|e|f] s]; [|done..]. by exists s, (tls_heap s).
Qed.

Lemma server_impl_ready `{HN : !BotanNew C} net m : heap_wf m →
  ∃ s m', server_impl_new net m = (Ret s, m') ∧ left_as tls_server_new (TlsView [] [] false false) net s.
Proof.
  intros Hw.
  assert (wp (server_impl_new net) m (λ s _, left_as tls_server_new (TlsView [] [] false false) net s)) as Hn.
  { unfold server_impl_new. apply wp_bind. eapply wp_callbacks_new; [exact Hw|]. intros qi qo m' Hb. wp_steps.
    exists [], []. split; [split; [exact Hb|by split_and!]|done]. }
  apply wp_run in Hn as (s & m' & E & Hl). by exists s, m'.
Qed.
End Shake.
