(* ===== verification/TlsClose.v ===== *)
(** TLS shutdowns as functions of the channel and of what the stream delivers, and that
    the coroutines do that. *)

From S2P Require Import Prelude Buffer BufferSpec BufferFlat Frame StreamRecv Tls TlsRecords TlsHeap TlsRecv TlsShake.

(** ** The abstract coroutines *)
Section Spec.
Context {C : Type} {HC : BotanChannel C}.

Definition close_call (c : C) : list tls_event * option Z * C := let '(es, c) := close_channel c in (es, None, c).

(** What is to be sent is dropped only when the stream reports success. *)
Definition flush_ok_spec (v : tls_view) (n : tcp_script) : option (option Z * tls_view * tcp_script) :=
  match replies n with
  | [] => None
  | r :: rs =>
      let n := n <| sent ::= λ l, l ++ [v_out v] |> <| replies := rs |> in
      match r with Err e => Some (Some e, v, n) | Ok _ => Some (None, v <| v_out := [] |>, n) end
  end.

(** One receive, fed to the channel by [turn]. *)
Definition receive_spec (turn : turn_spec) (c : C) (v : tls_view) (n : tcp_script) :
    option ((option Z + exn) * C * tls_view * tcp_script) :=
  match incoming n with
  | [] => None
  | Err e :: inc => Some (inl (Some e), c, v, n <| incoming := inc |>)
  | Ok cs :: inc =>
      match turn cs c v with
      | None => None
      | Some (inl _, c, v) => Some (inl None, c, v, n <| incoming := inc |>)
      | Some (inr e, c, v) => Some (inr e, c, v, n <| incoming := inc |>)
      end
  end.

(** A client closes, sends what that emits, and feeds one receive to the channel. *)
Definition client_close (c : C) (v : tls_view) (n : tcp_script) :
    option ((result unit + exn) * C * tls_view * tcp_script) :=
  match call_quiet close_call c v with
  | None => None
  | Some (Some e, c, v) => Some (inr e, c, v, n)
  | Some (None, c, v) =>
      match flush_ok_spec v n with
      | None => None
      | Some (Some e, v, n) => Some (inl (Err e), c, v, n)
      | Some (None, v, n) =>
          match receive_spec (shake_chunks false) c v n with
          | None => None
          | Some (inl (Some e), c, v, n) => Some (inl (Err e), c, v, n)
          | Some (inl None, c, v, n) => Some (inl (Ok tt), c, v, n)
          | Some (inr e, c, v, n) => Some (inr e, c, v, n)
          end
      end
  end.

(** A server waits for the client's close_notify; an error of its receive is thrown. *)
Definition server_close (c : C) (v : tls_view) (n : tcp_script) :
    option ((result unit + exn) * C * tls_view * tcp_script) :=
  match receive_spec shake_bytes c v n with
  | None => None
  | Some (inl (Some e), c, v, n) => Some (inr (bad_result_access e), c, v, n)
  | Some (inr e, c, v, n) => Some (inr e, c, v, n)
  | Some (inl None, c, v, n) =>
      if negb (v_close v) then Some (inl (Err EINVAL), c, v, n) else
      match flush_ok_spec v n with
      | None => None
      | Some (Some _, v, n) => Some (inl (Err EINVAL), c, v, n)
      | Some (None, v, n) => Some (inl (Ok tt), c, v, n)
      end
  end.
End Spec.

(** ** The code *)
Section Close.
Context {C : Type} {HC : BotanChannel C}.
Implicit Types (s : tls_state C) (v : tls_view).

Lemma wp_flush_ok li lo s v r v' n (Q : option Z → tls_state C → Prop) : tls_rel li lo s v →
  flush_ok_spec v (tls_net s) = Some (r, v', n) →
  (∀ s', tls_rel li lo s' v' → tls_chan s' = tls_chan s → tls_net s' = n → tls_heap s' = tls_heap s →
     owned_by li lo s' = owned_by li lo s → Q r s') → wp flush_ok s Q.
Proof.
  intros [Hb (E1 & E2 & E3 & E4)] Hf HQ. unfold flush_ok_spec in Hf. destruct (replies (tls_net s)) as [|r0 rs] eqn:Er; [done|].
  unfold flush_ok, tcp_send, get_cb, upd_cb. wp_steps. rewrite Er. wp_steps. destruct r0; simplify_eq; wp_steps; rewrite E2;
    (apply HQ; [split; [exact Hb|by split_and!]|done..]).
Qed.

Lemma flush_ok_incoming v n r v' n' : flush_ok_spec v n = Some (r, v', n') → incoming n' = incoming n.
Proof. unfold flush_ok_spec. destruct (replies n) as [|[] ?]; [done|..]; by intros [= <- <- <-]. Qed.

(** A receive that fails. *)
Lemma wp_tcp_recv_err li lo s v e rs (Q : result recv_buffer_sequence → tls_state C → Prop) : tls_rel li lo s v →
  incoming (tls_net s) = Err e :: rs →
  (∀ s', tls_rel li lo s' v → tls_chan s' = tls_chan s → tls_net s' = tls_net s <| incoming := rs |> → Q (Err e) s') →
  wp tcp_recv s Q.
Proof. intros Hr En HQ. unfold tcp_recv. wp_steps. rewrite En. wp_steps. apply HQ; [by apply tls_rel_net|done|done]. Qed.

(** The code of one receive that is fed to the channel: [k] goes on with what the turn
    leaves, and the received sequence is destroyed after it. *)
Lemma wpx_receive {B} code turn ok (k : option Z → M (tls_state C) B) li lo s v r c v' n (Q : B → tls_state C → Prop) E
    (fails : Z → M (tls_state C) B) : turn_refines code turn ok → net_ok ok (incoming (tls_net s)) → tls_rel li lo s v →
  receive_spec turn (tls_chan s) v (tls_net s) = Some (r, c, v', n) →
  (∀ e s', r = inl (Some e) → tls_rel li lo s' v' → tls_chan s' = c → tls_net s' = n → wpx (fails e) s' Q E) →
  (∀ a li' lo' q l cs s', r = inl None → tls_rel li' lo' s' v' → tls_chan s' = c → tls_net s' = n →
     chunks_at (owned_by li' lo' s') q l cs (tls_heap s') →
     wpx (k a) s' (λ b s'', wp (on_tls_heap (sequence_dtor q)) s'' (λ _ s3, Q b s3))
       (λ e s'', wp (on_tls_heap (sequence_dtor q)) s'' (λ _ s3, E e s3))) →
  (∀ e li' lo' s', r = inr e → tls_rel li' lo' s' v' → tls_chan s' = c → tls_net s' = n → E e s') →
  wpx (m ← tcp_recv; match m with
       | Err e => fails e
       | Ok q => finally (a ← code q; k a) (on_tls_heap (sequence_dtor q))
       end) s Q E.
Proof.
  intros Hcode Hn Hr Hs HE HK HT. unfold receive_spec in Hs. destruct (incoming (tls_net s)) as [|[cs|e] inc] eqn:Ei; [done| |].
  - apply Forall_cons in Hn as [[Hv Hok] _]. apply wpx_bind, wpx_wp. eapply wp_tcp_recv_ok; [exact Hr|exact Ei|exact Hv|].
    intros q l s1 Hr1 Hch1 Ec1 En1. apply wpx_finally, wpx_bind. rewrite <- Ec1 in Hs.
    destruct (turn cs (tls_chan s1) v) as [[[r1 c1] v1]|] eqn:Et; [|done].
    eapply Hcode; [exact Hr1|exact Hch1|exact Hok|exact Et|]. intros li2 lo2 s2 Hr2 Ec2 En2 Hch2. destruct r1 as [a|e]; simplify_eq.
    + eapply (HK _ li2 lo2 _ l cs); [done|exact Hr2|done|congruence|exact Hch2].
    + eapply wp_drop_received; [exact Hr2|exact Hch2|]. intros s3 Hr3 Ec3 En3. apply (HT e li2 lo2); [done|exact Hr3|congruence|congruence].
  - simplify_eq. apply wpx_bind, wpx_wp. eapply wp_tcp_recv_err; [exact Hr|exact Ei|]. intros s1 Hr1 Ec1 En1.
    by apply HE.
Qed.

Lemma wp_drop_as li lo s v q l cs (P : Prop) : tls_rel li lo s v → chunks_at (owned_by li lo s) q l cs (tls_heap s) → P →
  wp (on_tls_heap (sequence_dtor q)) s (λ _ s', P ∧ left_as (tls_chan s) v (tls_net s) s').
Proof.
  intros Hr Hch HP. eapply wp_drop_received; [exact Hr|exact Hch|]. intros s' Hr' Ec En. split; [done|by exists li, lo].
Qed.

(** A client's shutdown is what [client_close] says: the channel is closed and what it
    emits is sent; only then one receive is fed to the channel, whatever it holds. *)
Lemma client_shutdown_refines li lo s v o c v' n : tls_rel li lo s v → net_valid (tls_net s) →
  client_close (tls_chan s) v (tls_net s) = Some (o, c, v', n) →
  ∃ s', client_async_shutdown s = (match o with inl r => Ret r | inr e => Throw e end, s') ∧ left_as c v' n s'.
Proof.
  intros Hr Hv Hs. apply wpx_outcome. unfold client_async_shutdown, client_close, chan_close in *.
  destruct (call_quiet _ _ _) as [[[r1 c1] v1]|] eqn:Ec; [|done]. apply wpx_bind.
  eapply wpx_quiet_call; [exact Hr|exact Ec|]. intros li1 lo1 s1 [Hr1 _ En1 _] Ec1.
  destruct r1 as [e|]; [simplify_eq; split; [done|by exists li1, lo1]|]. rewrite <- En1 in Hs.
  destruct (flush_ok_spec v1 (tls_net s1)) as [[[r2 v2] n2]|] eqn:Ef; [|done]. apply wpx_bind, wpx_wp.
  eapply wp_flush_ok; [exact Hr1|exact Ef|]. intros s2 Hr2 Ec2 En2 _ _.
  destruct r2 as [e|]; [simplify_eq; apply wpx_wp, wp_ret; split; [done|exists li1, lo1; split_and!; [done|congruence|done]]|].
  rewrite <- Ec1, <- Ec2, <- En2 in Hs. destruct (receive_spec _ _ _ _) as [[[[r3 c3] v3] n3]|] eqn:Es; [|done].
  assert (net_ok (λ _, True) (incoming (tls_net s2))) as Hn.
  { rewrite En2, (flush_ok_incoming _ _ _ _ _ Ef), En1. eapply Forall_impl; [exact Hv|]. by intros [|]. }
  eapply (wpx_receive _ _ (λ _, True)); [apply feed_all_refines|exact Hn|exact Hr2|exact Es|..].
  - intros e s3 -> Hr3 Ec3 En3. simplify_eq. apply wpx_wp, wp_ret. split; [done|by exists li1, lo1].
  - intros a li3 lo3 q l cs s3 -> Hr3 Ec3 En3 Hch3. simplify_eq. apply wpx_wp, wp_ret.
    by eapply wp_drop_as.
  - intros e li3 lo3 s3 -> Hr3 Ec3 En3. simplify_eq. split; [done|by exists li3, lo3].
Qed.

(** The server's shutdown with its turn apart. *)
Lemma server_shutdown_turn s : server_async_shutdown s = (m ← tcp_recv; match m with
    | Err e => throw (bad_result_access e)
    | Ok q => finally (_ ← server_turn q;
        b ← get_cb;
        if negb (close_notify_received_ b) then tls_err EINVAL else
        e ← flush_ok;
        match e with Some _ => tls_err EINVAL | None => mret (Ok tt) end) (on_tls_heap (sequence_dtor q))
    end) s.
Proof.
  unfold server_async_shutdown, server_turn, value, finally, throw, mbind, M_bind, mret, M_ret.
  destruct (tcp_recv s) as [[[q|e]|e|f] s1]; try done. destruct (on_tls_heap (to_bytes q) s1) as [[d|e|f] s2]; try done.
  by destruct (chan_received d s2) as [[[]|e|f] s3].
Qed.

End Close.
