(* ===== verification/TlsSamples.v ===== *)
(** A sample channel, and the theorems on TLS applied to it. *)

From S2P Require Import Prelude Buffer BufferSpec BufferFlat Frame StreamRecv Tls TlsRecords TlsCreds TlsHeap TlsRecv TlsShake TlsClose.

(** A channel without cryptography: a client says [1], whatever answers it completes the
    handshake, then every read is a record, but for one that starts with a zero, which
    closes. *)
Inductive toy := Hello | Open | Shut.
#[local] Instance toy_channel : BotanChannel toy := {
  is_active c := match c with Open => true | _ => false end;
  is_closed c := match c with Shut => true | _ => false end;
  is_handshake_complete c := match c with Open => true | _ => false end;
  received_data c data :=
    match c, data with
    | _, [] => ([], None, c)
    | Hello, _ => ([Verify_cert_chain true; Emit [2]], None, Open)
    | Open, 0 :: _ => ([Alert true], None, Shut)
    | Open, _ => ([Record_received data], None, Open)
    | Shut, _ => ([], Some 6, Shut)
    end;
  send_data c data := match c with Open => ([Emit data], None, Open) | _ => ([], Some 6, c) end;
  close_channel c := ([Emit [0]], Shut) }.
#[local] Instance toy_new : BotanNew toy := { tls_client_new _ := ([Emit [1]], Hello); tls_server_new := Hello }.

Definition toy_net : tcp_script := TcpScript [Ok [Chunk 4 [9]]; Ok [Chunk 4 [7; 8; 9; 5]; Chunk 4 [3; 2]]; Err 104] [] [Ok 1; Ok 1].

(** The client once it is made. *)
Definition toy_client : tls_state toy :=
  match client_impl_new "example.org" toy_net mem_init with
  | (Ret s, _) => s
  | (_, m) => TlsState toy m (TlsCallbacks [] (Seq 0 0 0 0) (Seq 0 0 0 0) false false false) Hello toy_net
  end.

Lemma toy_client_ready : ∃ li lo, tls_rel li lo toy_client (TlsView [] [1] false false).
Proof.
  destruct (client_impl_ready (C := toy) "example.org" toy_net mem_init (TlsView [] [1] false false)) as (s & m' & E & li & lo & Hr & _).
  - apply mem_init_wf.
  - by repeat constructor.
  - done.
  - exists li, lo. unfold toy_client. by rewrite E.
Qed.

Lemma toy_client_net : tls_net toy_client = toy_net.
Proof. vm_compute. reflexivity. Qed.

Ltac chunks_tac := repeat first [apply Forall_nil; exact I|apply Forall_cons; split|split]; unfold chunk_valid, countable; cbn; lia.

Lemma toy_net_valid : net_valid (tls_net toy_client).
Proof. rewrite toy_client_net. unfold net_valid, toy_net. cbn [incoming]. chunks_tac. Qed.


(** The same client once its handshake is complete, with the data to come. *)
Definition toy_open : tls_state toy :=
  toy_client <| tls_chan := Open |> <| tls_net ::= λ n, n <| incoming ::= tail |> |>.

Lemma toy_open_ready : ∃ li lo, tls_rel li lo toy_open (TlsView [] [1] false false).
Proof. destruct toy_client_ready as (li & lo & Hr). by exists li, lo. Qed.

Lemma toy_open_incoming : incoming (tls_net toy_open) = [Ok [Chunk 4 [7; 8; 9; 5]; Chunk 4 [3; 2]]; Err 104].
Proof. vm_compute. reflexivity. Qed.

(** Two records in one receive come out as one piece. *)
Lemma tls_recv_refines_witness : ∃ q l s', async_recv_impl toy_open = (Ret (Ok q), s') ∧ all_bytes (tls_heap s') l = [7; 8; 9; 5; 3; 2] ∧
  received_record_ (tls_cb s') = false.
Proof.
  destruct toy_open_ready as (li & lo & Hr).
  destruct (tls_recv_refines li lo toy_open _ (Recv_ok [7; 8; 9; 5; 3; 2]) Open (TlsView [] [1] false false) [Err 104] Hr)
    as (li' & lo' & s' & [_ (_ & _ & Hg & _)] & _ & _ & q & l & E & _ & _ & _ & Hb & _).
  - unfold net_valid. rewrite toy_open_incoming. chunks_tac.
  - vm_compute. reflexivity.
  - exists q, l, s'. exact (conj E (conj Hb Hg)).
Defined.

(** A send of four bytes of which the stream takes two. *)
(** A server that is not answered before the stream fails. *)
Definition toy_server : tls_state toy :=
  match server_impl_new (TcpScript [Ok [Chunk 4 [9]; Chunk 4 [1]]] [] [Ok 1]) mem_init with
  | (Ret s, _) => s
  | _ => toy_open
  end.

Lemma toy_server_ready : ∃ li lo, tls_rel li lo toy_server (TlsView [] [] false false).
Proof.
  destruct (server_impl_ready (C := toy) (TcpScript [Ok [Chunk 4 [9]; Chunk 4 [1]]] [] [Ok 1]) mem_init mem_init_wf) as (s & m' & E & li & lo & Hr & _).
  exists li, lo. unfold toy_server. by rewrite E.
Qed.

Lemma toy_server_incoming : incoming (tls_net toy_server) = [Ok [Chunk 4 [9]; Chunk 4 [1]]].
Proof. vm_compute. reflexivity. Qed.


(** A server that is sent close_notify, and has nothing to say. *)
Definition toy_close_net : tcp_script := TcpScript [Ok [Chunk 4 [0]]] [] [Ok 0].
Definition toy_closing : tls_state toy := toy_server <| tls_chan := Open |> <| tls_net := toy_close_net |>.

